(* ===== verification/_CoqProject ===== *)
-Q . S2P
Prelude.v
Device.v
SysInit.v
Ticks.v
Strm.v
ApmRegs.v
Apm.v
Parser.v
ParserProofs.v
ShortHash.v
ShortHashProofs.v
Streamer.v
StreamerProofs.v
Devtree.v
LlFifo.v
LlFifoProofs.v
Stream.v
StreamProofs.v
Aport.v
AportProofs.v
Cache.v
CacheProofs.v
HostCache.v
CacheAlt.v
Ioctl.v
LmCache.v
LmAlloc.v
MemTest.v
MemTestProofs.v
Monitor.v
MonitorProofs.v
MonitorStats.v
Fatfs.v
FatfsProofs.v
Clocks.v
ClocksProofs.v
Handshake.v
Channels.v
SimMemory.v
HashHw.v
Axis.v
AxiFlits.v
Switch.v
Pool.v
LsuHw.v
LsuHwProofs.v
LsuSystem.v
Alloc.v
Allocator.v
Accmem.v
Kvs.v
KvsProofs.v
Compress.v
CompressProofs.v
EthFifo.v
EthFifoProofs.v
EthBench.v
MonitorBare.v
MonitorBareProofs.v
Bytes.v
Dmac.v
DmacProofs.v
Dre.v
DreProofs.v
MemApp.v
MemAppProofs.v
