(* ===== verification/Prelude.v ===== *)
(** LiME, the Logic in Memory Emulator: verification of its code.

    LiME emulates accelerators next to memory on a Zynq MPSoC.  Its programs
    run on an ARM host, under Linux or bare metal, and drive FPGA cores:
    stream FIFOs that carry command packets to accelerators (a load-store
    unit among them), a performance monitor that counts and traces bus
    events, and DMA-able memory given out by a kernel driver.  The trace is
    written to a file that a host program turns into text.  The accelerators
    exist as SystemC and HLS models of the hardware.  This library models
    that code file by file and proves what it is meant to do.

    * Files, in dependency order, and the code they model (under src/)

    Foundations
    - [Prelude]: 8- to 64-bit words as integers, bit fields, bit tactics.
    - [Device]: the state monad of stateful code, the bus of 32-bit
      registers, the interface [RegFile] of storage registers and the
      [does]/[leaves] rules used for register drivers.
    - [SysInit]: shared/sysinit.h and monitor.h, how a program gets its
      arguments and is wrapped by the monitor.
    - [Ticks]: shared/ticks.h and clocks.h, tick counts and emulated seconds.

    Performance monitor and trace
    - [ApmRegs], [Apm]: shared/linux/xapm.c and xapm.h, the performance
      monitor; registers, then one definition per function.
    - [Parser], [ParserProofs]: trace/parser.c and def_config, the trace to
      text program; [main] included.
    - [Monitor], [MonitorProofs], [MonitorStats]: shared/linux/monitor.c,
      the program that measures and captures; the capture is composed with
      the parser.
    - [MonitorBare], [MonitorBareProofs]: shared/standalone/monitor.c, the
      same without an operating system.
    - [Compress], [CompressProofs]: ip/hls/compress, the trace compressor.
    - [EthFifo], [EthFifoProofs], [EthBench]: ip/hls/eth_fifo_interface, the
      trace as Ethernet frames, and its test bench.

    Host software for the accelerators
    - [ShortHash], [ShortHashProofs]: ip/.../short.c, the hash in its software
      form ([Soft]) and its pipelined form ([Pipelined]), with the test
      program.
    - [Streamer], [StreamerProofs]: shared/linux/xllfifo/xstreamer.c, byte
      streams over word FIFOs, against the interfaces [RxFifo] and [TxFifo].
    - [Devtree]: shared/linux/devtree.c, mapping device files and searching
      the device tree.
    - [LlFifo], [LlFifoProofs]: shared/linux/xllfifo/xllfifo.c, the register
      level FIFO driver; it discharges [RxFifo] and [TxFifo] for any core that
      meets [LlCore].
    - [Stream], [StreamProofs]: shared/linux/stream.c and
      shared/standalone/stream.c, packets over the FIFO driver.
    - [Aport], [AportProofs]: shared/aport.c and lsu_cmd.c, command packets of
      accelerator ports and of the load-store unit, over [Stream].

    Kernel drivers, memory, files and clocks
    - [Cache], [CacheProofs]: linux/drivers/arm64/xil_cache.c, cache
      maintenance on the processor.
    - [HostCache]: shared/cache.h, what programs call around an accelerator,
      with the contents of the two levels of cache and the memory.
    - [CacheAlt]: the range operations of the XIL_ALT build of xil_cache.c,
      on the same contents.
    - [Ioctl]: what the two kernel drivers share: command codes ([Ioc]),
      structures copied from the caller, module load and unload.
    - [LmCache]: linux/drivers/lmcache_ops.c and lmcache.h, the cache driver
      over [Cache], and shared/linux/xil_cache.c, the library of user programs
      ([User]).
    - [LmAlloc]: linux/drivers/lmalloc.c and lmalloc.h, the allocation driver;
      the kernel is the interface [Kernel].
    - [Alloc]: shared/standalone/sbrk.c, heap.c and accmem.c, shared/alloc.h.
    - [Allocator]: shared/allocator.h, C++ allocation over dlmalloc ([Dl]).
    - [Accmem]: shared/linux/accmem.c over [LmAlloc], and a copy between two
      such buffers down to the load-store unit.  The host side is the Linux
      build and the unit its SystemC model, which no single build holds
      together.
    - [Fatfs], [FatfsProofs]: shared/standalone/fatfs.c, files over FatFs.
    - [Clocks], [ClocksProofs]: shared/standalone/clocks.c and
      shared/linux/clocks.c, over registers that ignore writes until a key
      is written ([GatedRegs]).

    Hardware models
    - [Handshake]: ip/sysc/sfifo_cc.h and sreg.h, clocked stages with ready
      and valid; the interface [Stage] with its laws [StageOk].  No unit uses
      the register slices of sreg.h.
    - [Channels]: ip/sysc/sc_stream.h, sc_rvd.h, fifo_cc.h, rvfifo_cc.h and
      pulse.h: blocking calls around any stage, in the simulated and in the
      synthesised build.
    - [SimMemory]: ip/sysc/kvs.cpp and cpu.h, the memory controller of the
      simulation and the start of the program on its processor.
    - [HashHw]: ip/sysc/shash.h and the logic of hsu.h, a [Stage].
    - [Axis]: ip/sysc/port_axis.h, port_dma.h, ctlreg.h and
      shared/sysc/stream.cpp: packets, register files, routing.
    - [Switch]: ip/sysc/cswitch.h, the control switch as threads, and the
      connections of ip/sysc/kvs.h.
    - [AxiFlits]: ip/sysc/port_axi.h, the flits of a memory port as words;
      the interface [Flit].
    - [Pool]: the transaction pool of ip/sysc/lsu.h.
    - [LsuHw], [LsuHwProofs]: ip/sysc/lsu.h, the load-store unit's threads.
    - [LsuSystem]: the commands of [Aport] on that unit, end to end.
    - [Kvs], [KvsProofs]: ip/sysc/kvs.h, spsel.h, hsu.h and indel.h, the
      key-value lookup accelerator.

    DMA commands and test programs
    - [Bytes]: memories of bytes as functions, counted loops.
    - [Dmac], [DmacProofs]: shared/standalone/dmac_cmd.c, DMA programs.
    - [Dre], [DreProofs]: test/dre/src/dre.c, the data reordering test.
    - [MemTest], [MemTestProofs]: test/mem/src/xil_testmem.c, the memory
      tests, over memory with arbitrary decoding and data faults ([Faults]).
    - [MemApp], [MemAppProofs]: test/mem/src/memorytest.c, the application.
    - [Strm]: test/strm/src/strm.c, the STREAM benchmark, on IEEE doubles.

    * State and operations

    A C function that touches a device is a term of [io D]: it maps a device
    state of any type [D] to a result and a new state, every volatile access
    being one [bus_read] or [bus_write].  Structures the C code passes by
    address are records passed and returned.  Error codes are the results
    the code returns; an access outside an array, an invalid dereference or a
    loop that did not finish is [None].

    Hardware is modelled at two levels.  Registers with combinational
    outputs ([Handshake], [Channels], [HashHw], [EthFifo]) have one
    definition for a rising edge, and an execution is a list of cycles.  The
    threads of the accelerators and the stages of the compressor are
    machines with one step per access to a stream, queues have the depths of
    the source, and theorems take the steps in any order; simulated time is
    left out there, and counts in the memory controller ([SimMemory]), whose
    executions are requests and timed callbacks.  Third-party code (FatFs, the kernel, the board support
    package, dlmalloc, the synthesis library) is a class of operations with a
    class of the laws its documentation states, and a concrete instance shows
    that the laws can be met.

    * What the theorems show

    - Refinement through layers: a user's cache call has the effect of the
      kernel's operation on the processor (LmCache); a packet handed to
      [stream_send] arrives at the core as its bytes (Stream over LlFifo), and
      the load-store commands arrive as the fields asked for (Aport); a copy
      between two driver buffers goes from the program's addresses through
      packets, switches, registers and engines to the bytes (Accmem); every
      lookup of the accelerator gives the value a table search with the
      software hash gives (Kvs).
    - Coherence: around the cache macros of a program, whatever processor and
      accelerator do meanwhile, either finds what the other wrote (HostCache).
    - Bounds: arguments are cut into words inside the buffers allocated for
      them (SysInit); differences of tick counts are exact across wrap-arounds
      (Ticks); the responses of the simulated memory are spaced by the
      bandwidth of the bus, and its counters are the requests that wait
      (SimMemory).
    - Results: STREAM validates for every size, number of repetitions and
      order of the iterations, given a timer that moves in a build that
      calibrates it (on one that stands still it never ends), and up to 13
      repetitions without rounding.
    - Equivalence: the pipelined and the software hash agree on every input
      and terminate, and so does the hardware pipeline; the strided copies of
      the processor, of a DMA program and, for blocks of whole flits, of the
      load-store unit leave the same memory, while with other blocks the
      load-store unit never answers (Dre, Dmac); the two builds of the stream channels cannot
      be told apart (Channels); each memory test passes exactly when its class
      of faults is absent.
    - Round trips: records encoded into trace bits come back as their text,
      also from what the monitor captured; the channels of a monitor record
      are read back from its compressed packets;
      register fields set are the fields read; frames sent or received through
      unaligned buffers of any sizes come out whole; emulated clocks are
      undone, from locked clock registers too.
    - Order and liveness: FIFOs, register slices and chains of them give out
      what they took, in order and in a bounded number of cycles, and so does
      the split unit of the lookup accelerator with its queue of keys; so do
      threads that read and write them; the control switch loses and
      misroutes nothing in any execution, but does not keep packets of
      several senders apart; every hash becomes one load command.
    - Invariants over all reachable states: the allocation driver's live DMA
      buffers are the records on its open files' lists, and nothing is left
      when all are closed; descriptors name open files; blocks of the heap
      are apart, as long as the requests do not wrap the break; objects of the C++
      allocator and payloads of the transaction pool are apart and none is
      lost.
    - Types: every packet the compressor emits has fields within its widths.
    - Sets of effects: flushing the cache names every line of both levels
      once with interrupts masked; a range operation cleans the lines of the
      range and no other.
    - Totality: the parser returns for every file; searches, releases and
      range loops finish with the fuel their entry points compute.
    - Errors: the answers on bad commands, missing kernel resources, oversized
      packets, full cards and stopped controllers, and the places where the
      code does not do what it says.

    * Fuel

    [parse_trace] starts with one unit per byte of the file, and each record
    takes at least one byte; the hash loops start with one per key byte;
    [XStrm_Read] and [XStrm_Write] with two per byte, as every second
    iteration moves one; cache ranges with one per 64-byte line.  A trace
    capture reads a block with one unit per entry of a block and one more, the
    memory with one per block and one more, the heap with one per entry that
    has room and one more; the size of an entry is found in at most 29
    doublings.  A load-store transaction starts with its size in bytes, a
    strided command with its repetitions.  Theorems show each to be enough.
    Polling loops (waiting for room, for a packet, for a controller to stop,
    for a timer to move) take the number of polls as an argument, because how long hardware takes
    is not the program's to say; their theorems assume at least one poll and a
    core that is ready, or a controller that stops after some number of reads.

    Memories are functions from addresses in [Bytes], [Dmac] and [Dre]; equal
    memories are equal by functional extensionality.

    * Not modelled

    Printing of progress, debug text and times, error messages of the file
    layer, and the register dump of the DMA controller; the builds of the
    monitor for the UIO and PAPI libraries; the external memory simulator
    (HMCSIM), the tracing of simulator ports and the constructors that bind
    them inside a unit; the stream interconnect build of the data
    reordering test; the single-precision build of STREAM; the vendored allocator
    dlmalloc, an interface here; VHDL and block designs; assembly, board files and makefiles; the status
    codes and accessors of vendor headers beyond those the programs use. *)
From stdpp Require Export base tactics numbers list gmap strings.
From Stdlib Require Import Btauto.
Open Scope Z_scope.

(** Linear arithmetic with quotients and remainders. *)
Ltac div_lia := Z.to_euclidean_division_equations; lia.

(** * Machine words *)

(** A [w]-bit unsigned integer is a [Z] in [0, 2^w); [wrap w] is the
    conversion the C compiler inserts on assignment to such a type. *)
Definition wrap (w x : Z) : Z := x mod 2 ^ w.
Abbreviation u8 := (wrap 8).
Abbreviation u16 := (wrap 16).
Abbreviation u32 := (wrap 32).
Abbreviation u64 := (wrap 64).

(** C's [~] on a [w]-bit unsigned operand. *)
Definition not_w (w x : Z) : Z := wrap w (Z.lnot x).
Abbreviation not32 := (not_w 32).
Abbreviation not64 := (not_w 64).

Definition in_word (w x : Z) : Prop := 0 <= x < 2 ^ w.

(** C's truth value of an integer expression, e.g. [if (flags & MASK)]. *)
Definition truthy (x : Z) : bool := negb (x =? 0).

(** Bit slice [pos, pos+len) of [x]: [(x >> pos) & ones(len)]. *)
Definition get_field (pos len x : Z) : Z := Z.land (Z.shiftr x pos) (Z.ones len).
Definition clear_field (pos len x : Z) : Z := Z.ldiff x (Z.shiftl (Z.ones len) pos).
Definition put_field (pos len v x : Z) : Z := Z.lor (clear_field pos len x) (Z.shiftl v pos).

(** The number little-endian bytes form. *)
Definition le_val (l : list Z) : Z := foldr (fun b acc => b + 256 * acc) 0 l.

(** * Bit-level reasoning *)

Lemma testbit_wrap w x i : 0 <= w -> Z.testbit (wrap w x) i = (i <? w) && Z.testbit x i.
Proof.
  intros Hw. unfold wrap. rewrite <- Z.land_ones by done.
  rewrite Z.land_spec, Z.testbit_ones by done.
  destruct (Z.leb_spec 0 i); [apply andb_comm|].
  rewrite (Z.testbit_neg_r x) by lia. by destruct (i <? w).
Qed.

Lemma testbit_lnot x i : Z.testbit (Z.lnot x) i = (0 <=? i) && negb (Z.testbit x i).
Proof.
  destruct (Z.leb_spec 0 i); [by rewrite Z.lnot_spec|by rewrite Z.testbit_neg_r].
Qed.

Lemma testbit_not_w w x i :
  0 <= w -> Z.testbit (not_w w x) i = (i <? w) && ((0 <=? i) && negb (Z.testbit x i)).
Proof. intros. unfold not_w. by rewrite testbit_wrap, testbit_lnot. Qed.

Lemma testbit_shiftr x k i : Z.testbit (Z.shiftr x k) i = (0 <=? i) && Z.testbit x (i + k).
Proof.
  destruct (Z.leb_spec 0 i); [by rewrite Z.shiftr_spec|by rewrite Z.testbit_neg_r].
Qed.

Lemma testbit_shiftl k x i : 0 <= k -> Z.testbit (Z.shiftl x k) i = (k <=? i) && Z.testbit x (i - k).
Proof.
  intros. destruct (Z.leb_spec k i) as [|?]; [by rewrite Z.shiftl_spec by lia|].
  destruct (Z.leb_spec 0 i); [rewrite Z.shiftl_spec by lia|]; by rewrite Z.testbit_neg_r by lia.
Qed.

Lemma testbit_ones w i : 0 <= w -> Z.testbit (Z.ones w) i = (0 <=? i) && (i <? w).
Proof. intros. by rewrite Z.testbit_ones by lia. Qed.

Lemma testbit_high w x i : in_word w x -> 0 <= w -> w <= i -> Z.testbit x i = false.
Proof.
  intros [Hx Hx2] ??. rewrite <- (Z.mod_small x (2 ^ w)) by done.
  by apply Z.mod_pow2_bits_high.
Qed.

Create Rewrite HintDb bits.
#[export] Hint Rewrite Z.land_spec Z.lor_spec Z.lxor_spec Z.ldiff_spec Z.testbit_0_l Z.bits_m1 : bits.
#[export] Hint Rewrite testbit_lnot testbit_shiftr : bits.
#[export] Hint Rewrite testbit_wrap testbit_not_w testbit_shiftl testbit_ones
  using lia : bits.

(** Split on the integer comparisons the bit rules leave, then discharge
    each case by arithmetic on the index or by propositional reasoning. *)
Ltac bit_cases :=
  repeat match goal with
  | |- context [?a <? ?b] => destruct (Z.ltb_spec a b)
  | |- context [?a <=? ?b] => destruct (Z.leb_spec a b)
  end.

Ltac kill_high_bits :=
  repeat match goal with
  | H : in_word ?w ?x |- context [Z.testbit ?x ?i] =>
      rewrite (testbit_high w x i H) by lia
  end.

(** Make provably equal bit indices syntactically equal. *)
Ltac unify_bit_indices :=
  repeat match goal with
  | |- context [Z.testbit ?x ?i] =>
      match goal with
      | |- context [Z.testbit x ?j] =>
          tryif constr_eq i j then fail
          else (replace (Z.testbit x j) with (Z.testbit x i) by (f_equal; lia))
      end
  end.

Ltac bits_finish :=
  try (exfalso; lia); kill_high_bits; rewrite ?Z.testbit_neg_r by lia;
  unify_bit_indices; simpl; try done; try btauto.

Ltac Zbits :=
  apply Z.bits_inj'; intros ?i ?Hi; autorewrite with bits; bit_cases; bits_finish.

(** * Words: ranges and conversions *)

Lemma wrap_range w x : 0 <= w -> in_word w (wrap w x).
Proof. intros. apply Z.mod_pos_bound. lia. Qed.

Lemma wrap_id w x : in_word w x -> wrap w x = x.
Proof. intros H. by apply Z.mod_small. Qed.

Lemma wrap_wrap w x : 0 <= w -> wrap w (wrap w x) = wrap w x.
Proof. intros. by apply wrap_id, wrap_range. Qed.

Lemma wrap_le v w x : 0 <= v <= w -> wrap v (wrap w x) = wrap v x.
Proof. intros. Zbits. Qed.

(** [in_word] stated on bits: nothing at or above position [w]. *)
Lemma in_word_bits w x : 0 <= w -> in_word w x <-> forall i, w <= i -> Z.testbit x i = false.
Proof.
  intros Hw. split; [intros; by eapply testbit_high|].
  intros Hb. replace x with (wrap w x); [by apply wrap_range|].
  Zbits. symmetry. by apply Hb.
Qed.

Ltac in_word_bits_tac :=
  rewrite in_word_bits by lia; intros ?i ?Hi; autorewrite with bits; bit_cases; bits_finish.

Lemma in_word_lor w x y : 0 <= w -> in_word w x -> in_word w y -> in_word w (Z.lor x y).
Proof. intros ???. in_word_bits_tac. Qed.

Lemma in_word_land w x y : 0 <= w -> in_word w x -> in_word w (Z.land x y).
Proof. intros ??. in_word_bits_tac. Qed.

Lemma in_word_lxor w x y : 0 <= w -> in_word w x -> in_word w y -> in_word w (Z.lxor x y).
Proof. intros ???. in_word_bits_tac. Qed.

Lemma in_word_ldiff w x y : 0 <= w -> in_word w x -> in_word w (Z.ldiff x y).
Proof. intros ??. in_word_bits_tac. Qed.

Lemma in_word_shiftl w k x : 0 <= k -> 0 <= w -> in_word w x -> in_word (w + k) (Z.shiftl x k).
Proof. intros ???. in_word_bits_tac. Qed.

Lemma in_word_weaken v w x : 0 <= v <= w -> in_word v x -> in_word w x.
Proof. intros [? ?] [? ?]. split; [lia|]. pose proof (Z.pow_le_mono_r 2 v w). lia. Qed.

Lemma in_word_not_w w x : 0 <= w -> in_word w (not_w w x).
Proof. intros. by apply wrap_range. Qed.

Create HintDb words.
#[export] Hint Resolve wrap_range in_word_lor in_word_land in_word_lxor in_word_ldiff in_word_not_w : words.
#[export] Hint Extern 1 (0 <= _) => lia : words.

(** * Bit fields *)

Lemma get_field_range pos len x : 0 <= len -> in_word len (get_field pos len x).
Proof. intros. unfold get_field. rewrite Z.land_ones by done. by apply Z.mod_pos_bound, Z.pow_pos_nonneg. Qed.

Lemma get_put_field pos len v x :
  0 <= pos -> 0 <= len -> in_word len v -> get_field pos len (put_field pos len v x) = v.
Proof.
  intros ?? Hv. unfold get_field, put_field, clear_field. Zbits.
Qed.

(** Writing a field does not disturb a disjoint one. *)
Lemma get_put_field_other pos len pos' len' v x :
  0 <= pos -> 0 <= len -> 0 <= pos' -> 0 <= len' -> in_word len v ->
  pos + len <= pos' \/ pos' + len' <= pos ->
  get_field pos' len' (put_field pos len v x) = get_field pos' len' x.
Proof.
  intros ???? Hv Hd. unfold get_field, put_field, clear_field. Zbits.
Qed.

Lemma put_field_put pos len v w x :
  0 <= pos -> 0 <= len -> in_word len v -> put_field pos len w (put_field pos len v x) = put_field pos len w x.
Proof. intros ?? Hv. unfold put_field, clear_field. Zbits. Qed.

Lemma put_field_range w pos len v x :
  0 <= pos -> 0 <= len -> pos + len <= w -> in_word len v -> in_word w x -> in_word w (put_field pos len v x).
Proof. intros ??? Hv Hx. unfold put_field, clear_field. in_word_bits_tac. Qed.

(** * Bytes of words *)

(** Little-endian bytes of an [n]-byte word. *)
Fixpoint le_bytes (n : nat) (x : Z) : list Z :=
  match n with O => [] | S n' => u8 x :: le_bytes n' (Z.shiftr x 8) end.

Lemma length_le_bytes n x : length (le_bytes n x) = n.
Proof. revert x. induction n; intros; simpl; by rewrite ?IHn. Qed.

Lemma le_val_le_bytes n x : le_val (le_bytes n x) = wrap (8 * Z.of_nat n) x.
Proof.
  revert x. induction n as [|n IH]; intros x; [symmetry; apply Z.mod_1_r|].
  change (le_val (le_bytes (S n) x)) with (u8 x + 256 * le_val (le_bytes n (Z.shiftr x 8))).
  rewrite IH, Z.shiftr_div_pow2 by lia. unfold wrap.
  replace (8 * Z.of_nat (S n)) with (8 + 8 * Z.of_nat n) by lia. rewrite Z.pow_add_r by lia.
  rewrite Z.rem_mul_r by lia. done.
Qed.

Lemma le_val_app l1 l2 : le_val (l1 ++ l2) = le_val l1 + 2 ^ (8 * Z.of_nat (length l1)) * le_val l2.
Proof.
  induction l1 as [|b l1 IH]; [simpl; lia|].
  change (le_val ((b :: l1) ++ l2)) with (b + 256 * le_val (l1 ++ l2)). change (le_val (b :: l1)) with (b + 256 * le_val l1).
  rewrite IH. replace (8 * Z.of_nat (length (b :: l1))) with (8 + 8 * Z.of_nat (length l1)) by (simpl length; lia).
  rewrite Z.pow_add_r by lia. change (2 ^ 8) with 256. ring.
Qed.

Lemma le_val_range l : Forall (in_word 8) l -> in_word (8 * Z.of_nat (length l)) (le_val l).
Proof.
  induction 1 as [|b l Hb _ IH]; [by vm_compute|].
  change (le_val (b :: l)) with (b + 256 * le_val l). unfold in_word in *.
  replace (8 * Z.of_nat (length (b :: l))) with (8 + 8 * Z.of_nat (length l)) by (simpl length; lia).
  rewrite Z.pow_add_r by lia. change (2 ^ 8) with 256 in *. nia.
Qed.

Lemma le_val_zeros n : le_val (repeat 0 n) = 0.
Proof. induction n as [|n IH]; [done|]. simpl. by rewrite IH. Qed.

Lemma le_bytes_range n x : Forall (in_word 8) (le_bytes n x).
Proof. revert x. induction n as [|n IH]; intros x; simpl; constructor; [by apply wrap_range|apply IH]. Qed.

Lemma le_bytes_le_val l : Forall (in_word 8) l -> le_bytes (length l) (le_val l) = l.
Proof.
  induction 1 as [|b l Hb _ IH]; [done|].
  change (le_val (b :: l)) with (b + 256 * le_val l). cbn [length le_bytes]. unfold in_word in Hb. f_equal.
  - unfold wrap. change (2 ^ 8) with 256 in *. rewrite Z.mul_comm, Z_mod_plus_full. by apply Z.mod_small.
  - rewrite Z.shiftr_div_pow2 by lia. change (2 ^ 8) with 256 in *. rewrite Z.mul_comm, Z.div_add, Z.div_small by lia. done.
Qed.

Lemma get_field_div pos len x : 0 <= pos -> 0 <= len -> get_field pos len x = (x / 2 ^ pos) mod 2 ^ len.
Proof. intros. unfold get_field. by rewrite Z.land_ones, Z.shiftr_div_pow2. Qed.

(** Words packed side by side. *)
Lemma field_low pos len x y : 0 <= pos -> 0 <= len -> in_word pos x -> get_field pos len (x + 2 ^ pos * y) = y mod 2 ^ len.
Proof.
  intros ?? Hx. rewrite get_field_div by done. rewrite (Z.mul_comm _ y), Z.div_add, Z.div_small; [done|done|].
  pose proof (Z.pow_pos_nonneg 2 pos). lia.
Qed.

Lemma field_below pos len w x y :
  0 <= pos -> 0 <= len -> pos + len <= w -> get_field pos len (x + 2 ^ w * y) = get_field pos len x.
Proof.
  intros ???. rewrite !get_field_div by done.
  replace (2 ^ w) with (2 ^ pos * (2 ^ len * 2 ^ (w - pos - len))) by (rewrite <- !Z.pow_add_r by lia; f_equal; lia).
  pose proof (Z.pow_pos_nonneg 2 pos). 
  replace (x + 2 ^ pos * (2 ^ len * 2 ^ (w - pos - len)) * y) with (x + (2 ^ (w - pos - len) * y * 2 ^ len) * 2 ^ pos) by ring.
  rewrite Z.div_add by lia. by rewrite Z_mod_plus_full.
Qed.

Lemma pack_range v w x y : 0 <= v -> 0 <= w -> in_word v x -> in_word w y -> in_word (v + w) (x + 2 ^ v * y).
Proof. unfold in_word. intros. rewrite Z.pow_add_r by done. nia. Qed.
