(* ===== verification/Device.v ===== *)
(** Memory-mapped device registers.

    The drivers of this repository talk to hardware through volatile reads
    and writes of 32-bit registers.  This file holds the state monad their
    models are written in, the [Device] interface the programs are
    parameterised by, the [RegFile] interface that states which registers
    behave as storage, the Hoare-style rules derived from it, and two
    implementations: a plain register RAM and a device that logs its bus
    traffic. *)
From S2P Require Import Prelude.

(** * State monad *)

Definition io (S A : Type) : Type := S -> A * S.

#[export] Instance io_ret S : MRet (io S) := fun A x s => (x, s).
#[export] Instance io_bind S : MBind (io S) := fun A B f m s => let '(x, s') := m s in f x s'.

Definition get {S} : io S S := fun s => (s, s).
Definition gets {S A} (f : S -> A) : io S A := fun s => (f s, s).
Definition put {S} (s : S) : io S unit := fun _ => (tt, s).
Definition modify {S} (f : S -> S) : io S unit := fun s => (tt, f s).
Definition run {S A} (m : io S A) (s : S) : A := fst (m s).
Definition exec {S A} (m : io S A) (s : S) : S := snd (m s).

(** Running a sequence whose first part is known. *)
Lemma bind_run {S A B} (m : io S A) (f : A -> io S B) s a s' : m s = (a, s') -> (m ≫= f) s = f a s'.
Proof. intros H. unfold mbind, io_bind. by rewrite H. Qed.

(** [for (i = 0; i < n; i++) body(i)] with a body that cannot leave the loop. *)
Fixpoint for_from {S} (i : Z) (n : nat) (body : Z -> io S unit) : io S unit :=
  match n with
  | O => mret tt
  | Datatypes.S n' => _ ← body i; for_from (i + 1) n' body
  end.
Definition for_range {S} (n : Z) (body : Z -> io S unit) : io S unit := for_from 0 (Z.to_nat n) body.

(** * Devices *)

(** A device answers a 32-bit read and absorbs a 32-bit write; both may
    change its internal state (reading a FIFO pops it). *)
Class Device (D : Type) := {
  dev_rd : Z -> D -> Z * D;
  dev_wr : Z -> Z -> D -> D
}.

Section Access.
Context {D : Type} `{Device D}.
Definition bus_read (a : Z) : io D Z := dev_rd a.
Definition bus_write (a v : Z) : io D unit := fun d => (tt, dev_wr a (u32 v) d).
End Access.

(** ** Storage registers

    [RegFile D cfg]: the registers whose address satisfies [cfg] hold what
    was last written to them, and no access to another register changes
    them.  This is what the register maps of the Xilinx cores promise for
    their configuration registers. *)
Class RegFile (D : Type) `{Device D} (cfg : Z -> Prop) := {
  peek : D -> Z -> Z;
  peek_word : forall d r, in_word 32 (peek d r);
  rd_peek : forall d r, cfg r -> fst (dev_rd r d) = peek d r;
  rd_keeps : forall d r r', cfg r' -> peek (snd (dev_rd r d)) r' = peek d r';
  wr_same : forall d r v, cfg r -> in_word 32 v -> peek (dev_wr r v d) r = v;
  wr_other : forall d r r' v, cfg r' -> r <> r' -> peek (dev_wr r v d) r' = peek d r'
}.

(** An abstract register file: what a specification says a driver leaves in
    the storage registers. *)
Abbreviation regs := (Z -> Z).

Definition upd (r v : Z) (σ : regs) : regs := fun r' => if r =? r' then v else σ r'.

Lemma upd_eq r v σ : upd r v σ r = v.
Proof. unfold upd. by rewrite Z.eqb_refl. Qed.

Lemma upd_ne r r' v σ : r <> r' -> upd r v σ r' = σ r'.
Proof. intros. unfold upd. by destruct (Z.eqb_spec r r'). Qed.

(** Every register of an abstract register file is a 32-bit word. *)
Definition wf_regs (σ : regs) : Prop := forall r, in_word 32 (σ r).

Lemma wf_upd r v σ : wf_regs σ -> wf_regs (upd r (u32 v) σ).
Proof. intros Hσ r'. unfold upd. destruct (r =? r'); [by apply wrap_range|done]. Qed.

Section Triples.
Context {D : Type} `{HD : Device D} {cfg : Z -> Prop} `{RF : !RegFile D cfg}.

Definition holds (σ : regs) (d : D) : Prop := forall r, cfg r -> peek d r = σ r.

(** [does m σ x σ']: on every device whose storage registers hold [σ],
    the program [m] returns [x] and leaves [σ'] in them. *)
Definition does {A} (m : io D A) (σ : regs) (x : A) (σ' : regs) : Prop :=
  forall d, holds σ d -> exists d', m d = (x, d') /\ holds σ' d'.

Lemma does_ret {A} (x : A) σ : does (mret x) σ x σ.
Proof. intros d Hd. by exists d. Qed.

Lemma does_bind {A B} (m : io D A) (f : A -> io D B) σ x σ' y σ'' :
  does m σ x σ' -> does (f x) σ' y σ'' -> does (m ≫= f) σ y σ''.
Proof.
  intros Hm Hf d Hd. destruct (Hm d Hd) as (d' & Hm' & Hd').
  destruct (Hf d' Hd') as (d'' & Hf' & Hd''). exists d''. split; [|done].
  unfold mbind, io_bind. by rewrite Hm'.
Qed.

Lemma does_read r σ : cfg r -> does (bus_read r) σ (σ r) σ.
Proof.
  intros Hr d Hd. unfold bus_read. exists (snd (dev_rd r d)).
  split; [|intros r' Hr'; rewrite rd_keeps by done; by apply Hd].
  rewrite (surjective_pairing (dev_rd r d)), (rd_peek d r Hr), (Hd r Hr). done.
Qed.

(** Reading any register leaves the storage registers alone. *)
Lemma does_read_any r σ d : holds σ d -> holds σ (snd (bus_read r d)).
Proof. intros Hd r' Hr'. unfold bus_read. rewrite rd_keeps by done. by apply Hd. Qed.

Lemma does_write r v σ : does (bus_write r v) σ tt (upd r (u32 v) σ).
Proof.
  intros d Hd. unfold bus_write. eexists. split; [done|]. intros r' Hr'.
  unfold upd. destruct (Z.eqb_spec r r') as [->|Hne].
  - apply wr_same; [done|by apply wrap_range].
  - rewrite wr_other by done. by apply Hd.
Qed.

Lemma does_conseq {A} (m : io D A) σ x y σ' σ'' :
  does m σ x σ' -> x = y -> (forall r, cfg r -> σ' r = σ'' r) -> does m σ y σ''.
Proof.
  intros Hm <- Hσ d Hd. destruct (Hm d Hd) as (d' & ? & Hd').
  exists d'. split; [done|]. intros r Hr. rewrite Hd' by done. by apply Hσ.
Qed.

(** When the value a program returns depends on more than the storage
    registers, only its effect on them is specified. *)
Definition leaves {A} (m : io D A) (σ σ' : regs) : Prop :=
  forall d, holds σ d -> holds σ' (snd (m d)).

Lemma does_leaves {A} (m : io D A) σ x σ' : does m σ x σ' -> leaves m σ σ'.
Proof. intros Hm d Hd. by destruct (Hm d Hd) as (d' & -> & ?). Qed.

Lemma leaves_bind {A B} (m : io D A) (f : A -> io D B) σ σ' σ'' :
  leaves m σ σ' -> (forall x, leaves (f x) σ' σ'') -> leaves (m ≫= f) σ σ''.
Proof.
  intros Hm Hf d Hd. unfold mbind, io_bind. specialize (Hm d Hd).
  destruct (m d) as [x d']. by apply Hf.
Qed.

Lemma leaves_read r σ : leaves (bus_read r) σ σ.
Proof. intros d. apply does_read_any. Qed.

Lemma leaves_ret {A} (x : A) σ : leaves (mret x) σ σ.
Proof. by intros d Hd. Qed.

Lemma leaves_write r v σ : leaves (bus_write r v) σ (upd r (u32 v) σ).
Proof. apply does_leaves with tt, does_write. Qed.

Lemma leaves_conseq {A} (m : io D A) σ σ' σ'' :
  leaves m σ σ' -> (forall r, cfg r -> σ' r = σ'' r) -> leaves m σ σ''.
Proof. intros Hm Hσ d Hd r Hr. rewrite <- Hσ by done. by apply Hm. Qed.

Lemma does_run {A} (m : io D A) σ x σ' d : does m σ x σ' -> holds σ d -> run m d = x.
Proof. intros Hm Hd. unfold run. by destruct (Hm d Hd) as (d' & -> & ?). Qed.

Lemma leaves_exec {A} (m : io D A) σ σ' d : leaves m σ σ' -> holds σ d -> holds σ' (exec m d).
Proof. intros Hm Hd. by apply Hm. Qed.

(** [holds] always has a witness: the contents the device has now. *)
Lemma holds_peek d : holds (peek d) d.
Proof. by intros r _. Qed.

Lemma wf_peek d : wf_regs (peek d).
Proof. intros r. apply peek_word. Qed.
End Triples.

(** Discharge [does]/[leaves] goals of straight-line register programs. *)
Create HintDb regs.
#[export] Hint Resolve does_ret does_read does_write leaves_ret leaves_read leaves_write : regs.
#[export] Hint Resolve wf_upd wf_peek : regs.

Ltac does_steps :=
  repeat first
    [ eapply does_bind; [solve [eauto with regs]|] | solve [eauto with regs]
    | eapply leaves_bind; [solve [eauto with regs]|intros ?] ].

(** * Implementations *)

(** Register RAM: every address is storage.  It discharges [RegFile]. *)
Definition ram : Type := Z -> Z.
#[export] Instance ram_device : Device ram := {
  dev_rd a d := (u32 (d a), d);
  dev_wr a v d := upd a v d
}.

Definition ram_fill (v : Z) : ram := fun _ => v.

#[export] Program Instance ram_regfile cfg : RegFile ram cfg := { peek d r := u32 (d r) }.
Next Obligation. intros. by apply wrap_range. Qed.
Next Obligation. done. Qed.
Next Obligation. done. Qed.
Next Obligation. intros cfg d r v _ Hv. simpl. rewrite upd_eq. by apply wrap_id. Qed.
Next Obligation. intros cfg d r r' v _ Hne. simpl. by rewrite upd_ne. Qed.

(** Bus events, and a device that records them (most recent last). *)
Inductive event := Rd (a v : Z) | Wr (a v : Z).

#[export] Instance event_eq_dec : EqDecision event.
Proof. solve_decision. Defined.

Definition logged (D : Type) : Type := D * list event.
#[export] Instance logged_device D `{Device D} : Device (logged D) := {
  dev_rd a d := let '(v, d') := dev_rd a (fst d) in (v, (d', snd d ++ [Rd a v]));
  dev_wr a v d := (dev_wr a v (fst d), snd d ++ [Wr a v])
}.

(** The writes of a log, in order. *)
Fixpoint writes (l : list event) : list (Z * Z) :=
  match l with
  | [] => []
  | Wr a v :: l' => (a, v) :: writes l'
  | Rd _ _ :: l' => writes l'
  end.

Lemma writes_app l1 l2 : writes (l1 ++ l2) = writes l1 ++ writes l2.
Proof. induction l1 as [|[] l1 IH]; simpl; by rewrite ?IH. Qed.
