(* ===== verification/SysInit.v ===== *)
(** Start-up of the programs without an operating system (shared/sysinit.h):
    the arguments compiled in with MARGS, cut into words as a command line
    would be, and the [main] that the macro MAIN wraps around a program, with
    the hooks of shared/monitor.h.

    Characters are bytes; [char_signed] is the compiler's choice for [char].
    A buffer is a list; [None] is an access outside of it. *)
From S2P Require Import Prelude Device.
Open Scope Z_scope.

(** * Words on a command line *)

Section Args.
Context (char_signed : bool).

(** The value of a [char]. *)
Definition char_val (c : Z) : Z := if char_signed && (128 <=? c) then c - 256 else c.
(* @src shared/sysinit.h 53-53 get_args *)
Definition blank (c : Z) : bool := char_val c <=? 32.

(** [while (ptr < end && *ptr <= ' ') *ptr++ = 0;], from [ptr] on. *)
(* @src shared/sysinit.h 53-53 get_args *)
Fixpoint zero_blanks (fuel : nat) (buf : list Z) (ptr end_ : nat) : option (list Z * nat) :=
  match fuel with
  | O => None
  | S fuel =>
      if (ptr <? end_)%nat then
        c ← buf !! ptr;
        if blank c then zero_blanks fuel (<[ptr := 0]> buf) (S ptr) end_ else Some (buf, ptr)
      else Some (buf, ptr)
  end.

(** [while (ptr < end && p( *ptr)) ptr++;] *)
Fixpoint skip_while (p : Z -> bool) (fuel : nat) (buf : list Z) (ptr end_ : nat) : option nat :=
  match fuel with
  | O => None
  | S fuel =>
      if (ptr <? end_)%nat then c ← buf !! ptr; if p c then skip_while p fuel buf (S ptr) end_ else Some ptr
      else Some ptr
  end.
(* @src shared/sysinit.h 62-62 get_args *)
Definition skip_blanks : nat -> list Z -> nat -> nat -> option nat := skip_while blank.
(* @src shared/sysinit.h 55-55 get_args *)
Definition skip_word : nat -> list Z -> nat -> nat -> option nat := skip_while (fun c => negb (blank c)).

(** The first pass ends the words and counts them. *)
(* @src shared/sysinit.h 52-56 get_args *)
Fixpoint count_words (fuel : nat) (buf : list Z) (ptr end_ n : nat) : option (list Z * nat) :=
  match fuel with
  | O => None
  | S fuel =>
      if (ptr <? end_)%nat then
        '(buf, ptr) ← zero_blanks (S (end_ - ptr)) buf ptr end_;
        c ← buf !! ptr;
        let n := if negb (blank c) then S n else n in
        ptr ← skip_word (S (end_ - ptr)) buf ptr end_;
        count_words fuel buf ptr end_ n
      else Some (buf, n)
  end.

(** A [char *] of the result: into [arg0], into the copy of MARGS, or NULL. *)
Inductive arg := Arg0 (off : nat) | Str (off : nat) | Null.

(** [args[i] = a] in the array that was allocated. *)
Definition store (args : list (option arg)) (i : nat) (a : arg) : option (list (option arg)) :=
  if (i <? length args)%nat then Some (<[i := Some a]> args) else None.

(** The second pass stores where the words begin. *)
(* @src shared/sysinit.h 61-65 get_args *)
Fixpoint store_words (fuel : nat) (buf : list Z) (ptr end_ i : nat) (args : list (option arg)) : option (nat * list (option arg)) :=
  match fuel with
  | O => None
  | S fuel =>
      if (ptr <? end_)%nat then
        ptr ← skip_blanks (S (end_ - ptr)) buf ptr end_;
        c ← buf !! ptr;
        '(i, args) ← (if negb (blank c) then args ← store args i (Str ptr); Some (S i, args) else Some (i, args));
        ptr ← skip_word (S (end_ - ptr)) buf ptr end_;
        store_words fuel buf ptr end_ i args
      else Some (i, args)
  end.

(** Offset just behind the last ['/'] of a string, or its start. *)
(* @src shared/sysinit.h 59-59 get_args *)
Definition base_offset (arg0 : list Z) : nat :=
  match list_find (fun c => c = 47) (reverse arg0) with
  | Some (k, _) => length arg0 - k
  | None => 0
  end.

(** What the caller gets: nothing changed when memory ran out, or [argc],
    the array and the buffer its strings are in. *)
Inductive parsed := Unchanged | Args (argc : nat) (argv : list (option arg)) (str : list Z).

(** [mem1], [mem2]: whether the two allocations succeed. *)
(* @src shared/sysinit.h 43-75 get_args *)
Definition get_args (MARGS arg0 : list Z) (mem1 mem2 : bool) : option parsed :=
  if negb mem1 then Some Unchanged else
  let str := MARGS ++ [0] in
  let end_ := length MARGS in
  '(str, n) ← count_words (S end_) str 0 end_ 0;
  if negb mem2 then Some Unchanged else
  let args := replicate (n + 2) None in
  args ← store args 0 (Arg0 (base_offset arg0));
  '(i, args) ← store_words (S end_) str 0 end_ 1 args;
  args ← store args i Null;
  Some (Args i args str).

(** * Reference *)

(** The words of a text: maximal runs of characters that are not blank. *)
Fixpoint words (l : list Z) : list (list Z) :=
  match l with
  | [] => []
  | c :: l' =>
      if blank c then words l'
      else match l' with
           | [] => [[c]]
           | d :: _ => if blank d then [c] :: words l'
                       else match words l' with w :: ws => (c :: w) :: ws | [] => [[c]] end
           end
  end.

(** The string at an offset: up to the terminating zero. *)
Fixpoint c_string (buf : list Z) : option (list Z) :=
  match buf with
  | [] => None
  | c :: buf => if c =? 0 then Some [] else s ← c_string buf; Some (c :: s)
  end.

Definition string_at (arg0 str : list Z) (a : option arg) : option (list Z) :=
  match a with
  | Some (Arg0 off) => c_string (drop off (arg0 ++ [0]))
  | Some (Str off) => c_string (drop off str)
  | _ => None
  end.

(** * Proofs *)

Lemma blank_0 : blank 0 = true.
Proof. unfold blank, char_val. by destruct char_signed. Qed.

Lemma word_ne0 c : blank c = false -> c <> 0.
Proof. intros H ->. by rewrite blank_0 in H. Qed.

Lemma words_blanks b r : Forall (fun c => blank c = true) b -> words (b ++ r) = words r.
Proof. induction 1 as [|c b Hc _ IH]; [done|]. simpl. by rewrite Hc. Qed.

(** A word, and what follows it begins with a blank or is nothing. *)
Definition ends (r : list Z) : Prop := match r with [] => True | c :: _ => blank c = true end.

Lemma words_word w r : w <> [] -> Forall (fun c => blank c = false) w -> ends r -> words (w ++ r) = w :: words r.
Proof.
  intros Hw Hf Hr. induction Hf as [|c w Hc Hf IH]; [done|]. clear Hw. cbn [app words]. rewrite Hc.
  destruct w as [|d w].
  - simpl. destruct r as [|d r]; [done|]. simpl in Hr. by rewrite Hr.
  - cbn [app]. apply Forall_cons in Hf as [Hd _]. rewrite Hd. change (d :: w ++ r) with ((d :: w) ++ r). by rewrite IH.
Qed.

(** Every text is blanks, a word and a rest that begins with a blank. *)
Lemma cut_text l :
  exists b w r, l = b ++ w ++ r /\ Forall (fun c => blank c = true) b /\ Forall (fun c => blank c = false) w /\
                ends r /\ (w = [] -> r = []).
Proof.
  induction l as [|c l (b & w & r & -> & Hb & Hw & Hr & Hwr)]; [by exists [], [], []|].
  destruct (blank c) eqn:Ec; [exists (c :: b), w, r; repeat split; auto|].
  destruct b as [|d b]; [exists [], (c :: w), r; repeat split; auto; done|].
  exists [], [c], ((d :: b) ++ w ++ r). repeat split; auto; [|done]. by apply Forall_cons in Hb as [Hb _].
Qed.

Definition zeroed (l : list Z) : list Z := map (fun c => if blank c then 0 else c) l.

Lemma zeroed_blanks b : Forall (fun c => blank c = true) b -> zeroed b = repeat 0 (length b).
Proof. induction 1 as [|c b Hc _ IH]; [done|]. simpl. rewrite Hc. by f_equal. Qed.

Lemma zeroed_word w : Forall (fun c => blank c = false) w -> zeroed w = w.
Proof. induction 1 as [|c w Hc _ IH]; [done|]. simpl. rewrite Hc. by f_equal. Qed.

Lemma blank_zeroed c : blank (if blank c then 0 else c) = blank c.
Proof. destruct (blank c) eqn:E; [apply blank_0|done]. Qed.

Lemma words_zeroed l : words (zeroed l) = words l.
Proof.
  induction l as [|c l IH]; [done|]. cbn [zeroed map words]. fold (zeroed l). rewrite blank_zeroed, IH.
  destruct (blank c); [done|]. destruct l as [|d l]; [done|]. cbn [zeroed map]. by rewrite blank_zeroed.
Qed.

(** ** The loops *)

Lemma zero_blanks_run fuel pre b r t :
  Forall (fun c => blank c = true) b -> (r = [] \/ exists c r', r = c :: r' /\ blank c = false) -> (length b < fuel)%nat ->
  zero_blanks fuel (pre ++ b ++ r ++ t) (length pre) (length pre + length b + length r)
  = Some (pre ++ repeat 0 (length b) ++ r ++ t, (length pre + length b)%nat).
Proof.
  intros Hb Hr. revert pre fuel. induction Hb as [|c b Hc _ IH]; intros pre [|fuel] Hf; simpl in Hf; try lia; cbn [zero_blanks].
  - destruct Hr as [->|(d & r' & -> & Hd)].
    + rewrite (proj2 (Nat.ltb_ge _ _)) by (simpl; lia). simpl. by rewrite Nat.add_0_r.
    + rewrite (proj2 (Nat.ltb_lt _ _)) by (simpl; lia). simpl. rewrite list_lookup_middle by done. simpl. rewrite Hd. by rewrite Nat.add_0_r.
  - rewrite (proj2 (Nat.ltb_lt _ _)) by (simpl; lia). cbn [app]. rewrite list_lookup_middle by done. cbn [mbind option_bind]. rewrite Hc.
    rewrite (insert_app_r_alt _ _ (length pre)) by lia. rewrite Nat.sub_diag. cbn [list_insert insert].
    specialize (IH (pre ++ [0]) fuel ltac:(lia)). rewrite length_app, <- !app_assoc in IH. cbn [app length] in IH |- *.
    replace (S (length pre)) with (length pre + 1)%nat by lia.
    replace (length pre + S (length b) + length r)%nat with (length pre + 1 + length b + length r)%nat by lia.
    etrans; [exact IH|]. do 2 f_equal. lia.
Qed.

Lemma skip_while_run p fuel pre b r t :
  Forall (fun c => p c = true) b -> (r = [] \/ exists c r', r = c :: r' /\ p c = false) -> (length b < fuel)%nat ->
  skip_while p fuel (pre ++ b ++ r ++ t) (length pre) (length pre + length b + length r) = Some (length pre + length b)%nat.
Proof.
  intros Hb Hr. revert pre fuel. induction Hb as [|c b Hc _ IH]; intros pre [|fuel] Hf; simpl in Hf; try lia; cbn [skip_while].
  - destruct Hr as [->|(d & r' & -> & Hd)].
    + rewrite (proj2 (Nat.ltb_ge _ _)) by (simpl; lia). by rewrite Nat.add_0_r.
    + rewrite (proj2 (Nat.ltb_lt _ _)) by (simpl; lia). simpl. rewrite list_lookup_middle by done. simpl. rewrite Hd. by rewrite Nat.add_0_r.
  - rewrite (proj2 (Nat.ltb_lt _ _)) by (simpl; lia). cbn [app]. rewrite list_lookup_middle by done. cbn [mbind option_bind]. rewrite Hc.
    specialize (IH (pre ++ [c]) fuel ltac:(lia)). rewrite length_app, <- !app_assoc in IH. cbn [app length] in IH |- *.
    replace (S (length pre)) with (length pre + 1)%nat by lia.
    replace (length pre + S (length b) + length r)%nat with (length pre + 1 + length b + length r)%nat by lia.
    rewrite IH. f_equal. lia.
Qed.

Lemma skip_word_run fuel pre w r t :
  Forall (fun c => blank c = false) w -> ends r -> (length w < fuel)%nat ->
  skip_word fuel (pre ++ w ++ r ++ t) (length pre) (length pre + length w + length r) = Some (length pre + length w)%nat.
Proof.
  intros Hw Hr. apply skip_while_run; [by eapply Forall_impl; [exact Hw|]; intros c ->|].
  destruct r as [|c r]; [by left|]. right. exists c, r. split; [done|]. by rewrite Hr.
Qed.

Lemma word_or_nothing w r :
  Forall (fun c => blank c = false) w -> (w = [] -> r = []) -> w ++ r = [] \/ exists c r', w ++ r = c :: r' /\ blank c = false.
Proof. intros Hw Hr. destruct Hw as [|c w Hc _]; [left; by apply Hr|]. right. by exists c, (w ++ r). Qed.

(** No word, or the one. *)
Definition one (w : list Z) : list (list Z) := match w with [] => [] | _ => [w] end.
Definition none (w : list Z) : bool := match w with [] => true | _ => false end.

Lemma words_cut b w r :
  Forall (fun c => blank c = true) b -> Forall (fun c => blank c = false) w -> ends r -> (w = [] -> r = []) ->
  words (b ++ w ++ r) = one w ++ words r.
Proof.
  intros Hb Hw Hr Hwr. rewrite words_blanks by done. destruct w as [|c w]; [by rewrite (Hwr eq_refl)|]. by rewrite words_word.
Qed.

(** The character read after the blanks. *)
Lemma after_blanks pre w r :
  Forall (fun c => blank c = false) w -> (w = [] -> r = []) -> exists c, (pre ++ w ++ r ++ [0]) !! length pre = Some c /\ blank c = none w.
Proof.
  intros Hw Hr. destruct Hw as [|c w Hc _].
  - rewrite (Hr eq_refl). exists 0. split; [by apply (list_lookup_middle pre [])|apply blank_0].
  - exists c. split; [by apply (list_lookup_middle pre)|done].
Qed.

Lemma count_words_run fuel pre l n :
  (length l < fuel)%nat ->
  count_words fuel (pre ++ l ++ [0]) (length pre) (length pre + length l) n
  = Some (pre ++ zeroed l ++ [0], (n + length (words l))%nat).
Proof.
  revert pre l n. induction fuel as [|fuel IH]; intros pre l n Hf; [lia|]. cbn [count_words].
  destruct l as [|c0 l0] eqn:El; [simpl; rewrite (proj2 (Nat.ltb_ge _ _)) by lia; by rewrite Nat.add_0_r|]. rewrite <- El in *.
  rewrite (proj2 (Nat.ltb_lt _ _)) by (rewrite El; simpl; lia).
  destruct (cut_text l) as (b & w & r & El' & Hb & Hw & Hr & Hwr).
  assert (Hlen : length l = (length b + (length w + length r))%nat) by (by rewrite El', !length_app).
  assert (Hpos : (0 < length b + length w)%nat).
  { destruct b, w; simpl; try lia. rewrite El', (Hwr eq_refl) in El. done. }
  assert (Ebuf : pre ++ l ++ [0] = pre ++ b ++ (w ++ r) ++ [0]) by (by rewrite El', <- !app_assoc). rewrite Ebuf.
  replace (length pre + length l)%nat with (length pre + length b + length (w ++ r))%nat by (rewrite length_app; lia).
  rewrite (zero_blanks_run _ pre b (w ++ r) [0] Hb (word_or_nothing w r Hw Hwr)) by lia.
  cbn [mbind option_bind]. rewrite <- (app_assoc w), (app_assoc pre).
  assert (Hp : length (pre ++ repeat 0 (length b)) = (length pre + length b)%nat) by (by rewrite length_app, repeat_length).
  rewrite <- Hp. destruct (after_blanks (pre ++ repeat 0 (length b)) w r Hw Hwr) as (c & Ec & Hc).
  rewrite Ec. cbn [mbind option_bind]. rewrite Hc, (length_app w r), Nat.add_assoc.
  rewrite skip_word_run by (try done; lia). cbn [mbind option_bind].
  rewrite (app_assoc _ w), <- (length_app _ w), IH by lia. do 2 f_equal.
  - rewrite El'. unfold zeroed. rewrite !map_app. fold (zeroed b) (zeroed w) (zeroed r).
    by rewrite (zeroed_blanks b Hb), (zeroed_word w Hw), <- !app_assoc.
  - rewrite El', words_cut by done. rewrite length_app. destruct w; simpl; lia.
Qed.

(** ** Storing *)

Lemma c_string_word w t : Forall (fun c => blank c = false) w -> c_string (w ++ 0 :: t) = Some w.
Proof.
  induction 1 as [|c w Hc _ IH]; [done|]. simpl. rewrite (proj2 (Z.eqb_neq c 0)) by (by apply word_ne0). by rewrite IH.
Qed.

(** In a zeroed buffer every word is a string. *)
Lemma word_string pre w r : Forall (fun c => blank c = false) w -> ends r -> zeroed r = r -> c_string (drop (length pre) (pre ++ w ++ r ++ [0])) = Some w.
Proof.
  intros Hw Hr Hz. rewrite drop_app_length. destruct r as [|c r]; [by apply c_string_word|].
  simpl in Hr, Hz. rewrite Hr in Hz. injection Hz as <- _. by apply c_string_word.
Qed.

Lemma store_at a1 k a : store (a1 ++ replicate (S k) None) (length a1) a = Some (a1 ++ Some a :: replicate k None).
Proof.
  unfold store. rewrite length_app, length_replicate, (proj2 (Nat.ltb_lt _ _)) by lia.
  rewrite insert_app_r_alt, Nat.sub_diag by lia. done.
Qed.

Lemma store_words_run arg0 fuel pre l a1 k :
  zeroed l = l -> (length l < fuel)%nat -> (length (words l) <= k)%nat ->
  exists ps,
    store_words fuel (pre ++ l ++ [0]) (length pre) (length pre + length l) (length a1) (a1 ++ replicate k None)
    = Some ((length a1 + length ps)%nat, a1 ++ ps ++ replicate (k - length ps) None) /\
    map (string_at arg0 (pre ++ l ++ [0])) ps = map Some (words l).
Proof.
  revert pre l a1 k. induction fuel as [|fuel IH]; intros pre l a1 k Hz Hf Hk; [lia|]. cbn [store_words].
  destruct l as [|c0 l0] eqn:El.
  { exists []. simpl. rewrite (proj2 (Nat.ltb_ge _ _)) by lia. by rewrite Nat.add_0_r, Nat.sub_0_r. } rewrite <- El in *.
  rewrite (proj2 (Nat.ltb_lt _ _)) by (rewrite El; simpl; lia).
  destruct (cut_text l) as (b & w & r & El' & Hb & Hw & Hr & Hwr).
  assert (Hlen : length l = (length b + (length w + length r))%nat) by (by rewrite El', !length_app).
  assert (Hpos : (0 < length b + length w)%nat).
  { destruct b, w; simpl; try lia. rewrite El', (Hwr eq_refl) in El. done. }
  assert (Hzr : zeroed r = r).
  { rewrite El' in Hz. unfold zeroed in Hz. rewrite !map_app in Hz.
    apply app_inj_1 in Hz as [_ Hz]; [|by rewrite length_map]. apply app_inj_1 in Hz as [_ Hz]; [done|by rewrite length_map]. }
  rewrite El', words_cut in Hk by done. rewrite length_app in Hk.
  assert (Ebuf : pre ++ l ++ [0] = (pre ++ b) ++ w ++ r ++ [0]) by (by rewrite El', <- !app_assoc).
  assert (Hskip : skip_blanks (S (length pre + length l - length pre)) (pre ++ l ++ [0]) (length pre) (length pre + length l) = Some (length (pre ++ b))).
  { rewrite El' at 2. rewrite <- app_assoc, length_app.
    replace (length pre + length l)%nat with (length pre + length b + length (w ++ r))%nat by (rewrite length_app; lia).
    apply skip_while_run; [done|by apply word_or_nothing|lia]. }
  rewrite Hskip, Ebuf. cbn [mbind option_bind].
  destruct (after_blanks (pre ++ b) w r Hw Hwr) as (c & Ec & Hc). rewrite Ec. cbn [mbind option_bind]. rewrite Hc.
  assert (Hword : forall f, (length w < f)%nat -> skip_word f ((pre ++ b) ++ w ++ r ++ [0]) (length (pre ++ b)) (length pre + length l) = Some (length ((pre ++ b) ++ w))).
  { intros f Hlt. rewrite (length_app (pre ++ b)). replace (length pre + length l)%nat with (length (pre ++ b) + length w + length r)%nat by (rewrite length_app; lia).
    by apply skip_word_run. }
  assert (Hend : (length pre + length l)%nat = (length ((pre ++ b) ++ w) + length r)%nat) by (rewrite !length_app; lia).
  assert (Erest : (pre ++ b) ++ w ++ r ++ [0] = ((pre ++ b) ++ w) ++ r ++ [0]) by (by rewrite <- (app_assoc (pre ++ b))).
  assert (Hone : one w = if none w then [] else [w]) by (by destruct w). rewrite Hone in Hk. destruct (none w); cbn [negb mbind option_bind].
  - rewrite Hword by (rewrite length_app; lia). cbn [mbind option_bind].
    rewrite Hend, Erest. destruct (IH ((pre ++ b) ++ w) r a1 k Hzr ltac:(lia) Hk) as (ps & E1 & E2).
    exists ps. split; [exact E1|]. by rewrite E2, El', words_cut, Hone by done.
  - destruct k as [|k]; [simpl in Hk; lia|]. rewrite store_at. cbn [mbind option_bind]. rewrite Hword by (rewrite length_app; lia). cbn [mbind option_bind].
    set (q := Some (Str (length (pre ++ b)))).
    replace (S (length a1)) with (length (a1 ++ [q])) by (rewrite length_app; simpl; lia).
    replace (a1 ++ q :: replicate k None) with ((a1 ++ [q]) ++ replicate k None) by (by rewrite <- app_assoc).
    rewrite Hend, Erest. destruct (IH ((pre ++ b) ++ w) r (a1 ++ [q]) k Hzr ltac:(lia) ltac:(simpl in Hk; lia)) as (ps & E1 & E2).
    exists (q :: ps). split.
    + rewrite E1, length_app, <- app_assoc. simpl. do 2 f_equal. lia.
    + rewrite El', words_cut, Hone by done. cbn [app map]. rewrite E2. f_equal. rewrite <- Erest. by apply word_string.
Qed.

(** ** The program's name *)

Lemma base_offset_spec arg0 :
  exists dir base, arg0 = dir ++ base /\ base_offset arg0 = length dir /\ (47 ∉ base) /\ (dir = [] \/ last dir = Some 47).
Proof.
  unfold base_offset. destruct (list_find _ (reverse arg0)) as [[k c]|] eqn:E.
  - apply list_find_Some in E as (Hk & -> & Hn). apply lookup_lt_Some in Hk as Hlt. rewrite length_reverse in Hlt.
    rewrite reverse_lookup in Hk by done. exists (take (length arg0 - k) arg0), (drop (length arg0 - k) arg0).
    rewrite take_drop, length_take. split_and!; [done|lia| |].
    + intros Hin. apply list_elem_of_lookup in Hin as [i Hi]. rewrite lookup_drop in Hi.
      assert (i < k)%nat by (apply lookup_lt_Some in Hi; lia).
      apply (Hn (k - 1 - i)%nat 47); [|lia|done]. rewrite reverse_lookup by lia. rewrite <- Hi. f_equal. lia.
    + right. rewrite last_lookup, length_take, lookup_take_lt by lia. rewrite <- Hk. f_equal. lia.
  - exists [], arg0. split_and!; [done|done| |by left]. intros Hin. apply list_find_None in E. rewrite Forall_forall in E.
    apply (E 47); [by apply elem_of_reverse|done].
Qed.

Lemma c_string_ne0 l : Forall (fun c => c <> 0) l -> c_string (l ++ [0]) = Some l.
Proof. induction 1 as [|c l Hc _ IH]; [done|]. simpl. rewrite (proj2 (Z.eqb_neq c 0)) by done. by rewrite IH. Qed.
End Args.

Lemma get_args_run char_signed MARGS arg0 :
  Forall (fun c => c <> 0) arg0 ->
  (exists argv str dir base,
     get_args char_signed MARGS arg0 true true = Some (Args (S (length (words char_signed MARGS))) argv str) /\
     length argv = (length (words char_signed MARGS) + 2)%nat /\
     argv !! S (length (words char_signed MARGS)) = Some (Some Null) /\
     arg0 = dir ++ base /\ (47 ∉ base) /\ (dir = [] \/ last dir = Some 47) /\
     map (string_at arg0 str) (take (S (length (words char_signed MARGS))) argv) = Some <$> (base :: words char_signed MARGS)) /\
  get_args char_signed MARGS arg0 false true = Some Unchanged /\
  get_args char_signed MARGS arg0 true false = Some Unchanged.
Proof.
  intros H0. set (ws := words char_signed MARGS).
  pose proof (count_words_run char_signed (S (length MARGS)) [] MARGS 0 ltac:(lia)) as Hc. cbn [app length Nat.add] in Hc. fold ws in Hc.
  split; [|split; [done|unfold get_args; cbn [negb]; by rewrite Hc]].
  destruct (base_offset_spec arg0) as (dir & base & Ea & Eo & Hb & Hd).
  set (z := zeroed char_signed MARGS) in *.
  assert (Hz : zeroed char_signed z = z).
  { unfold z, zeroed. rewrite map_map. apply map_ext. intros c. destruct (blank char_signed c) eqn:E; [by rewrite blank_0|by rewrite E]. }
  assert (Hw : words char_signed z = ws) by apply words_zeroed.
  assert (Hlz : length z = length MARGS) by apply length_map.
  destruct (store_words_run char_signed arg0 (S (length MARGS)) [] z [Some (Arg0 (length dir))] (S (length ws)) Hz ltac:(lia) ltac:(rewrite Hw; lia))
    as (ps & E1 & E2). cbn [app length Nat.add] in E1. rewrite Hlz in E1. rewrite Hw in E2. cbn [app] in E2.
  assert (Hps : length ps = length ws) by (apply (f_equal length) in E2; by rewrite !length_map in E2).
  exists (Some (Arg0 (length dir)) :: ps ++ [Some Null]), (z ++ [0]), dir, base.
  split_and!; [|simpl; rewrite length_app; simpl; lia| |done..|].
  - unfold get_args. cbn [negb]. rewrite Hc. cbn [mbind option_bind]. rewrite Eo, Nat.add_comm.
    change (store (replicate (2 + length ws) None) 0 (Arg0 (length dir))) with (Some (Some (Arg0 (length dir)) :: replicate (S (length ws)) None)).
    cbn [mbind option_bind]. rewrite E1. cbn [mbind option_bind]. rewrite Hps.
    replace (S (length ws) - length ws)%nat with 1%nat by lia.
    pose proof (store_at (Some (Arg0 (length dir)) :: ps) 0 Null) as Hs. cbn [app length replicate] in Hs. rewrite Hps in Hs.
    change (1 + length ws)%nat with (S (length ws)). cbn [replicate]. by rewrite Hs.
  - rewrite <- Hps. cbn [lookup]. by apply (list_lookup_middle ps []).
  - rewrite <- Hps. cbn [take]. rewrite take_app_length. cbn [map fmap list_fmap]. rewrite E2. f_equal.
    simpl. rewrite Ea, <- app_assoc, drop_app_length. apply c_string_ne0. rewrite Ea in H0. by apply Forall_app in H0 as [_ ?].
Qed.

(** * The main function *)

(** The build: MARGS given, statistics or trace, the Zynq-7000. *)
Record config := { USE_MARGS : bool; STATS : bool; TRACE : bool; Z7 : bool }.

(* @src shared/monitor.h 15-33 MONITOR_INIT, MONITOR_FINISH *)
Definition _MONITOR_INIT (cfg : config) : bool := STATS cfg || TRACE cfg.

Section Main.
Context {D : Type} (cfg : config) (char_signed : bool) (MARGS __FILE__ : list Z) (mem1 mem2 : bool).
Context (monitor_init monitor_finish Xil_DCacheDisable : io D unit).
(** The program: [argc], and the strings of [argv]. *)
Context (_sub_main : nat -> list (option (list Z)) -> io D Z).

Definition hook (b : bool) (m : io D unit) : io D unit := if b then m else mret tt.

(* @src shared/sysinit.h 76-80 GET_ARGS *)
Definition GET_ARGS (argc : nat) (argv : list (option (list Z))) : option (nat * list (option (list Z))) :=
  if USE_MARGS cfg then
    p ← get_args char_signed MARGS __FILE__ mem1 mem2;
    Some (match p with
          | Unchanged => (argc, argv)
          | Args n args str => (n, map (string_at __FILE__ str) args)
          end)
  else Some (argc, argv).

(** MMU_SETUP is empty: the variant with a body is compiled out. *)
(* @src shared/sysinit.h 98-117 MAIN *)
Definition main (argc : nat) (argv : list (option (list Z))) : option (io D Z) :=
  if USE_MARGS cfg || _MONITOR_INIT cfg || Z7 cfg then
    '(argc, argv) ← GET_ARGS argc argv;
    Some (_ ← hook (_MONITOR_INIT cfg) monitor_init;
          ret ← _sub_main argc argv;
          _ ← hook (_MONITOR_INIT cfg) monitor_finish;
          _ ← hook (Z7 cfg) Xil_DCacheDisable;
          mret ret)
  else Some (_sub_main argc argv).
End Main.

(** * Theorems *)

(** C15: The arguments compiled in are cut as a command line is: with memory to
    be had, [get_args] stays inside its buffers, and makes [argc] one more
    than the number of words, an array with room for exactly these, its
    terminating NULL in place, and as strings the base name of the file and
    the words of MARGS in order; without memory it changes nothing. *)
Theorem get_args_words char_signed MARGS arg0 :
  Forall (fun c => c <> 0) arg0 ->
  (exists argv str dir base,
     get_args char_signed MARGS arg0 true true = Some (Args (S (length (words char_signed MARGS))) argv str) /\
     length argv = (length (words char_signed MARGS) + 2)%nat /\
     argv !! S (length (words char_signed MARGS)) = Some (Some Null) /\
     arg0 = dir ++ base /\ (47 ∉ base) /\ (dir = [] \/ last dir = Some 47) /\
     map (string_at arg0 str) (take (S (length (words char_signed MARGS))) argv) = Some <$> (base :: words char_signed MARGS)) /\
  get_args char_signed MARGS arg0 false true = Some Unchanged /\
  get_args char_signed MARGS arg0 true false = Some Unchanged.
Proof. apply get_args_run. Qed.


(** "a/run.c" with the arguments " -n 5". *)
Lemma get_args_words_witness :
  exists argv str dir base,
    get_args false [32; 45; 110; 9; 53] [97; 47; 114; 46; 99] true true = Some (Args 3 argv str) /\ length argv = 4%nat /\ argv !! 3%nat = Some (Some Null) /\
    [97; 47; 114; 46; 99] = dir ++ base /\ (47 ∉ base) /\ (dir = [] \/ last dir = Some 47) /\
    map (string_at [97; 47; 114; 46; 99] str) (take 3 argv) = Some <$> [base; [45; 110]; [53]].
Proof. apply (get_args_words false [32; 45; 110; 9; 53] [97; 47; 114; 46; 99]). by repeat constructor. Defined.

(** With [char] signed, bytes from 128 on are blanks. *)
Example signed_blank : words true [65; 195; 66] = [[65]; [66]] /\ words false [65; 195; 66] = [[65; 195; 66]].
Proof. done. Qed.

(** The wrapped program gets the words as arguments between the two hooks of
    the monitor, and its result is the result of [main]; without memory for
    the words it gets the arguments of the C start-up code. *)
Theorem main_wraps {D} cfg char_signed MARGS file (minit mfin disable : io D unit) sub argc argv s :
  Forall (fun c => c <> 0) file -> USE_MARGS cfg = true ->
  let run_with n args :=
    let s1 := if _MONITOR_INIT cfg then exec minit s else s in
    let '(ret, s2) := sub n args s1 in
    let s3 := if _MONITOR_INIT cfg then exec mfin s2 else s2 in
    (ret, if Z7 cfg then exec disable s3 else s3) in
  (exists dir base m, file = dir ++ base /\ (47 ∉ base) /\ (dir = [] \/ last dir = Some 47) /\
     main cfg char_signed MARGS file true true minit mfin disable sub argc argv = Some m /\
     m s = run_with (S (length (words char_signed MARGS))) ((Some <$> base :: words char_signed MARGS) ++ [None])) /\
  (exists m, main cfg char_signed MARGS file true false minit mfin disable sub argc argv = Some m /\ m s = run_with argc argv).
Proof.
  intros Hf Hu run_with. destruct (get_args_run char_signed MARGS file Hf) as ((av & str & dir & base & E1 & El & En & Ef & Hb & Hd & Em) & _ & E3).
  set (m := fun n args => _ ← hook (_MONITOR_INIT cfg) minit; ret ← sub n args; _ ← hook (_MONITOR_INIT cfg) mfin; _ ← hook (Z7 cfg) disable; mret ret).
  assert (Hm : forall n args, m n args s = run_with n args).
  { intros n args. unfold m, run_with, hook, exec, mbind, io_bind, mret, io_ret.
    destruct (_MONITOR_INIT cfg), (Z7 cfg); simpl;
      repeat match goal with |- context [let '(_, _) := ?t in _] => destruct t as [? ?] eqn:?; simpl in * end; congruence. }
  split.
  - exists dir, base, (m (S (length (words char_signed MARGS))) (map (string_at file str) av)).
    split_and!; [done..| |]; [unfold main, GET_ARGS; by rewrite Hu, E1|]. rewrite Hm. f_equal.
    rewrite <- (take_drop (S (length (words char_signed MARGS))) av), map_app, Em. f_equal.
    erewrite drop_S by exact En. simpl. rewrite drop_ge by lia. done.
  - exists (m argc argv). split; [unfold main, GET_ARGS; by rewrite Hu, E3|apply Hm].
Qed.
