(* ===== verification/Ticks.v ===== *)
(** Time measurement (shared/ticks.h, and the emulated second of
    shared/clocks.h): the tick counts of every clock a build can choose, and
    their differences.

    A build reads its clock into a [tick_t]; [at_tick] is what the read gives
    at a count of the clock, as the manual of each clock documents it. *)
From Stdlib Require Import SpecFloat.
From S2P Require Import Prelude.
Open Scope Z_scope.

(** * Clocks *)

(** Two clocks have a number of ticks that the build gives. *)
(* @src shared/ticks.h 43-120 FTIME .. clock *)
Inductive clock := FTIME | TIMEOFDAY | GETTIME | RDTSC (hz : Z) | XILTIME (hz : Z) | M5RPNS | SYSTEMC | CLOCK.

(** Seconds and a fraction, two halves, or a count. *)
(* @src shared/ticks.h 47-115 tick_t *)
Inductive tick_t := Parts (sec frac : Z) | Halves (lo hi : Z) | Count (n : Z).

(* @src shared/ticks.h 48-116 TICKS_SEC *)
Definition TICKS_SEC (k : clock) : Z :=
  match k with
  | FTIME => 1000
  | TIMEOFDAY => 1000000
  | GETTIME => 1000000000
  | RDTSC hz | XILTIME hz => hz
  | M5RPNS => 1000000000
  | SYSTEMC => 1000000000000
  | CLOCK => 1000000
  end.

(** A little-endian union joins the halves. *)
(* @src shared/ticks.h 50-118 tval *)
Definition tval (k : clock) (t : tick_t) : Z :=
  match t with
  | Parts sec frac => u64 (u64 (u64 sec * TICKS_SEC k) + frac)
  | Halves lo hi => u32 lo + 2 ^ 32 * u32 hi
  | Count n => u64 n
  end.

(* @src shared/ticks.h 124-124 tdiff *)
Definition tdiff (k : clock) (f s : tick_t) : Z := u64 (tval k f - tval k s).

(** The conversion to [long long]. *)
(* @src shared/ticks.h 41-41 _uns *)
Definition signed (x : Z) : Z := if x <? 2 ^ 63 then x else x - 2 ^ 64.

(** Doubles: 53 bits, exponents below 1024. *)
Abbreviation double := spec_float.
Definition dbl (z : Z) : double := binary_normalize 53 1024 z 0 false.
Definition ddiv : double -> double -> double := SFdiv 53 1024.

(* @src shared/ticks.h 125-125 tsec *)
Definition tsec (k : clock) (f s : tick_t) : double := ddiv (dbl (signed (tdiff k f s))) (dbl (TICKS_SEC k)).
(* @src shared/ticks.h 126-126 tvsec *)
Definition tvsec (k : clock) (v : Z) : double := ddiv (dbl (signed v)) (dbl (TICKS_SEC k)).

(** ** Emulated time *)

(** [CLOCKS] slows everything down twentyfold, on the Zynq-7000 by its PLL. *)
(* @src shared/clocks.h 35-59 TICKS_ESEC *)
Definition TICKS_ESEC (CLOCKS Z7 : bool) (k : clock) : Z :=
  if CLOCKS then match k with
                 | XILTIME _ => if Z7 then 2571428546 / 2 else u64 (TICKS_SEC k * 20)
                 | _ => u64 (TICKS_SEC k * 20)
                 end
  else TICKS_SEC k.
(* @src shared/clocks.h 14-14 tesec *)
Definition tesec (CLOCKS Z7 : bool) (k : clock) (f s : tick_t) : double :=
  ddiv (dbl (signed (tdiff k f s))) (dbl (TICKS_ESEC CLOCKS Z7 k)).
(* @src shared/clocks.h 15-15 tvesec *)
Definition tvesec (CLOCKS Z7 : bool) (k : clock) (v : Z) : double :=
  ddiv (dbl (signed v)) (dbl (TICKS_ESEC CLOCKS Z7 k)).

(** * Readings *)

(** What a clock gives at tick [n] of its count. *)
Definition at_tick (k : clock) (n : Z) : tick_t :=
  match k with
  | FTIME | TIMEOFDAY | GETTIME => Parts (n / TICKS_SEC k) (n mod TICKS_SEC k)
  | RDTSC _ => Halves (n mod 2 ^ 32) (n / 2 ^ 32)
  | XILTIME _ | M5RPNS | SYSTEMC | CLOCK => Count n
  end.

Lemma u64_parts q r d : u64 (u64 (u64 q * d) + r) = u64 (q * d + r).
Proof. unfold wrap. by rewrite Zplus_mod_idemp_l, (Z.add_mod (_ * _)), Zmult_mod_idemp_l, <- Z.add_mod. Qed.

Lemma tval_at k n : 0 <= n -> tval k (at_tick k n) = u64 n.
Proof.
  intros Hn. unfold at_tick. destruct k; cbn [tval]; try done.
  1-3: rewrite u64_parts; f_equal; unfold TICKS_SEC; div_lia.
  unfold wrap. div_lia.
Qed.

Lemma signed_u64 d : - 2 ^ 63 <= d < 2 ^ 63 -> signed (u64 d) = d.
Proof. intros Hd. unfold signed, wrap. destruct (Z.ltb_spec (d mod 2 ^ 64) (2 ^ 63)); div_lia. Qed.

(** * Theorems *)

(** With every clock, the difference of two readings is the number of ticks
    between them, of either sign and across the wrap-around of any of the
    counters, as long as it is less than 2^63; so [tsec] and [tesec] divide
    exactly that number. *)
Theorem elapsed_ticks CLOCKS Z7 k f s :
  0 <= f -> 0 <= s -> - 2 ^ 63 <= f - s < 2 ^ 63 ->
  signed (tdiff k (at_tick k f) (at_tick k s)) = f - s /\
  tsec k (at_tick k f) (at_tick k s) = ddiv (dbl (f - s)) (dbl (TICKS_SEC k)) /\
  tesec CLOCKS Z7 k (at_tick k f) (at_tick k s) = ddiv (dbl (f - s)) (dbl (TICKS_ESEC CLOCKS Z7 k)).
Proof.
  intros Hf Hs Hd. assert (E : signed (tdiff k (at_tick k f) (at_tick k s)) = f - s).
  { unfold tdiff. rewrite !tval_at by done. rewrite <- (signed_u64 (f - s)) by done. f_equal. unfold wrap. by rewrite <- Zminus_mod. }
  unfold tsec, tesec. by rewrite E.
Qed.

(** One and a half seconds across the end of a second and of the lower half. *)
Lemma elapsed_ticks_witness :
  tsec GETTIME (Parts 9 250000000) (Parts 7 750000000) = ddiv (dbl 1500000000) (dbl 1000000000) /\
  signed (tdiff (RDTSC 1000) (Halves 5 3) (Halves 4294967290 2)) = 11.
Proof.
  split.
  - apply (elapsed_ticks false false GETTIME 9250000000 7750000000); vm_compute; intuition discriminate.
  - apply (elapsed_ticks false false (RDTSC 1000) (3 * 2 ^ 32 + 5) (3 * 2 ^ 32 - 6)); vm_compute; intuition discriminate.
Defined.
