(* ===== verification/Strm.v ===== *)
(** The STREAM benchmark as the repository runs it (test/strm/src/strm.c):
    four kernels over three arrays, timed, inside the window in which clocks
    are emulated and events are counted; and its check of the results.

    Numbers are IEEE doubles, as the Standard Library specifies them
    ([SpecFloat]), rounded after every operation.  The iterations of a kernel
    are shared out among threads, so a kernel takes them in an order of its
    own.  Printing is the list of lines of the report.  A build with
    [TIME_CHECK] first measures the granularity of its timer, in a loop that
    waits for the timer to move: it gets a number of polls and gives nothing
    when they do not do. *)
From Stdlib Require Import SpecFloat.
From S2P Require Import Prelude Device Ticks.
Open Scope Z_scope.

(** * Numbers *)

Definition dadd : double -> double -> double := SFadd 53 1024.
Definition dsub : double -> double -> double := SFsub 53 1024.
Definition dmul : double -> double -> double := SFmul 53 1024.
Definition dlt : double -> double -> bool := SFltb.

(* @src test/strm/src/strm.c 174-179 MIN, MAX *)
Definition MIN (x y : double) : double := if dlt x y then x else y.
Definition MAX (x y : double) : double := if dlt y x then x else y.
(* @src test/strm/src/strm.c 483-485 abs *)
Definition abs (x : double) : double := if SFleb (dbl 0) x then x else SFopp x.

(** * Arrays *)

(* @src test/strm/src/strm.c 185-191 a, b, c *)
Record arrays := { a : list double; b : list double; c : list double }.
Inductive name := A | B | C.

Definition get (x : name) (s : arrays) : list double := match x with A => a s | B => b s | C => c s end.
Definition put (x : name) (l : list double) (s : arrays) : arrays :=
  match x with
  | A => {| a := l; b := b s; c := c s |}
  | B => {| a := a s; b := l; c := c s |}
  | C => {| a := a s; b := b s; c := l |}
  end.

(** [x[j] = v], inside the array. *)
Definition assign (x : name) (j : nat) (v : double) (s : arrays) : option arrays :=
  if (j <? length (get x s))%nat then Some (put x (<[j := v]> (get x s)) s) else None.

(** A loop whose iterations run in the given order. *)
Fixpoint parallel_for (order : list nat) (body : nat -> arrays -> option arrays) (s : arrays) : option arrays :=
  match order with [] => Some s | j :: order => s ← body j s; parallel_for order body s end.

(** ** The kernels *)

(* @src test/strm/src/strm.c 285-292 MAIN *)
Definition init_body (j : nat) (s : arrays) : option arrays :=
  s ← assign A j (dbl 1) s; s ← assign B j (dbl 2) s; assign C j (dbl 0) s.
(* @src test/strm/src/strm.c 310-314 MAIN *)
Definition time_check_body (j : nat) (s : arrays) : option arrays :=
  x ← a s !! j; assign A j (dmul (dbl 2) x) s.
(* @src test/strm/src/strm.c 609-617 tuned_STREAM_Copy *)
Definition STREAM_Copy (j : nat) (s : arrays) : option arrays :=
  x ← a s !! j; assign C j x s.
(* @src test/strm/src/strm.c 619-627 tuned_STREAM_Scale *)
Definition STREAM_Scale (scalar : double) (j : nat) (s : arrays) : option arrays :=
  z ← c s !! j; assign B j (dmul scalar z) s.
(* @src test/strm/src/strm.c 629-637 tuned_STREAM_Add *)
Definition STREAM_Add (j : nat) (s : arrays) : option arrays :=
  x ← a s !! j; y ← b s !! j; assign C j (dadd x y) s.
(* @src test/strm/src/strm.c 639-647 tuned_STREAM_Triad *)
Definition STREAM_Triad (scalar : double) (j : nat) (s : arrays) : option arrays :=
  y ← b s !! j; z ← c s !! j; assign A j (dadd y (dmul scalar z)) s.

Definition scalar : double := dbl 3.
(* @src test/strm/src/strm.c 341-387 MAIN *)
Definition kernels : list (nat -> arrays -> option arrays) := [STREAM_Copy; STREAM_Scale scalar; STREAM_Add; STREAM_Triad scalar].

(** * The check *)

(** The build: elements and repetitions, and whether the arrays were used for
    the timing calibration. *)
Record config := { STREAM_ARRAY_SIZE : nat; NTIMES_ : nat; TIME_CHECK : bool }.

(* @src test/strm/src/strm.c 111-119 NTIMES *)
Definition NTIMES (cfg : config) : nat := if (NTIMES_ cfg <=? 1)%nat then 10 else NTIMES_ cfg.

(** One repetition, on what every element of the three arrays should be. *)
(* @src test/strm/src/strm.c 506-512 checkSTREAMresults *)
Definition expect1 (v : double * double * double) : double * double * double :=
  let '(aj, bj, cj) := v in
  let cj := aj in
  let bj := dmul scalar cj in
  let cj := dadd aj bj in
  let aj := dadd bj (dmul scalar cj) in
  (aj, bj, cj).

(* @src test/strm/src/strm.c 496-512 checkSTREAMresults *)
Definition expected (cfg : config) : double * double * double :=
  Nat.iter (NTIMES cfg) expect1 (if TIME_CHECK cfg then dmul (dbl 2) (dbl 1) else dbl 1, dbl 2, dbl 0).

(** 1.e-13. *)
(* @src test/strm/src/strm.c 528-537 checkSTREAMresults *)
Definition epsilon : double := ddiv (dbl 1) (dbl (10 ^ 13)).

(** What is printed: an array that fails, with what was expected, the average
    error and the number of elements found; or that the solution validates. *)
Inductive line := Failed (x : name) (expected avg : double) (ierr : nat) | Validates.

(* @src test/strm/src/strm.c 514-526 checkSTREAMresults *)
Definition sum_err (n : nat) (e : double) (l : list double) : double :=
  foldl (fun s x => dadd s (abs (dsub x e))) (dbl 0) (take n l).
Definition avg_err (n : nat) (e : double) (l : list double) : double := ddiv (sum_err n e l) (dbl (Z.of_nat n)).

(* @src test/strm/src/strm.c 539-595 checkSTREAMresults *)
Definition check_array (n : nat) (x : name) (e : double) (l : list double) : list line :=
  let avg := avg_err n e l in
  if dlt epsilon (abs (ddiv avg e)) then
    [Failed x e avg (length (filter (fun v => dlt epsilon (abs (dsub (ddiv v e) (dbl 1))) = true) (take n l)))]
  else [].

(* @src test/strm/src/strm.c 487-605 checkSTREAMresults *)
Definition checkSTREAMresults (cfg : config) (s : arrays) : list line :=
  let n := STREAM_ARRAY_SIZE cfg in
  let '(aj, bj, cj) := expected cfg in
  let ls := check_array n A aj (a s) ++ check_array n B bj (b s) ++ check_array n C cj (c s) in
  if decide (ls = []) then [Validates] else ls.

(** * The program *)

Section Main.
Context {D : Type} (cfg : config).
Context (CLOCKS_EMULATE CLOCKS_NORMAL TRACE_START TRACE_STOP TRACE_CAP STATS_START STATS_STOP STATS_PRINT : io D unit).
(** [tget], and the build's clock. *)
Context (tget : io D tick_t) (CLOCKS Z7 : bool) (clk : clock).
(** The order in which repetition [k] of kernel [i] takes the elements;
    kernels 4 and 5 are the initialisation and the calibration. *)
Context (order : nat -> nat -> list nat).

(* @src test/strm/src/strm.c 467-481 mysecond *)
Definition mysecond : io D double := t ← tget; mret (tvesec CLOCKS Z7 clk (tval clk t)).

(** ** The granularity of the timer *)

(** How often a wait for the timer may look at it, and what the conversion of
    a double to an integer gives when the double is not in the integer's
    range. *)
Context (spin : nat) (out_of_range : double -> Z).

(** The conversion [(int) x], towards zero. *)
Definition int_of (x : double) : Z :=
  match x with
  | S754_zero _ => 0
  | S754_finite s m e =>
      let n := if 0 <=? e then Z.pos m * 2 ^ e else Z.pos m / 2 ^ (- e) in
      let v := if s then - n else n in
      if (- 2 ^ 31 <=? v) && (v <? 2 ^ 31) then v else out_of_range x
  | _ => out_of_range x
  end.

(** 1.0E-6. *)
Definition microsecond : double := ddiv (dbl 1) (dbl 1000000).
(* @src test/strm/src/strm.c 443-444 while( ((t2=mysecond()) - t1) < 1.0E-6 ) *)
Fixpoint wait_tick (spin : nat) (t1 : double) : io D (option double) :=
  match spin with
  | O => mret None
  | S spin => t2 ← mysecond; if dlt (dsub t2 t1) microsecond then wait_tick spin t1 else mret (Some t2)
  end.

(* @src test/strm/src/strm.c 433-433 M *)
Definition M : nat := 20.

(** [m] time values, each at least a microsecond after one read just before. *)
(* @src test/strm/src/strm.c 441-447 checktick *)
Fixpoint find_times (m : nat) : io D (option (list double)) :=
  match m with
  | O => mret (Some [])
  | S m =>
      t1 ← mysecond;
      t2 ← wait_tick spin t1;
      match t2 with
      | None => mret None
      | Some t2 => r ← find_times m; mret (cons t2 <$> r)
      end
  end.

(** The smallest difference of neighbours, in microseconds. *)
(* @src test/strm/src/strm.c 455-459 checktick *)
Fixpoint min_delta (minDelta : Z) (timesfound : list double) : Z :=
  match timesfound with
  | t0 :: (t1 :: _) as ts => 
      let Delta := int_of (dmul (dbl 1000000) (dsub t1 t0)) in
      min_delta (Z.min minDelta (Z.max Delta 0)) ts
  | _ => minDelta
  end.

(* @src test/strm/src/strm.c 435-462 checktick *)
Definition checktick : io D (option Z) := r ← find_times M; mret (min_delta 1000000 <$> r).

(** What the calibration reports: the granularity, at least one, the
    microseconds a test will take, and how many ticks of the timer that is. *)
Record calibration := { quantum : Z; microseconds : Z; clock_ticks : Z }.

(** The calibration, with its pass over [a]; [None] in a build without it. *)
(* @src test/strm/src/strm.c 296-332 MAIN *)
Definition time_check (os : option arrays) : io D (option (option calibration * option arrays)) :=
  if TIME_CHECK cfg then
    q ← checktick;
    match q with
    | None => mret None
    | Some q =>
        let quantum := if 1 <=? q then q else 1 in
        t ← mysecond;
        let os := os ≫= parallel_for (order 0 5) time_check_body in
        t' ← mysecond;
        let t := dmul (dbl 1000000) (dsub t' t) in
        mret (Some (Some {| quantum := quantum; microseconds := int_of t; clock_ticks := int_of (ddiv t (dbl quantum)) |}, os))
    end
  else mret (Some (None, os)).

(** ** The program *)

(** A timed kernel: the arrays after it and the seconds it took. *)
(* @src test/strm/src/strm.c 341-351 MAIN *)
Definition timed (os : option arrays) (body : nat -> arrays -> option arrays) (ord : list nat) : io D (option arrays * double) :=
  t0 ← mysecond;
  let os := os ≫= parallel_for ord body in
  t1 ← mysecond;
  mret (os, dsub t1 t0).

(** The kernels of one repetition. *)
Fixpoint repetition (os : option arrays) (i : nat) (ks : list (nat -> arrays -> option arrays)) (ords : nat -> list nat) :
    io D (option arrays * list double) :=
  match ks with
  | [] => mret (os, [])
  | body :: ks => r ← timed os body (ords i); r' ← repetition (fst r) (S i) ks ords; mret (fst r', snd r :: snd r')
  end.

(* @src test/strm/src/strm.c 338-388 MAIN *)
Fixpoint repetitions (os : option arrays) (k m : nat) : io D (option arrays * list (list double)) :=
  match m with
  | O => mret (os, [])
  | S m => r ← repetition os 0 kernels (order k); r' ← repetitions (fst r) (S k) m; mret (fst r', snd r :: snd r')
  end.

(** Best rate, average, best and worst time of kernel [j], from the second
    repetition on; [big] is FLT_MAX. *)
(* @src test/strm/src/strm.c 394-415 MAIN *)
Definition big : double := dbl ((2 ^ 24 - 1) * 2 ^ 104).
Definition bytes (j : nat) : double := dbl ((if (j <? 2)%nat then 2 else 3) * 8 * Z.of_nat (STREAM_ARRAY_SIZE cfg)).
Definition summary (times : list (list double)) (j : nat) : double * double * double * double :=
  let ts := omap (fun row => row !! j) (tail times) in
  let avg := ddiv (foldl dadd (dbl 0) ts) (dbl (Z.of_nat (NTIMES cfg - 1))) in
  let best := foldl MIN big ts in
  let worst := foldl MAX (dbl 0) ts in
  (ddiv (dmul (ddiv (dbl 1) (dbl 1000000)) (bytes j)) best, avg, best, worst).

(** What a run reports, and the arrays it ends with. *)
Record report := {
  calibrated : option calibration; rows : list (double * double * double * double); verdict : list line; final : arrays
}.

(** The program; [s]: what the storage of the arrays holds. *)
(* @src test/strm/src/strm.c 285-431 MAIN *)
Definition MAIN (s : arrays) : io D (option report) :=
  let os := parallel_for (order 0 4) init_body s in
  c ← time_check os;
  match c with
  | None => mret None
  | Some (cal, os) =>
      _ ← CLOCKS_EMULATE;
      _ ← TRACE_START;
      _ ← STATS_START;
      r ← repetitions os 0 (NTIMES cfg);
      _ ← STATS_STOP;
      _ ← TRACE_STOP;
      _ ← CLOCKS_NORMAL;
      _ ← STATS_PRINT;
      _ ← TRACE_CAP;
      mret (s ← fst r; Some {| calibrated := cal; rows := summary (snd r) <$> seq 0 4; verdict := checkSTREAMresults cfg s; final := s |})
  end.
End Main.

(** * What the kernels do to an element *)

Definition cell (s : arrays) (j : nat) : option (double * double * double) :=
  x ← a s !! j; y ← b s !! j; z ← c s !! j; Some (x, y, z).
Definition same_at (s s' : arrays) (i : nat) : Prop := a s' !! i = a s !! i /\ b s' !! i = b s !! i /\ c s' !! i = c s !! i.

(** An iteration changes one element, as [f] says. *)
Definition local (f : double * double * double -> double * double * double) (body : nat -> arrays -> option arrays) : Prop :=
  forall s j v, cell s j = Some v ->
  exists s', body j s = Some s' /\ cell s' j = Some (f v) /\ forall i, i <> j -> same_at s s' i.

Lemma cell_Some s j x y z : cell s j = Some (x, y, z) <-> a s !! j = Some x /\ b s !! j = Some y /\ c s !! j = Some z.
Proof.
  unfold cell. destruct (a s !! j); simpl; [|naive_solver]. destruct (b s !! j); simpl; [|naive_solver].
  destruct (c s !! j); simpl; naive_solver.
Qed.

Lemma same_cell s s' i : same_at s s' i -> cell s' i = cell s i.
Proof. intros (E1 & E2 & E3). unfold cell. by rewrite E1, E2, E3. Qed.

Lemma assign_in x j v s l : get x s !! j = Some l -> assign x j v s = Some (put x (<[j := v]> (get x s)) s).
Proof. intros Hl. unfold assign. apply lookup_lt_Some in Hl. by rewrite (proj2 (Nat.ltb_lt _ _) Hl). Qed.

Lemma inserted (l : list double) j x v i : l !! j = Some x -> <[j := v]> l !! i = if decide (i = j) then Some v else l !! i.
Proof.
  intros Hl. case_decide as E; [subst; apply list_lookup_insert_eq; by apply lookup_lt_Some in Hl|by apply list_lookup_insert_ne].
Qed.

(** Every body reads and writes at its own index. *)
Ltac solve_local :=
  intros [a0 b0 c0] j [[x y] z] Hc; apply cell_Some in Hc as (Ha & Hb & Hz); simpl in Ha, Hb, Hz;
  eexists; split; [unfold init_body, time_check_body, STREAM_Copy, STREAM_Scale, STREAM_Add, STREAM_Triad; simpl; rewrite ?Ha, ?Hb, ?Hz; simpl;
    repeat (erewrite assign_in by (simpl; eassumption); simpl); reflexivity|];
  split; [apply cell_Some; simpl; split_and!|intros i Hi; unfold same_at; simpl; split_and!];
  try (erewrite inserted by eassumption; by rewrite ?decide_True, ?decide_False by done); done.

Lemma init_local : local (fun _ => (dbl 1, dbl 2, dbl 0)) init_body.
Proof. solve_local. Qed.
Lemma time_check_local : local (fun '(x, y, z) => (dmul (dbl 2) x, y, z)) time_check_body.
Proof. solve_local. Qed.
Lemma copy_local : local (fun '(x, y, z) => (x, y, x)) STREAM_Copy.
Proof. solve_local. Qed.
Lemma scale_local k : local (fun '(x, y, z) => (x, dmul k z, z)) (STREAM_Scale k).
Proof. solve_local. Qed.
Lemma add_local : local (fun '(x, y, z) => (x, y, dadd x y)) STREAM_Add.
Proof. solve_local. Qed.
Lemma triad_local k : local (fun '(x, y, z) => (dadd y (dmul k z), y, z)) (STREAM_Triad k).
Proof. solve_local. Qed.

(** The order of the iterations does not matter. *)
Lemma parallel_for_local f body order s :
  local f body -> NoDup order -> (forall j, j ∈ order -> is_Some (cell s j)) ->
  exists s', parallel_for order body s = Some s' /\
    (forall j v, j ∈ order -> cell s j = Some v -> cell s' j = Some (f v)) /\ (forall i, i ∉ order -> same_at s s' i).
Proof.
  intros Hl. revert s. induction order as [|j order IH]; intros s Hd Hs; simpl.
  { exists s. split_and!; [done|by intros ?? ?%elem_of_nil|done]. }
  apply NoDup_cons in Hd as [Hj Hd]. destruct (Hs j ltac:(constructor)) as [v Hv].
  destruct (Hl s j v Hv) as (s1 & -> & Ec & Hne). simpl.
  destruct (IH s1 Hd) as (s' & E & Hin & Hout).
  { intros i Hi. rewrite (same_cell s s1 i) by (apply Hne; intros ->; done). apply Hs. by right. }
  exists s'. split_and!; [done| |].
  - intros i w [->|Hi]%elem_of_cons Hw; [rewrite (same_cell s1 s' j) by (by apply Hout); by simplify_eq|].
    apply Hin; [done|]. rewrite (same_cell s s1 i) by (apply Hne; intros ->; done). done.
  - intros i [Hi1 Hi2]%not_elem_of_cons. destruct (Hne i Hi1) as (E1 & E2 & E3), (Hout i Hi2) as (F1 & F2 & F3).
    unfold same_at. by rewrite F1, F2, F3.
Qed.

(** Every element of the first [n] is [v]; the others are those of [s0]. *)
Definition uniform (n : nat) (s0 : arrays) (v : double * double * double) (s : arrays) : Prop :=
  (forall j, (j < n)%nat -> cell s j = Some v) /\ forall i, (n <= i)%nat -> same_at s0 s i.

Lemma kernel_uniform f body order n s0 v s :
  local f body -> order ≡ₚ seq 0 n -> uniform n s0 v s -> exists s', parallel_for order body s = Some s' /\ uniform n s0 (f v) s'.
Proof.
  intros Hl Ho [Hu Hr].
  assert (Hin : forall j, j ∈ order <-> (j < n)%nat) by (intros j; rewrite Ho, elem_of_seq; lia).
  destruct (parallel_for_local f body order s Hl) as (s' & E & H1 & H2).
  - rewrite Ho. apply NoDup_seq.
  - intros j Hj. rewrite (Hu j) by (by apply Hin). by eexists.
  - exists s'. split; [done|]. split.
    + intros j Hj. apply H1; [by apply Hin|by apply Hu].
    + intros i Hi. destruct (Hr i Hi) as (E1 & E2 & E3), (H2 i) as (F1 & F2 & F3); [rewrite Hin; lia|].
      unfold same_at. by rewrite F1, F2, F3.
Qed.

(** * Whole repetitions *)

(** Where the arrays of a run are when the elements are known. *)
Definition at_values (n : nat) (s0 : arrays) (v : double * double * double) (os : option arrays) : Prop :=
  exists s, os = Some s /\ uniform n s0 v s.

Definition effects : list (double * double * double -> double * double * double) :=
  [fun '(x, y, z) => (x, y, x); fun '(x, y, z) => (x, dmul scalar z, z); fun '(x, y, z) => (x, y, dadd x y);
   fun '(x, y, z) => (dadd y (dmul scalar z), y, z)].

Lemma kernels_effects : Forall2 local effects kernels.
Proof. repeat constructor; [apply copy_local|apply scale_local|apply add_local|apply triad_local]. Qed.

Lemma expect1_effects v : expect1 v = foldl (fun v f => f v) v effects.
Proof. by destruct v as [[x y] z]. Qed.

(** The initialisation writes every element of the three arrays. *)
Lemma init_uniform n s order :
  order ≡ₚ seq 0 n -> (forall x, (n <= length (get x s))%nat) ->
  exists s', parallel_for order init_body s = Some s' /\ uniform n s (dbl 1, dbl 2, dbl 0) s'.
Proof.
  intros Ho Hlen. assert (Hs : forall j, (j < n)%nat -> is_Some (cell s j)).
  { intros j Hj. unfold cell.
    destruct (lookup_lt_is_Some_2 (a s) j) as [x ->]; [pose proof (Hlen A); simpl in *; lia|].
    destruct (lookup_lt_is_Some_2 (b s) j) as [y ->]; [pose proof (Hlen B); simpl in *; lia|].
    destruct (lookup_lt_is_Some_2 (c s) j) as [z ->]; [pose proof (Hlen C); simpl in *; lia|]. by eexists. }
  assert (Hin : forall j, j ∈ order <-> (j < n)%nat) by (intros j; rewrite Ho, elem_of_seq; lia).
  destruct (parallel_for_local _ _ order s init_local) as (s1 & E1 & H1 & H2); [rewrite Ho; apply NoDup_seq|intros j Hj; by apply Hs, Hin|].
  exists s1. split; [done|]. split; [|intros i Hi; apply H2; rewrite Hin; lia].
  intros j Hj. destruct (Hs j Hj) as [v Hv]. by rewrite (H1 j v) by (done || by apply Hin).
Qed.

Section Run.
Context {D : Type} (tget : io D tick_t) (CLOCKS Z7 : bool) (clk : clock).
Context (n : nat) (s0 : arrays) (order : nat -> nat -> list nat) (Ho : forall k i, order k i ≡ₚ seq 0 n).

Lemma timed_run os body ord d : exists t d', timed tget CLOCKS Z7 clk os body ord d = ((os ≫= parallel_for ord body, t), d').
Proof.
  unfold timed, mysecond, mbind, io_bind, mret, io_ret. destruct (tget d) as [t0 d1]. destruct (tget d1) as [t1 d2]. by do 2 eexists.
Qed.

Lemma at_kernel f body ord v os :
  local f body -> ord ≡ₚ seq 0 n -> at_values n s0 v os -> at_values n s0 (f v) (os ≫= parallel_for ord body).
Proof. intros Hl Hp (s & -> & Hu). by apply (kernel_uniform f body ord). Qed.

Lemma repetition_locals fs ks ords : Forall2 local fs ks -> (forall i, ords i ≡ₚ seq 0 n) -> forall os i v d,
  at_values n s0 v os ->
  exists os' ts d', repetition tget CLOCKS Z7 clk os i ks ords d = ((os', ts), d') /\
    at_values n s0 (foldl (fun v f => f v) v fs) os' /\ length ts = length ks.
Proof using.
  intros Hf Hp. induction Hf as [|f body fs ks Hl _ IH]; intros os i v d Hv; [by exists os, [], d|].
  cbn [repetition]. destruct (timed_run os body (ords i) d) as (t & d1 & Et). erewrite bind_run by exact Et.
  destruct (IH _ (S i) _ d1 (at_kernel f body (ords i) v os Hl (Hp i) Hv)) as (os' & ts & d2 & E & Hv' & Hlen).
  erewrite bind_run by exact E. exists os', (t :: ts), d2. split_and!; [done..|simpl; by rewrite Hlen].
Qed.

Lemma repetition_run os k v d :
  at_values n s0 v os ->
  exists os' ts d', repetition tget CLOCKS Z7 clk os 0 kernels (order k) d = ((os', ts), d') /\ at_values n s0 (expect1 v) os' /\ length ts = 4%nat.
Proof using Ho.
  intros Hv. rewrite expect1_effects. by apply (repetition_locals effects kernels (order k) kernels_effects).
Qed.

Lemma repetitions_run m : forall os k v d,
  at_values n s0 v os ->
  exists os' ts d', repetitions tget CLOCKS Z7 clk order os k m d = ((os', ts), d') /\ at_values n s0 (Nat.iter m expect1 v) os'.
Proof using Ho.
  induction m as [|m IH]; intros os k v d Hv; [by exists os, [], d|].
  cbn [repetitions]. destruct (repetition_run os k v d Hv) as (os1 & ts1 & d1 & E1 & Hv1 & _). erewrite bind_run by exact E1.
  destruct (IH os1 (S k) _ d1 Hv1) as (os2 & ts2 & d2 & E2 & Hv2). erewrite bind_run by exact E2.
  exists os2, (ts1 :: ts2), d2. split; [done|]. by rewrite Nat.iter_succ_r.
Qed.
End Run.

(** * The check *)

(** Zeros and NaN: what remains of errors that are no errors. *)
Definition quiet (x : double) : Prop := match x with S754_zero _ | S754_nan => True | _ => False end.

Lemma quiet_sub x : quiet (dsub x x).
Proof. unfold dsub, SFsub. destruct x as [[]|[]| |[] m e]; try done; by rewrite Z.sub_diag. Qed.

Lemma quiet_add x y : quiet x -> quiet y -> quiet (dadd x y).
Proof. destruct x as [[]| | |], y as [[]| | |]; done. Qed.

Lemma quiet_abs x : quiet x -> quiet (abs x).
Proof. by destruct x as [[]| | |]. Qed.

Lemma quiet_div x y : quiet x -> quiet (ddiv x y).
Proof. by destruct x as [[]| | |], y as [[]| | |]. Qed.

Lemma quiet_small x : quiet x -> dlt epsilon x = false.
Proof. by destruct x as [[]| | |]. Qed.

Lemma quiet_sum e l acc : quiet acc -> Forall (fun x => x = e) l -> quiet (foldl (fun s x => dadd s (abs (dsub x e))) acc l).
Proof.
  revert acc. induction l as [|x l IH]; intros acc Ha Hl; [done|]. apply Forall_cons in Hl as [-> Hl]. simpl.
  apply IH; [|done]. apply quiet_add, quiet_abs, quiet_sub; done.
Qed.

Lemma nan_sum e l acc : acc = S754_nan \/ S754_nan ∈ l -> foldl (fun s x => dadd s (abs (dsub x e))) acc l = S754_nan.
Proof.
  revert acc. induction l as [|x l IH]; intros acc H; [by destruct H as [->|?%elem_of_nil]|]. simpl. apply IH.
  destruct H as [->|[<-|H]%elem_of_cons]; [by left| |by right]. left. by destruct acc.
Qed.

Lemma check_array_equal n x e l : (forall j, (j < n)%nat -> l !! j = Some e) -> check_array n x e l = [].
Proof.
  intros H. unfold check_array. rewrite quiet_small; [done|]. apply quiet_abs, quiet_div. unfold avg_err. apply quiet_div, quiet_sum; [done|].
  apply Forall_forall. intros v Hv. apply list_elem_of_lookup in Hv as [i Hi]. apply lookup_take_Some in Hi as [Hi Hn].
  rewrite H in Hi by done. by injection Hi.
Qed.

Lemma check_array_nan n x e l j : (j < n)%nat -> l !! j = Some S754_nan -> check_array n x e l = [].
Proof.
  intros Hj Hl. unfold check_array, avg_err, sum_err. rewrite nan_sum; [done|]. right. apply list_elem_of_lookup. exists j. by rewrite lookup_take_lt.
Qed.

Lemma check_passes cfg s :
  let n := STREAM_ARRAY_SIZE cfg in
  (forall x e, check_array n x e (get x s) = []) \/ uniform n s (expected cfg) s -> checkSTREAMresults cfg s = [Validates].
Proof.
  intros n H. unfold checkSTREAMresults. fold n. destruct (expected cfg) as [[x y] z] eqn:E.
  assert (Hx : check_array n A x (a s) = [] /\ check_array n B y (b s) = [] /\ check_array n C z (c s) = []).
  { destruct H as [H|[H _]]; [split_and!; [apply (H A)|apply (H B)|apply (H C)]|].
    split_and!; apply check_array_equal; intros j Hj; apply H in Hj; by apply cell_Some in Hj as (? & ? & ?). }
  by destruct Hx as (-> & -> & ->).
Qed.

(** Operations that only change the device. *)
Ltac run_hooks :=
  repeat match goal with
         | |- context [(?m ≫= ?f) ?st] => is_var m; rewrite (bind_run m f st _ _ (surjective_pairing (m st)))
         end.

(** * Theorems *)

(** ** The timer *)

Section Timer.
Context {D : Type} (tget : io D tick_t) (CLOCKS Z7 : bool) (clk : clock).
Abbreviation now := (mysecond tget CLOCKS Z7 clk).

(** The device after [n] readings of the timer, and reading [n]. *)
Definition polled (n : nat) (d : D) : D := Nat.iter n (exec now) d.
Definition reading (n : nat) (d : D) : double := run now (polled n d).

Lemma polled_S n d : polled n (exec now d) = polled (S n) d.
Proof. symmetry. apply Nat.iter_succ_r. Qed.

Lemma reading_S n d : reading n (exec now d) = reading (S n) d.
Proof. unfold reading. by rewrite polled_S. Qed.

Lemma now_run d : now d = (reading 0 d, exec now d).
Proof. apply surjective_pairing. Qed.

(** Reading [k] is not less than a microsecond after [t1]. *)
Definition later (t1 : double) (k : nat) (d : D) : bool := negb (dlt (dsub (reading k d) t1) microsecond).

(** The timer moves: of the first [n] readings each is followed by one at
    least a microsecond later, within [spin]. *)
Definition moves (spin n : nat) (d : D) : Prop :=
  forall m, (m < n)%nat -> exists k, (k < spin)%nat /\ later (reading m d) (S m + k) d = true.

(** It does not: no later reading is a microsecond after the first. *)
Definition stands_still (d : D) : Prop := forall k, later (reading 0 d) (S k) d = false.

Lemma wait_tick_ends spin t1 d k :
  (k < spin)%nat -> later t1 k d = true ->
  exists j, (j <= k)%nat /\ wait_tick tget CLOCKS Z7 clk spin t1 d = (Some (reading j d), polled (S j) d).
Proof.
  revert d k. induction spin as [|spin IH]; intros d k Hk Hl; [lia|]. cbn [wait_tick].
  rewrite (bind_run _ _ _ _ _ (now_run d)). destruct (dlt _ _) eqn:E; [|by exists 0%nat; split; [lia|]].
  destruct k as [|k]; [unfold later in Hl; by rewrite E in Hl|].
  destruct (IH (exec now d) k) as (j & Hj & E'); [lia|unfold later in *; by rewrite reading_S|].
  exists (S j). split; [lia|]. by rewrite E', reading_S, polled_S.
Qed.

Lemma wait_tick_stuck spin t1 d : (forall k, later t1 k d = false) -> run (wait_tick tget CLOCKS Z7 clk spin t1) d = None.
Proof.
  revert d. induction spin as [|spin IH]; intros d Hl; [done|]. unfold run. cbn [wait_tick].
  rewrite (bind_run _ _ _ _ _ (now_run d)). pose proof (Hl 0%nat) as H0. unfold later in H0. apply negb_false_iff in H0.
  rewrite H0. apply IH. intros k. pose proof (Hl (S k)) as H. unfold later in *. by rewrite reading_S.
Qed.

Lemma moves_polled spin n k d : moves spin (k + n) d -> moves spin n (polled k d).
Proof.
  intros H m Hm. destruct (H (k + m)%nat ltac:(lia)) as (j & Hj & Hl). exists j. split; [done|].
  unfold later, reading, polled in *. rewrite <- !Nat.iter_add.
  replace (S m + j + k)%nat with (S (k + m) + j)%nat by lia. by replace (m + k)%nat with (k + m)%nat by lia.
Qed.

(** Each value found takes one reading and at most [spin] polls. *)
Lemma find_times_ends spin m d :
  moves spin (m * S spin) d -> exists l d', find_times tget CLOCKS Z7 clk spin m d = (Some l, d') /\ length l = m.
Proof.
  revert d. induction m as [|m IH]; intros d H; [by exists [], d|]. cbn [find_times].
  rewrite (bind_run _ _ _ _ _ (now_run d)). destruct (H 0%nat ltac:(lia)) as (k & Hk & Hl).
  destruct (wait_tick_ends spin (reading 0 d) (exec now d) k Hk) as (j & Hj & E).
  { unfold later in *. by rewrite reading_S. }
  rewrite (bind_run _ _ _ _ _ E), polled_S. destruct (IH (polled (S (S j)) d)) as (l & d' & E' & Hlen).
  { apply moves_polled. intros i Hi. apply H. lia. }
  rewrite (bind_run _ _ _ _ _ E'). exists (reading (S j) d :: l), d'. by rewrite reading_S; simpl; rewrite Hlen.
Qed.

Lemma min_delta_range oor l : forall x, 0 <= x <= 1000000 -> 0 <= min_delta oor x l <= 1000000.
Proof.
  induction l as [|t0 l IH]; intros x Hx; [done|]. destruct l as [|t1 l]; [done|]. cbn [min_delta]. apply IH. lia.
Qed.

(** The calibration ends when the timer moves, does to the arrays what its
    pass says, and finds between one microsecond and one second. *)
Lemma time_check_ends cfg order spin oor os d :
  (TIME_CHECK cfg = true -> moves spin (M * S spin) d) ->
  exists cal d', time_check cfg tget CLOCKS Z7 clk order spin oor os d =
    (Some (cal, if TIME_CHECK cfg then os ≫= parallel_for (order 0%nat 5%nat) time_check_body else os), d') /\
    (TIME_CHECK cfg = true <-> is_Some cal) /\ forall c, cal = Some c -> 1 <= quantum c <= 1000000.
Proof.
  intros H. unfold time_check. destruct (TIME_CHECK cfg); [|exists None, d; split_and!; [done|by split; [|intros [??]]|done]].
  destruct (find_times_ends spin M d (H eq_refl)) as (l & d1 & E & _). unfold checktick.
  rewrite (bind_run _ _ _ (Some (min_delta oor 1000000 l)) d1) by (by rewrite (bind_run _ _ _ _ _ E)).
  rewrite (bind_run _ _ _ _ _ (now_run d1)), (bind_run _ _ _ _ _ (now_run _)).
  do 2 eexists. split; [reflexivity|]. split; [by split; [eexists|]|]. intros c [= <-]. simpl.
  pose proof (min_delta_range oor l 1000000 ltac:(lia)). case_match; lia.
Qed.

Lemma time_check_stuck cfg order spin oor os d :
  TIME_CHECK cfg = true -> stands_still d -> run (time_check cfg tget CLOCKS Z7 clk order spin oor os) d = None.
Proof.
  intros Hc H. unfold time_check. rewrite Hc. unfold checktick, M, run. cbn [find_times].
  pose proof (wait_tick_stuck spin (reading 0 d) (exec now d)) as W. unfold run in W.
  unfold mbind, io_bind, mret, io_ret in *. rewrite now_run. destruct (wait_tick _ _ _ _ _ _ _) as [r d1]. simpl in W.
  rewrite W; [done|]. intros k. specialize (H k). unfold later in *. by rewrite reading_S.
Qed.
End Timer.

(** ** STREAM *)

(** C20: For every size, number of repetitions and order in which threads share
    the iterations out, with arrays of at least that size, on every device, as
    long as the timer moves when the
    build calibrates it (each of its first readings is followed within [spin]
    polls by one a microsecond later): STREAM ends, has measured a granularity
    between a microsecond and a second exactly in a build that calibrates,
    leaves in each of the elements what the recurrence of the check says,
    touches no element beyond them, and reports that the solution validates.
    On a timer that stands still a build that calibrates never ends. *)
Theorem strm_validates {D} cfg (emul norm tstart tstop tcap sstart sstop sprint : io D unit) tget CLOCKS Z7 clk order oor s d :
  let n := STREAM_ARRAY_SIZE cfg in
  let main spin := MAIN cfg emul norm tstart tstop tcap sstart sstop sprint tget CLOCKS Z7 clk order spin oor s in
  (forall k i, order k i ≡ₚ seq 0 n) -> (forall x, (n <= length (get x s))%nat) ->
  (forall spin, (TIME_CHECK cfg = true -> moves tget CLOCKS Z7 clk spin (M * S spin) d) ->
   exists r d', main spin d = (Some r, d') /\
     (TIME_CHECK cfg = true <-> is_Some (calibrated r)) /\ (forall c, calibrated r = Some c -> 1 <= quantum c <= 1000000) /\
     length (rows r) = 4%nat /\ uniform n s (expected cfg) (final r) /\ verdict r = [Validates]) /\
  (TIME_CHECK cfg = true -> stands_still tget CLOCKS Z7 clk d -> forall spin, run (main spin) d = None).
Proof.
  intros n main Ho Hlen. split.
  - intros spin Ht. unfold main, MAIN. cbv zeta. destruct (init_uniform n s (order 0%nat 4%nat) (Ho _ _) Hlen) as (s1 & E1 & Hu).
    destruct (time_check_ends tget CLOCKS Z7 clk cfg order spin oor (Some s1) d Ht) as (cal & d0 & E0 & Hcal & Hq).
    rewrite E1, (bind_run _ _ _ _ _ E0).
    set (os := if TIME_CHECK cfg then _ else _). assert (Hos : at_values n s (if TIME_CHECK cfg then dmul (dbl 2) (dbl 1) else dbl 1, dbl 2, dbl 0) os).
    { unfold os. destruct (TIME_CHECK cfg); [|by exists s1].
      exact (at_kernel n s _ _ _ _ (Some s1) time_check_local (Ho _ _) (ex_intro _ s1 (conj eq_refl Hu))). }
    run_hooks.
    match goal with |- context [(repetitions _ _ _ _ _ _ _ _ ≫= _) ?st] =>
      destruct (repetitions_run tget CLOCKS Z7 clk n s order Ho (NTIMES cfg) os 0 _ st Hos) as (os' & ts & d1 & E & Hv) end.
    erewrite bind_run by exact E. run_hooks. destruct Hv as (s' & -> & Hu'). fold (expected cfg) in Hu'.
    assert (Hc : checkSTREAMresults cfg s' = [Validates]) by (apply check_passes; right; by destruct Hu').
    do 2 eexists. split; [reflexivity|]. by split_and!.
  - intros Hc Hst spin. pose proof (time_check_stuck tget CLOCKS Z7 clk cfg order spin oor (parallel_for (order 0%nat 4%nat) init_body s) d Hc Hst) as H.
    unfold main, MAIN, run, mbind, io_bind in *. cbv zeta. destruct (time_check _ _ _ _ _ _ _ _ _ _) as [r d1]. simpl in H. by subst.
Qed.

(** Three elements, two repetitions, one thread from the end; a microsecond
    timer that moves by ten with each reading. *)
Lemma strm_validates_witness :
  let cfg := {| STREAM_ARRAY_SIZE := 3; NTIMES_ := 2; TIME_CHECK := true |} in
  let s := {| a := replicate 4 (dbl 9); b := replicate 3 (dbl 9); c := replicate 3 S754_nan |} in
  let tick : io Z tick_t := fun n => (Count n, n + 10) in
  exists r d',
    MAIN cfg (mret tt) (mret tt) (mret tt) (mret tt) (mret tt) (mret tt) (mret tt) (mret tt) tick false false CLOCK
      (fun _ i => if (i =? 2)%nat then [2; 1; 0]%nat else [0; 1; 2]%nat) 1 (fun _ => 0) s 7 = (Some r, d') /\
    (true = true <-> is_Some (calibrated r)) /\ (forall c, calibrated r = Some c -> 1 <= quantum c <= 1000000) /\
    length (rows r) = 4%nat /\ uniform 3 s (expected cfg) (final r) /\ verdict r = [Validates].
Proof.
  intros cfg s tick. apply (strm_validates cfg).
  - intros k i. destruct (i =? 2)%nat; [|reflexivity]. apply (reverse_Permutation [0; 1; 2]%nat).
  - intros []; simpl; lia.
  - intros _ m Hm. exists 0%nat. split; [lia|].
    do 40 (destruct m as [|m]; [vm_compute; reflexivity|]). exfalso. unfold M in Hm. lia.
Defined.

(** The number a double stands for, a natural one. *)
Definition stands_for (x : double) (z : Z) : Prop :=
  match x with S754_finite false m e => Z.pos m * 2 ^ (e + 1074) = z * 2 ^ 1074 | _ => False end.

(** Up to thirteen repetitions nothing is rounded: the arrays end as the
    powers of 15 that exact arithmetic gives, so that a compiler that fuses
    multiplications and additions leaves the same numbers. *)
Theorem strm_exact cfg :
  (NTIMES cfg <= 13)%nat ->
  let t := if TIME_CHECK cfg then 2 else 1 in
  let m := Z.of_nat (NTIMES cfg) in
  let '(aj, bj, cj) := expected cfg in
  stands_for aj (t * 15 ^ m) /\ stands_for bj (t * 3 * 15 ^ (m - 1)) /\ stands_for cj (t * 4 * 15 ^ (m - 1)).
Proof.
  intros Hm. unfold expected. remember (NTIMES cfg) as m eqn:E. assert (1 <= m)%nat by (rewrite E; unfold NTIMES; case_match eqn:H; [lia|apply Nat.leb_gt in H; lia]).
  clear E. do 14 (destruct m as [|m]; [try lia; destruct (TIME_CHECK cfg); vm_compute; by repeat split|]). lia.
Qed.

Lemma strm_exact_witness :
  stands_for (expected {| STREAM_ARRAY_SIZE := 1; NTIMES_ := 10; TIME_CHECK := false |}).1.1 576650390625.
Proof.
  pose proof (strm_exact {| STREAM_ARRAY_SIZE := 1; NTIMES_ := 10; TIME_CHECK := false |} ltac:(vm_compute; lia)) as H.
  destruct (expected _) as [[x y] z]. exact (proj1 H).
Defined.

(** The check compares averages with "greater than", which is false of NaN: an
    array with one NaN passes, whatever else it holds. *)
Theorem nan_validates cfg s i j k :
  (i < STREAM_ARRAY_SIZE cfg)%nat -> (j < STREAM_ARRAY_SIZE cfg)%nat -> (k < STREAM_ARRAY_SIZE cfg)%nat ->
  a s !! i = Some S754_nan -> b s !! j = Some S754_nan -> c s !! k = Some S754_nan -> checkSTREAMresults cfg s = [Validates].
Proof. intros Hi Hj Hk Ha Hb Hc. apply check_passes. left. intros [] e; [by apply (check_array_nan _ _ _ _ i)|by apply (check_array_nan _ _ _ _ j)|by apply (check_array_nan _ _ _ _ k)]. Qed.

Lemma nan_validates_witness :
  checkSTREAMresults {| STREAM_ARRAY_SIZE := 2; NTIMES_ := 10; TIME_CHECK := false |}
    {| a := [dbl 1000; S754_nan]; b := [S754_nan; dbl 7]; c := [S754_nan; S754_nan] |} = [Validates].
Proof. apply (nan_validates _ _ 1 0 0); first [reflexivity | simpl; lia]. Defined.

(** The same wrong elements without the NaN are found. *)
Example wrong_found :
  length (checkSTREAMresults {| STREAM_ARRAY_SIZE := 2; NTIMES_ := 10; TIME_CHECK := false |}
    {| a := [dbl 1000; dbl 1]; b := [dbl 1; dbl 7]; c := [dbl 0; dbl 0] |}) = 3%nat.
Proof. vm_compute. reflexivity. Qed.
