(* ===== verification/ApmRegs.v ===== *)
(** Register map of the AXI performance monitor: the constants of
    shared/linux/xapm.h the driver uses. *)
From S2P Require Import Prelude.

(* @src shared/linux/xapm.h 12-12 XST_SUCCESS *)
Definition XST_SUCCESS : Z := 0.
(* @src shared/linux/xapm.h 13-13 XST_FAILURE *)
Definition XST_FAILURE : Z := 1.
(* @src shared/linux/xapm.h 27-27 XAPM_GCC_HIGH_OFFSET *)
Definition XAPM_GCC_HIGH_OFFSET : Z := 0x0000.
(* @src shared/linux/xapm.h 29-29 XAPM_GCC_LOW_OFFSET *)
Definition XAPM_GCC_LOW_OFFSET : Z := 0x0004.
(* @src shared/linux/xapm.h 32-32 XAPM_SI_LOW_OFFSET *)
Definition XAPM_SI_LOW_OFFSET : Z := 0x0024.
(* @src shared/linux/xapm.h 33-33 XAPM_SICR_OFFSET *)
Definition XAPM_SICR_OFFSET : Z := 0x0028.
(* @src shared/linux/xapm.h 35-35 XAPM_SR_OFFSET *)
Definition XAPM_SR_OFFSET : Z := 0x002c.
(* @src shared/linux/xapm.h 36-36 XAPM_GIE_OFFSET *)
Definition XAPM_GIE_OFFSET : Z := 0x0030.
(* @src shared/linux/xapm.h 38-38 XAPM_IE_OFFSET *)
Definition XAPM_IE_OFFSET : Z := 0x0034.
(* @src shared/linux/xapm.h 39-39 XAPM_IS_OFFSET *)
Definition XAPM_IS_OFFSET : Z := 0x0038.
(* @src shared/linux/xapm.h 41-41 XAPM_MSR0_OFFSET *)
Definition XAPM_MSR0_OFFSET : Z := 0x0044.
(* @src shared/linux/xapm.h 42-42 XAPM_MSR1_OFFSET *)
Definition XAPM_MSR1_OFFSET : Z := 0x0048.
(* @src shared/linux/xapm.h 43-43 XAPM_MSR2_OFFSET *)
Definition XAPM_MSR2_OFFSET : Z := 0x004c.
(* @src shared/linux/xapm.h 45-45 XAPM_MC0_OFFSET *)
Definition XAPM_MC0_OFFSET : Z := 0x0100.
(* @src shared/linux/xapm.h 46-46 XAPM_INC0_OFFSET *)
Definition XAPM_INC0_OFFSET : Z := 0x0104.
(* @src shared/linux/xapm.h 47-47 XAPM_RANGE0_OFFSET *)
Definition XAPM_RANGE0_OFFSET : Z := 0x0108.
(* @src shared/linux/xapm.h 48-48 XAPM_MC0LOGEN_OFFSET *)
Definition XAPM_MC0LOGEN_OFFSET : Z := 0x010c.
(* @src shared/linux/xapm.h 178-178 XAPM_SMC0_OFFSET *)
Definition XAPM_SMC0_OFFSET : Z := 0x0200.
(* @src shared/linux/xapm.h 180-180 XAPM_SINC0_OFFSET *)
Definition XAPM_SINC0_OFFSET : Z := 0x0204.
(* @src shared/linux/xapm.h 295-295 XAPM_CTL_OFFSET *)
Definition XAPM_CTL_OFFSET : Z := 0x0300.
(* @src shared/linux/xapm.h 297-297 XAPM_ID_OFFSET *)
Definition XAPM_ID_OFFSET : Z := 0x0304.
(* @src shared/linux/xapm.h 299-299 XAPM_IDMASK_OFFSET *)
Definition XAPM_IDMASK_OFFSET : Z := 0x0308.
(* @src shared/linux/xapm.h 301-301 XAPM_RID_OFFSET *)
Definition XAPM_RID_OFFSET : Z := 0x030c.
(* @src shared/linux/xapm.h 303-303 XAPM_RIDMASK_OFFSET *)
Definition XAPM_RIDMASK_OFFSET : Z := 0x0310.
(* @src shared/linux/xapm.h 305-305 XAPM_FEC_OFFSET *)
Definition XAPM_FEC_OFFSET : Z := 0x0400.
(* @src shared/linux/xapm.h 308-308 XAPM_SWD_OFFSET *)
Definition XAPM_SWD_OFFSET : Z := 0x0404.
(* @src shared/linux/xapm.h 311-311 XAPM_SICR_MCNTR_RST_MASK *)
Definition XAPM_SICR_MCNTR_RST_MASK : Z := 0x00000100.
(* @src shared/linux/xapm.h 313-313 XAPM_SICR_LOAD_MASK *)
Definition XAPM_SICR_LOAD_MASK : Z := 0x00000002.
(* @src shared/linux/xapm.h 316-316 XAPM_SICR_ENABLE_MASK *)
Definition XAPM_SICR_ENABLE_MASK : Z := 0x00000001.
(* @src shared/linux/xapm.h 358-358 XAPM_CR_FIFO_RESET_MASK *)
Definition XAPM_CR_FIFO_RESET_MASK : Z := 0x02000000.
(* @src shared/linux/xapm.h 362-362 XAPM_CR_GCC_RESET_MASK *)
Definition XAPM_CR_GCC_RESET_MASK : Z := 0x00020000.
(* @src shared/linux/xapm.h 365-365 XAPM_CR_GCC_ENABLE_MASK *)
Definition XAPM_CR_GCC_ENABLE_MASK : Z := 0x00010000.
(* @src shared/linux/xapm.h 368-368 XAPM_CR_EVTLOG_EXTTRIGGER_MASK *)
Definition XAPM_CR_EVTLOG_EXTTRIGGER_MASK : Z := 0x00000200.
(* @src shared/linux/xapm.h 371-371 XAPM_CR_EVENTLOG_ENABLE_MASK *)
Definition XAPM_CR_EVENTLOG_ENABLE_MASK : Z := 0x00000100.
(* @src shared/linux/xapm.h 373-373 XAPM_CR_RDLATENCY_END_MASK *)
Definition XAPM_CR_RDLATENCY_END_MASK : Z := 0x00000080.
(* @src shared/linux/xapm.h 376-376 XAPM_CR_RDLATENCY_START_MASK *)
Definition XAPM_CR_RDLATENCY_START_MASK : Z := 0x00000040.
(* @src shared/linux/xapm.h 379-379 XAPM_CR_WRLATENCY_END_MASK *)
Definition XAPM_CR_WRLATENCY_END_MASK : Z := 0x00000020.
(* @src shared/linux/xapm.h 382-382 XAPM_CR_WRLATENCY_START_MASK *)
Definition XAPM_CR_WRLATENCY_START_MASK : Z := 0x00000010.
(* @src shared/linux/xapm.h 385-385 XAPM_CR_IDFILTER_ENABLE_MASK *)
Definition XAPM_CR_IDFILTER_ENABLE_MASK : Z := 0x00000008.
(* @src shared/linux/xapm.h 387-387 XAPM_CR_MCNTR_EXTTRIGGER_MASK *)
Definition XAPM_CR_MCNTR_EXTTRIGGER_MASK : Z := 0x00000004.
(* @src shared/linux/xapm.h 391-391 XAPM_CR_MCNTR_RESET_MASK *)
Definition XAPM_CR_MCNTR_RESET_MASK : Z := 0x00000002.
(* @src shared/linux/xapm.h 394-394 XAPM_CR_MCNTR_ENABLE_MASK *)
Definition XAPM_CR_MCNTR_ENABLE_MASK : Z := 0x00000001.
(* @src shared/linux/xapm.h 398-398 XAPM_ID_RID_MASK *)
Definition XAPM_ID_RID_MASK : Z := 0xffff0000.
(* @src shared/linux/xapm.h 400-400 XAPM_ID_WID_MASK *)
Definition XAPM_ID_WID_MASK : Z := 0x0000ffff.
(* @src shared/linux/xapm.h 402-402 XAPM_MASKID_RID_MASK *)
Definition XAPM_MASKID_RID_MASK : Z := 0xffff0000.
(* @src shared/linux/xapm.h 404-404 XAPM_MASKID_WID_MASK *)
Definition XAPM_MASKID_WID_MASK : Z := 0x0000ffff.
(* @src shared/linux/xapm.h 485-485 XAPM_LATENCY_ADDR_ISSUE *)
Definition XAPM_LATENCY_ADDR_ISSUE : Z := 0.
(* @src shared/linux/xapm.h 487-487 XAPM_LATENCY_ADDR_ACCEPT *)
Definition XAPM_LATENCY_ADDR_ACCEPT : Z := 1.
(* @src shared/linux/xapm.h 489-489 XAPM_LATENCY_LASTRD *)
Definition XAPM_LATENCY_LASTRD : Z := 0.
(* @src shared/linux/xapm.h 491-491 XAPM_LATENCY_LASTWR *)
Definition XAPM_LATENCY_LASTWR : Z := 0.
(* @src shared/linux/xapm.h 493-493 XAPM_LATENCY_FIRSTRD *)
Definition XAPM_LATENCY_FIRSTRD : Z := 1.
(* @src shared/linux/xapm.h 495-495 XAPM_LATENCY_FIRSTWR *)
Definition XAPM_LATENCY_FIRSTWR : Z := 1.
(* @src shared/linux/xapm.h 498-498 XAPM_MODE_TRACE *)
Definition XAPM_MODE_TRACE : Z := 2.
(* @src shared/linux/xapm.h 500-500 XAPM_MODE_PROFILE *)
Definition XAPM_MODE_PROFILE : Z := 1.
(* @src shared/linux/xapm.h 502-502 XAPM_MODE_ADVANCED *)
Definition XAPM_MODE_ADVANCED : Z := 0.
(* @src shared/linux/xapm.h 318-318 XAPM_IXR_MC9_OVERFLOW_MASK *)
Definition XAPM_IXR_MC9_OVERFLOW_MASK : Z := 0x00001000.
(* @src shared/linux/xapm.h 320-320 XAPM_IXR_MC8_OVERFLOW_MASK *)
Definition XAPM_IXR_MC8_OVERFLOW_MASK : Z := 0x00000800.
(* @src shared/linux/xapm.h 322-322 XAPM_IXR_MC7_OVERFLOW_MASK *)
Definition XAPM_IXR_MC7_OVERFLOW_MASK : Z := 0x00000400.
(* @src shared/linux/xapm.h 324-324 XAPM_IXR_MC6_OVERFLOW_MASK *)
Definition XAPM_IXR_MC6_OVERFLOW_MASK : Z := 0x00000200.
(* @src shared/linux/xapm.h 326-326 XAPM_IXR_MC5_OVERFLOW_MASK *)
Definition XAPM_IXR_MC5_OVERFLOW_MASK : Z := 0x00000100.
(* @src shared/linux/xapm.h 328-328 XAPM_IXR_MC4_OVERFLOW_MASK *)
Definition XAPM_IXR_MC4_OVERFLOW_MASK : Z := 0x00000080.
(* @src shared/linux/xapm.h 330-330 XAPM_IXR_MC3_OVERFLOW_MASK *)
Definition XAPM_IXR_MC3_OVERFLOW_MASK : Z := 0x00000040.
(* @src shared/linux/xapm.h 332-332 XAPM_IXR_MC2_OVERFLOW_MASK *)
Definition XAPM_IXR_MC2_OVERFLOW_MASK : Z := 0x00000020.
(* @src shared/linux/xapm.h 334-334 XAPM_IXR_MC1_OVERFLOW_MASK *)
Definition XAPM_IXR_MC1_OVERFLOW_MASK : Z := 0x00000010.
(* @src shared/linux/xapm.h 336-336 XAPM_IXR_MC0_OVERFLOW_MASK *)
Definition XAPM_IXR_MC0_OVERFLOW_MASK : Z := 0x00000008.
(* @src shared/linux/xapm.h 338-338 XAPM_IXR_FIFO_FULL_MASK *)
Definition XAPM_IXR_FIFO_FULL_MASK : Z := 0x00000004.
(* @src shared/linux/xapm.h 340-340 XAPM_IXR_SIC_OVERFLOW_MASK *)
Definition XAPM_IXR_SIC_OVERFLOW_MASK : Z := 0x00000002.
(* @src shared/linux/xapm.h 342-342 XAPM_IXR_GCC_OVERFLOW_MASK *)
Definition XAPM_IXR_GCC_OVERFLOW_MASK : Z := 0x00000001.
(* @src shared/linux/xapm.h 460-460 XAPM_FLAG_WRADDR *)
Definition XAPM_FLAG_WRADDR : Z := 0x00000001.
(* @src shared/linux/xapm.h 461-461 XAPM_FLAG_FIRSTWR *)
Definition XAPM_FLAG_FIRSTWR : Z := 0x00000002.
(* @src shared/linux/xapm.h 462-462 XAPM_FLAG_LASTWR *)
Definition XAPM_FLAG_LASTWR : Z := 0x00000004.
(* @src shared/linux/xapm.h 463-463 XAPM_FLAG_RESPONSE *)
Definition XAPM_FLAG_RESPONSE : Z := 0x00000008.
(* @src shared/linux/xapm.h 464-464 XAPM_FLAG_RDADDR *)
Definition XAPM_FLAG_RDADDR : Z := 0x00000010.
(* @src shared/linux/xapm.h 465-465 XAPM_FLAG_FIRSTRD *)
Definition XAPM_FLAG_FIRSTRD : Z := 0x00000020.
(* @src shared/linux/xapm.h 466-466 XAPM_FLAG_LASTRD *)
Definition XAPM_FLAG_LASTRD : Z := 0x00000040.
(* @src shared/linux/xapm.h 467-467 XAPM_FLAG_SWDATA *)
Definition XAPM_FLAG_SWDATA : Z := 0x00010000.

(* @src shared/linux/xapm.h 344-356 XAPM_IXR_ALL_MASK *)
Definition XAPM_IXR_ALL_MASK : Z :=
  fold_right Z.lor 0
    [XAPM_IXR_SIC_OVERFLOW_MASK; XAPM_IXR_GCC_OVERFLOW_MASK; XAPM_IXR_FIFO_FULL_MASK;
     XAPM_IXR_MC0_OVERFLOW_MASK; XAPM_IXR_MC1_OVERFLOW_MASK; XAPM_IXR_MC2_OVERFLOW_MASK;
     XAPM_IXR_MC3_OVERFLOW_MASK; XAPM_IXR_MC4_OVERFLOW_MASK; XAPM_IXR_MC5_OVERFLOW_MASK;
     XAPM_IXR_MC6_OVERFLOW_MASK; XAPM_IXR_MC7_OVERFLOW_MASK; XAPM_IXR_MC8_OVERFLOW_MASK;
     XAPM_IXR_MC9_OVERFLOW_MASK].

(** The parameters of the core instance, filled in by [monitor_init] and only
    read by the driver. *)
(* @src shared/linux/xapm.h 512-525 xapm_param *)
Record xapm_param := {
  mode : Z;
  maxslots : Z;
  eventcnt : Z;
  eventlog : Z;
  sampledcnt : Z;
  numcounters : Z;
  metricwidth : Z;
  sampledwidth : Z;
  globalcntwidth : Z;
  scalefactor : Z;
  isr : Z;
  is_32bit_filter : bool
}.
