(* ===== verification/Apm.v ===== *)
(** The AXI performance monitor driver (shared/linux/xapm.c and the access
    macros of shared/linux/xapm.h).

    [Apm] transcribes every function of the driver over an arbitrary
    [Device]; the parameters of the core ([params]) and the address it is
    mapped at ([baseaddr]) are read-only for this file, so they are section
    variables.  The second half proves, against the [RegFile] interface,
    what the driver leaves in the configuration registers. *)
From S2P Require Import Prelude Device ApmRegs.

Section Driver.
Context {D : Type} `{HD : Device D} (params : xapm_param) (baseaddr : Z).

(* @src shared/linux/xapm.h 544-545 readreg *)
Definition readreg (off : Z) : io D Z := bus_read (u64 (baseaddr + off)).

(* @src shared/linux/xapm.h 564-565 writereg *)
Definition writereg (off data : Z) : io D unit := bus_write (u64 (baseaddr + off)) data.

(** ** Macros of xapm.h *)

(* @src shared/linux/xapm.h 576-577 intrglobalenable *)
Definition intrglobalenable : io D unit := writereg XAPM_GIE_OFFSET 1.

(* @src shared/linux/xapm.h 589-590 intrglobaldisable *)
Definition intrglobaldisable : io D unit := writereg XAPM_GIE_OFFSET 0.

(* @src shared/linux/xapm.h 608-610 intrenable *)
Definition intrenable (mask : Z) : io D unit :=
  v ← readreg XAPM_IE_OFFSET; writereg XAPM_IE_OFFSET (Z.lor v mask).

(* @src shared/linux/xapm.h 630-632 intrdisable *)
Definition intrdisable (mask : Z) : io D unit :=
  v ← readreg XAPM_IE_OFFSET; writereg XAPM_IE_OFFSET (Z.lor v mask).

(* @src shared/linux/xapm.h 649-651 intrclear *)
Definition intrclear (mask : Z) : io D unit :=
  v ← readreg XAPM_IS_OFFSET; writereg XAPM_IS_OFFSET (Z.lor v mask).

(* @src shared/linux/xapm.h 665-665 intrgetstatus *)
Definition intrgetstatus : Z := isr params.

(* @src shared/linux/xapm.h 678-678 intrhwgetstatus *)
Definition intrhwgetstatus : Z := isr params.

(* @src shared/linux/xapm.h 689-691 enablegcc *)
Definition enablegcc : io D unit :=
  v ← readreg XAPM_CTL_OFFSET; writereg XAPM_CTL_OFFSET (Z.lor v XAPM_CR_GCC_ENABLE_MASK).

(* @src shared/linux/xapm.h 702-704 disablegcc *)
Definition disablegcc : io D unit :=
  v ← readreg XAPM_CTL_OFFSET; writereg XAPM_CTL_OFFSET (Z.land v (not32 XAPM_CR_GCC_ENABLE_MASK)).

(* @src shared/linux/xapm.h 719-721 enableflag *)
Definition enableflag (flag : Z) : io D unit :=
  v ← readreg XAPM_FEC_OFFSET; writereg XAPM_FEC_OFFSET (Z.lor v flag).

(* @src shared/linux/xapm.h 735-737 disableflag *)
Definition disableflag (flag : Z) : io D unit :=
  v ← readreg XAPM_FEC_OFFSET; writereg XAPM_FEC_OFFSET (Z.land v (not32 flag)).

(* @src shared/linux/xapm.h 749-750 loadsic *)
Definition loadsic : io D unit := writereg XAPM_SICR_OFFSET XAPM_SICR_LOAD_MASK.

(* @src shared/linux/xapm.h 762-763 enablesic *)
Definition enablesic : io D unit := writereg XAPM_SICR_OFFSET XAPM_SICR_ENABLE_MASK.

(* @src shared/linux/xapm.h 774-776 disablesic *)
Definition disablesic : io D unit :=
  v ← readreg XAPM_SICR_OFFSET; writereg XAPM_SICR_OFFSET (Z.land v (not32 XAPM_SICR_ENABLE_MASK)).

(* @src shared/linux/xapm.h 787-788 enablemcreset *)
Definition enablemcreset : io D unit := writereg XAPM_SICR_OFFSET XAPM_SICR_MCNTR_RST_MASK.

(* @src shared/linux/xapm.h 799-801 disablemcreset *)
Definition disablemcreset : io D unit :=
  v ← readreg XAPM_SICR_OFFSET; writereg XAPM_SICR_OFFSET (Z.land v (not32 XAPM_SICR_MCNTR_RST_MASK)).

(* @src shared/linux/xapm.h 812-814 enableidfilter *)
Definition enableidfilter : io D unit :=
  v ← readreg XAPM_CTL_OFFSET; writereg XAPM_CTL_OFFSET (Z.lor v XAPM_CR_IDFILTER_ENABLE_MASK).

(* @src shared/linux/xapm.h 825-827 disableidfilter *)
Definition disableidfilter : io D unit :=
  v ← readreg XAPM_CTL_OFFSET; writereg XAPM_CTL_OFFSET (Z.land v (not32 XAPM_CR_IDFILTER_ENABLE_MASK)).

(* @src shared/linux/xapm.h 843-843 samplemetrics *)
Definition samplemetrics : io D Z := readreg XAPM_SR_OFFSET.

(** ** Functions of xapm.c *)

(* @src shared/linux/xapm.c 14-32 resetmetriccounter *)
Definition resetmetriccounter : io D Z :=
  regval ← readreg XAPM_CTL_OFFSET;
  _ ← writereg XAPM_CTL_OFFSET (Z.lor regval XAPM_CR_MCNTR_RESET_MASK);
  _ ← writereg XAPM_CTL_OFFSET (Z.land regval (not32 XAPM_CR_MCNTR_RESET_MASK));
  mret XST_SUCCESS.

(* @src shared/linux/xapm.c 44-63 resetglobalclkcounter *)
Definition resetglobalclkcounter : io D unit :=
  regval ← readreg XAPM_CTL_OFFSET;
  _ ← writereg XAPM_CTL_OFFSET (Z.lor regval XAPM_CR_GCC_RESET_MASK);
  writereg XAPM_CTL_OFFSET (Z.land regval (not32 XAPM_CR_GCC_RESET_MASK)).

(* @src shared/linux/xapm.c 75-98 resetfifo *)
Definition resetfifo : io D Z :=
  if eventlog params =? 0 then mret XST_SUCCESS else
  regval ← readreg XAPM_CTL_OFFSET;
  _ ← writereg XAPM_CTL_OFFSET (Z.lor regval XAPM_CR_FIFO_RESET_MASK);
  _ ← writereg XAPM_CTL_OFFSET (Z.land regval (not32 XAPM_CR_FIFO_RESET_MASK));
  mret XST_SUCCESS.

(* @src shared/linux/xapm.c 115-126 setincrementerrange *)
Definition setincrementerrange (incrementer rangehigh rangelow : Z) : io D unit :=
  let regval := u32 (Z.shiftl rangehigh 16) in
  let regval := Z.lor regval rangelow in
  writereg (XAPM_RANGE0_OFFSET + incrementer * 16) regval.

(** Returns [(rangehigh, rangelow)]. *)
(* @src shared/linux/xapm.c 145-154 getincrementerrange *)
Definition getincrementerrange (incrementer : Z) : io D (Z * Z) :=
  regval ← readreg (XAPM_RANGE0_OFFSET + incrementer * 16);
  mret (Z.land (Z.shiftr regval 16) 0xFFFF, Z.land regval 0xFFFF).

(* @src shared/linux/xapm.c 168-175 setsampleinterval *)
Definition setsampleinterval (sampleinterval : Z) : io D unit :=
  writereg XAPM_SI_LOW_OFFSET sampleinterval.

(* @src shared/linux/xapm.c 189-196 getsampleinterval *)
Definition getsampleinterval : io D Z := readreg XAPM_SI_LOW_OFFSET.

(* @src shared/linux/xapm.c 217-255 setmetrics *)
Definition setmetrics (slot metrics counter : Z) : io D Z :=
  let mask :=
    if (counter =? 0) || (counter =? 4) || (counter =? 8) then 0xFFFFFF00
    else if (counter =? 1) || (counter =? 5) || (counter =? 9) then 0xFFFF00FF
    else if (counter =? 2) || (counter =? 6) then 0xFF00FFFF
    else 0x00FFFFFF in
  if counter <=? 3 then
    regval ← readreg XAPM_MSR0_OFFSET;
    let regval := Z.land regval mask in
    let regval := Z.lor regval (u32 (Z.shiftl metrics (counter * 8))) in
    let regval := Z.lor regval (u32 (Z.shiftl slot (counter * 8 + 5))) in
    _ ← writereg XAPM_MSR0_OFFSET regval;
    mret XST_SUCCESS
  else if (4 <=? counter) && (counter <=? 7) then
    let counter := counter - 4 in
    regval ← readreg XAPM_MSR1_OFFSET;
    let regval := Z.land regval mask in
    let regval := Z.lor regval (u32 (Z.shiftl metrics (counter * 8))) in
    let regval := Z.lor regval (u32 (Z.shiftl slot (counter * 8 + 5))) in
    _ ← writereg XAPM_MSR1_OFFSET regval;
    mret XST_SUCCESS
  else
    let counter := counter - 8 in
    regval ← readreg XAPM_MSR2_OFFSET;
    let regval := Z.land regval mask in
    let regval := Z.lor regval (u32 (Z.shiftl metrics (counter * 8))) in
    let regval := Z.lor regval (u32 (Z.shiftl slot (counter * 8 + 5))) in
    _ ← writereg XAPM_MSR2_OFFSET regval;
    mret XST_SUCCESS.

(** Returns [(status, metrics, slot)]. *)
(* @src shared/linux/xapm.c 275-295 getmetrics *)
Definition getmetrics (counter : Z) : io D (Z * Z * Z) :=
  if counter <=? 3 then
    regval ← readreg XAPM_MSR0_OFFSET;
    mret (XST_SUCCESS, Z.land (Z.shiftr regval (counter * 8)) 0x1F,
          Z.land (Z.shiftr regval (counter * 8 + 5)) 0x7)
  else if (4 <=? counter) && (counter <=? 7) then
    let counter := counter - 4 in
    regval ← readreg XAPM_MSR1_OFFSET;
    mret (XST_SUCCESS, Z.land (Z.shiftr regval (counter * 8)) 0x1F,
          Z.land (Z.shiftr regval (counter * 8 + 5)) 0x7)
  else
    let counter := counter - 8 in
    regval ← readreg XAPM_MSR2_OFFSET;
    mret (XST_SUCCESS, Z.land (Z.shiftr regval (counter * 8)) 0x1F,
          Z.land (Z.shiftr regval (counter * 8 + 5)) 0x7).

(** Returns [(cnthigh, cntlow)]. *)
(* @src shared/linux/xapm.c 312-327 getglobalclkcounter *)
Definition getglobalclkcounter : io D (Z * Z) :=
  cnthigh ← (if globalcntwidth params =? 64 then readreg XAPM_GCC_HIGH_OFFSET else mret 0);
  cntlow ← readreg XAPM_GCC_LOW_OFFSET;
  mret (cnthigh, cntlow).

(* @src shared/linux/xapm.c 343-350 getmetriccounter *)
Definition getmetriccounter (counter : Z) : io D Z :=
  readreg (u32 (XAPM_MC0_OFFSET + u32 (counter * 16))).

(* @src shared/linux/xapm.c 367-374 getsampledmetriccounter *)
Definition getsampledmetriccounter (counter : Z) : io D Z :=
  readreg (u32 (XAPM_SMC0_OFFSET + u32 (counter * 16))).

(* @src shared/linux/xapm.c 392-399 getincrementer *)
Definition getincrementer (incrementer : Z) : io D Z :=
  readreg (u32 (XAPM_INC0_OFFSET + u32 (incrementer * 16))).

(* @src shared/linux/xapm.c 417-424 getsampledincrementer *)
Definition getsampledincrementer (incrementer : Z) : io D Z :=
  readreg (u32 (XAPM_SINC0_OFFSET + u32 (incrementer * 16))).

(* @src shared/linux/xapm.c 438-444 setswdatareg *)
Definition setswdatareg (swdata : Z) : io D unit := writereg XAPM_SWD_OFFSET swdata.

(* @src shared/linux/xapm.c 456-465 getswdatareg *)
Definition getswdatareg : io D Z := readreg XAPM_SWD_OFFSET.

(* @src shared/linux/xapm.c 484-497 starteventlog *)
Definition starteventlog (flagenables : Z) : io D Z :=
  regval ← readreg XAPM_CTL_OFFSET;
  _ ← writereg XAPM_FEC_OFFSET flagenables;
  _ ← writereg XAPM_CTL_OFFSET (Z.lor regval XAPM_CR_EVENTLOG_ENABLE_MASK);
  mret XST_SUCCESS.

(* @src shared/linux/xapm.c 510-523 stopeventlog *)
Definition stopeventlog : io D Z :=
  regval ← readreg XAPM_CTL_OFFSET;
  _ ← writereg XAPM_CTL_OFFSET (Z.land regval (not32 XAPM_CR_EVENTLOG_ENABLE_MASK));
  mret XST_SUCCESS.

(* @src shared/linux/xapm.c 538-560 startcounters *)
Definition startcounters (sampleinterval : Z) : io D Z :=
  regval ← readreg XAPM_CTL_OFFSET;
  let regval := if mode params =? 1 then Z.lor regval XAPM_CR_GCC_ENABLE_MASK else regval in
  _ ← writereg XAPM_CTL_OFFSET (Z.lor regval XAPM_CR_MCNTR_ENABLE_MASK);
  _ ← setsampleinterval sampleinterval;
  _ ← loadsic;
  _ ← enablesic;
  mret XST_SUCCESS.

(* @src shared/linux/xapm.c 574-593 stopcounters *)
Definition stopcounters : io D Z :=
  regval ← readreg XAPM_CTL_OFFSET;
  let regval := if mode params =? 1 then Z.land regval (not32 XAPM_CR_GCC_ENABLE_MASK) else regval in
  _ ← writereg XAPM_CTL_OFFSET (Z.land regval (not32 XAPM_CR_MCNTR_ENABLE_MASK));
  mret XST_SUCCESS.

(* @src shared/linux/xapm.c 605-612 enablemetricscounter *)
Definition enablemetricscounter : io D unit :=
  regval ← readreg XAPM_CTL_OFFSET;
  writereg XAPM_CTL_OFFSET (Z.lor regval XAPM_CR_MCNTR_ENABLE_MASK).

(* @src shared/linux/xapm.c 623-631 disablemetricscounter *)
Definition disablemetricscounter : io D unit :=
  regval ← readreg XAPM_CTL_OFFSET;
  writereg XAPM_CTL_OFFSET (Z.land regval (not32 XAPM_CR_MCNTR_ENABLE_MASK)).

(* @src shared/linux/xapm.c 652-664 setlogenableranges *)
Definition setlogenableranges (counter rangehigh rangelow : Z) : io D unit :=
  let regval := u32 (Z.shiftl rangehigh 16) in
  let regval := Z.lor regval rangelow in
  writereg (u32 (XAPM_MC0LOGEN_OFFSET + u32 (counter * 16))) regval.

(** Returns [(rangehigh, rangelow)]. *)
(* @src shared/linux/xapm.c 688-697 getlogenableranges *)
Definition getlogenableranges (counter : Z) : io D (Z * Z) :=
  regval ← readreg (u32 (XAPM_MC0LOGEN_OFFSET + u32 (counter * 16)));
  mret (Z.land (Z.shiftr regval 16) 0xFFFF, Z.land regval 0xFFFF).

(* @src shared/linux/xapm.c 709-716 enableeventlog *)
Definition enableeventlog : io D unit :=
  regval ← readreg XAPM_CTL_OFFSET;
  writereg XAPM_CTL_OFFSET (Z.lor regval XAPM_CR_EVENTLOG_ENABLE_MASK).

(* @src shared/linux/xapm.c 730-737 enablemctrigger *)
Definition enablemctrigger : io D unit :=
  regval ← readreg XAPM_CTL_OFFSET;
  writereg XAPM_CTL_OFFSET (Z.lor regval XAPM_CR_MCNTR_EXTTRIGGER_MASK).

(* @src shared/linux/xapm.c 750-758 disablemctrigger *)
Definition disablemctrigger : io D unit :=
  regval ← readreg XAPM_CTL_OFFSET;
  writereg XAPM_CTL_OFFSET (Z.land regval (not32 XAPM_CR_MCNTR_EXTTRIGGER_MASK)).

(* @src shared/linux/xapm.c 771-778 enableeventlogtrigger *)
Definition enableeventlogtrigger : io D unit :=
  regval ← readreg XAPM_CTL_OFFSET;
  writereg XAPM_CTL_OFFSET (Z.lor regval XAPM_CR_EVTLOG_EXTTRIGGER_MASK).

(* @src shared/linux/xapm.c 791-799 disableeventlogtrigger *)
Definition disableeventlogtrigger : io D unit :=
  regval ← readreg XAPM_CTL_OFFSET;
  writereg XAPM_CTL_OFFSET (Z.land regval (not32 XAPM_CR_EVTLOG_EXTTRIGGER_MASK)).

(* @src shared/linux/xapm.c 814-865 getmetricname *)
Definition getmetricname (metrics : Z) : string :=
  if metrics =? 0 then "Write Transaction Count" else
  if metrics =? 1 then "Read Transaction Count" else
  if metrics =? 2 then "Write Byte Count" else
  if metrics =? 3 then "Read Byte Count" else
  if metrics =? 4 then "Write Beat Count" else
  if metrics =? 5 then "Total Read Latency" else
  if metrics =? 6 then "Total Write Latency" else
  if metrics =? 7 then "Slv_Wr_Idle_Cnt" else
  if metrics =? 8 then "Mst_Rd_Idle_Cnt" else
  if metrics =? 9 then "Num_BValids" else
  if metrics =? 10 then "Num_WLasts" else
  if metrics =? 11 then "Num_RLasts" else
  if metrics =? 12 then "Minimum Write Latency" else
  if metrics =? 13 then "Maximum Write Latency" else
  if metrics =? 14 then "Minimum Read Latency" else
  if metrics =? 15 then "Maximum Read Latency" else
  if metrics =? 16 then "Transfer Cycle Count" else
  if metrics =? 17 then "Packet Count" else
  if metrics =? 18 then "Data Byte Count" else
  if metrics =? 19 then "Position Byte Count" else
  if metrics =? 20 then "Null Byte Count" else
  if metrics =? 21 then "Slv_Idle_Cnt" else
  if metrics =? 22 then "Mst_Idle_Cnt" else
  if metrics =? 30 then "External event count" else
  "Unsupported".

(* @src shared/linux/xapm.c 880-892 setwriteid *)
Definition setwriteid (writeid : Z) : io D unit :=
  if negb (is_32bit_filter params) then
    regval ← readreg XAPM_ID_OFFSET;
    let regval := Z.land regval (not32 XAPM_ID_WID_MASK) in
    let regval := Z.lor regval writeid in
    writereg XAPM_ID_OFFSET regval
  else writereg XAPM_ID_OFFSET writeid.

(* @src shared/linux/xapm.c 907-919 setreadid *)
Definition setreadid (readid : Z) : io D unit :=
  if negb (is_32bit_filter params) then
    regval ← readreg XAPM_ID_OFFSET;
    let regval := Z.land regval (not32 XAPM_ID_RID_MASK) in
    let regval := Z.lor regval (u32 (Z.shiftl readid 16)) in
    writereg XAPM_ID_OFFSET regval
  else writereg XAPM_RID_OFFSET readid.

(* @src shared/linux/xapm.c 931-945 getwriteid *)
Definition getwriteid : io D Z :=
  if negb (is_32bit_filter params) then
    regval ← readreg XAPM_ID_OFFSET;
    mret (Z.land regval XAPM_ID_WID_MASK)
  else mret XAPM_IDMASK_OFFSET.

(* @src shared/linux/xapm.c 957-972 getreadid *)
Definition getreadid : io D Z :=
  if negb (is_32bit_filter params) then
    regval ← readreg XAPM_ID_OFFSET;
    let regval := Z.land regval XAPM_ID_RID_MASK in
    mret (Z.shiftr regval 16)
  else mret XAPM_RID_OFFSET.

(* @src shared/linux/xapm.c 986-997 setwrlatencystart *)
Definition setwrlatencystart (param : Z) : io D unit :=
  regval ← readreg XAPM_CTL_OFFSET;
  if param =? XAPM_LATENCY_ADDR_ACCEPT then
    writereg XAPM_CTL_OFFSET (Z.lor regval XAPM_CR_WRLATENCY_START_MASK)
  else
    v ← readreg XAPM_CTL_OFFSET;
    writereg XAPM_CTL_OFFSET (Z.land v (not32 XAPM_CR_WRLATENCY_START_MASK)).

(* @src shared/linux/xapm.c 1011-1022 setwrlatencyend *)
Definition setwrlatencyend (param : Z) : io D unit :=
  regval ← readreg XAPM_CTL_OFFSET;
  if param =? XAPM_LATENCY_FIRSTWR then
    writereg XAPM_CTL_OFFSET (Z.lor regval XAPM_CR_WRLATENCY_END_MASK)
  else
    v ← readreg XAPM_CTL_OFFSET;
    writereg XAPM_CTL_OFFSET (Z.land v (not32 XAPM_CR_WRLATENCY_END_MASK)).

(* @src shared/linux/xapm.c 1036-1047 setrdlatencystart *)
Definition setrdlatencystart (param : Z) : io D unit :=
  regval ← readreg XAPM_CTL_OFFSET;
  if param =? XAPM_LATENCY_ADDR_ACCEPT then
    writereg XAPM_CTL_OFFSET (Z.lor regval XAPM_CR_RDLATENCY_START_MASK)
  else
    v ← readreg XAPM_CTL_OFFSET;
    writereg XAPM_CTL_OFFSET (Z.land v (not32 XAPM_CR_RDLATENCY_START_MASK)).

(* @src shared/linux/xapm.c 1061-1072 setrdlatencyend *)
Definition setrdlatencyend (param : Z) : io D unit :=
  regval ← readreg XAPM_CTL_OFFSET;
  if param =? XAPM_LATENCY_FIRSTRD then
    writereg XAPM_CTL_OFFSET (Z.lor regval XAPM_CR_RDLATENCY_END_MASK)
  else
    v ← readreg XAPM_CTL_OFFSET;
    writereg XAPM_CTL_OFFSET (Z.land v (not32 XAPM_CR_RDLATENCY_END_MASK)).

(** The four latency getters keep the register in a [u8]. *)
(* @src shared/linux/xapm.c 1085-1095 getwrlatencystart *)
Definition getwrlatencystart : io D Z :=
  v ← readreg XAPM_CTL_OFFSET;
  let regval := u8 v in
  let regval := u8 (Z.land regval XAPM_CR_WRLATENCY_START_MASK) in
  mret (if negb (regval =? XAPM_LATENCY_ADDR_ISSUE) then XAPM_LATENCY_ADDR_ACCEPT
        else XAPM_LATENCY_ADDR_ISSUE).

(* @src shared/linux/xapm.c 1108-1118 getwrlatencyend *)
Definition getwrlatencyend : io D Z :=
  v ← readreg XAPM_CTL_OFFSET;
  let regval := u8 v in
  let regval := u8 (Z.land regval XAPM_CR_WRLATENCY_END_MASK) in
  mret (if negb (regval =? XAPM_LATENCY_LASTWR) then XAPM_LATENCY_FIRSTWR
        else XAPM_LATENCY_LASTWR).

(* @src shared/linux/xapm.c 1131-1142 getrdlatencystart *)
Definition getrdlatencystart : io D Z :=
  v ← readreg XAPM_CTL_OFFSET;
  let regval := u8 v in
  let regval := u8 (Z.land regval XAPM_CR_RDLATENCY_START_MASK) in
  mret (if negb (regval =? XAPM_LATENCY_ADDR_ISSUE) then XAPM_LATENCY_ADDR_ACCEPT
        else XAPM_LATENCY_ADDR_ISSUE).

(* @src shared/linux/xapm.c 1155-1166 getrdlatencyend *)
Definition getrdlatencyend : io D Z :=
  v ← readreg XAPM_CTL_OFFSET;
  let regval := u8 v in
  let regval := u8 (Z.land regval XAPM_CR_RDLATENCY_END_MASK) in
  mret (if negb (regval =? XAPM_LATENCY_LASTRD) then XAPM_LATENCY_FIRSTRD
        else XAPM_LATENCY_LASTRD).

(* @src shared/linux/xapm.c 1180-1192 setwriteidmask *)
Definition setwriteidmask (wrmask : Z) : io D unit :=
  if negb (is_32bit_filter params) then
    regval ← readreg XAPM_IDMASK_OFFSET;
    let regval := Z.land regval (not32 XAPM_MASKID_WID_MASK) in
    let regval := Z.lor regval wrmask in
    writereg XAPM_IDMASK_OFFSET regval
  else writereg XAPM_IDMASK_OFFSET wrmask.

(* @src shared/linux/xapm.c 1206-1218 setreadidmask *)
Definition setreadidmask (rdmask : Z) : io D unit :=
  if negb (is_32bit_filter params) then
    regval ← readreg XAPM_IDMASK_OFFSET;
    let regval := Z.land regval (not32 XAPM_MASKID_RID_MASK) in
    let regval := Z.lor regval (u32 (Z.shiftl rdmask 16)) in
    writereg XAPM_IDMASK_OFFSET regval
  else writereg XAPM_RIDMASK_OFFSET rdmask.

(* @src shared/linux/xapm.c 1230-1243 getwriteidmask *)
Definition getwriteidmask : io D Z :=
  if negb (is_32bit_filter params) then
    regval ← readreg XAPM_IDMASK_OFFSET;
    mret (Z.land regval XAPM_MASKID_WID_MASK)
  else mret XAPM_IDMASK_OFFSET.

(* @src shared/linux/xapm.c 1255-1269 getreadidmask *)
Definition getreadidmask : io D Z :=
  if negb (is_32bit_filter params) then
    regval ← readreg XAPM_IDMASK_OFFSET;
    let regval := Z.land regval XAPM_MASKID_RID_MASK in
    mret (Z.shiftr regval 16)
  else mret XAPM_RIDMASK_OFFSET.

End Driver.

(** * What the driver leaves in the configuration registers *)

(** The configuration registers of the core: they hold what is written to
    them (control, metric selectors, ranges, identifiers, flag enables,
    software data, sample interval, interrupt enables). *)
Definition cfg_offset (o : Z) : bool :=
  existsb (Z.eqb o)
    [XAPM_SI_LOW_OFFSET; XAPM_GIE_OFFSET; XAPM_IE_OFFSET; XAPM_MSR0_OFFSET; XAPM_MSR1_OFFSET;
     XAPM_MSR2_OFFSET; XAPM_CTL_OFFSET; XAPM_ID_OFFSET; XAPM_IDMASK_OFFSET; XAPM_RID_OFFSET;
     XAPM_RIDMASK_OFFSET; XAPM_FEC_OFFSET; XAPM_SWD_OFFSET]
  || existsb (fun k => (o =? XAPM_RANGE0_OFFSET + k * 16) || (o =? XAPM_MC0LOGEN_OFFSET + k * 16))
       [0; 1; 2; 3; 4; 5; 6; 7; 8; 9].

Definition apm_reg (baseaddr o : Z) : Z := u64 (baseaddr + o).
Definition apm_cfg (baseaddr : Z) (a : Z) : Prop := exists o, cfg_offset o = true /\ a = apm_reg baseaddr o.

Lemma apm_reg_inj base o o' :
  0 <= o < 4096 -> 0 <= o' < 4096 -> apm_reg base o = apm_reg base o' -> o = o'.
Proof.
  unfold apm_reg, wrap. intros ?? He.
  assert (Hd : (o - o') mod 2 ^ 64 = 0).
  { replace (o - o') with ((base + o) - (base + o')) by lia.
    rewrite Zminus_mod, He, Z.sub_diag. done. }
  apply Z.mod_divide in Hd as [k Hk]; [|done]. nia.
Qed.

(** The byte of a metric selector register that counter [c] uses. *)
Definition msr_offset (c : Z) : Z :=
  if c <=? 3 then XAPM_MSR0_OFFSET else if c <=? 7 then XAPM_MSR1_OFFSET else XAPM_MSR2_OFFSET.
Definition msr_pos (c : Z) : Z := 8 * (c mod 4).

Lemma metric_byte mask k m s x :
  mask = Z.ldiff (Z.ones 32) (Z.shiftl (Z.ones 8) (8 * k)) -> 0 <= k <= 3 ->
  in_word 5 m -> in_word 3 s -> in_word 32 x ->
  Z.lor (Z.lor (Z.land x mask) (u32 (Z.shiftl m (k * 8)))) (u32 (Z.shiftl s (k * 8 + 5)))
  = put_field (8 * k) 8 (Z.lor m (Z.shiftl s 5)) x.
Proof.
  intros -> ????. unfold put_field, clear_field. rewrite (Z.mul_comm k 8).
  Zbits.
Qed.

(** Case analysis on the ten metric counters. *)
Lemma counter_cases c (P : Z -> Prop) :
  0 <= c <= 9 -> P 0 -> P 1 -> P 2 -> P 3 -> P 4 -> P 5 -> P 6 -> P 7 -> P 8 -> P 9 -> P c.
Proof.
  intros Hc. intros. assert (c = 0 \/ c = 1 \/ c = 2 \/ c = 3 \/ c = 4 \/ c = 5 \/ c = 6 \/ c = 7 \/ c = 8 \/ c = 9) as Hd by lia.
  by repeat destruct Hd as [->|Hd]; [..|subst].
Qed.

Lemma metric_split m s :
  in_word 5 m -> in_word 3 s ->
  Z.land (Z.lor m (Z.shiftl s 5)) 0x1F = m /\ Z.land (Z.shiftr (Z.lor m (Z.shiftl s 5)) 5) 0x7 = s.
Proof.
  intros. change 0x1F with (Z.ones 5). change 0x7 with (Z.ones 3). split; Zbits.
Qed.

(** The getters read the two sub-fields of the counter's selector byte. *)
Lemma metric_fields x k :
  0 <= k ->
  Z.land (Z.shiftr x (k * 8)) 0x1F = Z.land (get_field (8 * k) 8 x) 0x1F /\
  Z.land (Z.shiftr x (k * 8 + 5)) 0x7 = Z.land (Z.shiftr (get_field (8 * k) 8 x) 5) 0x7.
Proof.
  intros. unfold get_field. change 0x1F with (Z.ones 5). change 0x7 with (Z.ones 3). split; Zbits.
Qed.

Section Spec.
Context {D : Type} `{HD : Device D} (params : xapm_param) (baseaddr : Z).
Context `{RF : !RegFile D (apm_cfg baseaddr)}.
Abbreviation R := (apm_reg baseaddr).

Lemma cfg_reg o : cfg_offset o = true -> apm_cfg baseaddr (R o).
Proof. intros. by exists o. Qed.

Lemma does_readreg o σ : cfg_offset o = true -> does (readreg baseaddr o) σ (σ (R o)) σ.
Proof. intros. by apply does_read, cfg_reg. Qed.

Lemma does_writereg o v σ : does (writereg baseaddr o v) σ tt (upd (R o) (u32 v) σ).
Proof. apply does_write. Qed.

Lemma leaves_readreg o σ : leaves (readreg baseaddr o) σ σ.
Proof. apply leaves_read. Qed.

Lemma leaves_writereg o v σ : leaves (writereg baseaddr o v) σ (upd (R o) (u32 v) σ).
Proof. apply leaves_write. Qed.

Hint Resolve does_readreg does_writereg leaves_readreg leaves_writereg : regs.
Hint Extern 1 (cfg_offset _ = true) => reflexivity : regs.

(** The selector update all branches of [setmetrics] perform. *)
Lemma does_msr_update σ mask off k slot metrics :
  wf_regs σ -> cfg_offset off = true -> 0 <= k <= 3 -> in_word 3 slot -> in_word 5 metrics ->
  mask = Z.ldiff (Z.ones 32) (Z.shiftl (Z.ones 8) (8 * k)) ->
  does (regval ← readreg baseaddr off;
        _ ← writereg baseaddr off
              (Z.lor (Z.lor (Z.land regval mask) (u32 (Z.shiftl metrics (k * 8))))
                 (u32 (Z.shiftl slot (k * 8 + 5))));
        mret XST_SUCCESS) σ XST_SUCCESS
    (upd (R off) (u32 (put_field (8 * k) 8 (Z.lor metrics (Z.shiftl slot 5)) (σ (R off)))) σ).
Proof.
  intros Hσ Ho Hk Hs Hm Hmask. rewrite <- (metric_byte mask k metrics slot) by auto.
  does_steps.
Qed.

(** Functional specification of [setmetrics]: one byte of one selector
    register changes. *)
Lemma does_setmetrics σ slot metrics counter :
  wf_regs σ -> 0 <= counter <= 9 -> in_word 3 slot -> in_word 5 metrics ->
  does (setmetrics baseaddr slot metrics counter) σ XST_SUCCESS
    (upd (R (msr_offset counter))
       (u32 (put_field (msr_pos counter) 8 (Z.lor metrics (Z.shiftl slot 5)) (σ (R (msr_offset counter))))) σ).
Proof.
  intros Hσ Hc Hs Hm.
  apply (counter_cases counter); [done|eapply does_msr_update; by auto..].
Qed.

Lemma does_getmetrics σ counter :
  0 <= counter <= 9 ->
  let byte := get_field (msr_pos counter) 8 (σ (R (msr_offset counter))) in
  does (getmetrics baseaddr counter) σ (XST_SUCCESS, Z.land byte 0x1F, Z.land (Z.shiftr byte 5) 0x7) σ.
Proof.
  intros Hc. cbv zeta.
  assert (Hg : forall off k, cfg_offset off = true -> 0 <= k ->
    does (regval ← readreg baseaddr off;
          mret (XST_SUCCESS, Z.land (Z.shiftr regval (k * 8)) 0x1F, Z.land (Z.shiftr regval (k * 8 + 5)) 0x7))
      σ (XST_SUCCESS, Z.land (get_field (8 * k) 8 (σ (R off))) 0x1F,
         Z.land (Z.shiftr (get_field (8 * k) 8 (σ (R off))) 5) 0x7) σ).
  { intros off k Ho Hk. destruct (metric_fields (σ (R off)) k Hk) as [<- <-]. does_steps. }
  apply (counter_cases counter); [done|eapply Hg; by auto..].
Qed.
End Spec.

(** ** Metric selection *)
Section Metrics.
Context {D : Type} `{HD : Device D} (baseaddr : Z).
Context `{RF : !RegFile D (apm_cfg baseaddr)}.
Abbreviation R := (apm_reg baseaddr).

(** The selector byte of every counter after [setmetrics] on one of them. *)
Lemma msr_byte_after σ v c c' :
  wf_regs σ -> in_word 8 v -> 0 <= c <= 9 -> 0 <= c' <= 9 ->
  get_field (msr_pos c') 8
    (upd (R (msr_offset c)) (u32 (put_field (msr_pos c) 8 v (σ (R (msr_offset c))))) σ (R (msr_offset c')))
  = if c' =? c then v else get_field (msr_pos c') 8 (σ (R (msr_offset c'))).
Proof.
  intros Hσ Hv Hc Hc'. unfold upd.
  assert (0 <= msr_pos c <= 24) by (unfold msr_pos; pose proof (Z.mod_pos_bound c 4); lia).
  assert (0 <= msr_pos c') by (unfold msr_pos; pose proof (Z.mod_pos_bound c' 4); lia).
  rewrite wrap_id by (apply put_field_range; (lia || done)).
  destruct (Z.eqb_spec (R (msr_offset c)) (R (msr_offset c'))) as [He|He].
  - apply apm_reg_inj in He; [|by apply (counter_cases c)|by apply (counter_cases c')].
    rewrite He. destruct (Z.eqb_spec c' c) as [->|Hne]; [by apply get_put_field|].
    apply get_put_field_other; try done; try lia.
    unfold msr_offset, msr_pos in *.
    assert (c mod 4 <> c' mod 4); [|lia].
    revert He Hne. apply (counter_cases c); [done|..]; apply (counter_cases c'); try done; lia.
  - destruct (Z.eqb_spec c' c) as [->|Hne]; [congruence|done].
Qed.

Lemma getmetrics_after_setmetrics d slot metrics c c' :
  0 <= c <= 9 -> 0 <= c' <= 9 -> in_word 3 slot -> in_word 5 metrics ->
  run (getmetrics baseaddr c') (exec (setmetrics baseaddr slot metrics c) d)
  = if c' =? c then (XST_SUCCESS, metrics, slot) else run (getmetrics baseaddr c') d.
Proof.
  intros Hc Hc' Hs Hm.
  pose proof (does_setmetrics baseaddr _ slot metrics c (wf_peek d) Hc Hs Hm) as Hset.
  rewrite (does_run _ _ _ _ _ (does_getmetrics baseaddr _ c' Hc')
             (leaves_exec _ _ _ _ (does_leaves _ _ _ _ Hset) (holds_peek d))).
  rewrite (does_run _ _ _ _ _ (does_getmetrics baseaddr _ c' Hc') (holds_peek d)).
  rewrite msr_byte_after; [|apply wf_peek| |done..].
  - destruct (Z.eqb_spec c' c); [|done]. by destruct (metric_split metrics slot) as [-> ->].
  - apply in_word_lor; [done|by eapply in_word_weaken; [|exact Hm]|by apply (in_word_shiftl 3 5)].
Qed.
(** selecting a metric set and a slot for one of the ten counters makes
    exactly that counter report them; what every other counter reports,
    including those that share its selector register, is unchanged. *)
Theorem setmetrics_getmetrics d slot metrics c c' :
  0 <= c <= 9 -> 0 <= c' <= 9 -> in_word 3 slot -> in_word 5 metrics ->
  run (getmetrics baseaddr c') (exec (setmetrics baseaddr slot metrics c) d)
  = if c' =? c then (XST_SUCCESS, metrics, slot) else run (getmetrics baseaddr c') d.
Proof. apply getmetrics_after_setmetrics. Qed.
End Metrics.

Lemma setmetrics_getmetrics_witness :
  run (getmetrics 0x1000 6) (exec (setmetrics 0x1000 1 2 6) (ram_fill 0xFFFFFFFF)) = (XST_SUCCESS, 2, 1).
Proof.
  rewrite (setmetrics_getmetrics 0x1000 (ram_fill 0xFFFFFFFF) 1 2 6 6); [reflexivity|lia..| |];
  split; [lia|reflexivity|lia|reflexivity].
Defined.

(** ** Identifier filters, latency end points, ranges *)

(** The half-word updates of the identifier registers. *)
Lemma low_half x v :
  in_word 16 v -> Z.lor (Z.land x (not32 0x0000FFFF)) v = put_field 0 16 v (u32 x).
Proof. intros. change 0x0000FFFF with (Z.ones 16). unfold put_field, clear_field. Zbits. Qed.

Lemma high_half x v :
  in_word 16 v -> Z.lor (Z.land x (not32 0xFFFF0000)) (u32 (Z.shiftl v 16)) = put_field 16 16 v (u32 x).
Proof.
  intros. change 0xFFFF0000 with (Z.shiftl (Z.ones 16) 16). unfold put_field, clear_field. Zbits.
Qed.

Lemma low_half_get x : Z.land x 0x0000FFFF = get_field 0 16 x.
Proof. unfold get_field. by rewrite Z.shiftr_0_r. Qed.

Lemma high_half_get x : in_word 32 x -> Z.shiftr (Z.land x 0xFFFF0000) 16 = get_field 16 16 x.
Proof. intros. change 0xFFFF0000 with (Z.shiftl (Z.ones 16) 16). unfold get_field. Zbits. Qed.

(** The two filters that live in half-words of one register each. *)
Inductive filter_field := WriteId | ReadId | WriteIdMask | ReadIdMask.
#[export] Instance filter_field_eq_dec : EqDecision filter_field.
Proof. solve_decision. Defined.

Section Filters.
Context {D : Type} `{HD : Device D} (params : xapm_param) (baseaddr : Z).
Context `{RF : !RegFile D (apm_cfg baseaddr)}.
Abbreviation R := (apm_reg baseaddr).

Definition set_filter (f : filter_field) : Z -> io D unit :=
  match f with
  | WriteId => setwriteid params baseaddr
  | ReadId => setreadid params baseaddr
  | WriteIdMask => setwriteidmask params baseaddr
  | ReadIdMask => setreadidmask params baseaddr
  end.

Definition get_filter (f : filter_field) : io D Z :=
  match f with
  | WriteId => getwriteid params baseaddr
  | ReadId => getreadid params baseaddr
  | WriteIdMask => getwriteidmask params baseaddr
  | ReadIdMask => getreadidmask params baseaddr
  end.

Definition filter_reg (f : filter_field) : Z :=
  match f with WriteId | ReadId => XAPM_ID_OFFSET | WriteIdMask | ReadIdMask => XAPM_IDMASK_OFFSET end.
Definition filter_pos (f : filter_field) : Z :=
  match f with WriteId | WriteIdMask => 0 | ReadId | ReadIdMask => 16 end.

Hint Resolve does_readreg does_writereg leaves_readreg leaves_writereg : regs.
Hint Extern 1 (cfg_offset _ = true) => reflexivity : regs.

Lemma does_set_filter σ f v :
  is_32bit_filter params = false -> wf_regs σ -> in_word 16 v ->
  does (set_filter f v) σ tt
    (upd (R (filter_reg f)) (u32 (put_field (filter_pos f) 16 v (σ (R (filter_reg f))))) σ).
Proof.
  intros Hp Hσ Hv. rewrite <- (wrap_id 32 (σ (R (filter_reg f)))) at 1 by apply Hσ.
  destruct f; simpl filter_reg; simpl filter_pos; rewrite <- ?low_half, <- ?high_half by done;
    simpl; unfold setwriteid, setreadid, setwriteidmask, setreadidmask; rewrite Hp; simpl; does_steps.
Qed.

Lemma does_get_filter σ f :
  is_32bit_filter params = false -> wf_regs σ ->
  does (get_filter f) σ (get_field (filter_pos f) 16 (σ (R (filter_reg f)))) σ.
Proof.
  intros Hp Hσ.
  destruct f; simpl filter_reg; simpl filter_pos; rewrite <- ?low_half_get, <- ?high_half_get by apply Hσ;
    simpl; unfold getwriteid, getreadid, getwriteidmask, getreadidmask; rewrite Hp; simpl; does_steps.
Qed.

(** with the 16-bit identifier filters, each of the write/read identifier
    and mask setters is read back by its own getter, and none of them
    disturbs the other three (the halves of a register are independent). *)
Theorem filter_set_get d f f' v :
  is_32bit_filter params = false -> in_word 16 v ->
  run (get_filter f') (exec (set_filter f v) d) = if decide (f' = f) then v else run (get_filter f') d.
Proof.
  intros Hp Hv. pose proof (does_set_filter _ f v Hp (wf_peek d) Hv) as Hset.
  pose proof (leaves_exec _ _ _ _ (does_leaves _ _ _ _ Hset) (holds_peek d)) as Hd.
  rewrite (does_run _ _ _ _ _ (does_get_filter _ f' Hp (wf_upd _ _ _ (wf_peek d))) Hd).
  rewrite (does_run _ _ _ _ _ (does_get_filter _ f' Hp (wf_peek d)) (holds_peek d)).
  unfold upd. destruct (Z.eqb_spec (R (filter_reg f)) (R (filter_reg f'))) as [He|He].
  - apply apm_reg_inj in He; [|by destruct f|by destruct f']. rewrite He.
    rewrite wrap_id by (apply put_field_range; [by destruct f|done|by destruct f|done|apply peek_word]).
    case_decide as Hf; [subst; by apply get_put_field; [destruct f|..]|].
    apply get_put_field_other; try done; destruct f, f'; simpl in *; (lia || discriminate || done).
  - case_decide as Hf; [by subst|done].
Qed.

(** with the 32-bit identifier filters the four getters ignore the device:
    they return the offset of a register (the write-identifier getter even
    that of the mask register), whatever was set. *)
Theorem filter_get_32bit d f :
  is_32bit_filter params = true ->
  run (get_filter f) d
  = match f with
    | WriteId | WriteIdMask => XAPM_IDMASK_OFFSET
    | ReadId => XAPM_RID_OFFSET
    | ReadIdMask => XAPM_RIDMASK_OFFSET
    end.
Proof using Type. intros Hp. destruct f; simpl; unfold getwriteid, getreadid, getwriteidmask, getreadidmask; by rewrite Hp. Qed.
End Filters.

Definition params16 : xapm_param :=
  {| mode := 0; maxslots := 2; eventcnt := 1; eventlog := 1; sampledcnt := 0; numcounters := 8;
     metricwidth := 32; sampledwidth := 32; globalcntwidth := 64; scalefactor := 1; isr := 0;
     is_32bit_filter := false |}.

Lemma filter_set_get_witness :
  run (get_filter params16 0 ReadId) (exec (set_filter params16 0 ReadId 0xABC) (ram_fill 0x12345678)) = 0xABC.
Proof. rewrite (filter_set_get params16 0 (ram_fill 0x12345678) ReadId ReadId 0xABC); [reflexivity|reflexivity|split; [lia|reflexivity]]. Defined.

Definition params32 : xapm_param :=
  {| mode := 1; maxslots := 2; eventcnt := 1; eventlog := 1; sampledcnt := 0; numcounters := 8;
     metricwidth := 32; sampledwidth := 32; globalcntwidth := 32; scalefactor := 1; isr := 0;
     is_32bit_filter := true |}.

Lemma filter_get_32bit_witness :
  run (get_filter params32 0 WriteId) (exec (set_filter params32 0 WriteId 7) (ram_fill 0)) = 0x308.
Proof. rewrite filter_get_32bit; reflexivity. Defined.

(** The four latency end points: one control-register bit each. *)
Inductive latency_point := WrStart | WrEnd | RdStart | RdEnd.
#[export] Instance latency_point_eq_dec : EqDecision latency_point.
Proof. solve_decision. Defined.

Section Latency.
Context {D : Type} `{HD : Device D} (baseaddr : Z).
Context `{RF : !RegFile D (apm_cfg baseaddr)}.
Abbreviation R := (apm_reg baseaddr).

Definition set_latency (p : latency_point) : Z -> io D unit :=
  match p with
  | WrStart => setwrlatencystart baseaddr
  | WrEnd => setwrlatencyend baseaddr
  | RdStart => setrdlatencystart baseaddr
  | RdEnd => setrdlatencyend baseaddr
  end.

Definition get_latency (p : latency_point) : io D Z :=
  match p with
  | WrStart => getwrlatencystart baseaddr
  | WrEnd => getwrlatencyend baseaddr
  | RdStart => getrdlatencystart baseaddr
  | RdEnd => getrdlatencyend baseaddr
  end.

Definition latency_bit (p : latency_point) : Z :=
  match p with WrStart => 4 | WrEnd => 5 | RdStart => 6 | RdEnd => 7 end.

Hint Resolve does_readreg does_writereg leaves_readreg leaves_writereg : regs.
Hint Extern 1 (cfg_offset _ = true) => reflexivity : regs.

Lemma set_bit_lor x n : 0 <= n -> Z.lor x (2 ^ n) = put_field n 1 1 x.
Proof.
  intros. rewrite <- Z.shiftl_1_l. unfold put_field, clear_field.
  replace (Z.shiftl 1 n) with (Z.shiftl (Z.ones 1) n) by done. Zbits.
Qed.

Lemma clear_bit_land x n : 0 <= n < 32 -> Z.land x (not32 (2 ^ n)) = put_field n 1 0 (u32 x).
Proof.
  intros. rewrite <- Z.shiftl_1_l. unfold put_field, clear_field.
  replace (Z.shiftl 1 n) with (Z.shiftl (Z.ones 1) n) by done. rewrite Z.shiftl_0_l. Zbits.
Qed.

Lemma does_set_latency σ p b :
  wf_regs σ -> b = 0 \/ b = 1 ->
  does (set_latency p b) σ tt
    (upd (R XAPM_CTL_OFFSET) (u32 (put_field (latency_bit p) 1 b (σ (R XAPM_CTL_OFFSET)))) σ).
Proof.
  intros Hσ [-> | ->].
  - rewrite <- (wrap_id 32 (σ (R XAPM_CTL_OFFSET))) by apply Hσ.
    rewrite <- clear_bit_land by (destruct p; simpl; lia).
    destruct p; unfold set_latency, setwrlatencystart, setwrlatencyend, setrdlatencystart, setrdlatencyend; simpl; does_steps.
  - rewrite <- set_bit_lor by (destruct p; simpl; lia).
    destruct p; unfold set_latency, setwrlatencystart, setwrlatencyend, setrdlatencystart, setrdlatencyend; simpl; does_steps.
Qed.

(** The getters' [u8] variable is wide enough for their bit. *)
Lemma latency_u8 x n :
  0 <= n < 8 ->
  (if negb (u8 (Z.land (u8 x) (2 ^ n)) =? 0) then 1 else 0) = get_field n 1 x.
Proof.
  intros Hn. assert (Hb : u8 (Z.land (u8 x) (2 ^ n)) = Z.shiftl (get_field n 1 x) n).
  { rewrite <- Z.shiftl_1_l. replace (Z.shiftl 1 n) with (Z.shiftl (Z.ones 1) n) by done.
    unfold get_field. Zbits. }
  rewrite Hb. pose proof (get_field_range n 1 x) as [H0 H1]; [lia|].
  assert (get_field n 1 x = 0 \/ get_field n 1 x = 1) as [-> | ->] by lia; [by rewrite Z.shiftl_0_l|].
  rewrite Z.shiftl_1_l. by destruct (Z.eqb_spec (2 ^ n) 0); [lia|].
Qed.

Lemma does_get_latency σ p :
  does (get_latency p) σ (get_field (latency_bit p) 1 (σ (R XAPM_CTL_OFFSET))) σ.
Proof.
  rewrite <- latency_u8 by (destruct p; simpl; lia).
  destruct p; unfold get_latency, getwrlatencystart, getwrlatencyend, getrdlatencystart, getrdlatencyend; does_steps.
Qed.

(** each latency end-point setter is read back by its getter and leaves
    the other three end points as they were. *)
Theorem latency_set_get d p p' b :
  b = 0 \/ b = 1 ->
  run (get_latency p') (exec (set_latency p b) d) = if decide (p' = p) then b else run (get_latency p') d.
Proof.
  intros Hb. pose proof (does_set_latency _ p b (wf_peek d) Hb) as Hset.
  pose proof (leaves_exec _ _ _ _ (does_leaves _ _ _ _ Hset) (holds_peek d)) as Hd.
  rewrite (does_run _ _ _ _ _ (does_get_latency _ p') Hd).
  rewrite (does_run _ _ _ _ _ (does_get_latency _ p') (holds_peek d)).
  assert (Hb1 : in_word 1 b) by (split; destruct Hb; subst; done).
  rewrite upd_eq, wrap_id
    by (apply put_field_range; [by destruct p|done|by destruct p|done|apply peek_word]).
  case_decide as Hp; [subst; by apply get_put_field; [destruct p|..]|].
  apply get_put_field_other; try done; destruct p, p'; simpl in *; (lia || congruence || done).
Qed.
End Latency.

Lemma latency_set_get_witness :
  run (get_latency 0 RdStart) (exec (set_latency 0 RdStart 1) (ram_fill 0)) = 1 /\
  run (get_latency 0 WrEnd) (exec (set_latency 0 RdStart 1) (ram_fill 0)) = 0.
Proof.
  split; [rewrite (latency_set_get 0 (ram_fill 0) RdStart RdStart 1); [reflexivity|by right]|].
  rewrite (latency_set_get 0 (ram_fill 0) RdStart WrEnd 1); [reflexivity|by right].
Defined.

(** ** Ranges, counters and reset pulses *)
Section Control.
Context {D : Type} `{HD : Device D} (params : xapm_param) (baseaddr : Z).
Context `{RF : !RegFile D (apm_cfg baseaddr)}.
Abbreviation R := (apm_reg baseaddr).

Hint Resolve does_readreg does_writereg leaves_readreg leaves_writereg : regs.
Hint Extern 1 (cfg_offset _ = true) => reflexivity : regs.

Lemma range_word hi lo :
  in_word 16 hi -> in_word 16 lo ->
  let w := u32 (Z.lor (u32 (Z.shiftl hi 16)) lo) in
  Z.land (Z.shiftr w 16) 0xFFFF = hi /\ Z.land w 0xFFFF = lo.
Proof. intros ? ?. cbv zeta. change 0xFFFF with (Z.ones 16). split; Zbits. Qed.

Lemma range_cfg k : 0 <= k <= 9 ->
  cfg_offset (XAPM_RANGE0_OFFSET + k * 16) = true /\
  cfg_offset (u32 (XAPM_MC0LOGEN_OFFSET + u32 (k * 16))) = true.
Proof. intros Hk. by apply (counter_cases k). Qed.

(** the incrementer ranges and the log-enable ranges of the ten counters
    are stored side by side: each pair written is read back, for every pair
    of 16-bit limits, and neither table disturbs an entry of the other or
    another entry of its own. *)
Theorem ranges_set_get d k k' hi lo :
  0 <= k <= 9 -> 0 <= k' <= 9 -> in_word 16 hi -> in_word 16 lo ->
  let d1 := exec (setincrementerrange baseaddr k hi lo) d in
  let d2 := exec (setlogenableranges baseaddr k hi lo) d in
  run (getincrementerrange baseaddr k') d1
    = (if k' =? k then (hi, lo) else run (getincrementerrange baseaddr k') d) /\
  run (getlogenableranges baseaddr k') d2
    = (if k' =? k then (hi, lo) else run (getlogenableranges baseaddr k') d) /\
  run (getlogenableranges baseaddr k') d1 = run (getlogenableranges baseaddr k') d /\
  run (getincrementerrange baseaddr k') d2 = run (getincrementerrange baseaddr k') d.
Proof.
  intros Hk Hk' Hhi Hlo. cbv zeta. destruct (range_cfg k' Hk') as [Hc1 Hc2].
  assert (Hi : forall σ, does (getincrementerrange baseaddr k') σ
    (Z.land (Z.shiftr (σ (R (XAPM_RANGE0_OFFSET + k' * 16))) 16) 0xFFFF,
     Z.land (σ (R (XAPM_RANGE0_OFFSET + k' * 16))) 0xFFFF) σ)
    by (intros; unfold getincrementerrange; does_steps).
  assert (Hl : forall σ, does (getlogenableranges baseaddr k') σ
    (Z.land (Z.shiftr (σ (R (u32 (XAPM_MC0LOGEN_OFFSET + u32 (k' * 16))))) 16) 0xFFFF,
     Z.land (σ (R (u32 (XAPM_MC0LOGEN_OFFSET + u32 (k' * 16))))) 0xFFFF) σ)
    by (intros; unfold getlogenableranges; does_steps).
  pose proof (leaves_exec _ _ _ d (leaves_writereg baseaddr _ _ _ : leaves (setincrementerrange baseaddr k hi lo) _ _)
                (holds_peek d)) as H1.
  pose proof (leaves_exec _ _ _ d (leaves_writereg baseaddr _ _ _ : leaves (setlogenableranges baseaddr k hi lo) _ _)
                (holds_peek d)) as H2.
  rewrite (does_run _ _ _ _ _ (Hi _) H1), (does_run _ _ _ _ _ (Hl _) H1).
  rewrite (does_run _ _ _ _ _ (Hi _) H2), (does_run _ _ _ _ _ (Hl _) H2).
  rewrite (does_run _ _ _ _ _ (Hi _) (holds_peek d)), (does_run _ _ _ _ _ (Hl _) (holds_peek d)).
  destruct (range_word hi lo Hhi Hlo) as [E1 E2].
  unfold upd.
  repeat match goal with |- context [apm_reg baseaddr ?a =? apm_reg baseaddr ?b] =>
    replace (apm_reg baseaddr a =? apm_reg baseaddr b) with (a =? b)
      by (destruct (Z.eqb_spec a b) as [->|Hab]; [by rewrite Z.eqb_refl|];
          symmetry; apply Z.eqb_neq; intros He; apply Hab; revert He;
          apply apm_reg_inj; [by apply (counter_cases k)|by apply (counter_cases k')])
  end.
  assert (Hs : forall j, 0 <= j <= 9 -> u32 (XAPM_MC0LOGEN_OFFSET + u32 (j * 16)) = XAPM_MC0LOGEN_OFFSET + j * 16)
    by (intros j Hj; by apply (counter_cases j)).
  rewrite !Hs by done. unfold XAPM_RANGE0_OFFSET, XAPM_MC0LOGEN_OFFSET.
  repeat split; try (by destruct (Z.eqb_spec (264 + k * 16) (268 + k' * 16)); [lia|]);
    try (by destruct (Z.eqb_spec (268 + k * 16) (264 + k' * 16)); [lia|]).
  - destruct (Z.eqb_spec k' k) as [->|?]; [by rewrite Z.eqb_refl, E1, E2|].
    by destruct (Z.eqb_spec (264 + k * 16) (264 + k' * 16)); [lia|].
  - destruct (Z.eqb_spec k' k) as [->|?]; [by rewrite Z.eqb_refl, E1, E2|].
    by destruct (Z.eqb_spec (268 + k * 16) (268 + k' * 16)); [lia|].
Qed.

(** The control register after [startcounters] / [stopcounters]. *)
Lemma leaves_startcounters σ si :
  leaves (startcounters params baseaddr si) σ
    (upd (R XAPM_SICR_OFFSET) XAPM_SICR_ENABLE_MASK (upd (R XAPM_SICR_OFFSET) XAPM_SICR_LOAD_MASK
      (upd (R XAPM_SI_LOW_OFFSET) (u32 si)
        (upd (R XAPM_CTL_OFFSET)
          (u32 (Z.lor (if mode params =? 1 then Z.lor (σ (R XAPM_CTL_OFFSET)) XAPM_CR_GCC_ENABLE_MASK
                       else σ (R XAPM_CTL_OFFSET)) XAPM_CR_MCNTR_ENABLE_MASK)) σ)))).
Proof.
  apply does_leaves with XST_SUCCESS. unfold startcounters.
  eapply does_bind; [eauto with regs|].
  eapply does_bind; [eauto with regs|].
  eapply does_bind; [unfold setsampleinterval; eauto with regs|].
  eapply does_bind; [apply (does_writereg baseaddr XAPM_SICR_OFFSET)|].
  eapply does_bind; [apply (does_writereg baseaddr XAPM_SICR_OFFSET)|]. apply does_ret.
Qed.

(** [startcounters] sets the metric-counter enable bit and the sample
    interval, and touches the global-clock enable bit in profile mode only;
    in advanced mode, which the comment names, that bit keeps its value. *)
Theorem startcounters_control d si :
  in_word 32 si ->
  let d' := exec (startcounters params baseaddr si) d in
  let ctl := peek d (R XAPM_CTL_OFFSET) in
  peek d' (R XAPM_SI_LOW_OFFSET) = si /\
  peek d' (R XAPM_CTL_OFFSET)
  = put_field 0 1 1 (if mode params =? XAPM_MODE_PROFILE then put_field 16 1 1 ctl else ctl) /\
  (mode params = XAPM_MODE_ADVANCED ->
   get_field 16 1 (peek d' (R XAPM_CTL_OFFSET)) = get_field 16 1 ctl).
Proof.
  intros Hsi d' ctl.
  pose proof (leaves_exec _ _ _ d (leaves_startcounters _ si) (holds_peek d)) as Hd. fold d' in Hd.
  assert (Hctl : peek d' (R XAPM_CTL_OFFSET)
    = put_field 0 1 1 (if mode params =? XAPM_MODE_PROFILE then put_field 16 1 1 ctl else ctl)).
  { rewrite Hd by (by apply cfg_reg).
    rewrite !(upd_ne (R XAPM_SICR_OFFSET)), (upd_ne (R XAPM_SI_LOW_OFFSET)), upd_eq
      by (intros He; by apply apm_reg_inj in He).
    change XAPM_CR_MCNTR_ENABLE_MASK with (2 ^ 0). change XAPM_CR_GCC_ENABLE_MASK with (2 ^ 16).
    rewrite set_bit_lor, (set_bit_lor _ 16) by done. unfold XAPM_MODE_PROFILE. fold ctl.
    apply wrap_id. assert (in_word 32 ctl) by apply peek_word.
    assert (in_word 1 1) by done.
    destruct (mode params =? 1); repeat (apply put_field_range; [done..| |]); done. }
  split; [|split; [done|]].
  - rewrite Hd by (by apply cfg_reg).
    rewrite !(upd_ne (R XAPM_SICR_OFFSET)), upd_eq by (intros He; by apply apm_reg_inj in He).
    by apply wrap_id.
  - intros Hm. rewrite Hctl, Hm. simpl. apply get_put_field_other; try done; lia.
Qed.
End Control.

Lemma ranges_set_get_witness :
  run (getincrementerrange 0 2) (exec (setincrementerrange 0 2 15 3) (ram_fill 0)) = (15, 3).
Proof.
  destruct (ranges_set_get 0 (ram_fill 0) 2 2 15 3) as [H _]; [lia|lia|by split|by split|]. exact H.
Defined.

Lemma startcounters_control_witness :
  get_field 16 1 (exec (startcounters params16 0 100) (ram_fill 0) XAPM_CTL_OFFSET) = 0.
Proof.
  destruct (startcounters_control params16 0 (ram_fill 0) 100) as (_ & _ & H); [by split|].
  specialize (H eq_refl). vm_compute. reflexivity.
Defined.

(** The three reset functions, on any device at all: they pulse their reset
    bit around the value read, and [resetfifo] does so only when event
    logging is configured. *)
Definition pulse (baseaddr : Z) {D} `{Device D} (mask : Z) (d : D) : list event :=
  let a := apm_reg baseaddr XAPM_CTL_OFFSET in
  let v := fst (dev_rd a d) in
  [Rd a v; Wr a (u32 (Z.lor v mask)); Wr a (u32 (Z.land v (not32 mask)))].

(** on every device, the reset functions emit exactly one read of the
    control register and then the two writes that assert and release their
    own reset bit; [resetfifo] emits nothing when event logging is off. *)
Theorem reset_pulses {D} `{Device D} (params : xapm_param) (baseaddr : Z) (d : D) :
  snd (exec (resetmetriccounter baseaddr) ((d, []) : logged D)) = pulse baseaddr XAPM_CR_MCNTR_RESET_MASK d /\
  snd (exec (resetglobalclkcounter baseaddr) ((d, []) : logged D)) = pulse baseaddr XAPM_CR_GCC_RESET_MASK d /\
  snd (exec (resetfifo params baseaddr) ((d, []) : logged D))
  = (if eventlog params =? 0 then [] else pulse baseaddr XAPM_CR_FIFO_RESET_MASK d).
Proof.
  unfold exec, resetmetriccounter, resetglobalclkcounter, resetfifo, readreg, writereg, bus_read, bus_write, pulse.
  unfold mbind, io_bind, mret, io_ret, apm_reg. simpl.
  destruct (eventlog params =? 0); destruct (dev_rd (u64 (baseaddr + XAPM_CTL_OFFSET)) d) as [v d'] eqn:E;
    simpl; rewrite ?E; done.
Qed.
