(* ===== verification/Parser.v ===== *)
(** The trace parser (trace/parser.c): from the binary records of the trace
    capture device to comma-separated text.

    A record is an array of [TCD_ENTRY_BITS] chars holding one bit each; the
    cursor of the code is modelled by the list of bits not read yet, and a
    read past the end of the array (undefined in C) by [None].  Text written
    to the two output streams is collected as strings.  The bit widths come
    from the generated config.h, so they are a [config] record; [def_config]
    is the default of trace/def_config.[ch]. *)
From S2P Require Import Prelude.
From stdpp Require Import pretty.
From Stdlib Require Import Ascii.
Open Scope Z_scope.

(** * Configuration *)

(* @src trace/def_config.h 23-30 sparam_t *)
Record sparam_t := {
  EXT_EVENT : Z;
  FLAGS : Z;
  xxID : Z;
  AxLEN : Z;
  AxADDR : Z;
  xDATA : Z
}.

(* @src trace/def_config.h 10-20 config.h macros *)
Record config := {
  SHOW_AXI_DATA : bool;
  FIFO_AXIS_TDATA_WIDTH : Z;
  NUM_MONITOR_SLOTS : Z;
  LOGID : Z;
  TIMESTAMP : Z;
  LOOP : Z;
  SW_PACKET : Z;
  slot_param : list sparam_t
}.

(* @src trace/def_config.c 4-7 slot_param *)
Definition def_slot_param : list sparam_t :=
  [ {| EXT_EVENT := 3; FLAGS := 9; xxID := 16; AxLEN := 8; AxADDR := 40; xDATA := 128 |};
    {| EXT_EVENT := 3; FLAGS := 9; xxID := 3; AxLEN := 8; AxADDR := 40; xDATA := 64 |} ].

(* @src trace/def_config.h 10-20 default configuration *)
Definition def_config : config :=
  {| SHOW_AXI_DATA := false; FIFO_AXIS_TDATA_WIDTH := 328; NUM_MONITOR_SLOTS := 2;
     LOGID := 1; TIMESTAMP := 30; LOOP := 1; SW_PACKET := 32; slot_param := def_slot_param |}.

(** [None] is the [#error] of the source. *)
(* @src trace/parser.c 19-30 TCD_ENTRY_BITS *)
Definition TCD_ENTRY_BITS (c : config) : option Z :=
  if FIFO_AXIS_TDATA_WIDTH c <=? 128 then Some 128
  else if FIFO_AXIS_TDATA_WIDTH c <=? 256 then Some 256
  else if FIFO_AXIS_TDATA_WIDTH c <=? 512 then Some 512
  else if FIFO_AXIS_TDATA_WIDTH c <=? 1024 then Some 1024
  else None.

(* @src trace/parser.c 36-37 SW_ID, TRACE_ID *)
Definition SW_ID : Z := 1.
Definition TRACE_ID : Z := 0.

(* @src trace/parser.c 40-40 XAPM_FLAG_WRADDR *)
Definition FLAG_WRADDR : Z := 0x001.
(* @src trace/parser.c 41-41 XAPM_FLAG_FIRSTWR *)
Definition FLAG_FIRSTWR : Z := 0x002.
(* @src trace/parser.c 42-42 XAPM_FLAG_LASTWR *)
Definition FLAG_LASTWR : Z := 0x004.
(* @src trace/parser.c 43-43 XAPM_FLAG_RESPONSE *)
Definition FLAG_RESPONSE : Z := 0x008.
(* @src trace/parser.c 44-44 XAPM_FLAG_RDADDR *)
Definition FLAG_RDADDR : Z := 0x010.
(* @src trace/parser.c 45-45 XAPM_FLAG_FIRSTRD *)
Definition FLAG_FIRSTRD : Z := 0x020.
(* @src trace/parser.c 46-46 XAPM_FLAG_LASTRD *)
Definition FLAG_LASTRD : Z := 0x040.
(* @src trace/parser.c 47-47 XAPM_FLAG_MIDWR *)
Definition FLAG_MIDWR : Z := 0x080.
(* @src trace/parser.c 48-48 XAPM_FLAG_MIDRD *)
Definition FLAG_MIDRD : Z := 0x100.
(* @src trace/parser.c 50-50 XAPM_FLAG_WRDATA *)
Definition FLAG_WRDATA : Z := Z.lor (Z.lor FLAG_FIRSTWR FLAG_MIDWR) FLAG_LASTWR.
(* @src trace/parser.c 51-51 XAPM_FLAG_RDDATA *)
Definition FLAG_RDDATA : Z := Z.lor (Z.lor FLAG_FIRSTRD FLAG_MIDRD) FLAG_LASTRD.

(** * Reading fields *)

Abbreviation bits := (list bool).

(** The loop of [next_uint]: [mask] is shifted as a 32-bit unsigned, so bits
    beyond the 32nd are read but lost. *)
(* @src trace/parser.c 58-61 next_uint loop *)
Fixpoint next_uint_loop (len : nat) (mask num : Z) (bit : bits) : option (Z * bits) :=
  match len with
  | O => Some (num, bit)
  | S len' =>
      match bit with
      | [] => None
      | b :: bit' =>
          next_uint_loop len' (u32 (Z.shiftl mask 1)) (Z.lor num (if b then mask else 0)) bit'
      end
  end.

(* @src trace/parser.c 54-63 next_uint *)
Definition next_uint (bit : bits) (len : Z) : option (Z * bits) :=
  next_uint_loop (Z.to_nat len) 1 0 bit.

(* @src trace/parser.c 67-67 hex *)
Definition hex (d : Z) : ascii :=
  nth (Z.to_nat d)
    ["0"; "1"; "2"; "3"; "4"; "5"; "6"; "7"; "8"; "9"; "A"; "B"; "C"; "D"; "E"; "F"]%char "0"%char.

(** The digits are stored from the end of the buffer towards its start, so
    each one goes in front of those already stored. *)
(* @src trace/parser.c 70-74 next_hexstr loop *)
Fixpoint next_hexstr_loop (fuel : nat) (str : string) (bit : bits) (len : Z) : option (string * bits) :=
  match fuel with
  | O => None
  | S fuel' =>
      if 4 <? len then
        '(d, bit) ← next_uint bit 4;
        next_hexstr_loop fuel' (String (hex d) str) bit (len - 4)
      else
        '(d, bit) ← next_uint bit len;
        Some (String (hex d) str, bit)
  end.

(** The string stored in [str], without its terminating NUL; one iteration
    per four bits, so [len] iterations are always enough. *)
(* @src trace/parser.c 65-76 next_hexstr *)
Definition next_hexstr (bit : bits) (len : Z) : option (string * bits) :=
  '(digits, bit) ← next_hexstr_loop (S (Z.to_nat len)) "" bit len;
  Some (("0x" +:+ digits)%string, bit).

(** Index of the last byte [next_hexstr] stores to: the terminating NUL. *)
(* @src trace/parser.c 68-69 next_hexstr buffer use *)
Definition hexstr_nul_index (len : Z) : Z := (if len =? 0 then 1 else (len + 3) / 4) + 2.

(** Size of the arrays its callers pass. *)
(* @src trace/parser.c 83-86 buffer sizes *)
Definition hexstr_buffer (len : Z) : Z := (len + 3) / 4 + 3.

(** * Text *)

Definition nl : string := String (Ascii.ascii_of_nat 10) "".

(** [%u] and [%lu] of a non-negative value. *)
Definition fmt_u (n : Z) : string := pretty n.

(** [%#X] of a positive 32-bit value. *)
Fixpoint hex_digits (fuel : nat) (n : Z) (acc : string) : string :=
  match fuel with
  | O => acc
  | S fuel' => let acc := String (hex (n mod 16)) acc in if n / 16 =? 0 then acc else hex_digits fuel' (n / 16) acc
  end.
Definition fmt_X (n : Z) : string := if n =? 0 then "0" else ("0X" +:+ hex_digits 8 n "")%string.

(** [%.*s]: at most [n] characters of the string. *)
Fixpoint fmt_prec (n : nat) (s : string) : string :=
  match n, s with
  | S n', String a s' => String a (fmt_prec n' s')
  | _, _ => ""
  end.

(** ["%u,B,,%.*s,%u,%lu\n"] and the like: fields are joined by the commas the
    format strings write out. *)
Fixpoint cat (l : list string) : string :=
  match l with [] => "" | s :: l' => (s +:+ cat l')%string end.

(** Lines for the output file and messages for stderr. *)
Record output := { out : list string; err : list string }.
Definition no_output : output := {| out := []; err := [] |}.
Definition app_output (o1 o2 : output) : output :=
  {| out := out o1 ++ out o2; err := err o1 ++ err o2 |}.

(** * Events *)

Section Parser.
Context (c : config).

(** [sizeof(rdata)] when the data columns are shown, 0 otherwise. *)
(* @src trace/parser.c 87-91 dlen *)
Definition dlen (spar : sparam_t) : nat :=
  if SHOW_AXI_DATA c then Z.to_nat (hexstr_buffer (xDATA spar)) else O.

(** The type column of a write data event; [None] for an inconsistent
    combination of flags. *)
(* @src trace/parser.c 119-125 write data type *)
Definition wr_type (flags : Z) : option string :=
  let f := Z.land flags FLAG_WRDATA in
  if f =? Z.lor FLAG_FIRSTWR FLAG_LASTWR then Some "DW"%string
  else if f =? FLAG_FIRSTWR then Some "FW"%string
  else if f =? FLAG_MIDWR then Some "MW"%string
  else if f =? FLAG_LASTWR then Some "LW"%string
  else None.

(* @src trace/parser.c 134-140 read data type *)
Definition rd_type (flags : Z) : option string :=
  let f := Z.land flags FLAG_RDDATA in
  if f =? Z.lor FLAG_FIRSTRD FLAG_LASTRD then Some "DR"%string
  else if f =? FLAG_FIRSTRD then Some "FR"%string
  else if f =? FLAG_MIDRD then Some "MR"%string
  else if f =? FLAG_LASTRD then Some "LR"%string
  else None.

(** The fields of one slot, as [parse_slot] reads them. *)
(* @src trace/parser.c 80-86 parse_slot locals *)
Record slot_fields := {
  s_flags : Z;
  s_arlen : Z;
  s_awlen : Z;
  s_rid : Z;
  s_arid : Z;
  s_bid : Z;
  s_awid : Z;
  s_araddr : string;
  s_awaddr : string;
  s_rdata : string;
  s_wdata : string
}.

(** [(next_uint(...)+1)*xDATA/8] in unsigned arithmetic. *)
(* @src trace/parser.c 95-96 burst length *)
Definition burst_bytes (axlen : Z) (spar : sparam_t) : Z := u32 (u32 (axlen + 1) * xDATA spar) / 8.

(* @src trace/parser.c 93-110 parse_slot fields *)
Definition read_slot (spar : sparam_t) (bit : bits) : option (slot_fields * bits) :=
  '(_, bit) ← next_uint bit (EXT_EVENT spar);
  '(flags, bit) ← next_uint bit (FLAGS spar);
  '(arlen, bit) ← next_uint bit (AxLEN spar);
  '(awlen, bit) ← next_uint bit (AxLEN spar);
  '(rid, bit) ← next_uint bit (xxID spar);
  '(arid, bit) ← next_uint bit (xxID spar);
  '(bid, bit) ← next_uint bit (xxID spar);
  '(awid, bit) ← next_uint bit (xxID spar);
  '(araddr, bit) ← next_hexstr bit (AxADDR spar);
  '(awaddr, bit) ← next_hexstr bit (AxADDR spar);
  '(rdata, bit) ← (if SHOW_AXI_DATA c then next_hexstr bit (xDATA spar) else Some ("NA"%string, bit));
  '(wdata, bit) ← (if SHOW_AXI_DATA c then next_hexstr bit (xDATA spar) else Some ("NA"%string, bit));
  Some ({| s_flags := flags; s_arlen := burst_bytes arlen spar; s_awlen := burst_bytes awlen spar;
           s_rid := rid; s_arid := arid; s_bid := bid; s_awid := awid;
           s_araddr := araddr; s_awaddr := awaddr; s_rdata := rdata; s_wdata := wdata |}, bit).

(* @src trace/parser.c 125-125 inconsistent flags message *)
Definition inconsistent (flags slot : Z) : string :=
  cat ["ERROR: INCONSISTENT FLAGS:"; fmt_X flags; " SLOT:"; fmt_u slot; nl].

(** The lines of one slot, in the order of the code; an inconsistent
    combination of data flags returns at once, so the events after it are
    not printed. *)
(* @src trace/parser.c 112-143 parse_slot output *)
Definition print_slot (slot : Z) (spar : sparam_t) (time : Z) (f : slot_fields) : output :=
  let n := dlen spar in
  let flags := s_flags f in
  let comma := fmt_prec n "," in
  let awline :=
    if truthy (Z.land flags FLAG_WRADDR) then
      [cat [fmt_u slot; ",W,"; s_awaddr f; ","; comma; fmt_u (s_awlen f); ","; fmt_u (s_awid f); ","; fmt_u time; nl]]
    else [] in
  let wtype := if truthy (Z.land flags FLAG_WRDATA) then option_map Some (wr_type flags) else Some None in
  match wtype with
  | None => {| out := awline; err := [inconsistent flags slot] |}
  | Some wt =>
      let wline :=
        match wt with
        | Some ty => [cat [fmt_u slot; ","; ty; ",,"; fmt_prec n (s_wdata f); comma; ",,"; fmt_u time; nl]]
        | None => []
        end in
      let bline :=
        if truthy (Z.land flags FLAG_RESPONSE) then
          [cat [fmt_u slot; ",B,,"; comma; ","; fmt_u (s_bid f); ","; fmt_u time; nl]]
        else [] in
      let arline :=
        if truthy (Z.land flags FLAG_RDADDR) then
          [cat [fmt_u slot; ",R,"; s_araddr f; ","; comma; fmt_u (s_arlen f); ","; fmt_u (s_arid f); ","; fmt_u time; nl]]
        else [] in
      let rtype := if truthy (Z.land flags FLAG_RDDATA) then option_map Some (rd_type flags) else Some None in
      match rtype with
      | None => {| out := awline ++ wline ++ bline ++ arline; err := [inconsistent flags slot] |}
      | Some rt =>
          let rline :=
            match rt with
            | Some ty => [cat [fmt_u slot; ","; ty; ",,"; fmt_prec n (s_rdata f); comma; ","; fmt_u (s_rid f); ","; fmt_u time; nl]]
            | None => []
            end in
          {| out := awline ++ wline ++ bline ++ arline ++ rline; err := [] |}
      end
  end.

(* @src trace/parser.c 78-144 parse_slot *)
Definition parse_slot (slot : Z) (spar : sparam_t) (time : Z) (bit : bits) : option (Z * output * bits) :=
  '(f, bit) ← read_slot spar bit;
  Some (s_flags f, print_slot slot spar time f, bit).

(** [for (i = 0; i < NUM_MONITOR_SLOTS; i++)] over [slot_param]; indexing
    past the array is undefined. *)
(* @src trace/parser.c 165-167 parse_entry slot loop *)
Fixpoint parse_slots (n : nat) (i : Z) (spar : list sparam_t) (time : Z) (orflags : Z) (o : output) (bit : bits)
    : option (Z * output * bits) :=
  match n with
  | O => Some (orflags, o, bit)
  | S n' =>
      match spar with
      | [] => None
      | p :: spar' =>
          '(f, o', bit) ← parse_slot i p time bit;
          parse_slots n' (i + 1) spar' time (Z.lor orflags f) (app_output o o') bit
      end
  end.

(** Returns the new time stamp. *)
(* @src trace/parser.c 146-172 parse_entry *)
Definition parse_entry (time : Z) (bit : bits) : option (Z * output) :=
  '(logID, bit) ← next_uint bit (LOGID c);
  '(ts, bit) ← next_uint bit (TIMESTAMP c);
  let time := u64 (time + ts) in
  '(loop, bit) ← next_uint bit (LOOP c);
  let warn := {| out := []; err := if loop =? 1 then [cat ["WARNING: TIMING OVERFLOW"; nl]] else [] |} in
  if logID =? SW_ID then
    '(sw, bit) ← next_hexstr bit (SW_PACKET c);
    let comma := fmt_prec (if SHOW_AXI_DATA c then 1 else 0)%nat "," in
    Some (time, app_output warn {| out := [cat ["S,,"; sw; ","; comma; ",,"; fmt_u time; nl]]; err := [] |})
  else if logID =? TRACE_ID then
    '(orflags, o, _) ← parse_slots (Z.to_nat (NUM_MONITOR_SLOTS c)) 0 (slot_param c) time 0 no_output bit;
    Some (time, app_output warn
      (app_output o {| out := []; err := if orflags =? 0 then [cat ["ERROR: ENTRY WITH NO FLAGS"; nl]] else [] |}))
  else Some (time, warn).

(** * The trace file *)

(* @src trace/parser.c 188-189 bits of a byte *)
Definition byte_bits (val : Z) : bits :=
  map (fun j => truthy (Z.land val (Z.shiftl 1 j))) [0; 1; 2; 3; 4; 5; 6; 7].

Inductive read_result :=
  | Entry (entry : bits)
  | EndOfTrace (msg : string).

(** A file is the list of the bytes not read yet. *)
(* @src trace/parser.c 178-197 read_entry loop *)
Fixpoint read_entry_loop (n : nat) (tmp : Z) (rfp : list Z) (entry : bits) : read_result * list Z :=
  match n with
  | O =>
      if tmp =? 0 then (EndOfTrace (cat ["TRACE END... ZEROES FOUND"; nl]), rfp) else (Entry entry, rfp)
  | S n' =>
      match rfp with
      | [] => (EndOfTrace (cat ["TRACE END... EOF FOUND"; nl]), rfp)
      | val :: rfp' => read_entry_loop n' (Z.lor tmp val) rfp' (entry ++ byte_bits val)
      end
  end.

(* @src trace/parser.c 174-198 read_entry *)
Definition read_entry (entry_bits : Z) (rfp : list Z) : read_result * list Z :=
  read_entry_loop (Z.to_nat (entry_bits / 8)) 0 rfp [].

(** The record loop of [main]; every record takes at least one byte, so the
    length of the file bounds the number of iterations. *)
(* @src trace/parser.c 284-287 main record loop *)
Fixpoint parse_records (fuel : nat) (entry_bits timestamp : Z) (rfp : list Z) (o : output) : option output :=
  match fuel with
  | O => None
  | S fuel' =>
      match read_entry entry_bits rfp with
      | (EndOfTrace msg, _) => Some (app_output o {| out := []; err := [msg] |})
      | (Entry entry, rfp') =>
          '(timestamp, o') ← parse_entry timestamp entry;
          parse_records fuel' entry_bits timestamp rfp' (app_output o o')
      end
  end.

Definition parse_trace (entry_bits : Z) (file : list Z) : option output :=
  parse_records (S (length file)) entry_bits 0 file no_output.

(** * Command line *)

Inductive sink := Stdout | OutFile (name : string).
Inductive outcome :=
  | Exit_failure (stderr : list string)
  | Exit_success (stderr : list string) (dest : sink) (text : list string).

(** The option letters of one argument: [v] is the only one. *)
(* @src trace/parser.c 228-250 main option letters *)
Fixpoint scan_letters (s : string) (vflag nok : bool) (msgs : list string) : bool * bool * list string :=
  match s with
  | EmptyString => (vflag, nok, msgs)
  | String a s' =>
      if Ascii.eqb a "v" then scan_letters s' true nok msgs
      else scan_letters s' vflag true (msgs ++ [cat [" -- not an option: "; String a ""; nl]])
  end.

(* @src trace/parser.c 227-228 main argument loop *)
Fixpoint scan_options (argv : list string) (vflag nok : bool) (msgs : list string)
    : list string * bool * bool * list string :=
  match argv with
  | String "-" s :: argv' =>
      let '(vflag, nok, msgs) := scan_letters s vflag nok msgs in scan_options argv' vflag nok msgs
  | _ => (argv, vflag, nok, msgs)
  end.

Definition question_mark (s : string) : bool :=
  match s with String "?" _ => true | _ => false end.

(* @src trace/parser.c 253-263 usage *)
Definition usage : list string :=
  [cat ["Usage: parser -v [<in_file>] [<out_file>]"; nl]; cat ["  -v  version"; nl]].

(** [argv] without the program name; [fopen_r] is the content of a readable
    file, [fopen_w] whether a file can be created. *)
(* @src trace/parser.c 222-294 main *)
Definition main (stdin : list Z) (fopen_r : string -> option (list Z)) (fopen_w : string -> bool)
    (argv : list string) : option outcome :=
  entry_bits ← TCD_ENTRY_BITS c;
  let '(args, vflag, nok, msgs) := scan_options argv false false [] in
  let msgs := msgs ++ (if vflag then [cat ["Version: 2.0"; nl]] else []) in
  if nok || match args with [] => true | a :: _ => question_mark a end then
    Some (Exit_failure (msgs ++ usage))
  else
    let fin := match args with [] => inl stdin | a :: _ => match fopen_r a with Some f => inl f | None => inr a end end in
    match fin with
    | inr a => Some (Exit_failure (msgs ++ [cat ["ERROR: CANNOT OPEN INPUT FILE: "; a; nl]]))
    | inl file =>
        let fout := match args with
                    | _ :: b :: _ => if fopen_w b then inl (OutFile b) else inr b
                    | _ => inl Stdout
                    end in
        match fout with
        | inr b => Some (Exit_failure (msgs ++ [cat ["ERROR: CANNOT OPEN OUTPUT FILE: "; b; nl]]))
        | inl dest =>
            o ← parse_trace entry_bits file;
            Some (Exit_success (msgs ++ cat ["TRACE START..."; nl] :: err o) dest (out o))
        end
    end.

End Parser.

(** A write address event on slot 0, as the default configuration prints it. *)
Definition bits_of (len : nat) (v : Z) : bits := map (Z.testbit v) (seqZ 0 (Z.of_nat len)).

Example parse_entry_example :
  out <$> (snd <$> parse_entry def_config 5
    (bits_of 1 0 ++ bits_of 30 100 ++ bits_of 1 0
     ++ bits_of 3 0 ++ bits_of 9 1 ++ bits_of 8 0 ++ bits_of 8 3 ++ bits_of 16 1 ++ bits_of 16 2 ++ bits_of 16 3
     ++ bits_of 16 4 ++ bits_of 40 0 ++ bits_of 40 0x12345678 ++ bits_of 300 0))
  = Some [cat ["0,W,0x0012345678,64,4,105"; nl]].
Proof. vm_compute. reflexivity. Qed.
