(* ===== verification/ParserProofs.v ===== *)
(** Correctness of the trace parser: bit fields and hexadecimal text denote
    the numbers of the record, a record of a well-formed configuration is
    never read out of bounds, what the hardware encodes is what is printed,
    and a trace file is processed record by record up to its end mark. *)
From S2P Require Import Prelude Parser.
From Stdlib Require Import Ascii.
Open Scope Z_scope.

(** * Little-endian bit strings *)

Fixpoint bits_val (l : bits) : Z :=
  match l with [] => 0 | b :: l' => Z.b2z b + 2 * bits_val l' end.

Lemma testbit_bits_val l i : 0 <= i -> Z.testbit (bits_val l) i = nth (Z.to_nat i) l false.
Proof.
  revert i. induction l as [|b l IH]; intros i Hi; simpl.
  - rewrite Z.testbit_0_l. by destruct (Z.to_nat i).
  - destruct (Z.eqb_spec i 0) as [->|Hne].
    + rewrite Z.add_comm, Z.testbit_0_r. done.
    + rewrite <- (Z.succ_pred i) at 1. rewrite Z.add_comm, Z.testbit_succ_r by lia.
      rewrite IH by lia. replace (Z.to_nat i) with (S (Z.to_nat (Z.pred i))) by lia. done.
Qed.

Lemma bits_val_range l : in_word (Z.of_nat (length l)) (bits_val l).
Proof.
  rewrite in_word_bits by lia. intros i Hi. rewrite testbit_bits_val by lia.
  apply nth_overflow. lia.
Qed.

Lemma bits_val_app l1 l2 : bits_val (l1 ++ l2) = bits_val l1 + 2 ^ Z.of_nat (length l1) * bits_val l2.
Proof.
  induction l1 as [|b l1 IH]; [simpl; lia|].
  simpl bits_val. rewrite IH. replace (Z.of_nat (length (b :: l1))) with (Z.succ (Z.of_nat (length l1))) by (simpl; lia).
  rewrite Z.pow_succ_r by lia. lia.
Qed.

Lemma length_bits_of len v : length (bits_of len v) = len.
Proof. unfold bits_of. rewrite length_map, length_seqZ. lia. Qed.

Lemma nth_bits_of len v i : (i < len)%nat -> nth i (bits_of len v) false = Z.testbit v (Z.of_nat i).
Proof.
  intros Hi. unfold bits_of.
  rewrite (nth_indep _ false (Z.testbit v 0)) by (rewrite length_map, length_seqZ; lia).
  rewrite map_nth. f_equal. apply nth_lookup_Some. by rewrite lookup_seqZ_lt by lia.
Qed.

Lemma bits_val_bits_of len v : in_word (Z.of_nat len) v -> bits_val (bits_of len v) = v.
Proof.
  intros Hv. apply Z.bits_inj'. intros i Hi. rewrite testbit_bits_val by done.
  destruct (decide (i < Z.of_nat len)).
  - rewrite nth_bits_of by lia. f_equal. lia.
  - rewrite nth_overflow by (rewrite length_bits_of; lia). by rewrite (testbit_high _ _ _ Hv) by lia.
Qed.

(** * [next_uint] *)

Lemma next_uint_loop_spec len k num bit :
  (len <= length bit)%nat -> 0 <= k ->
  next_uint_loop len (u32 (Z.shiftl 1 k)) num bit
  = Some (Z.lor num (u32 (Z.shiftl (bits_val (take len bit)) k)), drop len bit).
Proof.
  revert k num bit. induction len as [|len IH]; intros k num bit Hlen Hk; simpl.
  - rewrite Z.shiftl_0_l. by rewrite Z.lor_0_r.
  - destruct bit as [|b bit]; simpl in *; [lia|].
    replace (u32 (Z.shiftl (u32 (Z.shiftl 1 k)) 1)) with (u32 (Z.shiftl 1 (k + 1))).
    2: { rewrite <- Z.shiftl_shiftl by lia. Zbits. }
    rewrite IH by lia. do 2 f_equal. rewrite <- Z.lor_assoc. f_equal.
    rewrite Z.shiftl_mul_pow2, (Z.shiftl_mul_pow2 _ k), (Z.shiftl_mul_pow2 _ (k + 1)) by lia.
    set (v := bits_val (take len bit)).
    apply Z.bits_inj'. intros i Hi. rewrite Z.lor_spec, !testbit_wrap by lia.
    rewrite <- !Z.shiftl_mul_pow2 by lia. autorewrite with bits.
    destruct (Z.ltb_spec i 32) as [Hi32|Hi32]; simpl.
    + destruct (Z.eqb_spec i k) as [->|Hne].
      * rewrite Z.leb_refl, Z.sub_diag. replace (k + 1 <=? k) with false by lia.
        rewrite (Z.add_comm (Z.b2z b)), Z.testbit_0_r. simpl. rewrite orb_false_r.
        destruct b; [|by rewrite Z.testbit_0_l].
        rewrite testbit_wrap, testbit_shiftl, Z.leb_refl, Z.sub_diag by lia.
        by replace (k <? 32) with true by lia.
      * replace (Z.testbit (if b then u32 (Z.shiftl 1 k) else 0) i) with false.
        2: { symmetry. destruct b; [|by rewrite Z.testbit_0_l].
             rewrite testbit_wrap, Z.shiftl_1_l, Z.pow2_bits_false by lia. apply andb_false_r. }
        destruct (Z.leb_spec (k + 1) i), (Z.leb_spec k i); try lia; try done. simpl.
        replace (i - k) with (Z.succ (i - (k + 1))) by lia.
        rewrite (Z.add_comm (Z.b2z b)), Z.testbit_succ_r by lia. done.
    + destruct b; [|by rewrite Z.testbit_0_l]. rewrite testbit_wrap by lia.
      by replace (i <? 32) with false by lia.
Qed.

Lemma next_uint_spec len bit :
  (len <= length bit)%nat ->
  next_uint bit (Z.of_nat len) = Some (u32 (bits_val (take len bit)), drop len bit).
Proof.
  intros. unfold next_uint. rewrite Nat2Z.id. change 1 with (u32 (Z.shiftl 1 0)).
  rewrite next_uint_loop_spec by lia. by rewrite Z.shiftl_0_r.
Qed.

Lemma next_uint_loop_short len mask num bit : (length bit < len)%nat -> next_uint_loop len mask num bit = None.
Proof. revert mask num bit. induction len; intros mask num [|b bit] ?; simpl in *; try lia; auto with lia. Qed.

(** * Hexadecimal text *)

(** Number of digits of a [len]-bit field. *)
Definition ndigits (len : nat) : nat := if decide (len = 0%nat) then 1 else (len + 3) / 4.

(** The [n] hexadecimal digits of [v] in front of [s], most significant first. *)
Fixpoint digits (n : nat) (v : Z) (s : string) : string :=
  match n with O => s | S n' => digits n' (v / 16) (String (hex (v mod 16)) s) end.

Definition hexstr (len : Z) (v : Z) : string := ("0x" +:+ digits (ndigits (Z.to_nat len)) v "")%string.

(** Value of a digit string, independent of the printer. *)
Definition digit_val (a : ascii) : Z :=
  let n := Z.of_nat (nat_of_ascii a) in if n <? 58 then n - 48 else n - 55.
Fixpoint hex_val (acc : Z) (s : string) : Z :=
  match s with EmptyString => acc | String a s' => hex_val (16 * acc + digit_val a) s' end.

Lemma digit_val_hex d : 0 <= d < 16 -> digit_val (hex d) = d.
Proof.
  intros Hd. assert (Hf : forallb (fun d => digit_val (hex d) =? d) (seqZ 0 16) = true) by done.
  rewrite forallb_forall in Hf. apply Z.eqb_eq, Hf, list_elem_of_In, elem_of_seqZ. lia.
Qed.

Lemma hex_val_digits n v acc s :
  hex_val acc (digits n v s) = hex_val (acc * 16 ^ Z.of_nat n + v mod 16 ^ Z.of_nat n) s.
Proof.
  revert v s. induction n as [|n IH]; intros v s.
  - simpl. rewrite Z.mod_1_r. f_equal. lia.
  - simpl digits. rewrite IH. simpl hex_val.
    rewrite digit_val_hex by (apply Z.mod_pos_bound; lia). f_equal.
    rewrite Nat2Z.inj_succ, Z.pow_succ_r by lia. rewrite (Z.rem_mul_r v 16) by lia. lia.
Qed.

Lemma length_digits n v s : String.length (digits n v s) = (n + String.length s)%nat.
Proof. revert v s. induction n as [|n IH]; intros; simpl; [done|]. rewrite IH. simpl. lia. Qed.

Lemma bits_val_take_drop n len l :
  (n <= len)%nat -> (len <= length l)%nat ->
  bits_val (take len l) = bits_val (take n l) + 2 ^ Z.of_nat n * bits_val (take (len - n) (drop n l)).
Proof.
  intros Hn Hl. rewrite <- (take_drop n (take len l)) at 1.
  rewrite bits_val_app, take_take, length_take, skipn_firstn_comm.
  by rewrite !Nat.min_l by lia.
Qed.

Lemma in_word_take len (l : bits) : in_word (Z.of_nat len) (bits_val (take len l)).
Proof.
  eapply in_word_weaken; [|apply bits_val_range]. rewrite length_take. lia.
Qed.

Lemma ndigits_cover len : Z.of_nat len <= 4 * Z.of_nat (ndigits len).
Proof.
  unfold ndigits. case_decide; [lia|].
  pose proof (Nat.div_mod_eq (len + 3) 4). pose proof (Nat.mod_upper_bound (len + 3) 4). lia.
Qed.

Lemma next_hexstr_loop_spec fuel s bit len :
  (len < fuel)%nat -> (len <= length bit)%nat ->
  next_hexstr_loop fuel s bit (Z.of_nat len)
  = Some (digits (ndigits len) (bits_val (take len bit)) s, drop len bit).
Proof.
  revert s bit len. induction fuel as [|fuel IH]; intros s bit len Hf Hl; [lia|].
  simpl. destruct (Z.ltb_spec 4 (Z.of_nat len)) as [H4|H4].
  - assert (H4' : (4 <= length bit)%nat) by lia.
    apply (next_uint_spec 4) in H4'. change (Z.of_nat 4) with 4 in H4'. rewrite H4'. simpl.
    replace (Z.of_nat len - 4) with (Z.of_nat (len - 4)) by lia.
    rewrite IH by (rewrite ?length_drop; lia). rewrite drop_drop.
    replace (4 + (len - 4))%nat with len by lia. do 2 f_equal.
    assert (Hn : ndigits len = S (ndigits (len - 4))).
    { unfold ndigits. rewrite !decide_False by lia.
      replace (len + 3)%nat with (len - 4 + 3 + 1 * 4)%nat by lia. rewrite Nat.div_add by lia. lia. }
    rewrite Hn. simpl digits.
    rewrite (bits_val_take_drop 4 len bit) by lia. change (2 ^ Z.of_nat 4) with 16.
    pose proof (in_word_take 4 bit) as [? ?]. rewrite (Z.mul_comm 16).
    rewrite Z_div_plus, Z_mod_plus by lia. rewrite Z.div_small, (Z.mod_small _ 16) by done.
    rewrite wrap_id by (split; [done|eapply Z.lt_le_trans; [done|done]]). done.
  - rewrite next_uint_spec by lia. simpl. do 2 f_equal.
    assert (Hn : ndigits len = 1%nat).
    { unfold ndigits. case_decide; [done|]. assert (len = 1 \/ len = 2 \/ len = 3 \/ len = 4)%nat as Hd by lia.
      by repeat destruct Hd as [->|Hd]; [..|subst]. }
    rewrite Hn. simpl. pose proof (in_word_take len bit) as [? H1].
    assert (2 ^ Z.of_nat len <= 2 ^ 4) by (apply Z.pow_le_mono_r; lia).
    rewrite (Z.mod_small _ 16) by lia. by rewrite wrap_id by (split; lia).
Qed.

Lemma next_hexstr_spec len bit :
  (len <= length bit)%nat ->
  next_hexstr bit (Z.of_nat len) = Some (hexstr (Z.of_nat len) (bits_val (take len bit)), drop len bit).
Proof.
  intros. unfold next_hexstr, hexstr. rewrite Nat2Z.id.
  rewrite next_hexstr_loop_spec by lia. done.
Qed.

Lemma hexstr_denotes len v :
  0 <= len -> in_word len v ->
  exists s, hexstr len v = ("0x" +:+ s)%string /\ hex_val 0 s = v /\
    Z.of_nat (String.length (hexstr len v)) = hexstr_nul_index len.
Proof.
  intros Hlen Hv. eexists. split; [done|]. split.
  - rewrite hex_val_digits. simpl. apply Z.mod_small. destruct Hv as [? Hv]. split; [done|].
    eapply Z.lt_le_trans; [exact Hv|]. change 16 with (2 ^ 4). rewrite <- Z.pow_mul_r by lia.
    apply Z.pow_le_mono_r; [lia|]. pose proof (ndigits_cover (Z.to_nat len)). lia.
  - unfold hexstr. set (s := digits _ _ _).
    change (String.length ("0x" +:+ s)) with (S (S (String.length s))).
    unfold s. rewrite length_digits, Nat.add_0_r, !Nat2Z.inj_succ.
    unfold ndigits, hexstr_nul_index. case_decide.
    + by replace len with 0 by lia.
    + destruct (Z.eqb_spec len 0); [lia|]. rewrite Nat2Z.inj_div, Nat2Z.inj_add, Z2Nat.id by done.
      change (Z.of_nat 3) with 3. change (Z.of_nat 4) with 4. lia.
Qed.

(** [next_uint] consumes exactly [len] bits and returns the little-endian
    number they form, reduced to 32 bits; it goes wrong only when fewer than
    [len] bits are left. *)
Theorem next_uint_correct len bit :
  next_uint bit (Z.of_nat len)
  = if decide (len <= length bit)%nat then Some (u32 (bits_val (take len bit)), drop len bit) else None.
Proof.
  case_decide; [by apply next_uint_spec|].
  unfold next_uint. rewrite Nat2Z.id. apply next_uint_loop_short. lia.
Qed.

(** for a field of at least one bit, [next_hexstr] consumes the field,
    stores ["0x"] and hexadecimal digits whose value is the number the bits
    form, and its terminating NUL is the last byte of the caller's buffer; a
    field of width zero makes it store one byte past the end. *)
Theorem next_hexstr_correct len bit :
  (len <= length bit)%nat ->
  exists s, next_hexstr bit (Z.of_nat len) = Some (("0x" +:+ s)%string, drop len bit) /\
    hex_val 0 s = bits_val (take len bit) /\
    Z.of_nat (String.length ("0x" +:+ s)) = hexstr_nul_index (Z.of_nat len) /\
    hexstr_nul_index (Z.of_nat len) = hexstr_buffer (Z.of_nat len) - (if decide (len = 0%nat) then 0 else 1).
Proof.
  intros Hl. rewrite next_hexstr_spec by done.
  destruct (hexstr_denotes (Z.of_nat len) (bits_val (take len bit))) as (s & Hs & Hv & Hn);
    [lia|apply in_word_take|].
  exists s. rewrite Hs in *. repeat split; [done..|].
  unfold hexstr_nul_index, hexstr_buffer. destruct (Z.eqb_spec (Z.of_nat len) 0) as [He|He].
  - rewrite He, decide_True by lia. done.
  - rewrite decide_False by lia. lia.
Qed.

Lemma next_hexstr_correct_witness :
  exists s, next_hexstr (bits_of 12 0xA5F ++ [true]) 12 = Some (("0x" +:+ s)%string, [true]) /\ hex_val 0 s = 0xA5F.
Proof.
  destruct (next_hexstr_correct 12 (bits_of 12 0xA5F ++ [true])) as (s & H1 & H2 & _); [vm_compute; lia|].
  exists s. split; [exact H1|]. rewrite H2. reflexivity.
Defined.

(** * Records: what the hardware encodes is what is printed *)

Lemma next_uint_bits_of len v rest :
  0 <= len <= 32 -> in_word len v -> next_uint (bits_of (Z.to_nat len) v ++ rest) len = Some (v, rest).
Proof.
  intros Hlen Hv. rewrite <- (Z2Nat.id len) at 2 by lia.
  rewrite next_uint_spec by (rewrite length_app, length_bits_of; lia).
  rewrite take_app_length', drop_app_length' by (by rewrite length_bits_of).
  rewrite bits_val_bits_of by (by rewrite Z2Nat.id by lia).
  rewrite wrap_id by (by eapply in_word_weaken; [|exact Hv]). done.
Qed.

Lemma next_hexstr_bits_of len v rest :
  0 <= len -> in_word len v -> next_hexstr (bits_of (Z.to_nat len) v ++ rest) len = Some (hexstr len v, rest).
Proof.
  intros Hlen Hv. rewrite <- (Z2Nat.id len) at 2 by lia.
  rewrite next_hexstr_spec by (rewrite length_app, length_bits_of; lia).
  rewrite take_app_length', drop_app_length' by (by rewrite length_bits_of).
  rewrite bits_val_bits_of by (by rewrite Z2Nat.id by lia). by rewrite Z2Nat.id by lia.
Qed.

(** The events of one monitor slot at one time stamp, as numbers. *)
Record slot_event := {
  e_ext : Z; e_flags : Z; e_arlen : Z; e_awlen : Z;
  e_rid : Z; e_arid : Z; e_bid : Z; e_awid : Z;
  e_araddr : Z; e_awaddr : Z; e_rdata : Z; e_wdata : Z
}.

(** A record: a software key, or the events of all slots. *)
Inductive trace_event := Software (key : Z) | Bus (slots : list slot_event).

Definition wf_slot (p : sparam_t) : Prop :=
  0 <= EXT_EVENT p <= 32 /\ 0 <= FLAGS p <= 32 /\ 0 <= AxLEN p <= 32 /\ 0 <= xxID p <= 32 /\
  0 <= AxADDR p /\ 0 <= xDATA p.

Definition wf_event (p : sparam_t) (e : slot_event) : Prop :=
  in_word (EXT_EVENT p) (e_ext e) /\ in_word (FLAGS p) (e_flags e) /\
  in_word (AxLEN p) (e_arlen e) /\ in_word (AxLEN p) (e_awlen e) /\
  in_word (xxID p) (e_rid e) /\ in_word (xxID p) (e_arid e) /\
  in_word (xxID p) (e_bid e) /\ in_word (xxID p) (e_awid e) /\
  in_word (AxADDR p) (e_araddr e) /\ in_word (AxADDR p) (e_awaddr e) /\
  in_word (xDATA p) (e_rdata e) /\ in_word (xDATA p) (e_wdata e).

Section Records.
Context (c : config).

Definition field (len v : Z) : bits := bits_of (Z.to_nat len) v.

(** The layout of a slot in the record (the order the core packs it in). *)
Definition encode_slot (p : sparam_t) (e : slot_event) : bits :=
  field (EXT_EVENT p) (e_ext e) ++ field (FLAGS p) (e_flags e) ++
  field (AxLEN p) (e_arlen e) ++ field (AxLEN p) (e_awlen e) ++
  field (xxID p) (e_rid e) ++ field (xxID p) (e_arid e) ++
  field (xxID p) (e_bid e) ++ field (xxID p) (e_awid e) ++
  field (AxADDR p) (e_araddr e) ++ field (AxADDR p) (e_awaddr e) ++
  (if SHOW_AXI_DATA c then field (xDATA p) (e_rdata e) ++ field (xDATA p) (e_wdata e) else []).

(** What the parser should know after reading the slot. *)
Definition fields_of (p : sparam_t) (e : slot_event) : slot_fields :=
  {| s_flags := e_flags e;
     s_arlen := burst_bytes (e_arlen e) p; s_awlen := burst_bytes (e_awlen e) p;
     s_rid := e_rid e; s_arid := e_arid e; s_bid := e_bid e; s_awid := e_awid e;
     s_araddr := hexstr (AxADDR p) (e_araddr e); s_awaddr := hexstr (AxADDR p) (e_awaddr e);
     s_rdata := if SHOW_AXI_DATA c then hexstr (xDATA p) (e_rdata e) else "NA";
     s_wdata := if SHOW_AXI_DATA c then hexstr (xDATA p) (e_wdata e) else "NA" |}.

Lemma read_slot_encode p e rest :
  wf_slot p -> wf_event p e -> read_slot c p (encode_slot p e ++ rest) = Some (fields_of p e, rest).
Proof.
  intros (? & ? & ? & ? & ? & ?) (? & ? & ? & ? & ? & ? & ? & ? & ? & ? & ? & ?).
  unfold read_slot, encode_slot, field, fields_of. rewrite <- !app_assoc.
  do 8 (rewrite next_uint_bits_of by done; simpl).
  do 2 (rewrite next_hexstr_bits_of by done; simpl).
  destruct (SHOW_AXI_DATA c); simpl; [|done].
  rewrite <- !app_assoc. by do 2 (rewrite next_hexstr_bits_of by done; simpl).
Qed.

(** Lines of all slots, and the flags seen. *)
Fixpoint print_slots (i : Z) (ps : list sparam_t) (es : list slot_event) (time : Z) : output :=
  match ps, es with
  | p :: ps', e :: es' => app_output (print_slot c i p time (fields_of p e)) (print_slots (i + 1) ps' es' time)
  | _, _ => no_output
  end.

Fixpoint all_flags (es : list slot_event) : Z :=
  match es with [] => 0 | e :: es' => Z.lor (e_flags e) (all_flags es') end.

Fixpoint encode_slots (ps : list sparam_t) (es : list slot_event) : bits :=
  match ps, es with
  | p :: ps', e :: es' => encode_slot p e ++ encode_slots ps' es'
  | _, _ => []
  end.

Lemma app_output_assoc o1 o2 o3 : app_output o1 (app_output o2 o3) = app_output (app_output o1 o2) o3.
Proof. unfold app_output. simpl. by rewrite !app_assoc. Qed.

Lemma app_output_nil_r o : app_output o no_output = o.
Proof. destruct o. unfold app_output. simpl. by rewrite !app_nil_r. Qed.

Lemma app_output_nil_l o : app_output no_output o = o.
Proof. by destruct o. Qed.

Lemma parse_slots_encode n i ps es time fl o rest :
  length es = n -> (n <= length ps)%nat -> Forall wf_slot ps -> Forall2 wf_event (take n ps) es ->
  parse_slots c n i ps time fl o (encode_slots (take n ps) es ++ rest)
  = Some (Z.lor fl (all_flags es), app_output o (print_slots i (take n ps) es time), rest).
Proof.
  revert i ps es fl o. induction n as [|n IH]; intros i ps es fl o Hes Hps Hwf Hf.
  - destruct es; [|done]. simpl. by rewrite Z.lor_0_r, app_output_nil_r.
  - destruct ps as [|p ps]; simpl in *; [lia|]. destruct es as [|e es]; [done|].
    apply Forall_cons in Hwf as [Hp Hwf]. apply Forall2_cons in Hf as [He Hf].
    unfold parse_slot. simpl. rewrite <- app_assoc, read_slot_encode by done. simpl.
    rewrite IH by (simpl in *; auto with lia). by rewrite <- Z.lor_assoc, app_output_assoc.
Qed.

Record wf_config : Prop := {
  wf_logid : 1 <= LOGID c <= 32;
  wf_timestamp : 0 <= TIMESTAMP c <= 32;
  wf_loop : 0 <= LOOP c <= 32;
  wf_sw : 0 <= SW_PACKET c;
  wf_nslots : 0 <= NUM_MONITOR_SLOTS c <= Z.of_nat (length (slot_param c));
  wf_slots : Forall wf_slot (slot_param c)
}.

Definition slots_used : list sparam_t := take (Z.to_nat (NUM_MONITOR_SLOTS c)) (slot_param c).

Definition wf_trace_event (ev : trace_event) : Prop :=
  match ev with
  | Software key => in_word (SW_PACKET c) key
  | Bus es => Z.of_nat (length es) = NUM_MONITOR_SLOTS c /\ Forall2 wf_event slots_used es
  end.

Definition encode_entry (ts loop : Z) (ev : trace_event) : bits :=
  field (LOGID c) (match ev with Software _ => SW_ID | Bus _ => TRACE_ID end) ++
  field (TIMESTAMP c) ts ++ field (LOOP c) loop ++
  match ev with
  | Software key => field (SW_PACKET c) key
  | Bus es => encode_slots slots_used es
  end.

(** What is printed for a record whose accumulated time stamp is [time]. *)
Definition render (time loop : Z) (ev : trace_event) : output :=
  app_output {| out := []; err := if loop =? 1 then [cat ["WARNING: TIMING OVERFLOW"; nl]] else [] |}
    match ev with
    | Software key =>
        {| out := [cat ["S,,"; hexstr (SW_PACKET c) key; ","; (if SHOW_AXI_DATA c then "," else "");
                        ",,"; fmt_u time; nl]]; err := [] |}
    | Bus es =>
        app_output (print_slots 0 slots_used es time)
          {| out := []; err := if all_flags es =? 0 then [cat ["ERROR: ENTRY WITH NO FLAGS"; nl]] else [] |}
    end.

Lemma parse_entry_encode time ts loop ev rest :
  wf_config -> in_word (TIMESTAMP c) ts -> in_word (LOOP c) loop -> wf_trace_event ev ->
  parse_entry c time (encode_entry ts loop ev ++ rest) = Some (u64 (time + ts), render (u64 (time + ts)) loop ev).
Proof.
  intros [Hl Ht Hlo Hs Hn Hw] Hts Hloop Hev. unfold parse_entry, encode_entry, field.
  assert (Hid : forall b : bool, in_word (LOGID c) (if b then SW_ID else TRACE_ID)).
  { intros b. apply (in_word_weaken 1); [lia|]. by destruct b. }
  pose proof (Hid true). pose proof (Hid false).
  destruct ev as [key|es]; rewrite <- !app_assoc; do 3 (rewrite next_uint_bits_of by (done || lia); simpl).
  - rewrite next_hexstr_bits_of by done. simpl. unfold render. by destruct (SHOW_AXI_DATA c).
  - destruct Hev as [Hlen Hes]. unfold slots_used in *.
    rewrite parse_slots_encode by (done || lia). simpl. unfold render.
    by rewrite app_output_nil_l.
Qed.
End Records.

(** a record that encodes an event of well-formed fields is read back as
    that event: the parser returns the advanced time stamp and prints exactly
    the lines of the event's fields, whatever bits pad the record. *)
Theorem parse_entry_roundtrip c time ts loop ev rest :
  wf_config c -> in_word (TIMESTAMP c) ts -> in_word (LOOP c) loop -> wf_trace_event c ev ->
  parse_entry c time (encode_entry c ts loop ev ++ rest) = Some (u64 (time + ts), render c (u64 (time + ts)) loop ev).
Proof. apply parse_entry_encode. Qed.

Lemma wf_def_config : wf_config def_config.
Proof. split; simpl; [lia..|]. repeat constructor; simpl; lia. Qed.

Definition event0 : slot_event :=
  {| e_ext := 0; e_flags := 0x3; e_arlen := 0; e_awlen := 3; e_rid := 1; e_arid := 2; e_bid := 3; e_awid := 4;
     e_araddr := 0; e_awaddr := 0x12345678; e_rdata := 0; e_wdata := 0 |}.
Definition event1 : slot_event :=
  {| e_ext := 0; e_flags := 0; e_arlen := 0; e_awlen := 0; e_rid := 0; e_arid := 0; e_bid := 0; e_awid := 0;
     e_araddr := 0; e_awaddr := 0; e_rdata := 0; e_wdata := 0 |}.

Lemma wf_example : wf_trace_event def_config (Bus [event0; event1]).
Proof. split; [done|]. repeat constructor; vm_compute; done. Qed.

Lemma parse_entry_roundtrip_witness :
  parse_entry def_config 5 (encode_entry def_config 100 0 (Bus [event0; event1]) ++ repeat false 184)
  = Some (105, {| out := [cat ["0,W,0x0012345678,64,4,105"; nl]; cat ["0,FW,,,,105"; nl]]; err := [] |}).
Proof.
  rewrite (parse_entry_roundtrip def_config 5 100 0 (Bus [event0; event1]) (repeat false 184)
    wf_def_config ltac:(vm_compute; done) ltac:(vm_compute; done) wf_example).
  vm_compute. reflexivity.
Defined.

(** * Totality: no record is read out of bounds *)

Lemma next_uint_some bit len :
  0 <= len <= Z.of_nat (length bit) ->
  exists v bit', next_uint bit len = Some (v, bit') /\ Z.of_nat (length bit') = Z.of_nat (length bit) - len.
Proof.
  intros Hl. rewrite <- (Z2Nat.id len) by lia. rewrite next_uint_spec by lia.
  eexists _, _. split; [done|]. rewrite length_drop. lia.
Qed.

Lemma next_hexstr_some bit len :
  0 <= len <= Z.of_nat (length bit) ->
  exists s bit', next_hexstr bit len = Some (s, bit') /\ Z.of_nat (length bit') = Z.of_nat (length bit) - len.
Proof.
  intros Hl. rewrite <- (Z2Nat.id len) by lia. rewrite next_hexstr_spec by lia.
  eexists _, _. split; [done|]. rewrite length_drop. lia.
Qed.

(** Read the next field, keeping track of the number of bits left. *)
Ltac next_field :=
  match goal with
  | |- context [next_uint ?b ?len] =>
      let v := fresh "v" in let b' := fresh "bit" in let E := fresh "E" in let L := fresh "L" in
      destruct (next_uint_some b len) as (v & b' & E & L); [lia|]; rewrite E; clear E; simpl
  | |- context [next_hexstr ?b ?len] =>
      let v := fresh "v" in let b' := fresh "bit" in let E := fresh "E" in let L := fresh "L" in
      destruct (next_hexstr_some b len) as (v & b' & E & L); [lia|]; rewrite E; clear E; simpl
  end.

Section Totality.
Context (c : config).

(** Bits of a slot and of an entry. *)
Definition slot_bits (p : sparam_t) : Z :=
  EXT_EVENT p + FLAGS p + 2 * AxLEN p + 4 * xxID p + 2 * AxADDR p + (if SHOW_AXI_DATA c then 2 * xDATA p else 0).
Definition slots_bits (ps : list sparam_t) : Z := foldr (fun p n => slot_bits p + n) 0 ps.
Definition entry_size : Z :=
  LOGID c + TIMESTAMP c + LOOP c + Z.max (SW_PACKET c) (slots_bits (slots_used c)).

Lemma slot_bits_nonneg p : wf_slot p -> 0 <= slot_bits p.
Proof. intros (?&?&?&?&?&?). unfold slot_bits. destruct (SHOW_AXI_DATA c); lia. Qed.

Lemma slots_bits_nonneg ps : Forall wf_slot ps -> 0 <= slots_bits ps.
Proof. induction 1 as [|p ps Hp]; simpl; [lia|]. pose proof (slot_bits_nonneg p Hp). lia. Qed.

Lemma read_slot_some p bit :
  wf_slot p -> slot_bits p <= Z.of_nat (length bit) ->
  exists f bit', read_slot c p bit = Some (f, bit') /\ Z.of_nat (length bit') = Z.of_nat (length bit) - slot_bits p.
Proof.
  intros (?&?&?&?&?&?). unfold slot_bits, read_slot.
  destruct (SHOW_AXI_DATA c); intros Hb; repeat next_field; eexists _, _; (split; [done|lia]).
Qed.

Lemma parse_slots_some ps : forall n i time fl o bit,
  (n <= length ps)%nat -> Forall wf_slot (take n ps) -> slots_bits (take n ps) <= Z.of_nat (length bit) ->
  is_Some (parse_slots c n i ps time fl o bit).
Proof.
  induction ps as [|p ps IH]; intros n i time fl o bit Hn Hw Hb; destruct n as [|n]; simpl in *; try (by eexists).
  { lia. }
  apply Forall_cons in Hw as [Hp Hw]. pose proof (slots_bits_nonneg _ Hw).
  destruct (read_slot_some p bit Hp) as (f & bit' & Hr & L); [lia|].
  unfold parse_slot. rewrite Hr. simpl. apply IH; [lia|done|lia].
Qed.

Lemma parse_entry_some time bit :
  wf_config c -> entry_size <= Z.of_nat (length bit) -> is_Some (parse_entry c time bit).
Proof.
  intros [Hl Ht Hlo Hs Hn Hw]. unfold entry_size, parse_entry. intros Hb.
  assert (Hw' : Forall wf_slot (slots_used c)) by by apply Forall_take.
  pose proof (slots_bits_nonneg _ Hw'). do 3 next_field.
  destruct (_ =? SW_ID); [next_field; by eexists|].
  destruct (_ =? TRACE_ID); [|by eexists].
  edestruct (parse_slots_some (slot_param c) (Z.to_nat (NUM_MONITOR_SLOTS c))) as [[[fl o] b] Hp];
    [| | |rewrite Hp; by eexists]; [lia|done|]. unfold slots_used in *. lia.
Qed.

Lemma read_entry_loop_spec n : forall tmp rfp entry,
  match read_entry_loop n tmp rfp entry with
  | (Entry e, rfp') => length e = (length entry + 8 * n)%nat /\ length rfp = (length rfp' + n)%nat
  | (EndOfTrace _, rfp') => True
  end.
Proof.
  induction n as [|n IH]; intros tmp rfp entry; simpl.
  - destruct (tmp =? 0); [done|]. lia.
  - destruct rfp as [|v rfp]; [done|]. specialize (IH (Z.lor tmp v) rfp (entry ++ byte_bits v)).
    destruct (read_entry_loop _ _ _ _) as [[e|] rfp']; [|done].
    rewrite length_app in IH. simpl in *. lia.
Qed.

Lemma parse_records_some n fuel : forall time rfp o,
  wf_config c -> 8 <= n -> entry_size <= 8 * (n / 8) -> (length rfp < fuel)%nat ->
  is_Some (parse_records c fuel n time rfp o).
Proof.
  induction fuel as [|fuel IH]; intros time rfp o Hw Hn He Hf; [lia|]. simpl.
  unfold read_entry. pose proof (read_entry_loop_spec (Z.to_nat (n / 8)) 0 rfp []) as Hr.
  destruct (read_entry_loop _ _ _ _) as [[e|m] rfp']; [|by eexists].
  destruct Hr as [Hr1 Hr2]. simpl in Hr1. assert (1 <= n / 8) by (apply Z.div_le_lower_bound; lia).
  destruct (parse_entry_some time e Hw) as [[t o'] Hp]; [lia|]. rewrite Hp. simpl. apply IH; [done..|lia].
Qed.
End Totality.

(** C40: for every configuration whose fields fit the record, parsing
    terminates on every input file, whatever its bytes and length, and never
    reads a bit outside the record buffer or a slot parameter outside its
    table. *)
Theorem parse_trace_total c n file :
  wf_config c -> TCD_ENTRY_BITS c = Some n -> entry_size c <= n -> is_Some (parse_trace c n file).
Proof.
  intros Hw Hn He. assert (8 <= n /\ 8 * (n / 8) = n) as [? Hd].
  { unfold TCD_ENTRY_BITS in Hn. repeat case_match; simplify_eq; done. }
  apply parse_records_some; [done..|lia|lia].
Qed.

Lemma parse_trace_total_witness :
  is_Some (parse_trace def_config 512 (repeat 0xA5 200)).
Proof.
  apply (parse_trace_total def_config 512 (repeat 0xA5 200) wf_def_config).
  - reflexivity.
  - vm_compute. discriminate.
Defined.

(** * Traces: records are processed in order up to the end mark *)

(** The bytes of a record of [8 * k] bits. *)
Fixpoint bytes (k : nat) (b : bits) : list Z :=
  match k with O => [] | S k' => bits_val (take 8 b) :: bytes k' (drop 8 b) end.

Definition nonzero (b : bits) : bool := existsb id b.

Lemma byte_bits_val b : (8 <= length b)%nat -> byte_bits (bits_val (take 8 b)) = take 8 b.
Proof.
  intros Hb. do 8 (destruct b as [|? b]; [simpl in Hb; lia|]). simpl take.
  clear. destruct b0, b1, b2, b3, b4, b5, b6, b7; reflexivity.
Qed.

Lemma bits_val_nonzero b : (bits_val b =? 0) = negb (nonzero b).
Proof.
  induction b as [|[] b IH]; simpl; [done| |].
  - apply Z.eqb_neq. pose proof (bits_val_range b) as [? _]. unfold Z.b2z. lia.
  - change (nonzero (false :: b)) with (nonzero b). rewrite <- IH.
    destruct (Z.eqb_spec (bits_val b) 0), (Z.eqb_spec (Z.b2z false + 2 * bits_val b) 0); simpl in *; lia || done.
Qed.

Lemma read_entry_loop_bytes k : forall b tmp rest entry,
  0 <= tmp -> length b = (8 * k)%nat ->
  read_entry_loop k tmp (bytes k b ++ rest) entry
  = (if (negb (tmp =? 0)) || nonzero b then Entry (entry ++ b)
     else EndOfTrace (cat ["TRACE END... ZEROES FOUND"; nl]), rest).
Proof.
  induction k as [|k IH]; intros b tmp rest entry Ht Hb.
  - destruct b; [|done]. simpl. rewrite app_nil_r, orb_false_r. by destruct (tmp =? 0).
  - pose proof (bits_val_range (take 8 b)) as [? _].
    simpl bytes. simpl. rewrite IH; [|by apply Z.lor_nonneg|rewrite length_drop; lia].
    rewrite byte_bits_val, <- app_assoc, take_drop by lia. f_equal.
    replace ((negb (Z.lor tmp (bits_val (take 8 b)) =? 0)) || nonzero (drop 8 b)) with ((negb (tmp =? 0)) || nonzero b);
      [done|].
    assert (Hnz : nonzero b = nonzero (take 8 b) || nonzero (drop 8 b)).
    { unfold nonzero. by rewrite <- existsb_app, take_drop. }
    rewrite Hnz. pose proof (bits_val_nonzero (take 8 b)) as Hz.
    destruct (Z.eqb_spec (Z.lor tmp (bits_val (take 8 b))) 0) as [Hl|Hl]; rewrite Z.lor_eq_0_iff in Hl;
      destruct (Z.eqb_spec tmp 0), (Z.eqb_spec (bits_val (take 8 b)) 0), (nonzero (take 8 b)); simpl in *; try done; tauto.
Qed.

Section Traces.
Context (c : config) (n : Z).

(** A record padded with zeroes to [n] bits, as bytes of the trace file. *)
Definition pad (b : bits) : bits := b ++ repeat false (Z.to_nat n - length b).
Definition record_bytes (r : Z * Z * trace_event) : list Z :=
  let '(ts, loop, ev) := r in bytes (Z.to_nat (n / 8)) (pad (encode_entry c ts loop ev)).
Definition trace_bytes (rs : list (Z * Z * trace_event)) : list Z := concat (map record_bytes rs).

(** The text of a trace: time stamps are increments, accumulated from 0. *)
Fixpoint render_trace (time : Z) (rs : list (Z * Z * trace_event)) : output :=
  match rs with
  | [] => no_output
  | (ts, loop, ev) :: rs' =>
      app_output (render c (u64 (time + ts)) loop ev) (render_trace (u64 (time + ts)) rs')
  end.

(** A record the device can write: fields in range, within the record, and
    not all zeroes (an all-zero record is the end mark). *)
Definition wf_record (r : Z * Z * trace_event) : Prop :=
  let '(ts, loop, ev) := r in
  in_word (TIMESTAMP c) ts /\ in_word (LOOP c) loop /\ wf_trace_event c ev /\
  Z.of_nat (length (encode_entry c ts loop ev)) <= n /\ nonzero (encode_entry c ts loop ev) = true.

(** What may follow the last record: an all-zero record and anything, or
    fewer bytes than a record takes. *)
Inductive trace_end : list Z -> string -> Prop :=
  | end_zeroes junk :
      trace_end (repeat 0 (Z.to_nat (n / 8)) ++ junk) (cat ["TRACE END... ZEROES FOUND"; nl])
  | end_eof tail :
      Z.of_nat (length tail) < n / 8 -> trace_end tail (cat ["TRACE END... EOF FOUND"; nl]).

Lemma read_entry_loop_short k : forall tmp tail entry, (length tail < k)%nat ->
  fst (read_entry_loop k tmp tail entry) = EndOfTrace (cat ["TRACE END... EOF FOUND"; nl]).
Proof.
  induction k as [|k IH]; intros tmp tail entry Hl; [lia|].
  destruct tail as [|v tail]; simpl in *; [done|]. apply IH. lia.
Qed.

Lemma read_entry_loop_zeroes k : forall junk entry,
  fst (read_entry_loop k 0 (repeat 0 k ++ junk) entry) = EndOfTrace (cat ["TRACE END... ZEROES FOUND"; nl]).
Proof. induction k as [|k IH]; intros; simpl; [done|]. apply IH. Qed.

Lemma read_entry_end tail msg : trace_end tail msg -> fst (read_entry n tail) = EndOfTrace msg.
Proof.
  intros [junk|t Ht]; unfold read_entry; [apply read_entry_loop_zeroes|].
  apply read_entry_loop_short. lia.
Qed.

Lemma nonzero_app b b' : nonzero (b ++ b') = nonzero b || nonzero b'.
Proof. apply existsb_app. Qed.

Lemma parse_records_trace rs : forall fuel time tail msg o,
  wf_config c -> 8 * (n / 8) = n -> Forall wf_record rs -> trace_end tail msg -> (length rs < fuel)%nat ->
  parse_records c fuel n time (trace_bytes rs ++ tail) o
  = Some (app_output o (app_output (render_trace time rs) {| out := []; err := [msg] |})).
Proof.
  induction rs as [|[[ts loop] ev] rs IH]; intros fuel time tail msg o Hw Hn Hrs Ht Hf;
    (destruct fuel as [|fuel]; [simpl in Hf; lia|]).
  - pose proof (read_entry_end _ _ Ht) as He. simpl. destruct (read_entry n tail) as [r rfp]. simpl in He. by subst r.
  - apply Forall_cons in Hrs as [(Hts & Hl & Hev & Hfit & Hnz) Hrs].
    unfold trace_bytes. simpl. rewrite <- app_assoc. unfold read_entry.
    rewrite read_entry_loop_bytes;
      [|done|unfold pad; rewrite length_app, repeat_length; lia].
    unfold pad at 1. rewrite nonzero_app, Hnz. simpl. unfold pad.
    rewrite parse_entry_encode by done. simpl.
    fold (trace_bytes rs). rewrite (IH _ _ tail msg) by (simpl in Hf; auto with lia). by rewrite !app_output_assoc.
Qed.

Lemma length_bytes k : forall b, length (bytes k b) = k.
Proof. induction k as [|k IH]; intros; simpl; [done|]. by rewrite IH. Qed.

Lemma length_trace_bytes rs : 8 <= n -> (length rs <= length (trace_bytes rs))%nat.
Proof.
  intros Hn. assert (1 <= n / 8) by (apply Z.div_le_lower_bound; lia).
  induction rs as [|[[ts loop] ev] rs IH]; [done|].
  unfold trace_bytes in *. simpl. rewrite length_app, length_bytes. lia.
Qed.
End Traces.

Lemma TCD_ENTRY_BITS_bytes c n : TCD_ENTRY_BITS c = Some n -> 8 <= n /\ 8 * (n / 8) = n.
Proof. intros Hn. unfold TCD_ENTRY_BITS in Hn. by repeat case_match; simplify_eq. Qed.

Lemma parse_trace_spec c n rs tail msg :
  wf_config c -> TCD_ENTRY_BITS c = Some n -> Forall (wf_record c n) rs -> trace_end n tail msg ->
  parse_trace c n (trace_bytes c n rs ++ tail)
  = Some (app_output (render_trace c 0 rs) {| out := []; err := [msg] |}).
Proof.
  intros Hw [Hn8 Hn]%TCD_ENTRY_BITS_bytes Hrs Ht. unfold parse_trace.
  rewrite (parse_records_trace c n rs _ 0 tail msg); [by rewrite app_output_nil_l|done..|].
  rewrite length_app. pose proof (length_trace_bytes c n rs Hn8). lia.
Qed.

(** C10: the text printed for a trace file is the text of its records, in
    order, with time stamps accumulated modulo 2^64, up to the first all-zero
    record or the first incomplete one; nothing behind the end mark is looked
    at. *)
Theorem parse_trace_roundtrip c n rs tail msg :
  wf_config c -> TCD_ENTRY_BITS c = Some n -> Forall (wf_record c n) rs -> trace_end n tail msg ->
  parse_trace c n (trace_bytes c n rs ++ tail)
  = Some (app_output (render_trace c 0 rs) {| out := []; err := [msg] |}).
Proof. apply parse_trace_spec. Qed.

Definition records_example : list (Z * Z * trace_event) :=
  [(7, 0, Software 0xCAFE); (100, 1, Bus [event0; event1])].

Lemma parse_trace_roundtrip_witness :
  parse_trace def_config 512 (trace_bytes def_config 512 records_example ++ (repeat 0 64 ++ [1; 2; 3]))
  = Some {| out := [cat ["S,,0x0000CAFE,,,7"; nl]; cat ["0,W,0x0012345678,64,4,107"; nl]; cat ["0,FW,,,,107"; nl]];
            err := [cat ["WARNING: TIMING OVERFLOW"; nl]; cat ["TRACE END... ZEROES FOUND"; nl]] |}.
Proof.
  rewrite (parse_trace_roundtrip def_config 512 records_example (repeat 0 64 ++ [1; 2; 3]) _ wf_def_config eq_refl
    ltac:(repeat constructor; vm_compute; done) (end_zeroes 512 [1; 2; 3])).
  vm_compute. reflexivity.
Defined.

(** * Event lines of a slot *)

(** The kinds of events a record can hold for one slot, in print order. *)
Inductive kind := AW | WD | BR | AR | RD.

(** [kinds flags]: the events the flags announce. *)
Definition kinds (flags : Z) : list kind :=
  (if truthy (Z.land flags FLAG_WRADDR) then [AW] else []) ++
  (if truthy (Z.land flags FLAG_WRDATA) then [WD] else []) ++
  (if truthy (Z.land flags FLAG_RESPONSE) then [BR] else []) ++
  (if truthy (Z.land flags FLAG_RDADDR) then [AR] else []) ++
  (if truthy (Z.land flags FLAG_RDDATA) then [RD] else []).

(** Beats of a burst: a data event is a single beat (first and last), the
    first, a middle or the last beat; every other combination is
    inconsistent. *)
Definition beat_ok (first mid last flags : Z) : bool :=
  match truthy (Z.land flags first), truthy (Z.land flags mid), truthy (Z.land flags last) with
  | true, false, _ | false, true, false | false, false, true => true
  | _, _, _ => false
  end.
Definition kind_ok (flags : Z) (k : kind) : bool :=
  match k with
  | WD => beat_ok FLAG_FIRSTWR FLAG_MIDWR FLAG_LASTWR flags
  | RD => beat_ok FLAG_FIRSTRD FLAG_MIDRD FLAG_LASTRD flags
  | _ => true
  end.

(** The events up to the first inconsistent one. *)
Fixpoint printed (flags : Z) (ks : list kind) : list kind :=
  match ks with [] => [] | k :: ks' => if kind_ok flags k then k :: printed flags ks' else [] end.

(** The tests of [parse_slot] look at the low nine bits only. *)
Lemma land_low flags m : in_word 9 m -> Z.land flags m = Z.land (flags mod 512) m.
Proof.
  intros Hm. change (flags mod 512) with (wrap 9 flags). Zbits.
Qed.

Definition line_count (flags : Z) : nat * nat :=
  let o := print_slot def_config 0 (hd (Build_sparam_t 0 0 0 0 0 0) def_slot_param) 0
             (Build_slot_fields flags 0 0 0 0 0 0 "" "" "" "") in
  (length (out o), length (err o)).

Lemma print_slot_count c slot spar time f :
  (length (out (print_slot c slot spar time f)), length (err (print_slot c slot spar time f)))
  = line_count (s_flags f mod 512).
Proof.
  unfold line_count, print_slot, wr_type, rd_type. simpl s_flags.
  rewrite !(land_low (s_flags f)) by (vm_compute; intuition congruence). set (fl := s_flags f mod 512). clearbody fl.
  cbv zeta. repeat match goal with |- context [cat ?l] => generalize (cat l); intros ? end.
  destruct (truthy (Z.land fl FLAG_WRADDR)), (truthy (Z.land fl FLAG_RESPONSE)), (truthy (Z.land fl FLAG_RDADDR));
    repeat (destruct (truthy _) || destruct (_ =? _)); reflexivity.
Qed.

Definition count_ok (flags : Z) : bool :=
  bool_decide (line_count flags
    = (length (printed flags (kinds flags)), if forallb (kind_ok flags) (kinds flags) then 0%nat else 1%nat)).

Lemma count_ok_all flags : 0 <= flags < 512 -> count_ok flags = true.
Proof.
  intros Hf. assert (Hall : forallb count_ok (seqZ 0 512) = true) by (vm_compute; reflexivity).
  rewrite forallb_forall in Hall. apply Hall, list_elem_of_In, elem_of_seqZ. lia.
Qed.

Lemma kinds_low flags : kinds flags = kinds (flags mod 512).
Proof. unfold kinds. by rewrite !(land_low flags) by (vm_compute; intuition congruence). Qed.

Lemma kind_ok_low flags k : kind_ok flags k = kind_ok (flags mod 512) k.
Proof. unfold kind_ok, beat_ok. by rewrite !(land_low flags) by (vm_compute; intuition congruence). Qed.

Lemma printed_low flags ks : printed flags ks = printed (flags mod 512) ks.
Proof. induction ks as [|k ks IH]; simpl; [done|]. by rewrite <- kind_ok_low, IH. Qed.

Lemma forallb_ext {A} (f g : A -> bool) : (forall x, f x = g x) -> forall l, forallb f l = forallb g l.
Proof. intros Hfg l. induction l as [|x l IH]; [done|]. change (f x && forallb f l = g x && forallb g l). by rewrite Hfg, IH. Qed.

(** a slot prints one line per event its flags announce, in the order
    write address, write data, response, read address, read data, as long as
    the beat flags are consistent; the first inconsistent data event is
    reported once, and it and every event after it are dropped. *)
Theorem print_slot_lines c slot spar time f :
  let flags := s_flags f in
  let o := print_slot c slot spar time f in
  length (out o) = length (printed flags (kinds flags)) /\
  length (err o) = (if forallb (kind_ok flags) (kinds flags) then 0%nat else 1%nat).
Proof.
  cbv zeta. pose proof (print_slot_count c slot spar time f) as Hc.
  assert (Hok : count_ok (s_flags f mod 512) = true) by (apply count_ok_all, Z.mod_pos_bound; lia).
  apply bool_decide_eq_true in Hok. rewrite Hok in Hc. injection Hc as -> ->.
  rewrite (kinds_low (s_flags f)), (printed_low (s_flags f)). split; [done|].
  by rewrite (forallb_ext _ _ (kind_ok_low (s_flags f))).
Qed.

(** without a file argument the program prints its usage and fails, so
    the documented default of reading the standard input is never taken. *)
Theorem main_needs_file c stdin fopen_r fopen_w n :
  TCD_ENTRY_BITS c = Some n -> main c stdin fopen_r fopen_w [] = Some (Exit_failure usage).
Proof. intros Hn. unfold main. by rewrite Hn. Qed.

Lemma main_needs_file_witness :
  main def_config (repeat 1 64) (fun _ => None) (fun _ => false) [] = Some (Exit_failure usage).
Proof. apply (main_needs_file def_config (repeat 1 64) (fun _ => None) (fun _ => false) 512). reflexivity. Defined.
