(* ===== verification/ShortHash.v ===== *)
(** The short hash (ip/2018.2/llnl.gov_user_axis_hash_1.0.1/short.c): the
    software version, the pipelined version that documents the hardware, and
    the test program with its recorded output.

    The key is a list of bytes and a load outside it (undefined in C) is
    [None].  Multi-byte loads are little-endian, as on the targets of the
    Makefiles.  [EMIX] of the software version reads and assigns [x] in one
    unsequenced expression; it is given the meaning the pipelined version
    spells out (the old value is read). *)
From S2P Require Import Prelude.
From stdpp Require Import pretty.
From Stdlib Require Import Ascii.
Open Scope Z_scope.

(** * Loads *)

(** An [n]-byte load at byte offset [off]. *)
Definition load (n off : nat) (p : list Z) : option Z :=
  if decide (off + n <= length p)%nat then Some (le_val (take n (drop off p))) else None.

Abbreviation p8 i := (load 1 i).
Abbreviation p32 i := (load 4 (4 * i)).
Abbreviation p64 i := (load 8 (8 * i)).

(* @src ip/2018.2/llnl.gov_user_axis_hash_1.0.1/short.c 5-8 Rot64 *)
Definition Rot64 (x k : Z) : Z := Z.lor (u64 (Z.shiftl x k)) (Z.shiftr x (64 - k)).

(* @src ip/2018.2/llnl.gov_user_axis_hash_1.0.1/short.c 10-10 INIT_VAL *)
Definition INIT_VAL : Z := 0xDEADBEEFDEADBEEF.

Definition add64 (x y : Z) : Z := u64 (x + y).

(** The four accumulators. *)
Record acc := { a : Z; b : Z; c : Z; d : Z }.

Module Soft.
(** [y = (y ^ x) + (x = Rot64(x,r))]: the new [y] and the new [x]. *)
(* @src ip/2018.2/llnl.gov_user_axis_hash_1.0.1/short.c 16-16 EMIX *)
Definition EMIX (y x r : Z) : Z * Z := let x' := Rot64 x r in (add64 (Z.lxor y x) x', x').

Definition EMIX_dc r s := let '(y, x) := EMIX (d s) (c s) r in {| a := a s; b := b s; c := x; d := y |}.
Definition EMIX_ad r s := let '(y, x) := EMIX (a s) (d s) r in {| a := y; b := b s; c := c s; d := x |}.
Definition EMIX_ba r s := let '(y, x) := EMIX (b s) (a s) r in {| a := x; b := y; c := c s; d := d s |}.
Definition EMIX_cb r s := let '(y, x) := EMIX (c s) (b s) r in {| a := a s; b := x; c := y; d := d s |}.

(* @src ip/2018.2/llnl.gov_user_axis_hash_1.0.1/short.c 80-92 short128_hash rounds *)
Definition mix (s : acc) : acc :=
  let s := EMIX_dc 15 s in
  let s := EMIX_ad 52 s in
  let s := EMIX_ba 26 s in
  let s := EMIX_cb 51 s in
  let s := EMIX_dc 28 s in
  let s := EMIX_ad 9 s in
  let s := EMIX_ba 47 s in
  let s := EMIX_cb 54 s in
  let s := EMIX_dc 32 s in
  let s := EMIX_ad 25 s in
  EMIX_ba 63 s.

(** One byte of the tail: the statement of [case i+1], executed when the
    switch was entered at or above it. *)
Definition tail_byte (len : Z) (i sh : nat) (p : list Z) (x : Z) : option Z :=
  if Z.of_nat i <? len then v ← p8 i p; Some (add64 x (Z.shiftl v (Z.of_nat sh))) else Some x.

(** The switch on [len < 16]: four groups of fall-through cases, each ended
    by a [break]. *)
(* @src ip/2018.2/llnl.gov_user_axis_hash_1.0.1/short.c 35-70 short128_hash switch *)
Definition tail (p : list Z) (len : Z) (c d : Z) : option (Z * Z) :=
  if 12 <=? len then
    d ← tail_byte len 14 48 p d;
    d ← tail_byte len 13 40 p d;
    d ← tail_byte len 12 32 p d;
    v ← p32 2 p;
    w ← p64 0 p;
    Some (add64 c w, add64 d v)
  else if 8 <=? len then
    d ← tail_byte len 10 16 p d;
    d ← tail_byte len 9 8 p d;
    d ← tail_byte len 8 0 p d;
    w ← p64 0 p;
    Some (add64 c w, d)
  else if 4 <=? len then
    c ← tail_byte len 6 48 p c;
    c ← tail_byte len 5 40 p c;
    c ← tail_byte len 4 32 p c;
    v ← p32 0 p;
    Some (add64 c v, d)
  else
    c ← tail_byte len 2 16 p c;
    c ← tail_byte len 1 8 p c;
    c ← tail_byte len 0 0 p c;
    Some (c, d).

(** The [while] loop.  Every iteration lowers [len] by 16 or to 0. *)
(* @src ip/2018.2/llnl.gov_user_axis_hash_1.0.1/short.c 30-93 short128_hash loop *)
Fixpoint loop (fuel : nat) (p : list Z) (len : Z) (s : acc) : option acc :=
  match fuel with
  | O => None
  | S fuel' =>
      if 0 <? len then
        let a' := Z.lxor (a s) (u64 len) in
        let b' := Z.lxor (b s) (not64 (u64 len)) in
        if len <? 16 then
          '(c', d') ← tail p len (c s) (d s);
          loop fuel' p 0 (mix {| a := a'; b := b'; c := c'; d := d' |})
        else
          v0 ← p64 0 p;
          v1 ← p64 1 p;
          loop fuel' (drop 16 p) (len - 16)
            (mix {| a := a'; b := b'; c := add64 (c s) v0; d := add64 (d s) v1 |})
      else Some s
  end.

(** [seed] is a signed int, converted to 64 bits with its sign. *)
(* @src ip/2018.2/llnl.gov_user_axis_hash_1.0.1/short.c 18-97 short128_hash *)
Definition short128_hash (key : list Z) (len seed : Z) : option (Z * Z) :=
  s ← loop (S (Z.to_nat len)) key len {| a := u64 seed; b := u64 seed; c := INIT_VAL; d := INIT_VAL |};
  Some (a s, b s).
End Soft.

Module Pipelined.
(** Stage registers. *)
(* @src ip/2018.2/llnl.gov_user_axis_hash_1.0.1/short.c 103-103 ST *)
Definition ST : nat := 12.

(** The four arrays, in the order [a], [b], [c], [d]. *)
(* @src ip/2018.2/llnl.gov_user_axis_hash_1.0.1/short.c 111-111 arrays *)
Record stages := { va : list Z; vb : list Z; vc : list Z; vd : list Z }.

(** The macro on four arrays: the new [y], [x], [w] and [v]. *)
(* @src ip/2018.2/llnl.gov_user_axis_hash_1.0.1/short.c 105-108 EMIX *)
Definition EMIX (y x w v : list Z) (r : Z) (s : nat) : list Z * list Z * list Z * list Z :=
  let v := <[s := v !!! (s - 1)%nat]> v in
  let w := <[s := w !!! (s - 1)%nat]> w in
  let x' := Rot64 (x !!! (s - 1)%nat) r in
  let y := <[s := add64 (Z.lxor (y !!! (s - 1)%nat) (x !!! (s - 1)%nat)) x']> y in
  (y, <[s := x']> x, w, v).

(** [EMIX(d,c,b,a)], [EMIX(a,d,c,b)], [EMIX(b,a,d,c)], [EMIX(c,b,a,d)]. *)
Definition EMIX_dcba r s st := let '(y, x, w, v) := EMIX (vd st) (vc st) (vb st) (va st) r s in {| va := v; vb := w; vc := x; vd := y |}.
Definition EMIX_adcb r s st := let '(y, x, w, v) := EMIX (va st) (vd st) (vc st) (vb st) r s in {| va := y; vb := v; vc := w; vd := x |}.
Definition EMIX_badc r s st := let '(y, x, w, v) := EMIX (vb st) (va st) (vd st) (vc st) r s in {| va := x; vb := y; vc := v; vd := w |}.
Definition EMIX_cbad r s st := let '(y, x, w, v) := EMIX (vc st) (vb st) (va st) (vd st) r s in {| va := w; vb := x; vc := y; vd := v |}.

(* @src ip/2018.2/llnl.gov_user_axis_hash_1.0.1/short.c 134-146 short128_hash stages *)
Definition mix (st : stages) : stages :=
  let st := EMIX_dcba 15 1 st in
  let st := EMIX_adcb 52 2 st in
  let st := EMIX_badc 26 3 st in
  let st := EMIX_cbad 51 4 st in
  let st := EMIX_dcba 28 5 st in
  let st := EMIX_adcb 9 6 st in
  let st := EMIX_badc 47 7 st in
  let st := EMIX_cbad 54 8 st in
  let st := EMIX_dcba 32 9 st in
  let st := EMIX_adcb 25 10 st in
  EMIX_badc 63 11 st.

(** [memcpy] of the last bytes into a zeroed 16-byte buffer. *)
(* @src ip/2018.2/llnl.gov_user_axis_hash_1.0.1/short.c 119-125 short128_hash tail *)
Definition tail (ptr : list Z) (len : Z) (c d : Z) : option (Z * Z) :=
  if decide (Z.to_nat len <= length ptr)%nat then
    let tmp := take (Z.to_nat len) ptr ++ repeat 0 (16 - Z.to_nat len) in
    Some (add64 c (le_val (take 8 tmp)), add64 d (le_val (take 8 (drop 8 tmp))))
  else None.

Definition set0 (a0 b0 c0 d0 : Z) (st : stages) : stages :=
  {| va := <[0%nat := a0]> (va st); vb := <[0%nat := b0]> (vb st);
     vc := <[0%nat := c0]> (vc st); vd := <[0%nat := d0]> (vd st) |}.

(* @src ip/2018.2/llnl.gov_user_axis_hash_1.0.1/short.c 117-147 short128_hash loop *)
Fixpoint loop (fuel : nat) (ptr : list Z) (len : Z) (st : stages) : option stages :=
  match fuel with
  | O => None
  | S fuel' =>
      if 0 <? len then
        let a0 := Z.lxor (va st !!! (ST - 1)%nat) (u64 len) in
        let b0 := Z.lxor (vb st !!! (ST - 1)%nat) (not64 (u64 len)) in
        if len <? 16 then
          '(c0, d0) ← tail ptr len (vc st !!! (ST - 1)%nat) (vd st !!! (ST - 1)%nat);
          loop fuel' ptr 0 (mix (set0 a0 b0 c0 d0 st))
        else
          v0 ← p64 0 ptr;
          v1 ← p64 1 ptr;
          loop fuel' (drop 16 ptr) (len - 16)
            (mix (set0 a0 b0 (add64 (vc st !!! (ST - 1)%nat) v0) (add64 (vd st !!! (ST - 1)%nat) v1) st))
      else Some st
  end.

(** The arrays hold [init] before the first assignment (anything in C). *)
(* @src ip/2018.2/llnl.gov_user_axis_hash_1.0.1/short.c 110-151 short128_hash *)
Definition short128_hash (init : stages) (key : list Z) (len seed : Z) : option (Z * Z) :=
  let st := {| va := <[(ST - 1)%nat := u64 seed]> (va init); vb := <[(ST - 1)%nat := u64 seed]> (vb init);
               vc := <[(ST - 1)%nat := INIT_VAL]> (vc init); vd := <[(ST - 1)%nat := INIT_VAL]> (vd init) |} in
  st ← loop (S (Z.to_nat len)) key len st;
  Some (va st !!! (ST - 1)%nat, vb st !!! (ST - 1)%nat).
End Pipelined.

(** Both builds share the short forms, so they take the 128-bit hash. *)
Abbreviation hash128 := (list Z -> Z -> Z -> option (Z * Z)).

(* @src ip/2018.2/llnl.gov_user_axis_hash_1.0.1/short.c 155-159 short64_hash *)
Definition short64_hash (short128_hash : hash128) (key : list Z) (len seed : Z) : option Z :=
  '(t0, _) ← short128_hash key len seed; Some t0.

(** [tmp] is an array of four 32-bit words the 128-bit hash is stored into. *)
(* @src ip/2018.2/llnl.gov_user_axis_hash_1.0.1/short.c 161-165 short32_hash *)
Definition short32_hash (short128_hash : hash128) (key : list Z) (len seed : Z) : option Z :=
  '(t0, _) ← short128_hash key len seed; Some (u32 t0).

(** * Test program *)

Definition byte_at (v : Z) (i : nat) : Z := get_field (8 * Z.of_nat i) 8 v.

(** The 16 bytes of the hash in memory. *)
Definition hash_bytes (h : Z * Z) : list Z := map (byte_at (fst h)) (seq 0 8) ++ map (byte_at (snd h)) (seq 0 8).

Definition hex_digit (n : Z) : ascii :=
  ascii_of_nat (Z.to_nat (if n <? 10 then 48 + n else 55 + n)).
(** ["%02X"] of a byte. *)
Definition hex2 (v : Z) : string := String (hex_digit (v / 16)) (String (hex_digit (v mod 16)) "").
Definition chars (s : string) : list Z := map (fun c => Z.of_nat (nat_of_ascii c)) (String.list_ascii_of_string s).
Definition strlen (s : string) : Z := Z.of_nat (String.length s).
Definition concat_str (l : list string) : string := String.concat "" l.
Definition quote : string := String (ascii_of_nat 34) "".

(* @src ip/2018.2/llnl.gov_user_axis_hash_1.0.1/short.c 208-213 keys *)
Definition keys : list string := ["5B_01"; "8B_01234"; "9B_012345"; "16B_0123456789AB"]%string.

(* @src ip/2018.2/llnl.gov_user_axis_hash_1.0.1/short.c 215-218 main key strings *)
Definition key_string (k : string) : string :=
  concat_str [" "; quote; k; quote; ", "; pretty (strlen k)]%string.
(* @src ip/2018.2/llnl.gov_user_axis_hash_1.0.1/short.c 221-229 main key words *)
Definition key_word (k : string) : string :=
  concat_str (" "%string :: map (fun i => match chars k !! i with Some v => hex2 v | None => "00"%string end) (rev (seq 0 16))
              ++ [", "%string; pretty (strlen k)]).
(* @src ip/2018.2/llnl.gov_user_axis_hash_1.0.1/short.c 232-236 main hash bytes *)
Definition hash_dump (h : Z * Z) : string := concat_str (map (fun v => " " +:+ hex2 v) (hash_bytes h))%string.
(* @src ip/2018.2/llnl.gov_user_axis_hash_1.0.1/short.c 239-244 main hash words *)
Definition hash_word (h : Z * Z) : string := concat_str (" " :: map hex2 (rev (hash_bytes h)))%string.

(** The lines [main] prints, without their newlines. *)
(* @src ip/2018.2/llnl.gov_user_axis_hash_1.0.1/short.c 203-247 main *)
Definition main (short128_hash : hash128) : option (list string) :=
  let seed := 0xD in
  hs ← mapM (fun k => short128_hash (chars k) (strlen k) seed) keys;
  Some (["keys (char string), length (int):"%string] ++ map key_string keys ++
        ["keys (128-bit hex word), length (int):"%string] ++ map key_word keys ++
        ["hashs (16 hex bytes low to high):"%string] ++ map hash_dump hs ++
        ["hashs (128-bit hex word):"%string] ++ map hash_word hs).
