(* ===== verification/ShortHashProofs.v ===== *)
(** Correctness of the short hash: the software and the pipelined version
    compute the same function, stay inside the key, and reproduce the output
    recorded with the test program; the mixing rounds lose no information. *)
From S2P Require Import Prelude ShortHash.
Open Scope Z_scope.

(** * The pipeline computes one software round per stage *)

Definition wf_stages (st : Pipelined.stages) : Prop :=
  length (Pipelined.va st) = Pipelined.ST /\ length (Pipelined.vb st) = Pipelined.ST /\
  length (Pipelined.vc st) = Pipelined.ST /\ length (Pipelined.vd st) = Pipelined.ST.

(** The accumulators of one pipeline stage. *)
Definition stage (s : nat) (st : Pipelined.stages) : acc :=
  {| a := Pipelined.va st !!! s; b := Pipelined.vb st !!! s;
     c := Pipelined.vc st !!! s; d := Pipelined.vd st !!! s |}.

(** Stage [s] of well-formed arrays holds the accumulators [x]. *)
Definition at_stage (s : nat) (st : Pipelined.stages) (x : acc) : Prop := wf_stages st /\ stage s st = x.

(** One step of the pipeline is one round of the software version. *)
Ltac stage_tac :=
  intros Hs [(Ha & Hb & Hc & Hd) <-]; split; [unfold wf_stages; simpl; by rewrite !length_insert|];
  unfold stage; simpl; rewrite !list_lookup_total_insert_eq, Nat.sub_0_r by lia; reflexivity.

Section Stage.
Context (r : Z) (s : nat) (st : Pipelined.stages) (x : acc).

Lemma stage_dcba : (S s < Pipelined.ST)%nat -> at_stage s st x ->
  at_stage (S s) (Pipelined.EMIX_dcba r (S s) st) (Soft.EMIX_dc r x).
Proof. stage_tac. Qed.
Lemma stage_adcb : (S s < Pipelined.ST)%nat -> at_stage s st x ->
  at_stage (S s) (Pipelined.EMIX_adcb r (S s) st) (Soft.EMIX_ad r x).
Proof. stage_tac. Qed.
Lemma stage_badc : (S s < Pipelined.ST)%nat -> at_stage s st x ->
  at_stage (S s) (Pipelined.EMIX_badc r (S s) st) (Soft.EMIX_ba r x).
Proof. stage_tac. Qed.
Lemma stage_cbad : (S s < Pipelined.ST)%nat -> at_stage s st x ->
  at_stage (S s) (Pipelined.EMIX_cbad r (S s) st) (Soft.EMIX_cb r x).
Proof. stage_tac. Qed.
End Stage.

Lemma stage_mix st x : at_stage 0 st x -> at_stage 11 (Pipelined.mix st) (Soft.mix x).
Proof.
  intros H0. unfold Pipelined.mix, Soft.mix.
  do 11 (first [apply stage_dcba | apply stage_adcb | apply stage_badc | apply stage_cbad];
    [unfold Pipelined.ST; lia|]). done.
Qed.

(** * The two tails add the same numbers *)

Definition is_byte (v : Z) : Prop := in_word 8 v.

Lemma add64_add64 x y z : add64 (add64 x y) z = add64 x (y + z).
Proof. unfold add64, wrap. rewrite Zplus_mod_idemp_l. f_equal. lia. Qed.

Lemma add64_0 x : in_word 64 x -> add64 x 0 = x.
Proof. intros Hx. unfold add64. rewrite Z.add_0_r. by apply wrap_id. Qed.

Lemma load_spec n off p : (off + n <= length p)%nat -> load n off p = Some (le_val (take n (drop off p))).
Proof. intros. unfold load. by rewrite decide_True. Qed.

Lemma add64_range x y : in_word 64 (add64 x y).
Proof. by apply wrap_range. Qed.

(** Solve the case of one tail length: name the bytes, evaluate both sides,
    and compare the sums. *)
Ltac tail_case Hp Hx Hy p :=
  repeat (destruct p as [|? p]; [exfalso; simpl in Hp; lia|]; simpl in Hp; apply le_S_n in Hp);
  unfold Soft.tail, Soft.tail_byte; simpl;
  rewrite ?load_spec by (simpl; lia); simpl;
  rewrite ?load_spec by (simpl; lia); simpl;
  rewrite ?add64_add64, ?add64_0 by auto; rewrite ?Z.shiftl_mul_pow2 by lia.

Lemma tail_equiv n p x y :
  (0 < n < 16)%nat -> (n <= length p)%nat -> in_word 64 x -> in_word 64 y ->
  Soft.tail p (Z.of_nat n) x y = Pipelined.tail p (Z.of_nat n) x y.
Proof.
  intros Hn Hp Hx Hy. unfold Pipelined.tail. rewrite Nat2Z.id, decide_True by done.
  assert (Hc : In n (seq 1 15)) by (apply in_seq; lia). simpl in Hc.
  repeat (destruct Hc as [<-|Hc]; [tail_case Hp Hx Hy p; do 2 f_equal; try done; f_equal; lia|]). done.
Qed.

(** * Loops *)

(** The accumulators are 64-bit words. *)
Definition wf_acc (s : acc) : Prop :=
  in_word 64 (a s) /\ in_word 64 (b s) /\ in_word 64 (c s) /\ in_word 64 (d s).

Lemma Rot64_range x k : 0 <= k <= 64 -> in_word 64 x -> in_word 64 (Rot64 x k).
Proof. intros Hk Hx. unfold Rot64. in_word_bits_tac. Qed.

Lemma wf_EMIX_dc r s : 0 <= r <= 64 -> wf_acc s -> wf_acc (Soft.EMIX_dc r s).
Proof. intros Hr (?&?&?&?); unfold wf_acc; simpl; auto using Rot64_range, add64_range. Qed.
Lemma wf_EMIX_ad r s : 0 <= r <= 64 -> wf_acc s -> wf_acc (Soft.EMIX_ad r s).
Proof. intros Hr (?&?&?&?); unfold wf_acc; simpl; auto using Rot64_range, add64_range. Qed.
Lemma wf_EMIX_ba r s : 0 <= r <= 64 -> wf_acc s -> wf_acc (Soft.EMIX_ba r s).
Proof. intros Hr (?&?&?&?); unfold wf_acc; simpl; auto using Rot64_range, add64_range. Qed.
Lemma wf_EMIX_cb r s : 0 <= r <= 64 -> wf_acc s -> wf_acc (Soft.EMIX_cb r s).
Proof. intros Hr (?&?&?&?); unfold wf_acc; simpl; auto using Rot64_range, add64_range. Qed.

Lemma wf_mix s : wf_acc s -> wf_acc (Soft.mix s).
Proof.
  intros Hs. unfold Soft.mix.
  repeat match goal with
  | |- wf_acc (Soft.EMIX_dc _ _) => apply wf_EMIX_dc; [lia|]
  | |- wf_acc (Soft.EMIX_ad _ _) => apply wf_EMIX_ad; [lia|]
  | |- wf_acc (Soft.EMIX_ba _ _) => apply wf_EMIX_ba; [lia|]
  | |- wf_acc (Soft.EMIX_cb _ _) => apply wf_EMIX_cb; [lia|]
  end. done.
Qed.

Lemma set0_stage a0 b0 c0 d0 st x :
  at_stage 11 st x -> at_stage 0 (Pipelined.set0 a0 b0 c0 d0 st) {| a := a0; b := b0; c := c0; d := d0 |}.
Proof.
  intros [(Ha & Hb & Hc & Hd) _]. split; [unfold wf_stages; simpl; by rewrite !length_insert|].
  unfold stage, Pipelined.ST in *. simpl. by rewrite !list_lookup_total_insert_eq by lia.
Qed.

Lemma tail_range p len x y c' d' :
  Pipelined.tail p len x y = Some (c', d') -> in_word 64 c' /\ in_word 64 d'.
Proof. unfold Pipelined.tail. case_decide; [|done]. intros [= <- <-]. split; apply add64_range. Qed.

Lemma tail_some p len x y : (Z.to_nat len <= length p)%nat -> is_Some (Pipelined.tail p len x y).
Proof. intros. unfold Pipelined.tail. rewrite decide_True by done. by eexists. Qed.

Lemma not64_range x : in_word 64 (not64 x).
Proof. by apply wrap_range. Qed.

(** Both loops run to the end and keep the correspondence. *)
Lemma loop_equiv fuel : forall p len st x,
  (Z.to_nat len < fuel)%nat -> (Z.to_nat len <= length p)%nat -> at_stage 11 st x -> wf_acc x ->
  exists st' x', Pipelined.loop fuel p len st = Some st' /\ Soft.loop fuel p len x = Some x' /\ at_stage 11 st' x'.
Proof.
  induction fuel as [|fuel IH]; intros p len st x Hf Hp Hst Hx; [lia|].
  simpl Pipelined.loop. simpl Soft.loop. destruct (Z.ltb_spec 0 len) as [H0|H0]; [|by exists st, x].
  pose proof Hst as [Hwf Hx']. rewrite <- Hx' in Hx |- *. destruct Hx as (Wa & Wb & Wc & Wd).
  pose proof (wrap_range 64 len ltac:(lia)) as Wl. pose proof (not64_range (u64 len)) as Wn.
  simpl in *. destruct (Z.ltb_spec len 16) as [H16|H16].
  - destruct (tail_some p len (Pipelined.vc st !!! 11%nat) (Pipelined.vd st !!! 11%nat) Hp) as [[c' d'] Ht].
    pose proof (tail_range _ _ _ _ _ _ Ht) as [? ?].
    pose proof (tail_equiv (Z.to_nat len) p _ _ ltac:(lia) Hp Wc Wd) as He.
    rewrite Z2Nat.id in He by lia. rewrite He, Ht. simpl. apply IH; [lia|simpl; lia| |].
    + by eapply stage_mix, set0_stage.
    + apply wf_mix. unfold wf_acc. simpl. auto 6 using in_word_lxor with words.
  - rewrite !load_spec by lia. simpl. apply IH; [lia|rewrite length_drop; lia| |].
    + by eapply stage_mix, set0_stage.
    + apply wf_mix. unfold wf_acc. simpl. auto 6 using in_word_lxor, add64_range with words.
Qed.

(** * Properties *)

Definition zero_stages : Pipelined.stages :=
  let z := repeat 0 Pipelined.ST in {| Pipelined.va := z; Pipelined.vb := z; Pipelined.vc := z; Pipelined.vd := z |}.

Lemma wf_zero_stages : wf_stages zero_stages.
Proof. by repeat split. Qed.

Lemma both_terminate init key len seed :
  wf_stages init -> (Z.to_nat len <= length key)%nat ->
  exists h, Soft.short128_hash key len seed = Some h /\ Pipelined.short128_hash init key len seed = Some h.
Proof.
  intros (Ha & Hb & Hc & Hd) Hl. unfold Soft.short128_hash, Pipelined.short128_hash.
  set (x0 := {| a := u64 seed |}). set (st0 := {| Pipelined.va := _ |}).
  assert (at_stage 11 st0 x0) as Hst.
  { split; [unfold wf_stages; simpl; by rewrite !length_insert|].
    unfold stage, st0, Pipelined.ST in *. simpl. rewrite !list_lookup_total_insert_eq; [done|lia..]. }
  assert (wf_acc x0) as Hx.
  { unfold wf_acc, x0. simpl. split_and!; by apply wrap_range || (vm_compute; intuition congruence). }
  destruct (loop_equiv (S (Z.to_nat len)) key len st0 x0) as (st & x & -> & -> & _ & <-); [lia|done..|].
  by eexists.
Qed.

(** C18: for every key that holds [len] bytes, every length (zero and
    negative ones included) and every seed, the software and the pipelined
    version terminate without a load outside the key, and return the same
    128 bits whatever the stage arrays held before. *)
Theorem soft_pipelined_equiv init key len seed :
  wf_stages init -> (Z.to_nat len <= length key)%nat ->
  exists h, Soft.short128_hash key len seed = Some h /\ Pipelined.short128_hash init key len seed = Some h.
Proof.
  apply both_terminate.
Qed.

Lemma soft_pipelined_equiv_witness :
  exists h, Soft.short128_hash (repeat 7 21) 21 (-3) = Some h /\
    Pipelined.short128_hash zero_stages (repeat 7 21) 21 (-3) = Some h.
Proof. apply (soft_pipelined_equiv zero_stages); [apply wf_zero_stages|vm_compute; lia]. Defined.

(** compiled either way, the test program prints exactly the output
    recorded in the comment behind it. *)
Theorem recorded_output :
  let expected := Some
    ["keys (char string), length (int):";
     " " +:+ quote +:+ "5B_01" +:+ quote +:+ ", 5"; " " +:+ quote +:+ "8B_01234" +:+ quote +:+ ", 8";
     " " +:+ quote +:+ "9B_012345" +:+ quote +:+ ", 9"; " " +:+ quote +:+ "16B_0123456789AB" +:+ quote +:+ ", 16";
     "keys (128-bit hex word), length (int):";
     " 000000000000000000000031305F4235, 5"; " 000000000000000034333231305F4238, 8";
     " 000000000000003534333231305F4239, 9"; " 4241393837363534333231305F423631, 16";
     "hashs (16 hex bytes low to high):";
     " 14 85 84 56 BB 2A D3 5D 9D EF 37 F4 D2 DE A2 A3"; " 7A BD 2A 5B 29 0F 93 55 E9 2A 24 C5 60 56 A7 21";
     " 4D BE D3 5A 3A 97 BA 88 99 12 30 55 EE 10 75 FB"; " 37 8E E2 D9 10 4D 6E 59 D1 14 A5 6F 1E 01 C1 C2";
     "hashs (128-bit hex word):";
     " A3A2DED2F437EF9D5DD32ABB56848514"; " 21A75660C5242AE955930F295B2ABD7A";
     " FB7510EE5530129988BA973A5AD3BE4D"; " C2C1011E6FA514D1596E4D10D9E28E37"]%string in
  ShortHash.main Soft.short128_hash = expected /\
  ShortHash.main (Pipelined.short128_hash zero_stages) = expected.
Proof. split; vm_compute; reflexivity. Qed.

(** ** Only the first [len] bytes matter *)

Lemma load_app n off p rest : (off + n <= length p)%nat -> load n off (p ++ rest) = load n off p.
Proof.
  intros. rewrite !load_spec by (rewrite ?length_app; lia).
  rewrite drop_app_le, take_app_le by (rewrite ?length_drop; lia). done.
Qed.

Lemma pipe_tail_app p rest len x y :
  (Z.to_nat len <= length p)%nat -> Pipelined.tail (p ++ rest) len x y = Pipelined.tail p len x y.
Proof.
  intros Hp. unfold Pipelined.tail. rewrite length_app, !decide_True by lia.
  by rewrite (take_app_le p) by lia.
Qed.

Lemma pipe_loop_app fuel : forall p rest len st,
  (Z.to_nat len <= length p)%nat -> Pipelined.loop fuel (p ++ rest) len st = Pipelined.loop fuel p len st.
Proof.
  induction fuel as [|fuel IH]; intros p rest len st Hp; [done|]. simpl Pipelined.loop.
  destruct (Z.ltb_spec 0 len); [|done]. destruct (Z.ltb_spec len 16).
  - rewrite pipe_tail_app by done. destruct (Pipelined.tail p len _ _) as [[c' d']|]; [|done].
    simpl. apply IH. simpl. lia.
  - rewrite !load_app by lia. destruct (load 8 0 p); [|done]. simpl.
    destruct (load 8 8 p); [|done]. simpl. rewrite drop_app_le by lia. apply IH.
    rewrite length_drop. lia.
Qed.

(** the hash of a key depends on its first [len] bytes only: bytes behind
    them (the rest of an aligned load, in particular) do not change it. *)
Theorem hash_prefix key rest len seed :
  (Z.to_nat len <= length key)%nat ->
  Soft.short128_hash (key ++ rest) len seed = Soft.short128_hash key len seed.
Proof.
  intros Hl.
  destruct (both_terminate zero_stages key len seed wf_zero_stages Hl) as (h & -> & Hp).
  destruct (both_terminate zero_stages (key ++ rest) len seed wf_zero_stages) as (h' & -> & Hp');
    [rewrite length_app; lia|].
  unfold Pipelined.short128_hash in *. rewrite pipe_loop_app in Hp' by done. by rewrite <- Hp, <- Hp'.
Qed.

Lemma hash_prefix_witness :
  Soft.short128_hash ([1; 2; 3] ++ [255; 255]) 3 13 = Soft.short128_hash [1; 2; 3] 3 13.
Proof. apply hash_prefix. vm_compute. lia. Defined.

(** ** The rounds are invertible *)

Lemma Rot64_inj k x y : 0 <= k <= 64 -> in_word 64 x -> in_word 64 y -> Rot64 x k = Rot64 y k -> x = y.
Proof.
  intros Hk Hx Hy He. apply Z.bits_inj'. intros i Hi.
  destruct (Z.ltb_spec i 64) as [Hi64|]; [|by rewrite (testbit_high _ _ _ Hx), (testbit_high _ _ _ Hy) by lia].
  assert (Hrot : forall z, in_word 64 z ->
    Z.testbit z i = Z.testbit (Rot64 z k) (if i + k <? 64 then i + k else i + k - 64)).
  { intros z Hz. unfold Rot64. autorewrite with bits. bit_cases; try lia; simpl;
      rewrite ?(testbit_high _ _ (_ + _ + _) Hz), ?(Z.testbit_neg_r z (_ - _)) by lia;
      rewrite ?orb_false_r; simpl; f_equal; lia. }
  by rewrite (Hrot x Hx), (Hrot y Hy), He.
Qed.

Lemma lxor_cancel_r x y z : Z.lxor x z = Z.lxor y z -> x = y.
Proof.
  intros H. apply (f_equal (fun v => Z.lxor v z)) in H.
  by rewrite !Z.lxor_assoc, !Z.lxor_nilpotent, !Z.lxor_0_r in H.
Qed.

Lemma add64_inj x y z : in_word 64 x -> in_word 64 y -> add64 x z = add64 y z -> x = y.
Proof.
  intros Hx Hy H. apply (f_equal (fun v => wrap 64 (v - z))) in H. unfold add64, wrap in H.
  rewrite !Zminus_mod_idemp_l in H. replace (x + z - z) with x in H by lia. replace (y + z - z) with y in H by lia.
  by rewrite !Z.mod_small in H.
Qed.

(** A round is injective on words. *)
Lemma EMIX_inj r y x y' x' :
  0 <= r <= 64 -> in_word 64 x -> in_word 64 x' -> in_word 64 y -> in_word 64 y' ->
  add64 (Z.lxor y x) (Rot64 x r) = add64 (Z.lxor y' x') (Rot64 x' r) -> Rot64 x r = Rot64 x' r ->
  y = y' /\ x = x'.
Proof.
  intros Hr ???? Hy Hx. apply Rot64_inj in Hx as ->; try done.
  split; [|done]. apply add64_inj in Hy; [by eapply lxor_cancel_r|..]; by apply in_word_lxor.
Qed.

Ltac round_inj :=
  intros Hr Hs Ht [=]; destruct Hs as (?&?&?&?), Ht as (?&?&?&?); simpl in *; subst;
  edestruct EMIX_inj as [? ?]; [exact Hr| | | | |eassumption|eassumption|]; try assumption; by subst.

Lemma EMIX_dc_inj r s t : 0 <= r <= 64 -> wf_acc s -> wf_acc t -> Soft.EMIX_dc r s = Soft.EMIX_dc r t -> s = t.
Proof. destruct s, t. round_inj. Qed.
Lemma EMIX_ad_inj r s t : 0 <= r <= 64 -> wf_acc s -> wf_acc t -> Soft.EMIX_ad r s = Soft.EMIX_ad r t -> s = t.
Proof. destruct s, t. round_inj. Qed.
Lemma EMIX_ba_inj r s t : 0 <= r <= 64 -> wf_acc s -> wf_acc t -> Soft.EMIX_ba r s = Soft.EMIX_ba r t -> s = t.
Proof. destruct s, t. round_inj. Qed.
Lemma EMIX_cb_inj r s t : 0 <= r <= 64 -> wf_acc s -> wf_acc t -> Soft.EMIX_cb r s = Soft.EMIX_cb r t -> s = t.
Proof. destruct s, t. round_inj. Qed.

(** The well-formedness of the intermediate states of [mix]. *)
Ltac wf_rounds :=
  repeat match goal with
  | |- wf_acc (Soft.EMIX_dc _ _) => apply wf_EMIX_dc; [lia|]
  | |- wf_acc (Soft.EMIX_ad _ _) => apply wf_EMIX_ad; [lia|]
  | |- wf_acc (Soft.EMIX_ba _ _) => apply wf_EMIX_ba; [lia|]
  | |- wf_acc (Soft.EMIX_cb _ _) => apply wf_EMIX_cb; [lia|]
  end; assumption.

(** the eleven rounds that follow a block are injective on the four
    64-bit accumulators: two states that differ before them differ after
    them, so absorbing a block loses nothing. *)
Theorem mix_injective s t : wf_acc s -> wf_acc t -> Soft.mix s = Soft.mix t -> s = t.
Proof.
  intros Hs Ht. unfold Soft.mix. cbv zeta. intros H.
  repeat match type of H with
  | Soft.EMIX_dc _ _ = _ => apply EMIX_dc_inj in H; [|lia|wf_rounds|wf_rounds]
  | Soft.EMIX_ad _ _ = _ => apply EMIX_ad_inj in H; [|lia|wf_rounds|wf_rounds]
  | Soft.EMIX_ba _ _ = _ => apply EMIX_ba_inj in H; [|lia|wf_rounds|wf_rounds]
  | Soft.EMIX_cb _ _ = _ => apply EMIX_cb_inj in H; [|lia|wf_rounds|wf_rounds]
  end. done.
Qed.

Lemma mix_injective_witness :
  Soft.mix {| a := 1; b := 2; c := 3; d := 4 |} <> Soft.mix {| a := 1; b := 2; c := 3; d := 5 |}.
Proof.
  intros H. apply mix_injective in H; [discriminate|..]; unfold wf_acc, in_word; simpl; lia.
Defined.
