(* ===== verification/Streamer.v ===== *)
(** The byte streamer (shared/linux/xllfifo/xstreamer.c, xstreamer.h): byte
    streams of any length and alignment over a FIFO that moves aligned words.

    The function pointers of the streamer objects are the interface
    [FifoOps]; what the streamer relies on is [RxFifo] and [TxFifo], which the
    driver of the FIFO core discharges (LlFifo.v).  Memory is a function from
    addresses to bytes. *)
From S2P Require Import Prelude.
Open Scope Z_scope.

(** * Memory *)

Definition mem := Z -> Z.

Definition store_byte (a v : Z) (m : mem) : mem := fun a' => if a =? a' then v else m a'.

(** Store the bytes of [l] from address [a] up, in this order. *)
Fixpoint store_bytes (a : Z) (l : list Z) (m : mem) : mem :=
  match l with [] => m | v :: l' => store_bytes (a + 1) l' (store_byte a v m) end.

Definition load_byte (a : Z) (m : mem) : Z := u8 (m a).

Definition load_bytes (a n : Z) (m : mem) : list Z := map (fun a => load_byte a m) (seqZ a n).

Lemma store_bytes_app a l1 l2 m :
  store_bytes a (l1 ++ l2) m = store_bytes (a + Z.of_nat (length l1)) l2 (store_bytes a l1 m).
Proof.
  revert a m. induction l1 as [|v l1 IH]; intros a m; [simpl; by rewrite Z.add_0_r|].
  simpl app. simpl store_bytes. rewrite IH. f_equal. simpl. lia.
Qed.

Lemma store_bytes_below a l m a' : a' < a -> store_bytes a l m a' = m a'.
Proof.
  revert a m. induction l as [|v l IH]; intros a m Ha; simpl; [done|].
  rewrite IH by lia. unfold store_byte. by destruct (Z.eqb_spec a a'); [lia|].
Qed.

(** What was stored is what is loaded. *)
Lemma load_store_bytes a l m :
  Forall (in_word 8) l -> load_bytes a (Z.of_nat (length l)) (store_bytes a l m) = l.
Proof.
  unfold load_bytes. intros Hl. revert a m. induction Hl as [|v l Hv Hl IH]; intros a m; [done|].
  simpl length. rewrite Nat2Z.inj_succ, seqZ_cons by lia. simpl. f_equal.
  - unfold load_byte. rewrite store_bytes_below by lia. unfold store_byte. rewrite Z.eqb_refl. by apply wrap_id.
  - rewrite Z.pred_succ. apply (IH (a + 1)).
Qed.

Lemma load_bytes_range a n m : Forall (in_word 8) (load_bytes a n m).
Proof. apply Forall_map, Forall_true. intros. by apply wrap_range. Qed.

Lemma length_load_bytes a n m : Z.of_nat (length (load_bytes a n m)) = Z.max 0 n.
Proof. unfold load_bytes. rewrite length_map, length_seqZ. lia. Qed.

Lemma load_bytes_app a n1 n2 m :
  0 <= n1 -> 0 <= n2 -> load_bytes a (n1 + n2) m = load_bytes a n1 m ++ load_bytes (a + n1) n2 m.
Proof. intros. unfold load_bytes. by rewrite seqZ_app, map_app by lia. Qed.

(** ** Little-endian words *)

Definition word_bytes (w : Z) : list Z :=
  [u8 w; u8 (Z.shiftr w 8); u8 (Z.shiftr w 16); u8 (Z.shiftr w 24)].
Definition words_bytes (ws : list Z) : list Z := concat (map word_bytes ws).

Definition word_of (a b c d : Z) : Z := Z.lor (Z.lor a (Z.shiftl b 8)) (Z.lor (Z.shiftl c 16) (Z.shiftl d 24)).
Fixpoint words_of (l : list Z) : list Z :=
  match l with a :: b :: c :: d :: l' => word_of a b c d :: words_of l' | _ => [] end.

Lemma length_words_bytes ws : length (words_bytes ws) = (4 * length ws)%nat.
Proof. induction ws as [|w ws IH]; [done|]. unfold words_bytes in *. simpl in *. lia. Qed.

Lemma words_bytes_app ws1 ws2 : words_bytes (ws1 ++ ws2) = words_bytes ws1 ++ words_bytes ws2.
Proof. unfold words_bytes. by rewrite map_app, concat_app. Qed.

Lemma words_bytes_take n : forall ws, words_bytes (take n ws) = take (4 * n) (words_bytes ws).
Proof.
  induction n as [|n IH]; intros [|w ws]; try done.
  replace (4 * S n)%nat with (S (S (S (S (4 * n))))) by lia.
  cbn [take]. unfold words_bytes in *. simpl map. simpl concat. rewrite IH. done.
Qed.

Lemma words_bytes_drop n : forall ws, words_bytes (drop n ws) = drop (4 * n) (words_bytes ws).
Proof.
  induction n as [|n IH]; intros [|w ws]; try done.
  replace (4 * S n)%nat with (S (S (S (S (4 * n))))) by lia. apply IH.
Qed.

Lemma words_bytes_range ws : Forall (in_word 8) (words_bytes ws).
Proof.
  induction ws as [|w ws IH]; [constructor|]. unfold words_bytes. simpl.
  repeat constructor; try (by apply wrap_range); try done.
Qed.

Lemma word_bytes_of a b c d :
  in_word 8 a -> in_word 8 b -> in_word 8 c -> in_word 8 d -> word_bytes (word_of a b c d) = [a; b; c; d].
Proof. intros. unfold word_bytes, word_of. repeat f_equal; Zbits. Qed.

Lemma words_bytes_of l : (4 | Z.of_nat (length l)) -> Forall (in_word 8) l -> words_bytes (words_of l) = l.
Proof.
  intros [k Hk]. assert (Hn : length l = (4 * Z.to_nat k)%nat) by lia. clear Hk.
  revert l Hn. generalize (Z.to_nat k) as n. induction n as [|n IH]; intros l Hn Hl; [by destruct l|].
  destruct l as [|a [|b [|c [|d l]]]]; simpl in Hn; try lia.
  rewrite !Forall_cons in Hl. destruct Hl as (? & ? & ? & ? & Hl).
  change (words_bytes (words_of (a :: b :: c :: d :: l))) with (word_bytes (word_of a b c d) ++ words_bytes (words_of l)).
  by rewrite IH, word_bytes_of by (done || lia).
Qed.

(** * The FIFO behind a streamer *)

(** [ReadFn n] fills a buffer with [n] 32-bit words, [WriteFn] drains one. *)
(* @src shared/linux/xllfifo/xstreamer.h 144-151 XStrm_XferFnType and the like *)
Class FifoOps (F : Type) := {
  ReadFn : Z -> F -> list Z * F;
  GetLenFn : F -> Z * F;
  GetOccupancyFn : F -> Z * F;
  WriteFn : list Z -> F -> F;
  SetLenFn : Z -> F -> F;
  GetVacancyFn : F -> Z * F
}.

(** Frames wait in [rx_frames]; the words of the frame announced last wait in
    [rx_bytes], the last of them padded. *)
Class RxFifo (F : Type) `{FifoOps F} := {
  rx_bytes : F -> list Z;
  rx_frames : F -> list (list Z);
  rx_aligned : forall f, (4 | Z.of_nat (length (rx_bytes f)));
  rx_read : forall n f, 0 <= n -> 4 * n <= Z.of_nat (length (rx_bytes f)) ->
    fst (ReadFn n f) = take (Z.to_nat (4 * n)) (rx_bytes f) /\
    rx_bytes (snd (ReadFn n f)) = drop (Z.to_nat (4 * n)) (rx_bytes f) /\
    rx_frames (snd (ReadFn n f)) = rx_frames f;
  rx_getlen : forall f fr rest, rx_bytes f = [] -> rx_frames f = fr :: rest ->
    fst (GetLenFn f) = Z.of_nat (length fr) /\
    rx_frames (snd (GetLenFn f)) = rest /\
    exists pad, (length pad < 4)%nat /\ rx_bytes (snd (GetLenFn f)) = fr ++ pad
}.

(** Words written wait in [tx_bytes], as long as there are free words, until
    the length is set, which sends them as one frame. *)
Class TxFifo (F : Type) `{FifoOps F} := {
  tx_bytes : F -> list Z;
  tx_frames : F -> list (list Z);
  tx_space : F -> Z;
  tx_aligned : forall f, (4 | Z.of_nat (length (tx_bytes f)));
  tx_write : forall l f, (4 | Z.of_nat (length l)) -> Forall (in_word 8) l -> Z.of_nat (length l) <= 4 * tx_space f ->
    tx_bytes (WriteFn l f) = tx_bytes f ++ l /\ tx_frames (WriteFn l f) = tx_frames f /\
    4 * tx_space (WriteFn l f) = 4 * tx_space f - Z.of_nat (length l);
  tx_setlen : forall n f, n < 2 ^ 32 -> 0 <= n <= Z.of_nat (length (tx_bytes f)) -> Z.of_nat (length (tx_bytes f)) < n + 4 ->
    tx_bytes (SetLenFn n f) = [] /\ tx_frames (SetLenFn n f) = tx_frames f ++ [take (Z.to_nat n) (tx_bytes f)]
}.

(** * Streamer objects *)

(* @src shared/linux/xllfifo/xstreamer.h 155-180 XStrm_RxFifoStreamer *)
Record XStrm_RxFifoStreamer := {
  Rx_AlignedBuffer : list Z;
  HeadIndex : Z;
  Rx_FifoWidth : Z;
  FrmByteCnt : Z
}.

(* @src shared/linux/xllfifo/xstreamer.h 185-206 XStrm_TxFifoStreamer *)
Record XStrm_TxFifoStreamer := {
  Tx_AlignedBuffer : list Z;
  TailIndex : Z;
  Tx_FifoWidth : Z
}.

Definition set_Head h s := {| Rx_AlignedBuffer := Rx_AlignedBuffer s; HeadIndex := h; Rx_FifoWidth := Rx_FifoWidth s; FrmByteCnt := FrmByteCnt s |}.
Definition set_FrmByteCnt n s := {| Rx_AlignedBuffer := Rx_AlignedBuffer s; HeadIndex := HeadIndex s; Rx_FifoWidth := Rx_FifoWidth s; FrmByteCnt := n |}.
Definition set_Tail t s := {| Tx_AlignedBuffer := Tx_AlignedBuffer s; TailIndex := t; Tx_FifoWidth := Tx_FifoWidth s |}.

(** Overwrite the start of the holding buffer. *)
Definition fill_buffer (l buf : list Z) : list Z := l ++ drop (length l) buf.

(* @src shared/linux/xllfifo/xstreamer.c 187-201 XStrm_RxInitialize *)
Definition XStrm_RxInitialize (FifoWidth : Z) (s : XStrm_RxFifoStreamer) : XStrm_RxFifoStreamer :=
  {| Rx_AlignedBuffer := Rx_AlignedBuffer s; HeadIndex := FifoWidth; Rx_FifoWidth := FifoWidth;
     FrmByteCnt := FrmByteCnt s |}.

(* @src shared/linux/xllfifo/xstreamer.c 231-245 XStrm_TxInitialize *)
Definition XStrm_TxInitialize (FifoWidth : Z) (s : XStrm_TxFifoStreamer) : XStrm_TxFifoStreamer :=
  {| Tx_AlignedBuffer := Tx_AlignedBuffer s; TailIndex := 0; Tx_FifoWidth := FifoWidth |}.

Section Streamer.
Context {F : Type} `{FifoOps F}.

(** ** Receive *)

(* @src shared/linux/xllfifo/xstreamer.c 263-271 XStrm_RxGetLen *)
Definition XStrm_RxGetLen (s : XStrm_RxFifoStreamer) (f : F) : Z * XStrm_RxFifoStreamer * F :=
  let s := set_Head (Rx_FifoWidth s) s in
  let '(len, f) := GetLenFn f in
  (len, set_FrmByteCnt len s, f).

(** The copy loop of case 1, [PartialBytes] being counted down. *)
(* @src shared/linux/xllfifo/xstreamer.c 319-323 XStrm_Read copy loop *)
Fixpoint copy_out (PartialBytes : nat) (buf : list Z) (i DestPtr : Z) (m : mem) : mem :=
  match PartialBytes with
  | O => m
  | S n => copy_out n buf (i + 1) (DestPtr + 1) (store_byte DestPtr (buf !!! Z.to_nat i) m)
  end.

(* @src shared/linux/xllfifo/xstreamer.c 301-368 XStrm_Read loop *)
Fixpoint XStrm_Read_loop (fuel : nat) (s : XStrm_RxFifoStreamer) (f : F) (m : mem) (DestPtr BytesRemaining : Z)
    : option (XStrm_RxFifoStreamer * F * mem) :=
  match fuel with
  | O => None
  | S fuel' =>
      if BytesRemaining =? 0 then Some (s, f, m)
      else if negb (HeadIndex s =? Rx_FifoWidth s) then
        let i := HeadIndex s in
        let PartialBytes := Z.min BytesRemaining (Rx_FifoWidth s - HeadIndex s) in
        let s := set_Head (HeadIndex s + PartialBytes) s in
        let s := set_FrmByteCnt (u32 (FrmByteCnt s - PartialBytes)) s in
        let m := copy_out (Z.to_nat PartialBytes) (Rx_AlignedBuffer s) i DestPtr m in
        XStrm_Read_loop fuel' s f m (DestPtr + PartialBytes) (BytesRemaining - PartialBytes)
      else if (Z.land DestPtr 3 =? 0) && (Rx_FifoWidth s <=? BytesRemaining) then
        let FifoWordsToXfer := BytesRemaining / Rx_FifoWidth s in
        let '(data, f) := ReadFn FifoWordsToXfer f in
        let m := store_bytes DestPtr data m in
        let n := FifoWordsToXfer * Rx_FifoWidth s in
        XStrm_Read_loop fuel' (set_FrmByteCnt (u32 (FrmByteCnt s - n)) s) f m (DestPtr + n) (BytesRemaining - n)
      else
        let '(data, f) := ReadFn 1 f in
        let s := {| Rx_AlignedBuffer := fill_buffer data (Rx_AlignedBuffer s); HeadIndex := 0;
                    Rx_FifoWidth := Rx_FifoWidth s; FrmByteCnt := FrmByteCnt s |} in
        XStrm_Read_loop fuel' s f m DestPtr BytesRemaining
  end.

(** Every second iteration at least moves a byte, so the fuel is enough. *)
(* @src shared/linux/xllfifo/xstreamer.c 292-372 XStrm_Read *)
Definition XStrm_Read (s : XStrm_RxFifoStreamer) (f : F) (m : mem) (BufPtr Bytes : Z)
    : option (XStrm_RxFifoStreamer * F * mem) :=
  '(s, f, m) ← XStrm_Read_loop (Z.to_nat (2 * Bytes + 2)) s f m BufPtr Bytes;
  Some (if FrmByteCnt s =? 0 then set_Head 0 s else s, f, m).

(* @src shared/linux/xllfifo/xstreamer.h 271-279 XStrm_RxOccupancy *)
Definition XStrm_RxOccupancy (s : XStrm_RxFifoStreamer) (f : F) : Z * F :=
  let '(n, f) := GetOccupancyFn f in
  (u32 (n + (if truthy (FrmByteCnt s) then u32 (Rx_FifoWidth s - HeadIndex s) else 0)), f).

(* @src shared/linux/xllfifo/xstreamer.h 301-302 XStrm_IsRxInternalEmpty *)
Definition XStrm_IsRxInternalEmpty (s : XStrm_RxFifoStreamer) : bool := FrmByteCnt s =? 0.

(** ** Transmit *)

(* @src shared/linux/xllfifo/xstreamer.c 389-405 XStrm_TxSetLen *)
Definition XStrm_TxSetLen (s : XStrm_TxFifoStreamer) (f : F) (Bytes : Z) : XStrm_TxFifoStreamer * F :=
  let '(s, f) :=
    if negb (TailIndex s =? 0) then (set_Tail 0 s, WriteFn (take 4 (Tx_AlignedBuffer s)) f) else (s, f) in
  (s, SetLenFn Bytes f).

(* @src shared/linux/xllfifo/xstreamer.c 501-507 XStrm_Write copy loop *)
Fixpoint copy_in (PartialBytes : nat) (buf : list Z) (i SrcPtr : Z) (m : mem) : list Z :=
  match PartialBytes with
  | O => buf
  | S n => copy_in n (<[Z.to_nat i := load_byte SrcPtr m]> buf) (i + 1) (SrcPtr + 1) m
  end.

(* @src shared/linux/xllfifo/xstreamer.c 436-509 XStrm_Write loop *)
Fixpoint XStrm_Write_loop (fuel : nat) (s : XStrm_TxFifoStreamer) (f : F) (m : mem) (SrcPtr BytesRemaining : Z)
    : option (XStrm_TxFifoStreamer * F) :=
  match fuel with
  | O => None
  | S fuel' =>
      if BytesRemaining =? 0 then Some (s, f)
      else
        let '(s, f) :=
          if TailIndex s =? Tx_FifoWidth s then (set_Tail 0 s, WriteFn (take 4 (Tx_AlignedBuffer s)) f) else (s, f) in
        if (TailIndex s =? 0) && (Tx_FifoWidth s <=? BytesRemaining) && (Z.land SrcPtr 3 =? 0) then
          let FifoWordsToXfer := BytesRemaining / Tx_FifoWidth s in
          let f := WriteFn (load_bytes SrcPtr (4 * FifoWordsToXfer) m) f in
          let n := FifoWordsToXfer * Tx_FifoWidth s in
          XStrm_Write_loop fuel' s f m (SrcPtr + n) (BytesRemaining - n)
        else
          let i := TailIndex s in
          let PartialBytes := Z.min BytesRemaining (Tx_FifoWidth s - TailIndex s) in
          let s := {| Tx_AlignedBuffer := copy_in (Z.to_nat PartialBytes) (Tx_AlignedBuffer s) i SrcPtr m;
                      TailIndex := TailIndex s + PartialBytes; Tx_FifoWidth := Tx_FifoWidth s |} in
          XStrm_Write_loop fuel' s f m (SrcPtr + PartialBytes) (BytesRemaining - PartialBytes)
  end.

(** Every iteration moves a byte at least. *)
(* @src shared/linux/xllfifo/xstreamer.c 427-510 XStrm_Write *)
Definition XStrm_Write (s : XStrm_TxFifoStreamer) (f : F) (m : mem) (BufPtr Bytes : Z) : option (XStrm_TxFifoStreamer * F) :=
  XStrm_Write_loop (Z.to_nat (Bytes + 1)) s f m BufPtr Bytes.

(* @src shared/linux/xllfifo/xstreamer.h 232-234 XStrm_TxVacancy *)
Definition XStrm_TxVacancy (s : XStrm_TxFifoStreamer) (f : F) : Z * F :=
  let '(n, f) := GetVacancyFn f in (u32 (n - (TailIndex s + 3) / 4), f).

End Streamer.
