(* ===== verification/StreamerProofs.v ===== *)
(** Correctness of the byte streamer against its FIFO interface: reads and
    writes of any length and alignment move exactly the bytes of the stream,
    in order, however a frame is cut into calls. *)
From S2P Require Import Prelude Streamer.
Open Scope Z_scope.

(** * Receive *)

Section Receive.
Context {F : Type} `{HO : FifoOps F} `{!RxFifo F}.

(** Bytes in the holding buffer not read yet. *)
Definition pending (s : XStrm_RxFifoStreamer) : list Z := drop (Z.to_nat (HeadIndex s)) (take 4 (Rx_AlignedBuffer s)).

Definition wf_rx (s : XStrm_RxFifoStreamer) : Prop :=
  Rx_FifoWidth s = 4 /\ 0 <= HeadIndex s <= 4 /\ (4 <= length (Rx_AlignedBuffer s))%nat.

Lemma length_pending s : wf_rx s -> Z.of_nat (length (pending s)) = 4 - HeadIndex s.
Proof. intros (_ & ? & ?). unfold pending. rewrite length_drop, length_take. lia. Qed.

Lemma copy_out_spec n : forall buf i dst m,
  0 <= i -> (Z.to_nat i + n <= length buf)%nat ->
  copy_out n buf i dst m = store_bytes dst (take n (drop (Z.to_nat i) buf)) m.
Proof.
  induction n as [|n IH]; intros buf i dst m Hi Hn; simpl; [done|].
  destruct (lookup_lt_is_Some_2 buf (Z.to_nat i)) as [v Hv]; [lia|].
  rewrite (drop_S buf v) by done. simpl. rewrite (list_lookup_total_correct buf _ v) by done.
  rewrite IH by lia. replace (Z.to_nat (i + 1)) with (S (Z.to_nat i)) by lia. done.
Qed.

Lemma take_pending n s : wf_rx s -> n <= 4 - HeadIndex s ->
  take (Z.to_nat n) (drop (Z.to_nat (HeadIndex s)) (Rx_AlignedBuffer s)) = take (Z.to_nat n) (pending s).
Proof. intros (_ & ? & ?) Hn. unfold pending. rewrite skipn_firstn_comm, take_take. f_equal. lia. Qed.

(** The stream as the reader sees it. *)
Definition stream (s : XStrm_RxFifoStreamer) (f : F) : list Z := pending s ++ rx_bytes f.

Lemma read_words n f : 0 <= n -> 4 * n <= Z.of_nat (length (rx_bytes f)) ->
  exists f', ReadFn n f = (take (Z.to_nat (4 * n)) (rx_bytes f), f') /\
    rx_bytes f' = drop (Z.to_nat (4 * n)) (rx_bytes f) /\ rx_frames f' = rx_frames f.
Proof.
  intros Hn Hl. destruct (rx_read n f Hn Hl) as (H1 & H2 & H3).
  exists (snd (ReadFn n f)). rewrite <- H1. by destruct (ReadFn n f).
Qed.

Definition flag_full (s : XStrm_RxFifoStreamer) : Z := if HeadIndex s =? 4 then 1 else 0.

Lemma pending_nil s : wf_rx s -> HeadIndex s = 4 -> pending s = [].
Proof. intros Hs Hh. apply nil_length_inv. pose proof (length_pending s Hs). lia. Qed.

(** Reading [rem] bytes of the current frame. *)
Lemma read_loop_spec fuel : forall s f m dst rem,
  wf_rx s -> 0 <= rem <= FrmByteCnt s -> FrmByteCnt s < 2 ^ 32 -> rem <= Z.of_nat (length (stream s f)) ->
  2 * rem + flag_full s < Z.of_nat fuel ->
  exists s' f', XStrm_Read_loop fuel s f m dst rem
      = Some (s', f', store_bytes dst (take (Z.to_nat rem) (stream s f)) m) /\
    wf_rx s' /\ FrmByteCnt s' = FrmByteCnt s - rem /\
    stream s' f' = drop (Z.to_nat rem) (stream s f) /\ rx_frames f' = rx_frames f.
Proof.
  induction fuel as [|fuel IH]; intros s f m dst rem Hs Hrem Hcnt Hlen Hfuel; [unfold flag_full in Hfuel; case_match; lia|].
  pose proof Hs as (Hw & Hh & Hb). pose proof (length_pending s Hs) as Hp.
  simpl. destruct (Z.eqb_spec rem 0) as [->|Hr0].
  { exists s, f. split_and!; try done; lia. }
  rewrite Hw. unfold flag_full in Hfuel. destruct (Z.eqb_spec (HeadIndex s) 4) as [Hh4|Hh4]; simpl.
  2: { (* case 1 *)
    set (n := Z.min rem (4 - HeadIndex s)). assert (Hn : 0 < n <= rem) by lia.
    set (s1 := set_FrmByteCnt _ _).
    assert (Hs1 : pending s1 = drop (Z.to_nat n) (pending s)).
    { unfold pending. simpl. rewrite drop_drop. f_equal. lia. }
    assert (Hst : stream s1 f = drop (Z.to_nat n) (stream s f)).
    { unfold stream. rewrite Hs1, drop_app_le by lia. done. }
    assert (Hc1 : FrmByteCnt s1 = FrmByteCnt s - n) by (simpl; apply wrap_id; split; lia).
    destruct (IH s1 f (copy_out (Z.to_nat n) (Rx_AlignedBuffer s) (HeadIndex s) dst m) (dst + n) (rem - n))
      as (s' & f' & Hl & Hwf & Hc & Hst' & Hfr).
    { repeat split; simpl; lia || done. } { lia. } { lia. } { rewrite Hst, length_drop. lia. }
    { unfold flag_full. case_match; lia. }
    exists s', f'. rewrite Hl, Hst, copy_out_spec by lia. rewrite take_pending by (done || lia).
    split; [|split_and!; [done|lia|rewrite Hst', Hst, drop_drop; f_equal; lia|done]].
    do 2 f_equal. replace (Z.to_nat rem) with (Z.to_nat n + Z.to_nat (rem - n))%nat by lia.
    rewrite <- (take_take_drop (stream s f)), store_bytes_app. unfold stream.
    rewrite (take_app_le (pending s)) by lia. f_equal. rewrite length_take. lia. }
  assert (Hst0 : stream s f = rx_bytes f) by (unfold stream; by rewrite pending_nil).
  rewrite Hst0 in *. pose proof (rx_aligned f) as [k Hk].
  destruct ((Z.land dst 3 =? 0) && (4 <=? rem)) eqn:E2.
  - (* case 2 *)
    apply andb_true_iff in E2 as [_ E2%Z.leb_le]. set (q := rem / 4).
    assert (Hq : 4 * q <= rem < 4 * q + 4 /\ 1 <= q) by (unfold q; clear -E2; div_lia).
    destruct (read_words q f) as (f1 & -> & Hf1 & Hfr1); [lia|lia|]. simpl.
    set (s1 := set_FrmByteCnt _ _).
    assert (Hs1 : stream s1 f1 = drop (Z.to_nat (4 * q)) (rx_bytes f)).
    { unfold stream. by rewrite (pending_nil s1), Hf1. }
    assert (Hc1 : FrmByteCnt s1 = FrmByteCnt s - q * 4) by (simpl; apply wrap_id; split; lia).
    destruct (IH s1 f1 (store_bytes dst (take (Z.to_nat (4 * q)) (rx_bytes f)) m) (dst + q * 4) (rem - q * 4))
      as (s' & f' & Hl & Hwf & Hc & Hst' & Hfr).
    { done. } { lia. } { lia. } { rewrite Hs1, length_drop. lia. } { unfold flag_full. simpl. case_match; lia. }
    exists s', f'. rewrite Hl, Hs1. split; [|split_and!; [done|lia|rewrite Hst', Hs1, drop_drop; f_equal; lia|congruence]].
    do 2 f_equal. replace (Z.to_nat rem) with (Z.to_nat (4 * q) + Z.to_nat (rem - q * 4))%nat by lia.
    rewrite <- (take_take_drop (rx_bytes f)), store_bytes_app. f_equal. rewrite length_take. lia.
  - (* case 3 *)
    destruct (read_words 1 f) as (f1 & -> & Hf1 & Hfr1); [lia|lia|].
    change (Z.to_nat (4 * 1)) with 4%nat in *. set (s1 := {| HeadIndex := 0 |}).
    assert (Hlen4 : length (take 4 (rx_bytes f)) = 4%nat) by (rewrite length_take; lia).
    assert (Hs1 : stream s1 f1 = rx_bytes f).
    { unfold stream, pending. simpl. unfold fill_buffer. rewrite take_app_le by lia.
      rewrite take_take, Hf1. apply (take_drop 4). }
    destruct (IH s1 f1 m dst rem) as (s' & f' & Hl & Hwf & Hc & Hst' & Hfr).
    { unfold wf_rx, s1, fill_buffer. cbn [Rx_FifoWidth HeadIndex Rx_AlignedBuffer].
      rewrite length_app. split_and!; lia. }
    { simpl. lia. } { simpl. lia. } { rewrite Hs1. lia. } { unfold flag_full. simpl. lia. }
    exists s', f'. rewrite Hl, Hs1, Hst', Hs1. split_and!; [done..|congruence].
Qed.

(** What is known between the calls that read a frame of which [left] bytes
    have not been read. *)
Definition rx_inv (left : list Z) (s : XStrm_RxFifoStreamer) (f : F) : Prop :=
  wf_rx s /\ FrmByteCnt s = Z.of_nat (length left) /\
  (if decide (left = []) then rx_bytes f = []
   else exists pad, (length pad < 4)%nat /\ stream s f = left ++ pad).

Lemma short_aligned (l : list Z) : (4 | Z.of_nat (length l)) -> (length l < 4)%nat -> l = [].
Proof. intros [k Hk] Hl. apply nil_length_inv. lia. Qed.

(** One call of [XStrm_Read]. *)
Lemma read_step left s f m dst n :
  rx_inv left s f -> Z.of_nat (length left) < 2 ^ 32 -> 0 <= n <= Z.of_nat (length left) ->
  exists s' f', XStrm_Read s f m dst n = Some (s', f', store_bytes dst (take (Z.to_nat n) left) m) /\
    rx_inv (drop (Z.to_nat n) left) s' f' /\ rx_frames f' = rx_frames f.
Proof.
  intros (Hs & Hc & Hi) Hlt Hn. unfold XStrm_Read.
  case_decide as Hleft.
  { subst left. simpl in *. replace n with 0 by lia. simpl.
    rewrite Hc. simpl. exists (set_Head 0 s), f. split; [done|]. split; [|done].
    destruct Hs as (? & ? & ?). split; [by repeat split|]. split; [done|]. by rewrite decide_True. }
  destruct Hi as (pad & Hpad & Hst).
  destruct (read_loop_spec (Z.to_nat (2 * n + 2)) s f m dst n) as (s' & f' & Hl & Hs' & Hc' & Hst' & Hfr);
    [done|lia|lia|rewrite Hst, length_app; lia|unfold flag_full; case_match; lia|].
  rewrite Hl. simpl. rewrite Hst in *. rewrite take_app_le by lia. rewrite drop_app_le in Hst' by lia.
  destruct (Z.eqb_spec (FrmByteCnt s') 0) as [H0|H0].
  - assert (Hd : drop (Z.to_nat n) left = []) by (apply drop_ge; lia). rewrite Hd in *.
    exists (set_Head 0 s'), f'. split; [done|]. split; [|done].
    destruct Hs' as (? & ? & ?). split; [by repeat split|]. split; [done|]. rewrite decide_True by done.
    apply short_aligned; [apply rx_aligned|]. simpl in Hst'. rewrite <- Hst' in Hpad. unfold stream in Hpad.
    rewrite length_app in Hpad. lia.
  - exists s', f'. split; [done|]. split; [|done]. split; [done|]. split; [rewrite length_drop; lia|].
    rewrite decide_False by (intros Hd; apply (f_equal length) in Hd; rewrite length_drop in Hd; simpl in Hd; lia).
    by exists pad.
Qed.

(** The documented loop over [XStrm_Read]: read a frame into a sequence of
    buffers, given by address and size. *)
Fixpoint read_buffers (s : XStrm_RxFifoStreamer) (f : F) (m : mem) (bufs : list (Z * Z))
    : option (XStrm_RxFifoStreamer * F * mem) :=
  match bufs with
  | [] => Some (s, f, m)
  | (BufPtr, Bytes) :: bufs' => '(s, f, m) ← XStrm_Read s f m BufPtr Bytes; read_buffers s f m bufs'
  end.

(** What memory should hold afterwards: consecutive pieces of the frame. *)
Fixpoint store_pieces (frame : list Z) (bufs : list (Z * Z)) (m : mem) : mem :=
  match bufs with
  | [] => m
  | (BufPtr, Bytes) :: bufs' =>
      store_pieces (drop (Z.to_nat Bytes) frame) bufs' (store_bytes BufPtr (take (Z.to_nat Bytes) frame) m)
  end.

Definition total (bufs : list (Z * Z)) : Z := foldr (fun b n => snd b + n) 0 bufs.

Lemma total_nonneg bufs : Forall (fun b : Z * Z => 0 <= snd b) bufs -> 0 <= total bufs.
Proof. induction 1 as [|[p n] bufs Hn]; simpl in *; lia. Qed.

Lemma read_buffers_spec bufs : forall left s f m,
  rx_inv left s f -> Z.of_nat (length left) < 2 ^ 32 ->
  Forall (fun b => 0 <= snd b) bufs -> total bufs = Z.of_nat (length left) ->
  exists s' f', read_buffers s f m bufs = Some (s', f', store_pieces left bufs m) /\
    rx_inv [] s' f' /\ rx_frames f' = rx_frames f.
Proof.
  induction bufs as [|[p n] bufs IH]; intros left s f m Hinv Hlt Hb Ht; simpl in *.
  - assert (left = []) as -> by (apply nil_length_inv; lia). by exists s, f.
  - apply Forall_cons in Hb as [Hn Hb]. simpl in Hn. pose proof (total_nonneg _ Hb).
    destruct (read_step left s f m p n Hinv Hlt) as (s1 & f1 & -> & Hinv1 & Hf1); [lia|]. simpl.
    destruct (IH _ s1 f1 (store_bytes p (take (Z.to_nat n) left) m) Hinv1) as (s2 & f2 & -> & Hinv2 & Hf2);
      [rewrite length_drop; lia|done|rewrite length_drop; lia|].
    exists s2, f2. split_and!; [done..|congruence].
Qed.
End Receive.

(** * Transmit *)

Section Transmit.
Context {F : Type} `{HO : FifoOps F} `{!TxFifo F}.

Definition wf_tx (s : XStrm_TxFifoStreamer) : Prop :=
  Tx_FifoWidth s = 4 /\ 0 <= TailIndex s <= 4 /\ (4 <= length (Tx_AlignedBuffer s))%nat /\
  Forall (in_word 8) (Tx_AlignedBuffer s).

(** Bytes in the holding buffer not written yet. *)
Definition held (s : XStrm_TxFifoStreamer) : list Z := take (Z.to_nat (TailIndex s)) (Tx_AlignedBuffer s).

(** Bytes of the frame under construction. *)
Definition written (s : XStrm_TxFifoStreamer) (f : F) : list Z := tx_bytes f ++ held s.

Lemma copy_in_spec n : forall buf i src m,
  0 <= i -> (Z.to_nat i + n <= length buf)%nat ->
  take (Z.to_nat i + n) (copy_in n buf i src m) = take (Z.to_nat i) buf ++ load_bytes src (Z.of_nat n) m /\
  length (copy_in n buf i src m) = length buf /\
  (Forall (in_word 8) buf -> Forall (in_word 8) (copy_in n buf i src m)).
Proof.
  induction n as [|n IH]; intros buf i src m Hi Hn; simpl.
  { by rewrite Nat.add_0_r, app_nil_r. }
  destruct (IH (<[Z.to_nat i := load_byte src m]> buf) (i + 1) (src + 1) m) as (IH1 & IH2 & IH3);
    [lia|rewrite length_insert; lia|].
  rewrite IH2, length_insert. split_and!; [|done|].
  2: { intros Hf. apply IH3, Forall_insert; [done|by apply wrap_range]. }
  replace (Z.to_nat i + S n)%nat with (Z.to_nat (i + 1) + n)%nat by lia. rewrite IH1.
  replace (Z.to_nat (i + 1)) with (S (Z.to_nat i)) by lia.
  rewrite (take_S_r _ _ (load_byte src m)) by (apply list_lookup_insert_eq; lia).
  rewrite take_insert_ge, <- app_assoc by lia. f_equal.
  unfold load_bytes. rewrite (seqZ_cons src) by lia. simpl. do 3 f_equal; lia.
Qed.

(** There is room for what is held and [n] bytes more. *)
Definition room (s : XStrm_TxFifoStreamer) (f : F) (n : Z) : Prop := TailIndex s + n <= 4 * tx_space f.

Lemma tail_test s f n : wf_tx s -> room s f n -> 0 <= n ->
  exists s1 f1, (if TailIndex s =? Tx_FifoWidth s then (set_Tail 0 s, WriteFn (take 4 (Tx_AlignedBuffer s)) f) else (s, f))
    = (s1, f1) /\ wf_tx s1 /\ TailIndex s1 < 4 /\ written s1 f1 = written s f /\ tx_frames f1 = tx_frames f /\ room s1 f1 n.
Proof.
  intros (Hw & Ht & Hb & Hby) Hroom Hn. unfold room in *. rewrite Hw. destruct (Z.eqb_spec (TailIndex s) 4) as [He|He].
  - assert (Hl4 : Z.of_nat (length (take 4 (Tx_AlignedBuffer s))) = 4) by (rewrite length_take; lia).
    eexists _, _. split; [done|]. destruct (tx_write (take 4 (Tx_AlignedBuffer s)) f) as (Hb1 & Hf1 & Hs1).
    { exists 1. lia. } { by apply Forall_take. } { lia. }
    split_and!; [by repeat split|simpl; lia| |done|simpl; lia].
    unfold written, held. rewrite Hb1, He. simpl. by rewrite take_0, app_nil_r.
  - exists s, f. split_and!; try done. lia.
Qed.

(** Writing [rem] bytes from address [src]. *)
Lemma write_loop_spec fuel : forall s f m src rem extra,
  wf_tx s -> 0 <= rem < Z.of_nat fuel -> 0 <= extra -> room s f (rem + extra) ->
  exists s' f', XStrm_Write_loop fuel s f m src rem = Some (s', f') /\ wf_tx s' /\
    written s' f' = written s f ++ load_bytes src rem m /\ tx_frames f' = tx_frames f /\ room s' f' extra.
Proof.
  induction fuel as [|fuel IH]; intros s f m src rem extra Hs Hrem Hex Hroom; [lia|].
  simpl. destruct (Z.eqb_spec rem 0) as [->|Hr0].
  { exists s, f. by rewrite app_nil_r. }
  destruct (tail_test s f _ Hs Hroom) as (s1 & f1 & -> & Hs1 & Ht1 & Hw1 & Hf1 & Hr1); [lia|].
  unfold room in Hr1.
  pose proof Hs1 as (Hw & Ht & Hb & Hby). rewrite Hw.
  destruct ((TailIndex s1 =? 0) && (4 <=? rem) && (Z.land src 3 =? 0)) eqn:E2.
  - apply andb_true_iff in E2 as [[E0%Z.eqb_eq E4%Z.leb_le]%andb_true_iff _].
    set (q := rem / 4). assert (Hq : 4 * q <= rem < 4 * q + 4 /\ 1 <= q) by (unfold q; clear -E4; div_lia).
    pose proof (length_load_bytes src (4 * q) m) as Hlen.
    destruct (tx_write (load_bytes src (4 * q) m) f1) as (Hb2 & Hf2 & Hsp2).
    { exists q. lia. } { apply load_bytes_range. } { lia. }
    destruct (IH s1 (WriteFn (load_bytes src (4 * q) m) f1) m (src + q * 4) (rem - q * 4) extra)
      as (s' & f' & Hl & Hs' & Hw' & Hf' & Hr'); [done|lia|done|unfold room; lia|].
    exists s', f'. rewrite Hl, Hw'. split_and!; [done..| |congruence|done].
    rewrite <- Hw1. unfold written, held. rewrite E0, Hb2. simpl. rewrite take_0, !app_nil_r, <- app_assoc. f_equal.
    replace (src + q * 4) with (src + 4 * q) by lia. rewrite <- load_bytes_app by lia. f_equal. lia.
  - set (n := Z.min rem (4 - TailIndex s1)). assert (Hn : 0 < n <= rem) by lia.
    destruct (copy_in_spec (Z.to_nat n) (Tx_AlignedBuffer s1) (TailIndex s1) src m) as (Hc1 & Hc2 & Hc3); [lia|lia|].
    set (s2 := {| Tx_AlignedBuffer := _ |}).
    destruct (IH s2 f1 m (src + n) (rem - n) extra) as (s' & f' & Hl & Hs' & Hw' & Hf' & Hr').
    { unfold wf_tx, s2. simpl. rewrite Hc2. split_and!; [lia..|by apply Hc3]. } { lia. } { done. }
    { unfold room, s2. simpl. lia. }
    exists s', f'. rewrite Hl, Hw'. split_and!; [done..| |congruence|done].
    rewrite <- Hw1. unfold written, held, s2. cbn [Tx_AlignedBuffer TailIndex].
    replace (Z.to_nat (TailIndex s1 + n)) with (Z.to_nat (TailIndex s1) + Z.to_nat n)%nat by lia.
    rewrite Hc1, <- !app_assoc, Z2Nat.id by lia. rewrite <- load_bytes_app by lia. do 3 f_equal. lia.
Qed.

Lemma write_step s f m src n extra :
  wf_tx s -> 0 <= n -> 0 <= extra -> room s f (n + extra) ->
  exists s' f', XStrm_Write s f m src n = Some (s', f') /\ wf_tx s' /\
    written s' f' = written s f ++ load_bytes src n m /\ tx_frames f' = tx_frames f /\ room s' f' extra.
Proof. intros. apply write_loop_spec; [done|lia|done..]. Qed.

(** The documented loop over [XStrm_Write], from a sequence of buffers. *)
Fixpoint write_buffers (s : XStrm_TxFifoStreamer) (f : F) (m : mem) (bufs : list (Z * Z)) : option (XStrm_TxFifoStreamer * F) :=
  match bufs with
  | [] => Some (s, f)
  | (BufPtr, Bytes) :: bufs' => '(s, f) ← XStrm_Write s f m BufPtr Bytes; write_buffers s f m bufs'
  end.

Definition contents (m : mem) (bufs : list (Z * Z)) : list Z := concat (map (fun b => load_bytes (fst b) (snd b) m) bufs).

Lemma length_contents m bufs :
  Forall (fun b => 0 <= snd b) bufs -> Z.of_nat (length (contents m bufs)) = total bufs.
Proof.
  unfold contents. induction 1 as [|[p n] bufs Hn Hb IH]; [done|]. simpl in *.
  pose proof (length_load_bytes p n m). rewrite length_app. lia.
Qed.

Lemma write_buffers_spec bufs : forall s f m,
  wf_tx s -> Forall (fun b => 0 <= snd b) bufs -> room s f (total bufs) ->
  exists s' f', write_buffers s f m bufs = Some (s', f') /\ wf_tx s' /\
    written s' f' = written s f ++ contents m bufs /\ tx_frames f' = tx_frames f /\ room s' f' 0.
Proof.
  induction bufs as [|[p n] bufs IH]; intros s f m Hs Hb Hr; simpl.
  - exists s, f. by rewrite app_nil_r.
  - apply Forall_cons in Hb as [Hn Hb]. pose proof (total_nonneg _ Hb).
    destruct (write_step s f m p n (total bufs) Hs Hn) as (s1 & f1 & -> & Hs1 & Hw1 & Hf1 & Hr1); [done..|]. simpl.
    destruct (IH s1 f1 m Hs1 Hb Hr1) as (s2 & f2 & -> & Hs2 & Hw2 & Hf2 & Hr2).
    exists s2, f2. rewrite Hw2, Hw1, <- app_assoc. split_and!; [done..|congruence|done].
Qed.

Lemma written_nil s f : TailIndex s = 0 -> tx_bytes f = [] -> written s f = [].
Proof. intros Ht Hb. unfold written, held. by rewrite Ht, Hb, take_0. Qed.

(** Ending the frame. *)
Lemma setlen_step s f :
  wf_tx s -> room s f 0 -> Z.of_nat (length (written s f)) < 2 ^ 32 ->
  exists s' f', XStrm_TxSetLen s f (Z.of_nat (length (written s f))) = (s', f') /\ wf_tx s' /\
    written s' f' = [] /\ tx_frames f' = tx_frames f ++ [written s f].
Proof.
  intros (Hw & Ht & Hb & Hby) Hroom Hlt. pose proof (tx_aligned f) as Hal. unfold room in Hroom. unfold XStrm_TxSetLen. destruct (Z.eqb_spec (TailIndex s) 0) as [He|He]; simpl.
  - assert (Hwr : written s f = tx_bytes f).
    { unfold written, held. by rewrite He, take_0, app_nil_r. }
    rewrite Hwr. rewrite Hwr in Hlt. destruct (tx_setlen (Z.of_nat (length (tx_bytes f))) f) as [H1 H2]; [lia|lia|lia|].
    eexists _, _. split; [done|]. split; [done|]. rewrite H2, Nat2Z.id, firstn_all. split; [|done].
    by apply written_nil.
  - set (f1 := WriteFn _ f). destruct (tx_write (take 4 (Tx_AlignedBuffer s)) f) as (Hb1 & Hf1 & _).
    { exists 1. rewrite length_take. lia. } { by apply Forall_take. } { rewrite length_take. lia. } fold f1 in Hb1, Hf1.
    assert (Hh : Z.of_nat (length (held s)) = TailIndex s) by (unfold held; rewrite length_take; lia).
    assert (Hsp : tx_bytes f1 = written s f ++ drop (Z.to_nat (TailIndex s)) (take 4 (Tx_AlignedBuffer s))).
    { rewrite Hb1. unfold written, held. rewrite <- app_assoc. f_equal.
      rewrite <- (take_drop (Z.to_nat (TailIndex s)) (take 4 (Tx_AlignedBuffer s))) at 1.
      rewrite take_take. do 2 f_equal. lia. }
    destruct (tx_setlen (Z.of_nat (length (written s f))) f1) as [H1 H2]; [done|..].
    { rewrite Hsp, length_app. lia. }
    { rewrite Hsp, !length_app, length_drop, length_take. lia. }
    eexists _, _. split; [done|]. split; [by repeat split|]. split.
    + by apply written_nil.
    + rewrite H2, Hf1, Nat2Z.id, Hsp. by rewrite take_app_length.
Qed.
End Transmit.

(** * A reference FIFO

    A FIFO in memory: words received, frames to come (as words and padding
    bytes, at most three of them in the last word), words to send, frames
    sent. *)
Record queue := {
  q_rx : list Z;
  q_frames : list (list Z * nat);
  q_tx : list Z;
  q_sent : list (list Z)
}.

Definition frame_bytes (fr : list Z * nat) : list Z :=
  take (4 * length (fst fr) - snd fr mod 4) (words_bytes (fst fr)).

#[export] Instance queue_ops : FifoOps queue := {
  ReadFn n q := (words_bytes (take (Z.to_nat n) (q_rx q)),
                 {| q_rx := drop (Z.to_nat n) (q_rx q); q_frames := q_frames q; q_tx := q_tx q; q_sent := q_sent q |});
  GetLenFn q := match q_frames q with
                | [] => (0, q)
                | fr :: rest => (Z.of_nat (length (frame_bytes fr)),
                                 {| q_rx := fst fr; q_frames := rest; q_tx := q_tx q; q_sent := q_sent q |})
                end;
  GetOccupancyFn q := (Z.of_nat (length (q_rx q)), q);
  WriteFn l q := {| q_rx := q_rx q; q_frames := q_frames q; q_tx := q_tx q ++ words_of l; q_sent := q_sent q |};
  SetLenFn n q := {| q_rx := q_rx q; q_frames := q_frames q; q_tx := [];
                     q_sent := q_sent q ++ [take (Z.to_nat n) (words_bytes (q_tx q))] |};
  GetVacancyFn q := (512 - Z.of_nat (length (q_tx q)), q)
}.

#[export] Program Instance queue_rx : RxFifo queue := {
  rx_bytes q := words_bytes (q_rx q);
  rx_frames q := map frame_bytes (q_frames q)
}.
Next Obligation. intros q. exists (Z.of_nat (length (q_rx q))). rewrite length_words_bytes. lia. Qed.
Next Obligation.
  intros n q Hn Hl. simpl. rewrite words_bytes_take, words_bytes_drop.
  by replace (4 * Z.to_nat n)%nat with (Z.to_nat (4 * n)) by lia.
Qed.
Next Obligation.
  intros q fr rest Hr Hf. simpl in *. destruct (q_frames q) as [|[ws k] frs]; [done|]. simpl in *.
  simplify_eq. split_and!; [done..|]. exists (drop (4 * length ws - k mod 4) (words_bytes ws)).
  unfold frame_bytes. simpl. rewrite take_drop. split; [|done].
  rewrite length_drop, length_words_bytes. pose proof (Nat.mod_upper_bound k 4). lia.
Qed.

#[export] Program Instance queue_txf : TxFifo queue := {
  tx_bytes q := words_bytes (q_tx q);
  tx_space q := 512 - Z.of_nat (length (q_tx q));
  tx_frames q := q_sent q
}.
Next Obligation. intros q. exists (Z.of_nat (length (q_tx q))). rewrite length_words_bytes. lia. Qed.
Next Obligation.
  intros l q Hl Hb _. simpl. rewrite words_bytes_app, words_bytes_of, length_app by done. split_and!; [done..|].
  pose proof (f_equal length (words_bytes_of l Hl Hb)) as H. rewrite length_words_bytes in H. lia.
Qed.
Next Obligation. done. Qed.

(** The state after initialisation, with the FIFO width of the core. *)
Definition rx0 : XStrm_RxFifoStreamer :=
  XStrm_RxInitialize 4 {| Rx_AlignedBuffer := repeat 0 16; HeadIndex := 0; Rx_FifoWidth := 0; FrmByteCnt := 0 |}.
Definition tx0 : XStrm_TxFifoStreamer :=
  XStrm_TxInitialize 4 {| Tx_AlignedBuffer := repeat 0 16; TailIndex := 0; Tx_FifoWidth := 0 |}.

Lemma wf_rx0 : wf_rx rx0.
Proof. unfold wf_rx. simpl. lia. Qed.
Lemma wf_tx0 : wf_tx tx0.
Proof. unfold wf_tx. simpl. split_and!; [lia..|]. repeat constructor; by vm_compute. Qed.

(** * Properties *)

(** one call of [XStrm_Read] with at least [n] bytes of the frame left
    terminates and stores exactly the next [n] bytes of the frame at the
    target address, whatever the address alignment, the number of bytes and
    the state of the holding buffer; it leaves the rest of the frame to be
    read and does not touch the frames behind it. *)
Theorem XStrm_Read_correct {F} `{FifoOps F} `{!RxFifo F} left s f m dst n :
  rx_inv left s f -> Z.of_nat (length left) < 2 ^ 32 -> 0 <= n <= Z.of_nat (length left) ->
  exists s' f', XStrm_Read s f m dst n = Some (s', f', store_bytes dst (take (Z.to_nat n) left) m) /\
    rx_inv (drop (Z.to_nat n) left) s' f' /\ rx_frames f' = rx_frames f.
Proof. apply read_step. Qed.

Definition q1 : queue := {| q_rx := [0x04030201; 0x070605]; q_frames := []; q_tx := []; q_sent := [] |}.
Definition q0 : queue := {| q_rx := []; q_frames := [([0x04030201; 0x070605], 1%nat)]; q_tx := []; q_sent := [] |}.

Lemma XStrm_Read_correct_witness :
  exists s' f', XStrm_Read (set_FrmByteCnt 7 rx0) q1 (fun _ => 0) 0x1001 3
    = Some (s', f', store_bytes 0x1001 [1; 2; 3] (fun _ => 0)) /\
    rx_inv [4; 5; 6; 7] s' f' /\ rx_frames f' = [].
Proof.
  refine (XStrm_Read_correct [1; 2; 3; 4; 5; 6; 7] (set_FrmByteCnt 7 rx0) q1 (fun _ => 0) 0x1001 3 _ _ _); [|done..].
  split; [apply wf_rx0|]. split; [done|]. rewrite decide_False by done. exists [0]. split; [simpl; lia|done].
Defined.

(** C36: the documented receive sequence, [XStrm_RxGetLen] and then reads into
    any buffers whose sizes add up to the announced length, copies the frame
    into the buffers piece by piece and leaves the FIFO, word padding
    included, at the start of the next frame. *)
Theorem rx_frame_correct {F} `{FifoOps F} `{!RxFifo F} s f m fr rest bufs :
  wf_rx s -> rx_bytes f = [] -> rx_frames f = fr :: rest -> Z.of_nat (length fr) < 2 ^ 32 ->
  Forall (fun b => 0 <= snd b) bufs -> total bufs = Z.of_nat (length fr) ->
  let '(len, s1, f1) := XStrm_RxGetLen s f in
  len = Z.of_nat (length fr) /\
  exists s2 f2, read_buffers s1 f1 m bufs = Some (s2, f2, store_pieces fr bufs m) /\
    wf_rx s2 /\ rx_bytes f2 = [] /\ rx_frames f2 = rest.
Proof.
  intros (Hw & Hh & Hb) Hr Hfr Hlt Hbufs Htot. unfold XStrm_RxGetLen.
  destruct (rx_getlen f fr rest Hr Hfr) as (Hlen & Hrest & pad & Hpad & Hbytes).
  destruct (GetLenFn f) as [len f1]. simpl in *. split; [done|]. subst len.
  set (s1 := set_FrmByteCnt _ _).
  assert (Hs1 : wf_rx s1) by (unfold wf_rx; simpl; split_and!; lia).
  assert (Hinv : rx_inv fr s1 f1).
  { split; [done|]. split; [done|]. case_decide as Hd.
    - subst fr. apply short_aligned; [apply rx_aligned|]. by rewrite Hbytes.
    - exists pad. split; [done|]. unfold stream. by rewrite pending_nil. }
  destruct (read_buffers_spec bufs fr s1 f1 m Hinv Hlt Hbufs Htot) as (s2 & f2 & -> & (Hs2 & _ & Hb2) & Hf2).
  exists s2, f2. split_and!; [done..|congruence].
Qed.

Lemma rx_frame_correct_witness :
  let '(len, s1, f1) := XStrm_RxGetLen rx0 q0 in
  len = 7 /\
  exists s2 f2, read_buffers s1 f1 (fun _ => 0) [(0x1001, 2); (0x2000, 5)]
    = Some (s2, f2, store_bytes 0x2000 [3; 4; 5; 6; 7] (store_bytes 0x1001 [1; 2] (fun _ => 0))) /\
    wf_rx s2 /\ rx_bytes f2 = [] /\ rx_frames f2 = [].
Proof.
  refine (rx_frame_correct rx0 q0 (fun _ => 0) [1; 2; 3; 4; 5; 6; 7] [] [(0x1001, 2); (0x2000, 5)] wf_rx0 _ _ _ _ _);
    [done..|by repeat constructor|done].
Defined.

(** as long as the FIFO has room for the bytes, the documented transmit
    sequence, writes from any buffers followed by
    [XStrm_TxSetLen] with the total number of bytes, terminates and sends one
    frame that consists of exactly the contents of the buffers, in order. *)
Theorem tx_frame_correct {F} `{FifoOps F} `{!TxFifo F} s f m bufs :
  wf_tx s -> written s f = [] -> Forall (fun b => 0 <= snd b) bufs -> total bufs <= 4 * tx_space f -> total bufs < 2 ^ 32 ->
  exists s1 f1, write_buffers s f m bufs = Some (s1, f1) /\
    let '(s2, f2) := XStrm_TxSetLen s1 f1 (Z.of_nat (length (contents m bufs))) in
    wf_tx s2 /\ written s2 f2 = [] /\ tx_frames f2 = tx_frames f ++ [contents m bufs].
Proof.
  intros Hs Hwr Hb Hsp Hlt.
  assert (Hroom : room s f (total bufs)).
  { unfold room. apply (f_equal length) in Hwr. destruct Hs as (_ & Ht & Hbuf & _). unfold written, held in Hwr.
    rewrite length_app, length_take in Hwr. simpl in Hwr. lia. }
  destruct (write_buffers_spec bufs s f m Hs Hb Hroom) as (s1 & f1 & Hl & Hs1 & Hw1 & Hf1 & Hr1).
  exists s1, f1. split; [done|]. rewrite Hwr in Hw1. simpl in Hw1. rewrite <- Hw1.
  destruct (setlen_step s1 f1 Hs1 Hr1) as (s2 & f2 & -> & ? & ? & ?);
    [rewrite Hw1, length_contents by done; lia|]. split_and!; [done..|congruence].
Qed.

Lemma tx_frame_correct_witness :
  let m := store_bytes 0x2000 [3; 4; 5; 6; 7] (store_bytes 0x1001 [1; 2] (fun _ => 0)) in
  exists s1 f1, write_buffers tx0 q0 m [(0x1001, 2); (0x2000, 5)] = Some (s1, f1) /\
    let '(s2, f2) := XStrm_TxSetLen s1 f1 7 in
    wf_tx s2 /\ written s2 f2 = [] /\ tx_frames f2 = [[1; 2; 3; 4; 5; 6; 7]].
Proof. intros m. refine (tx_frame_correct tx0 q0 m [(0x1001, 2); (0x2000, 5)] wf_tx0 _ _ _ _); [done|by repeat constructor|by vm_compute|by vm_compute]. Defined.
