(* ===== verification/Devtree.v ===== *)
(** Device tree lookup and register mapping (shared/linux/devtree.c).

    The device tree is a file system tree; a directory lists its entries in
    the order [readdir] returns them.  Property files hold big-endian data,
    which [dev_search] hands over reversed. *)
From S2P Require Import Prelude.
From Stdlib Require Import Ascii.
Open Scope Z_scope.

(** * Byte reversal *)

(** One iteration swaps two bytes. *)
(* @src shared/linux/devtree.c 57-61 dev_reverse loop *)
Fixpoint dev_reverse_loop (n i size : nat) (data : list Z) : list Z :=
  match n with
  | O => data
  | S n' =>
      let tmp := data !!! i in
      let data := <[i := data !!! (size - i - 1)%nat]> data in
      dev_reverse_loop n' (S i) size (<[(size - i - 1)%nat := tmp]> data)
  end.

(* @src shared/linux/devtree.c 51-62 dev_reverse *)
Definition dev_reverse (data : list Z) (size : nat) : list Z := dev_reverse_loop (size / 2) 0 size data.

(** * Mapping *)

(** The file-scope variables [mfd] and [page_size]. *)
(* @src shared/linux/devtree.c 21-22 mfd, page_size *)
Record mapping := { mfd : Z; page_size : Z }.

(** [sysconf_pagesize], [open] and [mmap] are the system's; [None] is
    [MAP_FAILED]. *)
(* @src shared/linux/devtree.c 25-44 dev_mmap *)
Definition dev_mmap (sysconf_pagesize open_result : Z) (mmap : Z -> Z -> option Z) (paddr : Z) (st : mapping)
    : option Z * mapping :=
  let st' := if page_size st =? 0 then {| mfd := open_result; page_size := sysconf_pagesize |} else st in
  if (page_size st =? 0) && (mfd st' <? 1) then (None, st')
  else (mmap (mfd st') (Z.land paddr (Z.lnot (page_size st' - 1))), st').

(** * Search *)

#[local] Set Warnings "-register-all".
Inductive node := File (content : list Z) | Dir (entries : list (string * node)).

(* @src shared/linux/devtree.c 19-19 NAME_SZ *)
Definition NAME_SZ : Z := 64.

Definition strlen (s : string) : Z := Z.of_nat (String.length s).

(** The bytes [fread] gets from an entry: a directory opens but reads empty. *)
Definition content (e : option node) : option (list Z) :=
  match e with Some (File c) => Some c | Some (Dir _) => Some [] | None => None end.

Fixpoint find_entry (nm : string) (es : list (string * node)) : option node :=
  match es with [] => None | (nm', nd) :: es' => if String.eqb nm' nm then Some nd else find_entry nm es' end.

(** The C string that starts at the head of [l]. *)
Fixpoint c_string (l : list Z) : string :=
  match l with
  | [] => ""
  | v :: l' => if v =? 0 then "" else String (ascii_of_nat (Z.to_nat v)) (c_string l')
  end.

(** [fread(data, 1, n, file)] into a buffer. *)
Definition fread_into (file data : list Z) : list Z :=
  let got := take (length data) file in got ++ drop (length got) data.

Section Search.
(** [tmp] is what the uninitialised name buffer holds. *)
Context (tmp : list Z).

(** The directory itself: does its [name] file hold [name], and is its
    property [prop] at least as long as the buffer? *)
(* @src shared/linux/devtree.c 93-111 dev_search own node *)
Definition search_node (es : list (string * node)) (name prop : string) (data : list Z) : bool * list Z :=
  match content (find_entry "name" es) with
  | None => (false, data)
  | Some c =>
      let elem := take (Z.to_nat NAME_SZ) c in
      if (0 <? Z.of_nat (length elem)) && (Z.of_nat (length elem) <? NAME_SZ)
         && String.eqb name (c_string (elem ++ drop (length elem) tmp)) then
        match content (find_entry prop es) with
        | None => (false, data)
        | Some p =>
            let data' := fread_into p data in
            if (length data <=? length p)%nat then (true, dev_reverse data' (length data)) else (false, data')
        end
      else (false, data)
  end.

(* @src shared/linux/devtree.c 121-122 dev_search skipped names *)
Definition skipped (prop nm : string) : bool :=
  String.eqb nm "." || String.eqb nm ".." || String.eqb nm "name" || String.eqb nm prop.

(** The loop over the entries, given the search of a subdirectory.  An
    over-long name ends the search. *)
(* @src shared/linux/devtree.c 120-140 dev_search entry loop *)
Definition search_entries (search : node -> list Z -> Z * list Z) (inst : Z) (prop : string) :=
  fix loop (l : list (string * node)) (ret : Z) (data : list Z) : Z * list Z :=
    if ret <? inst then
      match l with
      | [] => (ret, data)
      | (nm, nd) :: l' =>
          if skipped prop nm then loop l' ret data
          else if NAME_SZ <? strlen nm then (ret, data)
          else
            match nd with
            | Dir _ => let '(r, data) := search nd data in loop l' (ret + r) data
            | File _ => loop l' ret data
            end
      end
    else (ret, data).

(** The number of matches and the property data.  [opendir] fails on a plain
    file. *)
(* @src shared/linux/devtree.c 66-145 dev_search *)
Fixpoint dev_search (dir : node) (name : string) (inst : Z) (prop : string) (data : list Z) : Z * list Z :=
  if NAME_SZ <? strlen prop then (0, data)
  else
    match dir with
    | File _ => (0, data)
    | Dir es =>
        let '(hit, data) := search_node es name prop data in
        if hit then (1, data)
        else search_entries (fun nd data => dev_search nd name inst prop data) inst prop es 0 data
    end.

End Search.

(** * Reversal is big-endian to little-endian *)

Lemma dev_reverse_loop_spec n : forall i size data,
  length data = size -> (i + n = size / 2)%nat ->
  length (dev_reverse_loop n i size data) = size /\
  forall k, (k < size)%nat ->
    dev_reverse_loop n i size data !!! k
    = if decide (i <= k < size - i)%nat then data !!! (size - 1 - k)%nat else data !!! k.
Proof.
  induction n as [|n IH]; intros i size data Hl Hn; simpl.
  - split; [done|]. intros k Hk. case_decide; [|done].
    pose proof (Nat.div_mod_eq size 2). pose proof (Nat.mod_upper_bound size 2).
    assert (k = size - 1 - k)%nat as <- by lia. done.
  - pose proof (Nat.div_mod_eq size 2). pose proof (Nat.mod_upper_bound size 2).
    edestruct (IH (S i) size) as [IHl IHk]; [|lia|split; [exact IHl|]]; [by rewrite !length_insert|].
    intros k Hk. rewrite IHk by done. clear IH IHl IHk.
    destruct (decide (k = i)) as [->|Hki].
    { rewrite decide_False by lia. rewrite list_lookup_total_insert_ne by lia.
      rewrite list_lookup_total_insert_eq by lia. rewrite decide_True by lia. f_equal. lia. }
    destruct (decide (k = size - i - 1)%nat) as [->|Hks].
    { rewrite decide_False by lia. rewrite list_lookup_total_insert_eq by (rewrite length_insert; lia).
      rewrite decide_True by lia. f_equal. lia. }
    destruct (decide (S i <= k < size - S i)%nat).
    + rewrite !list_lookup_total_insert_ne, decide_True by lia. done.
    + rewrite !list_lookup_total_insert_ne, decide_False by lia. done.
Qed.

Lemma dev_reverse_spec data : dev_reverse data (length data) = reverse data.
Proof.
  destruct (dev_reverse_loop_spec (length data / 2) 0 (length data) data eq_refl eq_refl) as [Hl Hk].
  apply list_eq_same_length with (length data); [by rewrite length_reverse|done|].
  intros i x y Hi Hx Hy. unfold dev_reverse in Hx. specialize (Hk i Hi).
  rewrite (list_lookup_total_correct _ _ _ Hx), decide_True in Hk by lia. subst x.
  rewrite reverse_lookup in Hy by done.
  apply list_lookup_total_correct. rewrite <- Hy. f_equal. lia.
Qed.

(** * What is found *)

Section Found.
Context (tmp : list Z) (name prop : string) (n : nat).
Hypothesis prop_fits : strlen prop <= NAME_SZ.

(** The data of a matching directory. *)
Definition own_match (es : list (string * node)) : option (list Z) :=
  c ← content (find_entry "name" es);
  let elem := take (Z.to_nat NAME_SZ) c in
  if (0 <? Z.of_nat (length elem)) && (Z.of_nat (length elem) <? NAME_SZ)
     && String.eqb name (c_string (elem ++ drop (length elem) tmp)) then
    p ← content (find_entry prop es);
    if (n <=? length p)%nat then Some (reverse (take n p)) else None
  else None.

(** All matches, in the order of the traversal; a match is not descended
    into. *)
Fixpoint matches (nd : node) : list (list Z) :=
  match nd with
  | File _ => []
  | Dir es =>
      match own_match es with
      | Some d => [d]
      | None => concat (map (fun '(nm, nd) => if skipped prop nm then [] else matches nd) es)
      end
  end.

(** Every entry that is looked at has a name that fits the path buffer. *)
Fixpoint names_fit (nd : node) : Prop :=
  match nd with
  | File _ => True
  | Dir es => foldr (fun '(nm, nd) P => (skipped prop nm = false -> strlen nm <= NAME_SZ /\ names_fit nd) /\ P) True es
  end.

Definition node_induction (P : node -> Prop) (Hf : forall c, P (File c))
    (Hd : forall es, Forall (fun e => P (snd e)) es -> P (Dir es)) : forall nd, P nd :=
  fix go nd :=
    match nd with
    | File c => Hf c
    | Dir es => Hd es ((fix all es : Forall (fun e => P (snd e)) es :=
                          match es with
                          | [] => Forall_nil_2 _
                          | e :: es' => Forall_cons_2 _ _ _ (go (snd e)) (all es')
                          end) es)
    end.

Lemma length_fread_into file data : length (fread_into file data) = length data.
Proof. unfold fread_into. rewrite length_app, length_drop, length_take. lia. Qed.

Lemma search_node_spec es data :
  length data = n ->
  match own_match es with
  | Some d => search_node tmp es name prop data = (true, d)
  | None => exists data', search_node tmp es name prop data = (false, data') /\ length data' = n
  end.
Proof.
  intros Hn. unfold own_match, search_node. destruct (content (find_entry "name" es)) as [c|]; simpl; [|by eexists].
  destruct (_ && _); [|by eexists]. destruct (content (find_entry prop es)) as [p|]; simpl; [|by eexists].
  rewrite Hn. destruct (Nat.leb_spec n (length p)) as [Hp|Hp].
  - pose proof (dev_reverse_spec (fread_into p data)) as Hr. rewrite length_fread_into, Hn in Hr. rewrite Hr.
    do 2 f_equal. unfold fread_into. rewrite Hn, drop_ge, app_nil_r by (rewrite length_take; lia). done.
  - eexists. split; [done|]. by rewrite length_fread_into.
Qed.

(** The result of a search that finds [ms] and stops at the first of them. *)
Definition first_of (ms : list (list Z)) (r : Z * list Z) : Prop :=
  match ms with
  | [] => fst r = 0 /\ length (snd r) = n
  | d :: _ => r = (1, d)
  end.

Lemma length_own_match es d : own_match es = Some d -> length d = n.
Proof.
  unfold own_match. destruct (content (find_entry "name" es)) as [c|]; cbn; [|done].
  destruct (_ && _); [|done]. destruct (content (find_entry prop es)) as [p|]; cbn; [|done].
  destruct (Nat.leb_spec n (length p)); [|done]. intros [= <-]. rewrite length_reverse, length_take. lia.
Qed.

(** One step of the entry loop. *)
Lemma search_entries_cons search inst nm nd es ret data :
  ret < inst -> (skipped prop nm = false -> strlen nm <= NAME_SZ) ->
  (forall c, fst (search (File c) data) = 0 /\ snd (search (File c) data) = data) ->
  search_entries search inst prop ((nm, nd) :: es) ret data
  = if skipped prop nm then search_entries search inst prop es ret data
    else let '(r, data') := search nd data in search_entries search inst prop es (ret + r) data'.
Proof.
  intros Hr Hnm Hfile. simpl. destruct (Z.ltb_spec ret inst); [|lia].
  destruct (skipped prop nm); [done|]. specialize (Hnm eq_refl).
  destruct (Z.ltb_spec NAME_SZ (strlen nm)); [lia|]. destruct nd as [c|]; [|done].
  destruct (Hfile c) as [H1 H2]. destruct (search (File c) data) as [r d]. simpl in *. subst. by rewrite Z.add_0_r.
Qed.

Lemma dev_search_file c inst data : dev_search tmp (File c) name inst prop data = (0, data).
Proof. simpl. by destruct (NAME_SZ <? strlen prop). Qed.

Lemma dev_search_dir es inst data :
  dev_search tmp (Dir es) name inst prop data
  = let '(hit, data) := search_node tmp es name prop data in
    if hit then (1, data)
    else search_entries (fun nd data => dev_search tmp nd name inst prop data) inst prop es 0 data.
Proof. simpl. by destruct (Z.ltb_spec NAME_SZ (strlen prop)); [lia|]. Qed.

(** Stopped loop. *)
Lemma search_entries_stop search inst es ret data :
  inst <= ret -> search_entries search inst prop es ret data = (ret, data).
Proof. intros. destruct es; simpl; by destruct (Z.ltb_spec ret inst); [lia|]. Qed.

(** Searches that stop at the first match, or find nothing. *)
Lemma dev_search_first nd : forall inst data,
  1 <= inst -> names_fit nd -> length data = n -> inst = 1 \/ matches nd = [] ->
  first_of (matches nd) (dev_search tmp nd name inst prop data).
Proof.
  induction nd as [c|es IHes] using node_induction; intros inst data Hinst Hfit Hn Hone.
  { by rewrite dev_search_file. }
  rewrite dev_search_dir. simpl in *. pose proof (search_node_spec es data Hn) as Hown.
  destruct (own_match es) as [d|]; [by rewrite Hown|]. destruct Hown as (data' & -> & Hn').
  clear data Hn. revert data' Hn'. induction es as [|[nm nd] es IH]; intros data Hn.
  { simpl. destruct (Z.ltb_spec 0 inst); [by split|lia]. }
  apply Forall_cons in IHes as [IHnd IHes]. destruct Hfit as [Hnd Hfit]. cbn [snd map concat] in *.
  rewrite search_entries_cons; [|lia|intros Hs; by apply Hnd|intros c; by rewrite dev_search_file].
  destruct (skipped prop nm); cbn [app] in *; [by apply IH|].
  destruct (Hnd eq_refl) as [_ Hfnd].
  assert (Hone1 : inst = 1 \/ matches nd = []) by (destruct Hone as [|Hone]; [by left|right; by apply app_nil in Hone as [? _]]).
  specialize (IHnd inst data Hinst Hfnd Hn Hone1).
  destruct (dev_search tmp nd name inst prop data) as [r data'].
  destruct (matches nd) as [|d ms]; cbn [first_of fst snd app] in *.
  - destruct IHnd as [-> Hn']. by apply IH.
  - injection IHnd as -> ->. destruct Hone as [->|]; [|done]. by rewrite search_entries_stop by done.
Qed.

(** A directory of devices: each of them has the property itself or holds no
    match at all. *)
Definition flat (es : list (string * node)) : Prop :=
  Forall (fun '(nm, nd) => match nd with Dir es' => own_match es' <> None \/ matches nd = [] | _ => True end) es.

Lemma search_entries_flat es : forall ret inst data,
  0 <= ret <= inst -> 1 <= inst -> flat es -> names_fit (Dir es) -> length data = n ->
  let ms := concat (map (fun '(nm, nd) => if skipped prop nm then [] else matches nd) es) in
  let r := search_entries (fun nd data => dev_search tmp nd name inst prop data) inst prop es ret data in
  fst r = Z.min inst (ret + Z.of_nat (length ms)) /\ length (snd r) = n /\
  (ret < fst r -> fst r = inst -> ms !! Z.to_nat (inst - ret - 1) = Some (snd r)).
Proof.
  induction es as [|[nm nd] es IH]; intros ret inst data Hret Hinst Hflat Hfit Hn ms r.
  { unfold r. simpl. destruct (ret <? inst); simpl; split_and!; done || lia. }
  destruct (decide (ret = inst)) as [->|Hlt].
  { unfold r. rewrite search_entries_stop by done. simpl. split_and!; done || lia. }
  apply Forall_cons in Hflat as [Hf Hflat]. destruct Hfit as [Hnd Hfit].
  unfold r. rewrite search_entries_cons; [|lia|intros Hs; by apply Hnd|intros c; by rewrite dev_search_file].
  unfold ms. cbn [map concat]. destruct (skipped prop nm); [by apply IH|].
  destruct (Hnd eq_refl) as [_ Hfnd]. destruct nd as [c|es'].
  { rewrite dev_search_file, Z.add_0_r. by apply IH. }
  destruct Hf as [Hown|Hnone].
  - rewrite dev_search_dir. pose proof (search_node_spec es' data Hn) as Hs.
    cbn [matches]. destruct (own_match es') as [d|] eqn:Ed; [|done]. rewrite Hs.
    pose proof (length_own_match _ _ Ed) as Hd.
    destruct (IH (ret + 1) inst d) as (H1 & H2 & H3); [lia|done..|].
    rewrite H1 in *. simpl length. split_and!; [lia|done|]. intros Hr Hi.
    destruct (decide (ret + 1 = inst)) as [He|He].
    + replace (inst - ret - 1) with 0 by lia. rewrite He, search_entries_stop by done. done.
    + replace (Z.to_nat (inst - ret - 1)) with (S (Z.to_nat (inst - (ret + 1) - 1))) by lia. apply H3; lia.
  - pose proof (dev_search_first (Dir es') inst data Hinst Hfnd Hn (or_intror Hnone)) as H0.
    rewrite Hnone in *. destruct (dev_search tmp (Dir es') name inst prop data) as [r' data']. destruct H0 as [H0 Hn'].
    simpl in H0. subst r'. rewrite Z.add_0_r. by apply IH.
Qed.
End Found.

(** a search for the first instance returns 1 with the property of the
    first matching node in traversal order, its bytes reversed, and 0 when
    the tree holds no match; neither the depth of the tree nor the short
    properties met on the way matter. *)
Theorem dev_search_instance_1 tmp nd name prop data :
  strlen prop <= NAME_SZ -> names_fit prop nd ->
  match matches tmp name prop (length data) nd with
  | [] => fst (dev_search tmp nd name 1 prop data) = 0
  | d :: _ => dev_search tmp nd name 1 prop data = (1, d)
  end.
Proof.
  intros Hp Hfit.
  pose proof (dev_search_first tmp name prop (length data) Hp nd 1 data ltac:(lia) Hfit eq_refl (or_introl eq_refl)) as H.
  unfold first_of in H. destruct (matches _ _ _ _ _); [by destruct H|done].
Qed.

(** A tree with two devices of the same name; the first lacks the second byte
    of the property. *)
Definition device (reg : list Z) : node := Dir [("name"%string, File [102; 0]); ("reg"%string, File reg)].
Definition tree_entries : list (string * node) :=
  [("."%string, Dir []); ("name"%string, File [97; 0]);
   ("f@0"%string, device [1]); ("f@1"%string, device [1; 2]); ("f@2"%string, device [3; 4])].

Lemma dev_search_instance_1_witness : dev_search [] (Dir tree_entries) "f" 1 "reg" [0; 0] = (1, [2; 1]).
Proof.
  refine (dev_search_instance_1 [] (Dir tree_entries) "f" "reg" [0; 0] _ _); [by vm_compute|].
  vm_compute. repeat split; intros; discriminate.
Defined.

Lemma search_instance_n tmp es name prop inst data :
  strlen prop <= NAME_SZ -> 1 <= inst -> names_fit prop (Dir es) ->
  own_match tmp name prop (length data) es = None -> flat tmp name prop (length data) es ->
  let ms := matches tmp name prop (length data) (Dir es) in
  let r := dev_search tmp (Dir es) name inst prop data in
  fst r = Z.min inst (Z.of_nat (length ms)) /\
  (fst r = inst -> ms !! Z.to_nat (inst - 1) = Some (snd r)).
Proof.
  intros Hp Hinst Hfit Hown Hflat. cbv zeta. rewrite dev_search_dir by done.
  pose proof (search_node_spec tmp name prop (length data) es data eq_refl) as Hs.
  simpl matches. rewrite Hown in *. destruct Hs as (data' & -> & Hn).
  destruct (search_entries_flat tmp name prop (length data) Hp es 0 inst data') as (H1 & _ & H3); [lia|done..|].
  split; [exact H1|]. intros Hr. rewrite <- (Z.sub_0_r inst) at 1. apply H3; lia.
Qed.

(** in a directory of devices, a search for instance [inst] returns the
    number of matches, [inst] at most, and hands over the [inst]-th one when
    the result is [inst]. *)
Theorem dev_search_instance_n tmp es name prop inst data :
  strlen prop <= NAME_SZ -> 1 <= inst -> names_fit prop (Dir es) ->
  own_match tmp name prop (length data) es = None -> flat tmp name prop (length data) es ->
  let ms := matches tmp name prop (length data) (Dir es) in
  let r := dev_search tmp (Dir es) name inst prop data in
  fst r = Z.min inst (Z.of_nat (length ms)) /\
  (fst r = inst -> ms !! Z.to_nat (inst - 1) = Some (snd r)).
Proof. apply search_instance_n. Qed.

Definition devices : list (string * node) :=
  [("name"%string, File [97; 0]); ("f@1"%string, device [1; 2]); ("f@2"%string, device [3; 4])].

Lemma dev_search_instance_n_witness :
  let r := dev_search [] (Dir devices) "f" 2 "reg" [0; 0] in
  fst r = 2 /\ (fst r = 2 -> [[2; 1]; [4; 3]] !! 1%nat = Some (snd r)).
Proof.
  refine (dev_search_instance_n [] devices "f" "reg" 2 [0; 0] _ _ _ _ _); [by vm_compute|lia| |by vm_compute|].
  - vm_compute. repeat split; intros; discriminate.
  - repeat constructor; by vm_compute.
Defined.
