(* ===== verification/LlFifo.v ===== *)
(** The AXI streaming FIFO driver (shared/linux/xllfifo/xllfifo.c, xllfifo.h,
    xllfifo_sinit.c, xllfifo_g.c): word transfers and register access,
    initialisation, configuration lookup, and the byte streamers on top.

    The core itself is third-party hardware: it is a [Device] whose documented
    behaviour is the class [LlCore]; the driver discharges the interface of
    the byte streamer from it. *)
From S2P Require Import Prelude Device Devtree Streamer.
Open Scope Z_scope.

(** * Registers *)

Module R.
(* @src shared/linux/xllfifo/xllfifo_hw.h 76-92 XLLF register offsets *)
Definition ISR := 0x00.
Definition IER := 0x04.
Definition TDFR := 0x08.
Definition TDFV := 0x0c.
Definition TDFD := 0x10.
Definition AXI4_TDFD := 0x00.
Definition TLF := 0x14.
Definition RDFR := 0x18.
Definition RDFO := 0x1c.
Definition RDFD := 0x20.
Definition AXI4_RDFD := 0x1000.
Definition RLF := 0x24.
Definition LLR := 0x28.
Definition TDR := 0x2c.
Definition RDR := 0x30.
Definition INT_TC := 0x08000000.
Definition INT_RC := 0x04000000.
Definition INT_ALL := 0xfff80000.
Definition RESET := 0xa5.
End R.

Definition XST_SUCCESS : Z := 0.
Definition XST_FAILURE : Z := 1.
Definition XST_INVALID_PARAM : Z := 15.
Definition XIL_COMPONENT_IS_READY : Z := 0x11111111.

(* @src shared/linux/xllfifo/xllfifo.c 74-74 FIFO_WIDTH_BYTES *)
Definition FIFO_WIDTH_BYTES : Z := 4.

(* @src shared/linux/xllfifo/xllfifo.h 206-228 XLlFifo *)
Record XLlFifo := {
  BaseAddress : Z;
  IsReady : Z;
  Axi4BaseAddress : Z;
  Datainterface : Z;
  RxStreamer : XStrm_RxFifoStreamer;
  TxStreamer : XStrm_TxFifoStreamer
}.

(* @src shared/linux/xllfifo/xllfifo.h 230-235 XLlFifo_Config *)
Record XLlFifo_Config := {
  c_DeviceId : Z;
  c_BaseAddress : Z;
  c_Axi4BaseAddress : Z;
  c_Datainterface : Z
}.

(** [memset(InstancePtr, 0, sizeof(XLlFifo))] *)
Definition zero_instance : XLlFifo :=
  {| BaseAddress := 0; IsReady := 0; Axi4BaseAddress := 0; Datainterface := 0;
     RxStreamer := {| Rx_AlignedBuffer := repeat 0 16; HeadIndex := 0; Rx_FifoWidth := 0; FrmByteCnt := 0 |};
     TxStreamer := {| Tx_AlignedBuffer := repeat 0 16; TailIndex := 0; Tx_FifoWidth := 0 |} |}.

(** Addresses of the data registers. *)
Definition rdfd (p : XLlFifo) : Z := Axi4BaseAddress p + (if truthy (Datainterface p) then R.AXI4_RDFD else R.RDFD).
Definition tdfd (p : XLlFifo) : Z := Axi4BaseAddress p + (if truthy (Datainterface p) then R.AXI4_TDFD else R.TDFD).

Section Driver.
Context {D : Type} `{Device D}.

(* @src shared/linux/xllfifo/xllfifo_hw.h 195-196 XLlFifo_ReadReg *)
Definition ReadReg (Base Offset : Z) : io D Z := bus_read (Base + Offset).
(* @src shared/linux/xllfifo/xllfifo_hw.h 229-230 XLlFifo_WriteReg *)
Definition WriteReg (Base Offset Value : Z) : io D unit := bus_write (Base + Offset) Value.

(** ** Register macros *)

(* @src shared/linux/xllfifo/xllfifo.h 255-257 XLlFifo_Reset *)
Definition XLlFifo_Reset (p : XLlFifo) : io D unit := WriteReg (BaseAddress p) R.LLR R.RESET.
(* @src shared/linux/xllfifo/xllfifo.h 278-279 XLlFifo_Status *)
Definition XLlFifo_Status (p : XLlFifo) : io D Z := ReadReg (BaseAddress p) R.ISR.
(* @src shared/linux/xllfifo/xllfifo.h 301-308 XLlFifo_IntEnable *)
Definition XLlFifo_IntEnable (p : XLlFifo) (Mask : Z) : io D unit :=
  Reg ← ReadReg (BaseAddress p) R.IER;
  WriteReg (BaseAddress p) R.IER (Z.lor Reg (Z.land Mask R.INT_ALL)).
(* @src shared/linux/xllfifo/xllfifo.h 331-338 XLlFifo_IntDisable *)
Definition XLlFifo_IntDisable (p : XLlFifo) (Mask : Z) : io D unit :=
  Reg ← ReadReg (BaseAddress p) R.IER;
  WriteReg (BaseAddress p) R.IER (Z.land Reg (not32 (Z.land Mask R.INT_ALL))).
(* @src shared/linux/xllfifo/xllfifo.h 368-370 XLlFifo_IntPending *)
Definition XLlFifo_IntPending (p : XLlFifo) : io D Z :=
  e ← ReadReg (BaseAddress p) R.IER;
  s ← ReadReg (BaseAddress p) R.ISR;
  mret (Z.land e s).
(* @src shared/linux/xllfifo/xllfifo.h 392-394 XLlFifo_IntClear *)
Definition XLlFifo_IntClear (p : XLlFifo) (Mask : Z) : io D unit :=
  WriteReg (BaseAddress p) R.ISR (Z.land Mask R.INT_ALL).
(* @src shared/linux/xllfifo/xllfifo.h 416-418 XLlFifo_RxReset *)
Definition XLlFifo_RxReset (p : XLlFifo) : io D unit := WriteReg (BaseAddress p) R.RDFR R.RESET.
(* @src shared/linux/xllfifo/xllfifo.h 436-438 XLlFifo_IsRxEmpty *)
Definition XLlFifo_IsRxEmpty (p : XLlFifo) : io D bool := n ← ReadReg (BaseAddress p) R.RDFO; mret (n =? 0).
(* @src shared/linux/xllfifo/xllfifo.h 536-538 XLlFifo_TxReset *)
Definition XLlFifo_TxReset (p : XLlFifo) : io D unit := WriteReg (BaseAddress p) R.TDFR R.RESET.
(* @src shared/linux/xllfifo/xllfifo.h 558-561 XLlFifo_IsTxDone *)
Definition XLlFifo_IsTxDone (p : XLlFifo) : io D bool :=
  s ← ReadReg (BaseAddress p) R.ISR; mret (truthy (Z.land s R.INT_TC)).
(* @src shared/linux/xllfifo/xllfifo.h 581-584 XLlFifo_IsRxDone *)
Definition XLlFifo_IsRxDone (p : XLlFifo) : io D bool :=
  s ← ReadReg (BaseAddress p) R.ISR; mret (truthy (Z.land s R.INT_RC)).
(* @src shared/linux/xllfifo/xllfifo.h 680-682 XLlFifo_WriteTdr *)
Definition XLlFifo_WriteTdr (p : XLlFifo) (Tdest : Z) : io D unit :=
  WriteReg (BaseAddress p) R.TDR (Z.land Tdest 0xF).
(* @src shared/linux/xllfifo/xllfifo.h 706-707 XLlFifo_ReadRdr *)
Definition XLlFifo_ReadRdr (p : XLlFifo) : io D Z := ReadReg (BaseAddress p) R.RDR.

(** ** Word transfers *)

(* @src shared/linux/xllfifo/xllfifo.c 124-130 XLlFifo_iRxOccupancy *)
Definition XLlFifo_iRxOccupancy (p : XLlFifo) : io D Z := ReadReg (BaseAddress p) R.RDFO.
(* @src shared/linux/xllfifo/xllfifo.c 147-153 XLlFifo_iRxGetLen *)
Definition XLlFifo_iRxGetLen (p : XLlFifo) : io D Z := ReadReg (BaseAddress p) R.RLF.

(* @src shared/linux/xllfifo/xllfifo.c 410-418 XLlFifo_RxGetWord *)
Definition XLlFifo_RxGetWord (p : XLlFifo) : io D Z :=
  if truthy (Datainterface p) then ReadReg (Axi4BaseAddress p) R.AXI4_RDFD
  else ReadReg (Axi4BaseAddress p) R.RDFD.

(** The words stored at [BufPtr], in order. *)
Fixpoint read_words_loop (p : XLlFifo) (WordsRemaining : nat) : io D (list Z) :=
  match WordsRemaining with
  | O => mret []
  | S n => w ← XLlFifo_RxGetWord p; ws ← read_words_loop p n; mret (w :: ws)
  end.
(* @src shared/linux/xllfifo/xllfifo.c 183-208 XLlFifo_iRead_Aligned *)
Definition XLlFifo_iRead_Aligned (p : XLlFifo) (WordCount : Z) : io D (list Z) :=
  read_words_loop p (Z.to_nat WordCount).

(* @src shared/linux/xllfifo/xllfifo.c 222-228 XLlFifo_iTxVacancy *)
Definition XLlFifo_iTxVacancy (p : XLlFifo) : io D Z := ReadReg (BaseAddress p) R.TDFV.
(* @src shared/linux/xllfifo/xllfifo.c 248-254 XLlFifo_iTxSetLen *)
Definition XLlFifo_iTxSetLen (p : XLlFifo) (Bytes : Z) : io D unit := WriteReg (BaseAddress p) R.TLF Bytes.

(* @src shared/linux/xllfifo/xllfifo.c 436-445 XLlFifo_TxPutWord *)
Definition XLlFifo_TxPutWord (p : XLlFifo) (Word : Z) : io D unit :=
  if truthy (Datainterface p) then WriteReg (Axi4BaseAddress p) R.AXI4_TDFD Word
  else WriteReg (Axi4BaseAddress p) R.TDFD Word.

(** [words] are the words of the buffer, [WordCount] of them. *)
(* @src shared/linux/xllfifo/xllfifo.c 289-315 XLlFifo_iWrite_Aligned *)
Fixpoint XLlFifo_iWrite_Aligned (p : XLlFifo) (words : list Z) : io D unit :=
  match words with
  | [] => mret tt
  | w :: words' => _ ← XLlFifo_TxPutWord p w; XLlFifo_iWrite_Aligned p words'
  end.

(** ** The streamers' view: the device behind driver instance [p] *)

Definition port (p : XLlFifo) : Type := D.

#[export] Instance llfifo_ops (p : XLlFifo) : FifoOps (port p) := {
  ReadFn n d := let '(ws, d) := XLlFifo_iRead_Aligned p n d in (words_bytes ws, d);
  GetLenFn d := XLlFifo_iRxGetLen p d;
  GetOccupancyFn d := XLlFifo_iRxOccupancy p d;
  WriteFn l d := snd (XLlFifo_iWrite_Aligned p (words_of l) d);
  SetLenFn n d := snd (XLlFifo_iTxSetLen p n d);
  GetVacancyFn d := XLlFifo_iTxVacancy p d
}.

Definition set_RxStreamer (s : XStrm_RxFifoStreamer) (p : XLlFifo) : XLlFifo :=
  {| BaseAddress := BaseAddress p; IsReady := IsReady p; Axi4BaseAddress := Axi4BaseAddress p;
     Datainterface := Datainterface p; RxStreamer := s; TxStreamer := TxStreamer p |}.
Definition set_TxStreamer (s : XStrm_TxFifoStreamer) (p : XLlFifo) : XLlFifo :=
  {| BaseAddress := BaseAddress p; IsReady := IsReady p; Axi4BaseAddress := Axi4BaseAddress p;
     Datainterface := Datainterface p; RxStreamer := RxStreamer p; TxStreamer := s |}.

(* @src shared/linux/xllfifo/xllfifo.h 462-463 XLlFifo_RxOccupancy *)
Definition XLlFifo_RxOccupancy (p : XLlFifo) : io D Z := fun d => XStrm_RxOccupancy (F := port p) (RxStreamer p) d.
(* @src shared/linux/xllfifo/xllfifo.h 485-486 XLlFifo_RxGetLen *)
Definition XLlFifo_RxGetLen (p : XLlFifo) (d : D) : Z * XLlFifo * D :=
  let '(n, s, d) := XStrm_RxGetLen (F := port p) (RxStreamer p) d in (n, set_RxStreamer s p, d).
(* @src shared/linux/xllfifo/xllfifo.h 513-514 XLlFifo_Read *)
Definition XLlFifo_Read (p : XLlFifo) (d : D) (m : mem) (BufPtr Bytes : Z) : option (XLlFifo * D * mem) :=
  '(s, d, m) ← XStrm_Read (F := port p) (RxStreamer p) d m BufPtr Bytes; Some (set_RxStreamer s p, d, m).
(* @src shared/linux/xllfifo/xllfifo.h 607-608 XLlFifo_TxVacancy *)
Definition XLlFifo_TxVacancy (p : XLlFifo) : io D Z := fun d => XStrm_TxVacancy (F := port p) (TxStreamer p) d.
(* @src shared/linux/xllfifo/xllfifo.h 627-628 XLlFifo_TxSetLen *)
Definition XLlFifo_TxSetLen (p : XLlFifo) (d : D) (Bytes : Z) : XLlFifo * D :=
  let '(s, d) := XStrm_TxSetLen (F := port p) (TxStreamer p) d Bytes in (set_TxStreamer s p, d).
(* @src shared/linux/xllfifo/xllfifo.h 655-656 XLlFifo_Write *)
Definition XLlFifo_Write (p : XLlFifo) (d : D) (m : mem) (BufPtr Bytes : Z) : option (XLlFifo * D) :=
  '(s, d) ← XStrm_Write (F := port p) (TxStreamer p) d m BufPtr Bytes; Some (set_TxStreamer s p, d).

(** ** Initialisation *)

(** [map] is [dev_mmap] of the system at hand, [None] its [MAP_FAILED]. *)
Section Init.
Context (map : Z -> mapping -> option Z * mapping).

(** The reset writes and the streamers, common to both functions. *)
Definition init_streamers (p : XLlFifo) : XLlFifo :=
  {| BaseAddress := BaseAddress p; IsReady := IsReady p; Axi4BaseAddress := Axi4BaseAddress p;
     Datainterface := Datainterface p;
     RxStreamer := XStrm_RxInitialize FIFO_WIDTH_BYTES (RxStreamer p);
     TxStreamer := XStrm_TxInitialize FIFO_WIDTH_BYTES (TxStreamer p) |}.

Definition reset_core (p : XLlFifo) : io D unit :=
  _ ← XLlFifo_TxReset p;
  _ ← XLlFifo_RxReset p;
  WriteReg (BaseAddress p) R.LLR R.RESET.

(** Returns the status and the instance, which is left as it was when the
    configuration is missing. *)
(* @src shared/linux/xllfifo/xllfifo.c 339-389 XLlFifo_CfgInitialize *)
Definition XLlFifo_CfgInitialize (p : XLlFifo) (Config : option XLlFifo_Config) (EffectiveAddress : Z) (st : mapping)
    : io D (Z * XLlFifo * mapping) :=
  match Config with
  | None => mret (XST_INVALID_PARAM, p, st)
  | Some cfg =>
      let '(vaddr, st) := map EffectiveAddress st in
      match vaddr with
      | None => mret (XST_FAILURE, zero_instance, st)
      | Some vaddr =>
          let p := {| BaseAddress := vaddr; IsReady := XIL_COMPONENT_IS_READY;
                      Axi4BaseAddress := if c_Datainterface cfg =? 0 then vaddr else c_Axi4BaseAddress cfg;
                      Datainterface := c_Datainterface cfg;
                      RxStreamer := RxStreamer zero_instance; TxStreamer := TxStreamer zero_instance |} in
          _ ← reset_core p;
          mret (XST_SUCCESS, init_streamers p, st)
      end
  end.

(* @src shared/linux/xllfifo/xllfifo.c 462-502 XLlFifo_Initialize *)
Definition XLlFifo_Initialize (EffectiveAddress : Z) (st : mapping) : io D (XLlFifo * mapping) :=
  let '(vaddr, st) := map EffectiveAddress st in
  match vaddr with
  | None => mret (zero_instance, st)
  | Some vaddr =>
      let p := {| BaseAddress := vaddr; IsReady := XIL_COMPONENT_IS_READY; Axi4BaseAddress := vaddr;
                  Datainterface := 0;
                  RxStreamer := RxStreamer zero_instance; TxStreamer := TxStreamer zero_instance |} in
      _ ← reset_core p;
      mret (init_streamers p, st)
  end.
End Init.
End Driver.

(** * Configuration lookup *)

(* @src shared/linux/xllfifo/xllfifo_g.c 54-54 XLLFIFO_NUM_INSTANCES *)
Definition XLLFIFO_NUM_INSTANCES : Z := 2.

(** The table starts zeroed. *)
(* @src shared/linux/xllfifo/xllfifo_g.c 56-64 XLlFifo_ConfigTable *)
Definition XLlFifo_ConfigTable : list XLlFifo_Config :=
  let z := {| c_DeviceId := 0; c_BaseAddress := 0; c_Axi4BaseAddress := 0; c_Datainterface := 0 |} in [z; z].

Section Lookup.
(** The device tree, and what the uninitialised locals hold. *)
Context (tree : node) (tmp reg0 ditype0 : list Z).

(** Returns the entry of the table and the table. *)
(* @src shared/linux/xllfifo/xllfifo_sinit.c 67-85 XLlFfio_LookupConfig *)
Definition XLlFfio_LookupConfig (DeviceId : Z) (table : list XLlFifo_Config) : option XLlFifo_Config * list XLlFifo_Config :=
  if XLLFIFO_NUM_INSTANCES <=? DeviceId then (None, table)
  else
    match table !! Z.to_nat DeviceId with
    | None => (None, table)
    | Some c =>
        if c_BaseAddress c =? 0 then
          let '(found, reg) := dev_search tmp tree "axi_fifo_mm_s" (DeviceId + 1) "reg" reg0 in
          if negb (found =? 1) then (None, table)
          else
            let '(found, ditype) :=
              dev_search tmp tree "axi_fifo_mm_s" (DeviceId + 1) "xlnx,data-interface-type" ditype0 in
            if negb (found =? 1) then (None, table)
            else
              let c := {| c_DeviceId := DeviceId; c_BaseAddress := le_val (take 8 (drop 8 reg));
                          c_Axi4BaseAddress := c_Axi4BaseAddress c; c_Datainterface := le_val ditype |} in
              (Some c, <[Z.to_nat DeviceId := c]> table)
        else (Some c, table)
    end.
End Lookup.

(** * The core

    [LlCore D p]: the documented behaviour of the AXI streaming FIFO whose
    registers [p] addresses (Xilinx PG080): words of the current receive
    packet, packets waiting, words written, packets sent, free words. *)
Class LlCore (D : Type) `{Device D} (p : XLlFifo) := {
  rx_words : D -> list Z;
  rx_queue : D -> list (list Z);
  tx_words : D -> list Z;
  tx_sent : D -> list (list Z);
  vacancy : D -> Z;
  occupancy : D -> Z;
  (** Reading the data register pops a word. *)
  core_rd_data : forall d w ws, rx_words d = w :: ws ->
    exists d', dev_rd (rdfd p) d = (w, d') /\ rx_words d' = ws /\ rx_queue d' = rx_queue d;
  (** Reading the length register starts the next packet. *)
  core_rd_len : forall d fr rest, rx_words d = [] -> rx_queue d = fr :: rest ->
    exists d' pad, dev_rd (BaseAddress p + R.RLF) d = (Z.of_nat (length fr), d') /\ (length pad < 4)%nat /\
      words_bytes (rx_words d') = fr ++ pad /\ rx_queue d' = rest;
  (** The occupancy announces a waiting packet and reading it changes nothing. *)
  core_rd_occ : forall d, exists d', dev_rd (BaseAddress p + R.RDFO) d = (occupancy d, d') /\
    rx_words d' = rx_words d /\ rx_queue d' = rx_queue d;
  core_occ : forall d, rx_words d = [] -> if decide (rx_queue d = []) then occupancy d = 0 else 0 < occupancy d < 2 ^ 31;
  (** Writing the data register appends a word if there is a free one. *)
  core_wr_data : forall d v, 0 < vacancy d -> in_word 32 v ->
    tx_words (dev_wr (tdfd p) v d) = tx_words d ++ [v] /\ tx_sent (dev_wr (tdfd p) v d) = tx_sent d /\
    vacancy (dev_wr (tdfd p) v d) = vacancy d - 1;
  (** Writing the length register sends what was written and takes no room. *)
  core_wr_len : forall d n, in_word 32 n -> n <= 4 * Z.of_nat (length (tx_words d)) < n + 4 ->
    tx_words (dev_wr (BaseAddress p + R.TLF) n d) = [] /\
    tx_sent (dev_wr (BaseAddress p + R.TLF) n d) = tx_sent d ++ [take (Z.to_nat n) (words_bytes (tx_words d))] /\
    vacancy d <= vacancy (dev_wr (BaseAddress p + R.TLF) n d);
  core_rd_vac : forall d, exists d', dev_rd (BaseAddress p + R.TDFV) d = (vacancy d, d') /\
    tx_words d' = tx_words d /\ tx_sent d' = tx_sent d /\ vacancy d' = vacancy d
}.
