(* ===== verification/LlFifoProofs.v ===== *)
(** The FIFO driver against the documented behaviour of the core: word
    transfers, the interface of the byte streamers, initialisation, the
    configuration table; and a core to run it on. *)
From S2P Require Import Prelude Device Devtree Streamer StreamerProofs LlFifo.
Open Scope Z_scope.

(** * Word transfers *)

Section Words.
Context {D : Type} `{HD : Device D} (p : XLlFifo) `{!LlCore D p}.

Lemma RxGetWord_spec d w ws :
  rx_words d = w :: ws ->
  exists d', XLlFifo_RxGetWord p d = (w, d') /\ rx_words d' = ws /\ rx_queue d' = rx_queue d.
Proof.
  intros Hw. destruct (core_rd_data d w ws Hw) as (d' & Hd & ?). exists d'. split; [|done].
  unfold XLlFifo_RxGetWord, ReadReg, bus_read, rdfd in *. by destruct (truthy (Datainterface p)).
Qed.

Lemma read_words_spec n : forall d, (n <= length (rx_words d))%nat ->
  exists d', read_words_loop p n d = (take n (rx_words d), d') /\
    rx_words d' = drop n (rx_words d) /\ rx_queue d' = rx_queue d.
Proof.
  induction n as [|n IH]; intros d Hn; simpl; [by exists d|].
  destruct (rx_words d) as [|w ws] eqn:Ew; [simpl in Hn; lia|].
  destruct (RxGetWord_spec d w ws Ew) as (d1 & H1 & Hw1 & Hq1).
  destruct (IH d1) as (d2 & H2 & Hw2 & Hq2); [rewrite Hw1; simpl in Hn; lia|].
  exists d2. unfold mbind, io_bind. rewrite H1, H2, Hw2, Hw1. split_and!; [done..|congruence].
Qed.

Lemma iRead_Aligned_spec n d : 0 <= n <= Z.of_nat (length (rx_words d)) ->
  exists d', XLlFifo_iRead_Aligned p n d = (take (Z.to_nat n) (rx_words d), d') /\
    rx_words d' = drop (Z.to_nat n) (rx_words d) /\ rx_queue d' = rx_queue d.
Proof. intros. apply read_words_spec. lia. Qed.

Lemma TxPutWord_spec d w : 0 < vacancy d -> in_word 32 w ->
  tx_words (snd (XLlFifo_TxPutWord p w d)) = tx_words d ++ [w] /\
  tx_sent (snd (XLlFifo_TxPutWord p w d)) = tx_sent d /\
  vacancy (snd (XLlFifo_TxPutWord p w d)) = vacancy d - 1.
Proof.
  intros Hv Hw. pose proof (core_wr_data d w Hv Hw) as Hc.
  unfold XLlFifo_TxPutWord, WriteReg, bus_write, tdfd in *. rewrite wrap_id by done.
  by destruct (truthy (Datainterface p)).
Qed.

Lemma iWrite_Aligned_spec ws : forall d,
  Z.of_nat (length ws) <= vacancy d -> Forall (in_word 32) ws ->
  tx_words (snd (XLlFifo_iWrite_Aligned p ws d)) = tx_words d ++ ws /\
  tx_sent (snd (XLlFifo_iWrite_Aligned p ws d)) = tx_sent d /\
  vacancy (snd (XLlFifo_iWrite_Aligned p ws d)) = vacancy d - Z.of_nat (length ws).
Proof.
  induction ws as [|w ws IH]; intros d Hv Hws; simpl in *; [rewrite app_nil_r; split_and!; done || lia|].
  apply Forall_cons in Hws as [Hw Hws]. destruct (TxPutWord_spec d w) as (H1 & H2 & H3); [lia|done|].
  unfold mbind, io_bind. destruct (XLlFifo_TxPutWord p w d) as [u d1]. simpl in *.
  destruct (IH d1) as (I1 & I2 & I3); [lia|done|].
  rewrite I1, I2, I3, H1, H2, H3, <- app_assoc. split_and!; done || lia.
Qed.

(** ** The interface of the streamers *)

Lemma words_of_range l : Forall (in_word 8) l -> Forall (in_word 32) (words_of l).
Proof.
  assert (Hn : exists n, (length l <= 4 * n)%nat) by (exists (length l); lia). destruct Hn as [n Hn].
  revert l Hn. induction n as [|n IH]; intros l Hn Hl; [by destruct l; [constructor|simpl in Hn; lia]|].
  destruct l as [|a [|b [|c [|d l]]]]; simpl; try constructor.
  - rewrite !Forall_cons in Hl. destruct Hl as (Ha & Hb & Hc & Hd & _). unfold word_of. in_word_bits_tac.
  - rewrite !Forall_cons in Hl. apply IH; [simpl in Hn; lia|apply Hl].
Qed.

Lemma length_words_of l : (4 | Z.of_nat (length l)) -> 4 * Z.of_nat (length (words_of l)) = Z.of_nat (length l).
Proof.
  intros [k Hk]. assert (Hn : length l = (4 * Z.to_nat k)%nat) by lia. clear Hk.
  revert l Hn. generalize (Z.to_nat k) as n. induction n as [|n IH]; intros l Hn; [by destruct l|].
  destruct l as [|a [|b [|c [|d l]]]]; simpl in Hn; try lia. simpl. rewrite Nat2Z.inj_succ.
  specialize (IH l). lia.
Qed.

#[export] Program Instance llfifo_rx : RxFifo (port (D := D) p) := {
  rx_bytes d := words_bytes (rx_words (D := D) d);
  rx_frames d := rx_queue (D := D) d
}.
Next Obligation. intros d. eexists. rewrite length_words_bytes, Nat2Z.inj_mul. apply Z.mul_comm. Qed.
Next Obligation.
  unfold port. intros n d Hn Hl. cbv beta in *. rewrite length_words_bytes in Hl.
  destruct (iRead_Aligned_spec n d) as (d' & Hr & Hw & Hq); [lia|]. simpl. rewrite Hr. simpl.
  rewrite words_bytes_take, Hw, words_bytes_drop.
  by replace (4 * Z.to_nat n)%nat with (Z.to_nat (4 * n)) by lia.
Qed.
Next Obligation.
  unfold port. intros d fr rest Hb Hq. cbv beta in *. assert (Hw : rx_words d = []).
  { apply (f_equal length) in Hb. rewrite length_words_bytes in Hb. apply nil_length_inv. simpl in Hb. lia. }
  destruct (core_rd_len d fr rest Hw Hq) as (d' & pad & Hr & Hpad & Hbytes & Hrest). simpl.
  unfold XLlFifo_iRxGetLen, ReadReg, bus_read. rewrite Hr. simpl. eauto.
Qed.

#[export] Program Instance llfifo_tx : TxFifo (port (D := D) p) := {
  tx_bytes d := words_bytes (tx_words (D := D) d);
  tx_frames d := tx_sent (D := D) d;
  tx_space d := vacancy (D := D) d
}.
Next Obligation. intros d. eexists. rewrite length_words_bytes, Nat2Z.inj_mul. apply Z.mul_comm. Qed.
Next Obligation.
  unfold port. intros l d Hl Hb Hsp. cbv beta in *. pose proof (length_words_of l Hl).
  destruct (iWrite_Aligned_spec (words_of l) d) as (H1 & H2 & H3); [lia|by apply words_of_range|]. simpl.
  rewrite H1, H2, H3, words_bytes_app, words_bytes_of by done. split_and!; done || lia.
Qed.
Next Obligation.
  unfold port. intros n d Hn32 Hn Hl. cbv beta in *. rewrite length_words_bytes in *. simpl.
  unfold XLlFifo_iTxSetLen, WriteReg, bus_write. simpl. rewrite wrap_id by (split; lia).
  destruct (core_wr_len d n) as (-> & -> & _); [split; lia|lia|done].
Qed.
End Words.

(** * A core

    A register-level simulation of the core behind its AXI4-Lite interface:
    it answers the offsets of the register map and ignores the rest. *)
Definition core_base : Z := 0x43C00000.
Definition core_port : XLlFifo :=
  {| BaseAddress := core_base; IsReady := XIL_COMPONENT_IS_READY; Axi4BaseAddress := core_base; Datainterface := 0;
     RxStreamer := XStrm_RxInitialize 4 (RxStreamer zero_instance);
     TxStreamer := XStrm_TxInitialize 4 (TxStreamer zero_instance) |}.

Record core := {
  k_rx : list Z;
  k_queue : list (list Z * nat);
  k_tx : list Z;
  k_sent : list (list Z);
  k_ier : Z;
  k_isr : Z
}.

Definition core_depth : Z := 512.
Definition core_occupancy (d : core) : Z :=
  if decide (k_queue d = []) then Z.min (Z.of_nat (length (k_rx d))) 0x1000 else Z.of_nat (S (length (k_rx d))) `min` 0x1000.

Definition core_rd (a : Z) (d : core) : Z * core :=
  let off := a - core_base in
  if off =? R.ISR then (k_isr d, d)
  else if off =? R.IER then (k_ier d, d)
  else if off =? R.TDFV then (core_depth - Z.of_nat (length (k_tx d)), d)
  else if off =? R.RDFO then (core_occupancy d, d)
  else if off =? R.RDFD then
    match k_rx d with
    | [] => (0, d)
    | w :: ws => (w, {| k_rx := ws; k_queue := k_queue d; k_tx := k_tx d; k_sent := k_sent d; k_ier := k_ier d; k_isr := k_isr d |})
    end
  else if off =? R.RLF then
    match k_queue d with
    | [] => (0, d)
    | fr :: rest => (Z.of_nat (length (frame_bytes fr)),
                     {| k_rx := fst fr; k_queue := rest; k_tx := k_tx d; k_sent := k_sent d; k_ier := k_ier d; k_isr := k_isr d |})
    end
  else (0, d).

Definition core_wr (a v : Z) (d : core) : core :=
  let off := a - core_base in
  if off =? R.ISR then
    {| k_rx := k_rx d; k_queue := k_queue d; k_tx := k_tx d; k_sent := k_sent d; k_ier := k_ier d; k_isr := Z.ldiff (k_isr d) v |}
  else if off =? R.IER then
    {| k_rx := k_rx d; k_queue := k_queue d; k_tx := k_tx d; k_sent := k_sent d; k_ier := v; k_isr := k_isr d |}
  else if off =? R.TDFD then
    {| k_rx := k_rx d; k_queue := k_queue d; k_tx := k_tx d ++ [v]; k_sent := k_sent d; k_ier := k_ier d; k_isr := k_isr d |}
  else if off =? R.TLF then
    {| k_rx := k_rx d; k_queue := k_queue d; k_tx := [];
       k_sent := k_sent d ++ [take (Z.to_nat v) (words_bytes (k_tx d))]; k_ier := k_ier d; k_isr := k_isr d |}
  else d.

#[export] Instance core_device : Device core := { dev_rd := core_rd; dev_wr := core_wr }.

#[export] Program Instance core_llcore : LlCore core core_port := {
  rx_words := k_rx;
  rx_queue d := map frame_bytes (k_queue d);
  tx_words := k_tx;
  tx_sent := k_sent;
  vacancy d := core_depth - Z.of_nat (length (k_tx d));
  occupancy := core_occupancy
}.
Next Obligation. intros d w ws Hw. simpl. unfold core_rd. simpl. rewrite Hw. by eexists. Qed.
Next Obligation.
  intros d fr rest Hw Hq. cbv beta in *. destruct (k_queue d) as [|[ws k] q] eqn:Eq; [done|]. simpl in Hq. simplify_eq.
  simpl. unfold core_rd. simpl. rewrite Eq. eexists _, (drop (4 * length ws - k mod 4) (words_bytes ws)).
  split; [done|]. split.
  - rewrite length_drop, length_words_bytes. pose proof (Nat.mod_upper_bound k 4). lia.
  - simpl. split; [|done]. unfold frame_bytes. simpl fst. simpl snd. by rewrite take_drop.
Qed.
Next Obligation. intros d. by exists d. Qed.
Next Obligation.
  intros d Hw. cbv beta. unfold core_occupancy. rewrite Hw. destruct (k_queue d); simpl; done || lia.
Qed.
Next Obligation. intros d v Hv Hw. cbv beta in *. simpl. rewrite length_app. simpl. split_and!; done || lia. Qed.
Next Obligation. intros d n Hn Hl. split_and!; [done..|simpl; lia]. Qed.
Next Obligation. intros d. by exists d. Qed.

(** * Configuration lookup *)

(** with two FIFOs or more in the device tree, the configuration of
    device 1 is not found: the search for the second instance returns 2, and
    the lookup accepts only 1. *)
Theorem LookupConfig_second es tmp reg0 ditype0 table c :
  names_fit "reg" (Dir es) -> own_match tmp "axi_fifo_mm_s" "reg" (length reg0) es = None ->
  flat tmp "axi_fifo_mm_s" "reg" (length reg0) es ->
  (2 <= length (matches tmp "axi_fifo_mm_s" "reg" (length reg0) (Dir es)))%nat ->
  table !! 1%nat = Some c -> c_BaseAddress c = 0 ->
  XLlFfio_LookupConfig (Dir es) tmp reg0 ditype0 1 table = (None, table).
Proof.
  intros Hfit Hown Hflat Hm Hc Hb. unfold XLlFfio_LookupConfig.
  change (XLLFIFO_NUM_INSTANCES <=? 1) with false. change (Z.to_nat 1) with 1%nat. cbv iota.
  rewrite Hc, Hb. change (0 =? 0) with true. change (1 + 1) with 2. cbv iota.
  destruct (search_instance_n tmp es "axi_fifo_mm_s" "reg" 2 reg0) as [Hr _]; [by vm_compute|lia|done..|].
  destruct (dev_search tmp (Dir es) _ 2 "reg" reg0) as [found reg]. cbn [fst] in Hr. rewrite Hr.
  by rewrite Z.min_l by lia.
Qed.

Definition fifo_name : list Z := [97; 120; 105; 95; 102; 105; 102; 111; 95; 109; 109; 95; 115; 0].
Definition fifo_node (addr : Z) : node :=
  Dir [("name"%string, File fifo_name); ("reg"%string, File ([0; 0; 0; 0; addr; 0; 0; 0] ++ [0; 0; 0; 0; 0; 1; 0; 0]));
       ("xlnx,data-interface-type"%string, File [0; 0; 0; 0])].
Definition two_fifos : list (string * node) :=
  [("name"%string, File [97; 0]); ("axi_fifo_mm_s@80000000"%string, fifo_node 0x80);
   ("axi_fifo_mm_s@81000000"%string, fifo_node 0x81)].

Lemma LookupConfig_second_witness :
  XLlFfio_LookupConfig (Dir two_fifos) [] (repeat 0 16) (repeat 0 4) 1 XLlFifo_ConfigTable = (None, XLlFifo_ConfigTable).
Proof.
  eapply LookupConfig_second; [|by vm_compute| |vm_compute; lia|done|done].
  - vm_compute. repeat split; intros; discriminate.
  - repeat constructor; by vm_compute.
Defined.
