(* ===== verification/Stream.v ===== *)
(** Packet streams (shared/linux/stream.c, shared/standalone/stream.c,
    stream.h): sending and receiving packets of words through the FIFO
    driver, blocking or not.

    The busy-wait loops take the number of polls as fuel and give [None] when
    it runs out.  A buffer is the list of its words. *)
From S2P Require Import Prelude Device Devtree Streamer LlFifo.
Open Scope Z_scope.

(* @src shared/stream.h 13-15 F_BEGP *)
Definition F_BEGP : Z := 0x01.
Definition F_ENDP : Z := 0x02.
Definition F_NOWA : Z := 0x04.

(* @src shared/stream.h 42-46 stream_t *)
Record stream_t := {
  Instance : XLlFifo;
  TransmitLength : Z;
  ReceiveLength : Z
}.

Definition set_Transmit n port := {| Instance := Instance port; TransmitLength := n; ReceiveLength := ReceiveLength port |}.
Definition set_Receive n port := {| Instance := Instance port; TransmitLength := TransmitLength port; ReceiveLength := n |}.

(** Outcome of a poll loop: the condition came true, or the call gives up. *)
Inductive waited := Ready | Giveup.

Section Stream.
Context {D : Type} `{Device D}.

(** Lookup of a FIFO configuration, with the table it keeps, and the mapping
    of device memory. *)
Context {T : Type} (lookup : Z -> T -> option XLlFifo_Config * T) (map : Z -> mapping -> option Z * mapping).

(** Returns the status, the port, and the states of lookup and mapping; the
    lengths are set on success only. *)
(* @src shared/linux/stream.c 19-56 stream_init *)
Definition stream_init (port : stream_t) (id : Z) (t : T) (st : mapping) : io D (Z * stream_t * T * mapping) :=
  let '(Config, t) := lookup id t in
  match Config with
  | None => mret (XST_FAILURE, port, t, st)
  | Some cfg =>
      '(Status, p, st) ← XLlFifo_CfgInitialize map (Instance port) (Some cfg) (c_BaseAddress cfg) st;
      let port := {| Instance := p; TransmitLength := TransmitLength port; ReceiveLength := ReceiveLength port |} in
      if negb (Status =? XST_SUCCESS) then mret (Status, port, t, st)
      else
        _ ← XLlFifo_Status p;
        _ ← XLlFifo_IntClear p 0xffffffff;
        _ ← XLlFifo_IntDisable p 0xffffffff;
        Status ← XLlFifo_Status p;
        if negb (Status =? XST_SUCCESS) then mret (XST_FAILURE, port, t, st)
        else mret (Status, {| Instance := p; TransmitLength := 0; ReceiveLength := 0 |}, t, st)
  end.

(* @src shared/linux/stream.c 71-73 stream_send wait *)
Fixpoint wait_vacancy (spin : nat) (p : XLlFifo) (Words flags : Z) : io D (option waited) :=
  match spin with
  | O => mret None
  | S spin' =>
      n ← XLlFifo_iTxVacancy p;
      if n <? Words then
        if truthy (Z.land flags F_NOWA) then mret (Some Giveup) else wait_vacancy spin' p Words flags
      else mret (Some Ready)
  end.

(* @src shared/linux/stream.c 58-83 stream_send *)
Definition stream_send (spin : nat) (port : stream_t) (buf : list Z) (size flags : Z) : io D (option (Z * stream_t)) :=
  let p := Instance port in
  let port := if truthy (Z.land flags F_BEGP) then set_Transmit 0 port else port in
  let Words := u32 (size / 4) in
  w ← wait_vacancy spin p Words flags;
  match w with
  | None => mret None
  | Some Giveup => mret (Some (XST_FAILURE, port))
  | Some Ready =>
      _ ← XLlFifo_iWrite_Aligned p (take (Z.to_nat Words) buf);
      let port := set_Transmit (u32 (TransmitLength port + Words * 4)) port in
      if truthy (Z.land flags F_ENDP) then
        _ ← XLlFifo_iTxSetLen p (TransmitLength port);
        mret (Some (XST_SUCCESS, port))
      else mret (Some (XST_SUCCESS, port))
  end.

(* @src shared/linux/stream.c 96-104 stream_recv wait *)
Fixpoint wait_packet (spin : nat) (p : XLlFifo) (flags : Z) : io D (option waited) :=
  match spin with
  | O => mret None
  | S spin' =>
      tmp ← XLlFifo_iRxOccupancy p;
      if (tmp =? 0) || truthy (Z.land tmp 0x80000000) then
        if truthy (Z.land flags F_NOWA) then mret (Some Giveup) else wait_packet spin' p flags
      else mret (Some Ready)
  end.

(** The loop that unloads the rest of the packet; [fuel] bounds the words. *)
(* @src shared/linux/stream.c 110-115 stream_recv unload *)
Fixpoint unload (fuel : nat) (port : stream_t) : io D (option stream_t) :=
  if ReceiveLength port =? 0 then mret (Some port)
  else
    match fuel with
    | O => mret None
    | S fuel' =>
        _ ← XLlFifo_RxGetWord (Instance port);
        unload fuel' (set_Receive (ReceiveLength port - Z.min (ReceiveLength port) 4) port)
    end.

(** The status, the port and the words stored in the buffer. *)
(* @src shared/linux/stream.c 106-118 stream_recv words *)
Definition recv_words (port : stream_t) (size flags : Z) : io D (option (Z * stream_t * list Z)) :=
  let Words := u32 (size / 4) in
  buf ← XLlFifo_iRead_Aligned (Instance port) Words;
  let port := set_Receive (u32 (ReceiveLength port - Words * 4)) port in
  if truthy (Z.land flags F_ENDP) then
    port ← unload (Z.to_nat ((ReceiveLength port + 3) / 4)) port;
    mret (port ← port; Some (XST_SUCCESS, port, buf))
  else mret (Some (XST_SUCCESS, port, buf)).

(* @src shared/linux/stream.c 85-119 stream_recv *)
Definition stream_recv (spin : nat) (port : stream_t) (size flags : Z) : io D (option (Z * stream_t * list Z)) :=
  let p := Instance port in
  if truthy (Z.land flags F_BEGP) then
    w ← wait_packet spin p flags;
    match w with
    | None => mret None
    | Some Giveup => mret (Some (XST_FAILURE, port, []))
    | Some Ready => n ← XLlFifo_iRxGetLen p; recv_words (set_Receive n port) size flags
    end
  else recv_words port size flags.
End Stream.

(** The system under Linux looks its FIFOs up in the device tree. *)
Definition linux_lookup (tree : node) (tmp reg0 ditype0 : list Z) : Z -> list XLlFifo_Config -> option XLlFifo_Config * list XLlFifo_Config :=
  XLlFfio_LookupConfig tree tmp reg0 ditype0.

(** The standalone system: the same text, over the lookup of the board
    support package. *)
Module Standalone.
Section Standalone.
Context {D : Type} `{Device D} {T : Type} (lookup : Z -> T -> option XLlFifo_Config * T) (map : Z -> mapping -> option Z * mapping).
(* @src shared/standalone/stream.c 58-95 stream_init *)
Definition stream_init := stream_init (D := D) lookup map.
(* @src shared/standalone/stream.c 98-123 stream_send *)
Definition stream_send := stream_send (D := D).
(* @src shared/standalone/stream.c 125-159 stream_recv *)
Definition stream_recv := stream_recv (D := D).
End Standalone.
End Standalone.

(** On the MicroBlaze a stream is a pair of FSL links; a word travels with
    its control bit, [FSL_CONTROL] or [FSL_DEFAULT]. *)
Module Microblaze.
Record links := { fsl_out : list (Z * bool); fsl_in : list (Z * bool) }.

Definition putfslx (w : Z) (control : bool) : io links unit :=
  fun l => (tt, {| fsl_out := fsl_out l ++ [(w, control)]; fsl_in := fsl_in l |}).
(** A blocking read: [None] while no word arrives.  The macro ignores a
    mismatch of the control bit apart from setting a flag nobody reads. *)
Definition getfslx (control : bool) : io links (option Z) :=
  fun l => match fsl_in l with
           | [] => (None, l)
           | (w, _) :: ws => (Some w, {| fsl_out := fsl_out l; fsl_in := ws |})
           end.

(** [while (words-- > 1)]: all words but the last; with no word at all
    [words] wraps around, the last transfer happens anyway. *)
(* @src shared/standalone/stream.c 25-27 stream_send loop *)
Fixpoint put_words (words : nat) (wptr : list Z) : io links (list Z) :=
  match words, wptr with
  | S (S n as m), w :: wptr' => _ ← putfslx w false; put_words m wptr'
  | _, _ => mret wptr
  end.

(** [None]: the buffer holds fewer words than [size] says. *)
(* @src shared/standalone/stream.c 19-32 stream_send *)
Definition stream_send (buf : list Z) (size flags : Z) : io links (option Z) :=
  wptr ← put_words (Z.to_nat (size / 4)) buf;
  match wptr with
  | [] => mret None
  | w :: _ => _ ← putfslx w (truthy (Z.land flags F_ENDP)); mret (Some XST_SUCCESS)
  end.

(* @src shared/standalone/stream.c 40-42 stream_recv loop *)
Fixpoint get_words (words : nat) : io links (option (list Z)) :=
  match words with
  | S (S n as m) =>
      w ← getfslx false;
      match w with
      | None => mret None
      | Some w => ws ← get_words m; mret (ws ← ws; Some (w :: ws))
      end
  | _ => mret (Some [])
  end.

(* @src shared/standalone/stream.c 34-47 stream_recv *)
Definition stream_recv (size flags : Z) : io links (option (Z * list Z)) :=
  ws ← get_words (Z.to_nat (size / 4));
  match ws with
  | None => mret None
  | Some ws =>
      w ← getfslx (truthy (Z.land flags F_ENDP));
      mret (w ← w; Some (XST_SUCCESS, ws ++ [w]))
  end.
End Microblaze.
