(* ===== verification/StreamProofs.v ===== *)
(** Packets: what a send with the right flags puts on the wire, what a receive
    takes off it, and how the non-blocking calls give up. *)
From S2P Require Import Prelude Device Devtree Streamer StreamerProofs LlFifo LlFifoProofs Stream.
Open Scope Z_scope.

Section Send.
Context {D : Type} `{HD : Device D} (port : stream_t) `{!LlCore D (Instance port)}.
#[local] Abbreviation p := (Instance port).

Lemma iTxVacancy_spec d : exists d', XLlFifo_iTxVacancy p d = (vacancy d, d') /\
  tx_words d' = tx_words d /\ tx_sent d' = tx_sent d /\ vacancy d' = vacancy d.
Proof. destruct (core_rd_vac d) as (d' & Hr & ?). by exists d'. Qed.

Lemma wait_vacancy_spec spin Words flags d :
  (0 < spin)%nat -> Words <= vacancy d \/ truthy (Z.land flags F_NOWA) = true ->
  exists d', wait_vacancy spin p Words flags d = (Some (if vacancy d <? Words then Giveup else Ready), d') /\
    tx_words d' = tx_words d /\ tx_sent d' = tx_sent d /\ vacancy d' = vacancy d.
Proof.
  destruct spin as [|spin]; [lia|]. intros _ Hv. simpl. destruct (iTxVacancy_spec d) as (d' & Hr & ?).
  exists d'. unfold mbind, io_bind. rewrite Hr. destruct (Z.ltb_spec (vacancy d) Words); [|done].
  destruct Hv as [Hv|Hv]; [lia|]. by rewrite Hv.
Qed.

Lemma send_step spin buf size flags d :
  let tl := if truthy (Z.land flags F_BEGP) then 0 else TransmitLength port in
  (0 < spin)%nat -> size = 4 * Z.of_nat (length buf) -> Forall (in_word 32) buf ->
  tl = 4 * Z.of_nat (length (tx_words d)) -> tl + size < 2 ^ 32 ->
  Z.of_nat (length buf) <= vacancy d ->
  exists d', stream_send spin port buf size flags d = (Some (XST_SUCCESS, set_Transmit (tl + size) port), d') /\
    if truthy (Z.land flags F_ENDP)
    then tx_words d' = [] /\ tx_sent d' = tx_sent d ++ [words_bytes (tx_words d ++ buf)] /\
      vacancy d - Z.of_nat (length buf) <= vacancy d'
    else tx_words d' = tx_words d ++ buf /\ tx_sent d' = tx_sent d.
Proof.
  intros tl Hspin -> Hbuf Htl Hlt Hv. unfold stream_send.
  replace (4 * Z.of_nat (length buf) / 4) with (Z.of_nat (length buf)) by (clear; div_lia).
  rewrite (wrap_id 32 (Z.of_nat (length buf))) by (split; lia). rewrite Nat2Z.id, firstn_all.
  destruct (wait_vacancy_spec spin (Z.of_nat (length buf)) flags d Hspin (or_introl Hv)) as (d1 & H1 & Hw1 & Hs1 & Hv1).
  unfold mbind, io_bind. rewrite H1. destruct (Z.ltb_spec (vacancy d) (Z.of_nat (length buf))); [lia|].
  destruct (iWrite_Aligned_spec p buf d1) as (Ht & Hst & Hvac); [lia|done|].
  destruct (XLlFifo_iWrite_Aligned p buf d1) as [u d2]. simpl in Ht, Hst, Hvac.
  set (port' := set_Transmit _ _).
  assert (Hport : port' = set_Transmit (tl + 4 * Z.of_nat (length buf)) port).
  { unfold port', tl. destruct (truthy (Z.land flags F_BEGP)); simpl; rewrite wrap_id by (split; lia);
      unfold set_Transmit; simpl; f_equal; lia. }
  rewrite Hport. clear port' Hport. destruct (truthy (Z.land flags F_ENDP)).
  - eexists. split; [done|]. unfold XLlFifo_iTxSetLen, WriteReg, bus_write. simpl.
    rewrite wrap_id by (split; lia).
    destruct (core_wr_len d2 (tl + 4 * Z.of_nat (length buf))) as (-> & -> & Hvl).
    { split; lia. } { rewrite Ht, Hw1, length_app. lia. }
    split_and!; [done| |lia]. rewrite Hst, Hs1, Ht, Hw1. do 2 f_equal. apply firstn_all2.
    rewrite length_words_bytes, length_app. lia.
  - exists d2. split; [done|]. rewrite Ht, Hst, Hw1, Hs1. done.
Qed.
End Send.

Section Receive.
Context {D : Type} `{HD : Device D} (p : XLlFifo) `{!LlCore D p}.

Lemma wait_packet_spec spin flags d :
  (0 < spin)%nat -> rx_words d = [] -> rx_queue d <> [] \/ truthy (Z.land flags F_NOWA) = true ->
  exists d', wait_packet spin p flags d = (Some (if decide (rx_queue d = []) then Giveup else Ready), d') /\
    rx_words d' = rx_words d /\ rx_queue d' = rx_queue d.
Proof.
  destruct spin as [|spin]; [lia|]. intros _ Hw Hq. simpl. destruct (core_rd_occ d) as (d' & Hr & ?).
  exists d'. unfold mbind, io_bind, XLlFifo_iRxOccupancy, ReadReg, bus_read. rewrite Hr.
  pose proof (core_occ d Hw) as Ho. case_decide as Hqd.
  - rewrite Ho. simpl. destruct Hq as [Hq|Hq]; [done|]. by rewrite Hq.
  - destruct (Z.eqb_spec (occupancy d) 0); [lia|].
    assert (Z.land (occupancy d) 0x80000000 = 0) as ->; [|done].
    assert (in_word 31 (occupancy d)) by (split; lia).
    change 0x80000000 with (Z.shiftl 1 31). apply Z.bits_inj'. intros i Hi.
    rewrite Z.land_spec, testbit_shiftl, Z.testbit_0_l by lia.
    destruct (Z.leb_spec 31 i); [|by rewrite andb_false_r].
    by rewrite (testbit_high 31) by (done || lia).
Qed.

Lemma unload_spec fuel : forall port d,
  Instance port = p -> 0 <= ReceiveLength port ->
  ReceiveLength port <= 4 * Z.of_nat (length (rx_words d)) < ReceiveLength port + 4 ->
  (ReceiveLength port + 3) / 4 <= Z.of_nat fuel ->
  exists d', unload fuel port d = (Some (set_Receive 0 port), d') /\ rx_words d' = [] /\ rx_queue d' = rx_queue d.
Proof.
  induction fuel as [|fuel IH]; intros port d Hp Hr Hw Hf; simpl;
    (destruct (Z.eqb_spec (ReceiveLength port) 0) as [H0|H0];
     [exists d; split; [destruct port; simpl in *; by subst|split; [apply nil_length_inv; lia|done]]|]).
  { exfalso. clear Hw. div_lia. }
  destruct (rx_words d) as [|w ws] eqn:Ew; [simpl in Hw; lia|].
  destruct (RxGetWord_spec p d w ws Ew) as (d1 & H1 & Hw1 & Hq1). rewrite Hp. unfold mbind, io_bind. rewrite H1.
  simpl in Hw. destruct (IH (set_Receive (ReceiveLength port - Z.min (ReceiveLength port) 4) port) d1) as (d2 & H2 & ? & Hq2).
  { done. } { simpl. lia. } { rewrite Hw1. simpl. lia. } { simpl. clear Hw. div_lia. }
  exists d2. rewrite H2. split_and!; [done..|congruence].
Qed.

(** [left]: the bytes of the current packet not received yet. *)
Lemma recv_words_spec port flags d left pad n :
  Instance port = p -> ReceiveLength port = Z.of_nat (length left) -> Z.of_nat (length left) < 2 ^ 32 ->
  words_bytes (rx_words d) = left ++ pad -> (length pad < 4)%nat -> 0 <= n -> 4 * n <= Z.of_nat (length left) ->
  exists d' ws, recv_words port (4 * n) flags d
      = (Some (XST_SUCCESS,
               set_Receive (if truthy (Z.land flags F_ENDP) then 0 else Z.of_nat (length left) - 4 * n) port, ws), d') /\
    words_bytes ws = take (Z.to_nat (4 * n)) left /\
    rx_queue d' = rx_queue d /\
    if truthy (Z.land flags F_ENDP) then rx_words d' = []
    else words_bytes (rx_words d') = drop (Z.to_nat (4 * n)) left ++ pad.
Proof.
  intros Hp Hrl Hlt Hb Hpad Hn Hsz. unfold recv_words.
  pose proof (f_equal length Hb) as Hl. rewrite length_words_bytes, length_app in Hl.
  replace (4 * n / 4) with n by div_lia. rewrite (wrap_id 32 n) by (split; lia).
  destruct (iRead_Aligned_spec p n d) as (d1 & H1 & Hw1 & Hq1); [lia|].
  rewrite Hp. unfold mbind, io_bind. rewrite H1.
  rewrite (wrap_id 32 (ReceiveLength port - n * 4)) by (rewrite Hrl; split; lia).
  assert (Hws : words_bytes (take (Z.to_nat n) (rx_words d)) = take (Z.to_nat (4 * n)) left).
  { rewrite words_bytes_take, Hb. replace (4 * Z.to_nat n)%nat with (Z.to_nat (4 * n)) by lia.
    by rewrite take_app_le by lia. }
  destruct (truthy (Z.land flags F_ENDP)).
  - set (port1 := set_Receive _ port).
    destruct (unload_spec (Z.to_nat ((ReceiveLength port1 + 3) / 4)) port1 d1) as (d2 & H2 & Hw2 & Hq2).
    { done. } { simpl. lia. } { rewrite Hw1, length_drop. simpl. lia. } { lia. }
    exists d2, (take (Z.to_nat n) (rx_words d)). rewrite H2. split_and!; [done..|congruence|done].
  - exists d1, (take (Z.to_nat n) (rx_words d)). split_and!.
    + simpl. do 5 f_equal. lia.
    + done.
    + done.
    + rewrite Hw1, words_bytes_drop, Hb. replace (4 * Z.to_nat n)%nat with (Z.to_nat (4 * n)) by lia.
      by rewrite drop_app_le by lia.
Qed.
End Receive.

(** * Properties *)

(** C35: a send with room in the FIFO succeeds and writes exactly the words of
    the buffer behind those of the packet under construction; the flag
    [F_BEGP] starts the length count anew and [F_ENDP] sends the packet, with
    all its bytes and nothing else. *)
Theorem stream_send_correct {D} `{Device D} port `{!LlCore D (Instance port)} spin buf size flags d :
  let tl := if truthy (Z.land flags F_BEGP) then 0 else TransmitLength port in
  (0 < spin)%nat -> size = 4 * Z.of_nat (length buf) -> Forall (in_word 32) buf ->
  tl = 4 * Z.of_nat (length (tx_words d)) -> tl + size < 2 ^ 32 -> Z.of_nat (length buf) <= vacancy d ->
  exists d', stream_send spin port buf size flags d = (Some (XST_SUCCESS, set_Transmit (tl + size) port), d') /\
    if truthy (Z.land flags F_ENDP)
    then tx_words d' = [] /\ tx_sent d' = tx_sent d ++ [words_bytes (tx_words d ++ buf)] /\
      vacancy d - Z.of_nat (length buf) <= vacancy d'
    else tx_words d' = tx_words d ++ buf /\ tx_sent d' = tx_sent d.
Proof. apply send_step. Qed.

Definition empty_core : core := {| k_rx := []; k_queue := []; k_tx := []; k_sent := []; k_ier := 0; k_isr := 0 |}.
Definition port0 : stream_t := {| Instance := core_port; TransmitLength := 99; ReceiveLength := 0 |}.

Lemma stream_send_correct_witness :
  exists d', stream_send 1 port0 [0x11223344; 5] 8 (Z.lor F_BEGP F_ENDP) empty_core
      = (Some (XST_SUCCESS, set_Transmit 8 port0), d') /\
    (tx_words (p := core_port) d' = [] /\
     tx_sent (p := core_port) d' = [[0x44; 0x33; 0x22; 0x11; 5; 0; 0; 0]] /\ 510 <= vacancy (p := core_port) d').
Proof.
  refine (stream_send_correct port0 (D := core) 1 [0x11223344; 5] 8 (Z.lor F_BEGP F_ENDP) empty_core _ _ _ _ _ _);
    [lia|done| |done|by vm_compute|by vm_compute].
  repeat constructor; by vm_compute.
Defined.

(** a non-blocking send that does not find room for all its words fails
    after a single poll and writes nothing; with room it does what a blocking
    one does. *)
Theorem stream_send_nowait {D} `{Device D} port `{!LlCore D (Instance port)} spin buf size flags d :
  (0 < spin)%nat -> truthy (Z.land flags F_NOWA) = true -> vacancy d < u32 (size / 4) ->
  exists port' d', stream_send spin port buf size flags d = (Some (XST_FAILURE, port'), d') /\
    Instance port' = Instance port /\ tx_words d' = tx_words d /\ tx_sent d' = tx_sent d /\ vacancy d' = vacancy d.
Proof.
  intros Hspin Hn Hv. unfold stream_send.
  destruct (wait_vacancy_spec port spin (u32 (size / 4)) flags d Hspin (or_intror Hn)) as (d' & Hw & ?).
  unfold mbind, io_bind. rewrite Hw. destruct (Z.ltb_spec (vacancy d) (u32 (size / 4))); [|lia].
  eexists _, d'. split; [done|]. split; [by destruct (truthy (Z.land flags F_BEGP))|done].
Qed.

Lemma stream_send_nowait_witness :
  exists port' d', stream_send 1 port0 (repeat 7 600) 2400 F_NOWA empty_core = (Some (XST_FAILURE, port'), d') /\
    Instance port' = core_port /\ tx_words (p := core_port) d' = [] /\ tx_sent (p := core_port) d' = [] /\
    vacancy (p := core_port) d' = 512.
Proof. refine (stream_send_nowait port0 (D := core) 1 (repeat 7 600) 2400 F_NOWA empty_core _ _ _); [lia|done|by vm_compute]. Defined.

Lemma recv_step {D} `{Device D} port `{!LlCore D (Instance port)} spin flags d n :
  truthy (Z.land flags F_BEGP) = true -> (0 < spin)%nat -> rx_words d = [] ->
  match rx_queue d with
  | [] =>
      truthy (Z.land flags F_NOWA) = true ->
      exists d', stream_recv spin port (4 * n) flags d = (Some (XST_FAILURE, port, []), d') /\
        rx_words d' = [] /\ rx_queue d' = []
  | fr :: rest =>
      Z.of_nat (length fr) < 2 ^ 32 -> 0 <= n -> 4 * n <= Z.of_nat (length fr) ->
      let left := if truthy (Z.land flags F_ENDP) then 0 else Z.of_nat (length fr) - 4 * n in
      exists d' ws, stream_recv spin port (4 * n) flags d = (Some (XST_SUCCESS, set_Receive left port, ws), d') /\
        words_bytes ws = take (Z.to_nat (4 * n)) fr /\ rx_queue d' = rest /\
        (truthy (Z.land flags F_ENDP) = true -> rx_words d' = [])
  end.
Proof.
  intros Hb Hspin Hw. destruct (rx_queue d) as [|fr rest] eqn:Hq.
  - intros Hn. unfold stream_recv. rewrite Hb.
    destruct (wait_packet_spec (Instance port) spin flags d Hspin Hw (or_intror Hn)) as (d' & Hr & Hw' & Hq').
    rewrite decide_True in Hr by done. exists d'. unfold mbind, io_bind. rewrite Hr. split_and!; [done|congruence..].
  - intros Hlt Hn Hsz left. unfold stream_recv. rewrite Hb.
    destruct (wait_packet_spec (Instance port) spin flags d Hspin Hw) as (d1 & Hr & Hw1 & Hq1); [by left; rewrite Hq|].
    rewrite decide_False in Hr by (by rewrite Hq). unfold mbind, io_bind. rewrite Hr.
    destruct (core_rd_len d1 fr rest) as (d2 & pad & Hl & Hpad & Hbytes & Hrest); [congruence..|].
    unfold XLlFifo_iRxGetLen, ReadReg, bus_read. rewrite Hl.
    destruct (recv_words_spec (Instance port) (set_Receive (Z.of_nat (length fr)) port) flags d2 fr pad n)
      as (d3 & ws & H3 & Hws & Hq3 & Hw3); [done..|].
    exists d3, ws. rewrite H3. split_and!; [done..|congruence|]. intros He. by rewrite He in Hw3.
Qed.

(** a receive that starts a packet waits for it, returns its first
    [4 * n] bytes and the number of bytes left, and with [F_ENDP] unloads
    them, so that the next receive starts at the next packet; an empty FIFO
    makes the non-blocking form fail without taking anything. *)
Theorem stream_recv_correct {D} `{Device D} port `{!LlCore D (Instance port)} spin flags d n :
  truthy (Z.land flags F_BEGP) = true -> (0 < spin)%nat -> rx_words d = [] ->
  match rx_queue d with
  | [] =>
      truthy (Z.land flags F_NOWA) = true ->
      exists d', stream_recv spin port (4 * n) flags d = (Some (XST_FAILURE, port, []), d') /\
        rx_words d' = [] /\ rx_queue d' = []
  | fr :: rest =>
      Z.of_nat (length fr) < 2 ^ 32 -> 0 <= n -> 4 * n <= Z.of_nat (length fr) ->
      let left := if truthy (Z.land flags F_ENDP) then 0 else Z.of_nat (length fr) - 4 * n in
      exists d' ws, stream_recv spin port (4 * n) flags d = (Some (XST_SUCCESS, set_Receive left port, ws), d') /\
        words_bytes ws = take (Z.to_nat (4 * n)) fr /\ rx_queue d' = rest /\
        (truthy (Z.land flags F_ENDP) = true -> rx_words d' = [])
  end.
Proof. apply recv_step. Qed.

Definition full_core : core :=
  {| k_rx := []; k_queue := [([0x04030201; 0x08070605; 0x0B0A09], 1%nat); ([1], 0%nat)];
     k_tx := []; k_sent := []; k_ier := 0; k_isr := 0 |}.

Lemma stream_recv_correct_witness :
  exists d' ws, stream_recv 1 port0 4 (Z.lor F_BEGP F_ENDP) full_core = (Some (XST_SUCCESS, set_Receive 0 port0, ws), d') /\
    words_bytes ws = [1; 2; 3; 4] /\ rx_queue (p := core_port) d' = [[1; 0; 0; 0]] /\
    (truthy (Z.land (Z.lor F_BEGP F_ENDP) F_ENDP) = true -> rx_words (p := core_port) d' = []).
Proof.
  pose proof (stream_recv_correct port0 (D := core) 1 (Z.lor F_BEGP F_ENDP) full_core 1 eq_refl ltac:(lia) eq_refl) as H.
  exact (H ltac:(by vm_compute) ltac:(lia) ltac:(by vm_compute)).
Defined.

Lemma read_words_any {D} `{Device D} p n : forall d, exists ws d', read_words_loop p n d = (ws, d') /\ length ws = n.
Proof.
  induction n as [|n IH]; intros d; simpl; [by exists [], d|]. unfold mbind, io_bind.
  destruct (XLlFifo_RxGetWord p d) as [w d1]. destruct (IH d1) as (ws & d2 & -> & Hl).
  exists (w :: ws), d2. simpl. by rewrite Hl.
Qed.

(** a receive of more bytes than the packet has left, on any device and
    whatever it answers, reports success with as many words as were asked
    for, and the count of bytes left wraps around to nearly 2^32. *)
Theorem stream_recv_oversized {D} `{Device D} spin port flags d n :
  truthy (Z.land flags F_BEGP) = false -> truthy (Z.land flags F_ENDP) = false ->
  0 <= ReceiveLength port < 4 * n -> 4 * n < 2 ^ 32 ->
  exists d' ws, stream_recv spin port (4 * n) flags d
      = (Some (XST_SUCCESS, set_Receive (2 ^ 32 - (4 * n - ReceiveLength port)) port, ws), d') /\
    Z.of_nat (length ws) = n.
Proof.
  intros Hb He Hr Hn. unfold stream_recv. rewrite Hb. unfold recv_words.
  replace (4 * n / 4) with n by (clear; div_lia). rewrite (wrap_id 32 n) by (split; lia).
  unfold XLlFifo_iRead_Aligned. destruct (read_words_any (Instance port) (Z.to_nat n) d) as (ws & d' & Hl & Hlen).
  unfold mbind, io_bind. rewrite Hl, He. exists d', ws. split; [|lia]. simpl. do 5 f_equal.
  unfold wrap. rewrite <- (Z_mod_plus_full _ 1), Z.mod_small by lia. lia.
Qed.

Lemma stream_recv_oversized_witness :
  exists d' ws, stream_recv 1 (set_Receive 4 port0) 12 0 empty_core
      = (Some (XST_SUCCESS, set_Receive 0xFFFFFFF8 port0, ws), d') /\ Z.of_nat (length ws) = 3.
Proof. refine (stream_recv_oversized 1 (set_Receive 4 port0) 0 empty_core 3 _ _ _ _); [done|done|simpl; lia|by vm_compute]. Defined.
