(* ===== verification/Aport.v ===== *)
(** Accelerator ports and the load-store unit (shared/aport.c, aport.h,
    shared/lsu_cmd.c, lsu_cmd.h): packets that read and write the registers of
    accelerator units, and the block copies the load-store unit performs.

    [gport] is the global stream, threaded as state; [spin] is the number of
    polls of the blocking stream calls. *)
From S2P Require Import Prelude Device Streamer LlFifo Stream.
Open Scope Z_scope.

(** * Headers *)

(** Expressions of type [unsigned]: shifts wrap at 32 bits. *)
(* @src shared/aport.h 23-24 AP_HEAD *)
Definition AP_HEAD (go wr sel len tid tdest : Z) : Z :=
  u32 (Z.lor (Z.lor (Z.lor (Z.lor (Z.lor (Z.shiftl go 23) (Z.shiftl wr 22)) (Z.shiftl sel 19)) (Z.shiftl len 16))
         (Z.shiftl tid 8)) tdest).

(* @src shared/aport.h 26-27 HSU_CMD *)
Definition HSU_CMD (seldi seldo seed tdest tid hlen klen : Z) : Z :=
  u32 (Z.lor (Z.lor (Z.lor (Z.lor (Z.lor (Z.lor (Z.shiftl seldi 29) (Z.shiftl seldo 28)) (Z.shiftl seed 24))
         (Z.shiftl tdest 20)) (Z.shiftl tid 16)) (Z.shiftl hlen 8)) klen).

(* @src shared/aport.h 29-30 LSU_CMD *)
Definition LSU_CMD (reqs cmd : Z) : Z := u32 (Z.lor (Z.shiftl reqs 7) cmd).

(* @src shared/aport.h 32-33 LSU_ACMD *)
Definition LSU_ACMD (addr reqs cmd : Z) : Z :=
  Z.lor (Z.lor (Z.land (Z.shiftr addr 16) 0x70000) (Z.shiftl reqs 7)) cmd.

(* @src shared/aport.h 35-36 READ_CH *)
Definition READ_CH : Z := 0.
Definition WRITE_CH : Z := 1.

(* @src shared/aport.h 38-45 LSU commands *)
Definition LSU_move : Z := 1.
Definition LSU_smove : Z := 2.

(** * Port operations *)

Section Aport.
Context {D : Type} `{Device D} (spin : nat).

Definition BEGP_ENDP : Z := Z.lor F_BEGP F_ENDP.

(** A send whose status the code ignores: [None] if it blocks. *)
Definition send_packet (gport : stream_t) (words : list Z) (size : Z) : io D (option stream_t) :=
  r ← stream_send spin gport words size BEGP_ENDP;
  mret ('(_, gport) ← r; Some gport).

Definition recv_packet (gport : stream_t) (size : Z) : io D (option (stream_t * list Z)) :=
  r ← stream_recv spin gport size BEGP_ENDP;
  mret ('(_, gport, ws) ← r; Some (gport, ws)).

(* @src shared/aport.c 13-16 aport_set *)
Definition aport_set (port : stream_t) : stream_t := port.

(* @src shared/aport.c 18-29 aport_read *)
Definition aport_read (gport : stream_t) (fwd_id ret_id sel : Z) : io D (option (stream_t * Z)) :=
  let command := [AP_HEAD 0 0 sel 1 ret_id fwd_id; 0] in
  g ← send_packet gport command 8;
  match g with
  | None => mret None
  | Some gport =>
      r ← recv_packet gport 8;
      mret ('(gport, response) ← r; Some (gport, response !!! 1%nat))
  end.

(* @src shared/aport.c 31-39 aport_write *)
Definition aport_write (gport : stream_t) (fwd_id ret_id go sel val : Z) : io D (option stream_t) :=
  let command := [AP_HEAD go 1 sel 1 ret_id fwd_id; val] in
  send_packet gport command 8.

(** [val] is the caller's array: the header goes to its first element, the
    values follow.  The request sends two words of it. *)
(* @src shared/aport.c 45-51 aport_nread *)
Definition aport_nread (gport : stream_t) (fwd_id ret_id sel : Z) (val : list Z) (n : Z) : io D (option (stream_t * list Z)) :=
  let val := <[0%nat := AP_HEAD 0 0 sel n ret_id fwd_id]> val in
  g ← send_packet gport val 8;
  match g with
  | None => mret None
  | Some gport =>
      r ← recv_packet gport ((n + 1) * 4);
      mret ('(gport, ws) ← r; Some (gport, ws ++ drop (length ws) val))
  end.

(* @src shared/aport.c 53-58 aport_nwrite *)
Definition aport_nwrite (gport : stream_t) (fwd_id ret_id go sel : Z) (val : list Z) (n : Z) : io D (option stream_t) :=
  let val := <[0%nat := AP_HEAD go 1 sel n ret_id fwd_id]> val in
  send_packet gport val ((n + 1) * 4).

End Aport.

(** * Load-store unit *)

Module Lsu.
(** The packet header of the command structures: three bit fields. *)
Definition header (tdest tid tuser : Z) : Z := Z.lor (Z.lor (u8 tdest) (Z.shiftl (u8 tid) 8)) (Z.shiftl (u16 tuser) 16).

(** The globals [gfwd_id] and [gret_id]. *)
(* @src shared/lsu_cmd.c 47-48 gfwd_id, gret_id *)
Record ids := { gfwd_id : Z; gret_id : Z }.

(* @src shared/lsu_cmd.c 51-56 lsu_setport *)
Definition lsu_setport (port : stream_t) (fwd_pn ret_pn : Z) : stream_t * ids :=
  (port, {| gfwd_id := u32 (Z.shiftl fwd_pn 1); gret_id := u32 (Z.shiftl ret_pn 1) |}).

(** The words of the command structures. *)
(* @src shared/lsu_cmd.c 10-19 lsu_move *)
Definition lsu_move (tdest tid tuser cmd addr size : Z) : list Z :=
  [header tdest tid tuser; u32 cmd; u32 addr; u32 size].
(* @src shared/lsu_cmd.c 21-32 lsu_smove *)
Definition lsu_smove (tdest tid tuser cmd addr size inc rep : Z) : list Z :=
  [header tdest tid tuser; u32 cmd; u32 addr; u32 size; u32 inc; u32 rep].

Section Lsu.
(** [ATRAN] translates a virtual to a physical address. *)
Context {D : Type} `{Device D} (spin : nat) (ATRAN : Z -> Z).

(** Send the load and the store command. *)
Definition send_commands (gport : stream_t) (load store : list Z) (size : Z) : io D (option stream_t) :=
  g ← send_packet spin gport load size;
  match g with
  | None => mret None
  | Some gport => send_packet spin gport store size
  end.

(** Then wait for the store status. *)
Definition run_commands (gport : stream_t) (load store : list Z) (size : Z) : io D (option stream_t) :=
  g ← send_commands gport load store size;
  match g with
  | None => mret None
  | Some gport => r ← recv_packet spin gport 8; mret ('(gport, _) ← r; Some gport)
  end.

(** The commands of a block copy. *)
(* @src shared/lsu_cmd.c 64-80 lsu_memcpy commands *)
Definition move_commands (g : ids) (dst src n : Z) : list Z * list Z :=
  let tuser := 203 (* 0313 *) in
  let load := lsu_move (gfwd_id g + READ_CH) (gret_id g) tuser (LSU_ACMD (ATRAN src) 0 LSU_move) (ATRAN src) n in
  let store := lsu_move (gfwd_id g + WRITE_CH) (gret_id g) tuser (LSU_ACMD (ATRAN dst) 1 LSU_move) (ATRAN dst) n in
  (load, store).

(* @src shared/lsu_cmd.c 58-87 lsu_memcpy *)
Definition lsu_memcpy (gport : stream_t) (g : ids) (dst src n : Z) : io D (option (stream_t * Z)) :=
  let '(load, store) := move_commands g dst src n in
  r ← run_commands gport load store 16;
  mret (gport ← r; Some (gport, dst)).

(* @src shared/lsu_cmd.c 95-114 lsu_smemcpy commands *)
Definition smove_commands (g : ids) (dst src block_sz dst_inc src_inc n : Z) : list Z * list Z :=
  let tuser := 205 (* 0315 *) in
  let load :=
    lsu_smove (gfwd_id g + READ_CH) (gret_id g) tuser (LSU_ACMD (ATRAN src) 0 LSU_smove) (ATRAN src) block_sz src_inc n in
  let store :=
    lsu_smove (gfwd_id g + WRITE_CH) (gret_id g) tuser (LSU_ACMD (ATRAN dst) 1 LSU_smove) (ATRAN dst) block_sz dst_inc n in
  (load, store).

(* @src shared/lsu_cmd.c 89-121 lsu_smemcpy *)
Definition lsu_smemcpy (gport : stream_t) (g : ids) (dst src block_sz dst_inc src_inc n : Z) : io D (option (stream_t * Z)) :=
  let '(load, store) := smove_commands g dst src block_sz dst_inc src_inc n in
  r ← run_commands gport load store 24;
  mret (gport ← r; Some (gport, dst)).
End Lsu.
End Lsu.
