(* ===== verification/AportProofs.v ===== *)
(** Accelerator ports: the packets that reach the units decode to the
    operation the caller asked for, and the block copies program the
    load-store unit with their physical addresses and sizes. *)
From S2P Require Import Prelude Device Streamer LlFifo LlFifoProofs Stream StreamProofs Aport.
Open Scope Z_scope.

(** * The register view of a packet

    The layout documented at the end of aport.h: the header, and a payload
    that is written to consecutive registers from the selected one up. *)
Definition h_go (h : Z) : Z := get_field 23 1 h.
Definition h_write (h : Z) : Z := get_field 22 1 h.
Definition h_sel (h : Z) : Z := get_field 19 3 h.
Definition h_len (h : Z) : Z := get_field 16 3 h.
Definition h_tid (h : Z) : Z := get_field 8 8 h.
Definition h_tdest (h : Z) : Z := get_field 0 8 h.

(** Value a packet writes to register [r], if it writes it. *)
Definition written_reg (words : list Z) (r : Z) : option Z :=
  h ← words !! 0%nat;
  if (h_write h =? 1) && (h_sel h <=? r) && (r <? h_sel h + h_len h) then words !! Z.to_nat (1 + r - h_sel h) else None.

(** Registers of the load-store unit. *)
Definition lsu_command (words : list Z) : option Z := get_field 0 3 <$> written_reg words 1.
Definition lsu_reqstat (words : list Z) : option Z := get_field 7 1 <$> written_reg words 1.
Definition lsu_address (words : list Z) : option Z :=
  hi ← get_field 16 16 <$> written_reg words 1;
  lo ← written_reg words 2;
  Some (lo + 2 ^ 32 * hi).
Definition lsu_size (words : list Z) : option Z := written_reg words 3.
Definition lsu_inc (words : list Z) : option Z := written_reg words 4.
Definition lsu_rep (words : list Z) : option Z := written_reg words 5.

Definition fields_ok (go wr sel len tid tdest : Z) : Prop :=
  in_word 1 go /\ in_word 1 wr /\ in_word 3 sel /\ in_word 3 len /\ in_word 8 tid /\ in_word 8 tdest.

Lemma AP_HEAD_fields go wr sel len tid tdest :
  fields_ok go wr sel len tid tdest ->
  let h := AP_HEAD go wr sel len tid tdest in
  h_go h = go /\ h_write h = wr /\ h_sel h = sel /\ h_len h = len /\ h_tid h = tid /\ h_tdest h = tdest.
Proof.
  intros (? & ? & ? & ? & ? & ?). cbv zeta.
  unfold AP_HEAD, h_go, h_write, h_sel, h_len, h_tid, h_tdest, get_field. split_and!; Zbits.
Qed.

Lemma AP_HEAD_range go wr sel len tid tdest : in_word 32 (AP_HEAD go wr sel len tid tdest).
Proof. by apply wrap_range. Qed.

(** The header of the load-store commands is an accelerator port header. *)
Lemma lsu_header_AP_HEAD len tdest tid :
  in_word 3 len -> in_word 8 tid -> in_word 8 tdest ->
  Lsu.header tdest tid (Z.lor 200 len) = AP_HEAD 1 1 1 len tid tdest.
Proof.
  intros Hl ??. unfold Lsu.header, AP_HEAD.
  assert (Hc : Z.lor (Z.lor (Z.shiftl 1 23) (Z.shiftl 1 22)) (Z.shiftl 1 19) = Z.shiftl 200 16) by done.
  rewrite Hc. replace (Z.lor (Z.shiftl 200 16) (Z.shiftl len 16)) with (Z.shiftl (Z.lor 200 len) 16) by apply Z.shiftl_lor.
  assert (H200 : in_word 8 (Z.lor 200 len)).
  { apply in_word_lor; [lia|by vm_compute|by eapply in_word_weaken; [|done]]. }
  set (t := Z.lor 200 len) in *. clearbody t. Zbits.
Qed.

(** Physical addresses of up to 35 bits survive the split over two registers. *)
Lemma ACMD_address paddr reqs cmd :
  in_word 35 paddr -> in_word 1 reqs -> in_word 3 cmd ->
  get_field 0 3 (u32 (LSU_ACMD paddr reqs cmd)) = cmd /\
  get_field 7 1 (u32 (LSU_ACMD paddr reqs cmd)) = reqs /\
  u32 paddr + 2 ^ 32 * get_field 16 16 (u32 (LSU_ACMD paddr reqs cmd)) = paddr.
Proof.
  intros Hp Hr Hc. unfold LSU_ACMD, get_field. change 0x70000 with (Z.shiftl (Z.ones 3) 16).
  split_and!; [Zbits..|].
  replace (Z.land (Z.shiftr (u32 (Z.lor (Z.lor (Z.land (Z.shiftr paddr 16) (Z.shiftl (Z.ones 3) 16)) (Z.shiftl reqs 7)) cmd)) 16) (Z.ones 16))
    with (paddr / 2 ^ 32).
  - unfold wrap. pose proof (Z.div_mod paddr (2 ^ 32)). lia.
  - rewrite <- Z.shiftr_div_pow2 by lia. Zbits.
Qed.

(** * Packets on the wire *)

Section Packets.
Context {D : Type} `{HD : Device D} (port : stream_t) `{!LlCore D (Instance port)} (spin : nat).
Hypothesis spin_pos : (0 < spin)%nat.

Lemma send_packet_spec buf d :
  Forall (in_word 32) buf -> tx_words d = [] -> Z.of_nat (length buf) <= vacancy d -> 4 * Z.of_nat (length buf) < 2 ^ 32 ->
  exists d', send_packet spin port buf (4 * Z.of_nat (length buf)) d
      = (Some (set_Transmit (4 * Z.of_nat (length buf)) port), d') /\
    tx_words d' = [] /\ tx_sent d' = tx_sent d ++ [words_bytes buf] /\ vacancy d - Z.of_nat (length buf) <= vacancy d'.
Proof.
  intros Hb Ht Hv Hl.
  destruct (send_step port spin buf (4 * Z.of_nat (length buf)) BEGP_ENDP d) as (d' & Hs & Hd); [done..| |done|done|].
  { simpl. by rewrite Ht. }
  simpl in Hd, Hs. exists d'. unfold send_packet, mbind, io_bind. rewrite Hs. split; [done|].
  by rewrite Ht in Hd.
Qed.

(** A packet of [k] words of a longer buffer. *)
Lemma send_packet_take buf k d :
  Forall (in_word 32) (take k buf) -> tx_words d = [] -> (k <= length buf)%nat -> Z.of_nat k <= vacancy d -> 4 * Z.of_nat k < 2 ^ 32 ->
  exists d', send_packet spin port buf (4 * Z.of_nat k) d = (Some (set_Transmit (4 * Z.of_nat k) port), d') /\
    tx_words d' = [] /\ tx_sent d' = tx_sent d ++ [words_bytes (take k buf)].
Proof.
  intros Hb Ht Hk Hv Hl. assert (Hlen : length (take k buf) = k) by (rewrite length_take; lia).
  destruct (send_packet_spec (take k buf) d) as (d' & Hs & Hd & Hd' & _); [done|done|rewrite Hlen; lia..|].
  rewrite Hlen in Hs. exists d'. split; [|done]. rewrite <- Hs.
  unfold send_packet, stream_send. replace (4 * Z.of_nat k / 4) with (Z.of_nat k) by (clear; div_lia).
  rewrite (wrap_id 32 (Z.of_nat k)) by (split; lia). rewrite Nat2Z.id, take_take, Nat.min_id. done.
Qed.

Lemma recv_packet_spec size d fr rest :
  rx_words d = [] -> rx_queue d = fr :: rest -> Z.of_nat (length fr) < 2 ^ 32 -> 0 <= size -> 4 * size <= Z.of_nat (length fr) ->
  exists d' ws, recv_packet spin port (4 * size) d = (Some (set_Receive 0 port, ws), d') /\
    words_bytes ws = take (Z.to_nat (4 * size)) fr /\ rx_queue d' = rest /\ rx_words d' = [].
Proof.
  intros Hw Hq Hlt Hs Hl.
  pose proof (recv_step port spin BEGP_ENDP d size eq_refl spin_pos Hw) as Hr. rewrite Hq in Hr.
  destruct (Hr Hlt Hs Hl) as (d' & ws & Hc & Hws & Hq' & Hw').
  exists d', ws. unfold recv_packet, mbind, io_bind. rewrite Hc. split_and!; [done..|by apply Hw'].
Qed.
End Packets.

(** The registers a packet writes, in terms of its header. *)
Lemma written_reg_cons h ws r :
  written_reg (h :: ws) r
  = if (h_write h =? 1) && (h_sel h <=? r) && (r <? h_sel h + h_len h) then ws !! Z.to_nat (r - h_sel h) else None.
Proof.
  unfold written_reg. cbn [mbind option_bind lookup list_lookup].
  destruct (h_write h =? 1), (Z.leb_spec (h_sel h) r), (r <? h_sel h + h_len h); try done.
  cbn [andb]. by replace (Z.to_nat (1 + r - h_sel h)) with (S (Z.to_nat (r - h_sel h))) by lia.
Qed.

(** writing a register of a unit sends one packet of two words: a header
    that decodes to the caller's unit, return route, register and go flag with
    a length of one, and the value. *)
Theorem aport_write_correct {D} `{Device D} port `{!LlCore D (Instance port)} spin fwd_id ret_id go sel val d :
  (0 < spin)%nat -> tx_words d = [] -> 2 <= vacancy d -> in_word 32 val ->
  in_word 8 fwd_id -> in_word 8 ret_id -> in_word 1 go -> in_word 3 sel ->
  exists d' h, aport_write spin port fwd_id ret_id go sel val d = (Some (set_Transmit 8 port), d') /\
    tx_sent d' = tx_sent d ++ [words_bytes [h; val]] /\ tx_words d' = [] /\
    h_go h = go /\ h_tid h = ret_id /\ h_tdest h = fwd_id /\
    forall r, written_reg [h; val] r = if r =? sel then Some val else None.
Proof.
  intros Hspin Ht Hv Hval Hf Hr Hg Hs. set (h := AP_HEAD go 1 sel 1 ret_id fwd_id).
  destruct (AP_HEAD_fields go 1 sel 1 ret_id fwd_id) as (H1 & H2 & H3 & H4 & H5 & H6); [by split_and!|].
  destruct (send_packet_spec port spin Hspin [h; val] d) as (d' & Hc & Hd & Hd' & _);
    [by repeat apply Forall_cons_2; [apply AP_HEAD_range| |apply Forall_nil_2]|done|simpl; lia|by vm_compute|].
  exists d', h. split_and!; [exact Hc|exact Hd'|exact Hd|exact H1|exact H5|exact H6|].
  intros r. fold h in H2, H3, H4. rewrite written_reg_cons, H2, H3, H4. destruct (Z.eqb_spec r sel) as [->|Hne].
  - rewrite Z.leb_refl, Z.sub_diag. destruct (Z.ltb_spec sel (sel + 1)); [done|lia].
  - destruct (Z.leb_spec sel r), (Z.ltb_spec r (sel + 1)); try done; lia.
Qed.

Lemma aport_write_correct_witness :
  exists d' h, aport_write 1 port0 4 2 1 5 77 empty_core = (Some (set_Transmit 8 port0), d') /\
    tx_sent (p := core_port) d' = [words_bytes [h; 77]] /\ tx_words (p := core_port) d' = [] /\
    h_go h = 1 /\ h_tid h = 2 /\ h_tdest h = 4 /\
    forall r, written_reg [h; 77] r = if r =? 5 then Some 77 else None.
Proof.
  refine (aport_write_correct (D := core) port0 1 4 2 1 5 77 empty_core _ _ _ _ _ _ _ _);
    [lia|done|by vm_compute|by vm_compute..].
Defined.

(** * Block copies *)

(** What a command packet makes the load-store unit do. *)
Record command := { k_unit : Z; k_ret : Z; k_go : Z; k_cmd : option Z; k_reqstat : option Z; k_addr : option Z;
                    k_size : option Z; k_inc : option Z; k_rep : option Z }.
Definition decode (words : list Z) : command :=
  let h := words !!! 0%nat in
  {| k_unit := h_tdest h; k_ret := h_tid h; k_go := h_go h; k_cmd := lsu_command words; k_reqstat := lsu_reqstat words;
     k_addr := lsu_address words; k_size := lsu_size words; k_inc := lsu_inc words; k_rep := lsu_rep words |}.

Lemma lsu_header_fields len tdest tid :
  in_word 3 len -> in_word 8 tid -> in_word 8 tdest ->
  let h := Lsu.header tdest tid (Z.lor 200 len) in
  h_go h = 1 /\ h_write h = 1 /\ h_sel h = 1 /\ h_len h = len /\ h_tid h = tid /\ h_tdest h = tdest.
Proof.
  intros Hl Hi Hd h. unfold h. rewrite lsu_header_AP_HEAD by done.
  by apply AP_HEAD_fields; split_and!.
Qed.

Section Decode.
Context (tdest tid paddr reqs n : Z).
Hypothesis tdest_ok : in_word 8 tdest.
Hypothesis tid_ok : in_word 8 tid.
Hypothesis paddr_ok : in_word 35 paddr.
Hypothesis reqs_ok : in_word 1 reqs.
Hypothesis n_ok : in_word 32 n.

(** Read the registers of a command off its words. *)
Ltac decode_tac h Hh Ha :=
  unfold decode, lsu_command, lsu_reqstat, lsu_address, lsu_size, lsu_inc, lsu_rep;
  destruct Hh as (Hgo & Hwr & Hsel & Hlen & Htid & Htd);
  rewrite !written_reg_cons, Hwr, Hsel, Hlen;
  repeat match goal with
  | |- context [?a <? 1 + ?b] => let v := eval compute in (a <? 1 + b) in change (a <? 1 + b) with v
  | |- context [Z.to_nat (?a - 1)] => let v := eval compute in (Z.to_nat (a - 1)) in change (Z.to_nat (a - 1)) with v
  end;
  cbn -[get_field wrap Z.pow Z.mul Z.add h_tdest h_tid h_go];
  rewrite Hgo, Htid, Htd;
  destruct Ha as (-> & -> & ->); by rewrite !(wrap_id 32) by done.

Lemma decode_move :
  decode (Lsu.lsu_move tdest tid 203 (LSU_ACMD paddr reqs LSU_move) paddr n)
  = {| k_unit := tdest; k_ret := tid; k_go := 1; k_cmd := Some LSU_move; k_reqstat := Some reqs; k_addr := Some paddr;
       k_size := Some n; k_inc := None; k_rep := None |}.
Proof.
  pose proof (ACMD_address paddr reqs LSU_move paddr_ok reqs_ok ltac:(by vm_compute)) as Ha.
  pose proof (lsu_header_fields 3 tdest tid ltac:(by vm_compute) tid_ok tdest_ok) as Hh.
  change (Z.lor 200 3) with 203 in Hh. unfold Lsu.lsu_move. cbv zeta in Hh.
  set (h := Lsu.header tdest tid 203) in *. clearbody h.
  set (cmd := u32 (LSU_ACMD paddr reqs LSU_move)) in *. clearbody cmd.
  decode_tac h Hh Ha.
Qed.

Context (inc rep : Z).
Hypothesis inc_ok : in_word 32 inc.
Hypothesis rep_ok : in_word 32 rep.

Lemma decode_smove :
  decode (Lsu.lsu_smove tdest tid 205 (LSU_ACMD paddr reqs LSU_smove) paddr n inc rep)
  = {| k_unit := tdest; k_ret := tid; k_go := 1; k_cmd := Some LSU_smove; k_reqstat := Some reqs; k_addr := Some paddr;
       k_size := Some n; k_inc := Some inc; k_rep := Some rep |}.
Proof.
  pose proof (ACMD_address paddr reqs LSU_smove paddr_ok reqs_ok ltac:(by vm_compute)) as Ha.
  pose proof (lsu_header_fields 5 tdest tid ltac:(by vm_compute) tid_ok tdest_ok) as Hh.
  change (Z.lor 200 5) with 205 in Hh. unfold Lsu.lsu_smove. cbv zeta in Hh.
  set (h := Lsu.header tdest tid 205) in *. clearbody h.
  set (cmd := u32 (LSU_ACMD paddr reqs LSU_smove)) in *. clearbody cmd.
  decode_tac h Hh Ha.
Qed.
End Decode.

Lemma header_range len tdest tid :
  in_word 3 len -> in_word 8 tid -> in_word 8 tdest -> in_word 32 (Lsu.header tdest tid (Z.lor 200 len)).
Proof. intros. rewrite lsu_header_AP_HEAD by done. apply AP_HEAD_range. Qed.

(** Two command packets and the reception of the status. *)
Section Commands.
Context {D : Type} `{HD : Device D} (port : stream_t) `{LC : !LlCore D (Instance port)} (spin : nat).
Hypothesis spin_pos : (0 < spin)%nat.

Lemma send_commands_spec load store k d :
  length load = k -> length store = k -> Forall (in_word 32) load -> Forall (in_word 32) store ->
  (k <= 6)%nat -> tx_words d = [] -> 2 * Z.of_nat k <= vacancy d ->
  exists d2, Lsu.send_commands spin port load store (4 * Z.of_nat k) d = (Some (set_Transmit (4 * Z.of_nat k) port), d2) /\
    tx_sent d2 = tx_sent d ++ [words_bytes load; words_bytes store].
Proof.
  intros Hl Hs Hwl Hws Hk Ht Hv. unfold Lsu.send_commands, mbind, io_bind.
  destruct (send_packet_spec port spin spin_pos load d) as (d1 & H1 & Ht1 & Hs1 & Hv1); [done|done|lia|lia|].
  rewrite Hl in *. rewrite H1.
  destruct (send_packet_spec (set_Transmit (4 * Z.of_nat k) port) (LlCore0 := LC) spin spin_pos store d1)
    as (d2 & H2 & Ht2 & Hs2 & Hv2); [done|done|cbn; lia|lia|]. cbn in Hs2.
  rewrite Hs in *. exists d2. rewrite H2. split; [done|]. by rewrite Hs2, Hs1, <- app_assoc.
Qed.

Lemma run_commands_spec load store k d g d2 st rest :
  Lsu.send_commands spin port load store k d = (Some g, d2) -> Instance g = Instance port ->
  rx_words d2 = [] -> rx_queue d2 = st :: rest -> 8 <= Z.of_nat (length st) < 2 ^ 32 ->
  exists g' d3, Lsu.run_commands spin port load store k d = (Some g', d3) /\ rx_queue d3 = rest.
Proof.
  intros Hc Hg Hw Hq Hl. unfold Lsu.run_commands, mbind, io_bind. rewrite Hc.
  destruct g as [p tl rl]. simpl in Hg. subst p.
  destruct (recv_packet_spec {| Instance := Instance port; TransmitLength := tl; ReceiveLength := rl |} (LlCore0 := LC)
    spin spin_pos 2 d2 st rest) as (d3 & ws & H3 & _ & Hq3 & _); [done..|lia|lia|lia|].
  change (4 * 2) with 8 in H3. rewrite H3. eexists _, d3. by split.
Qed.
End Commands.

(** The stream and the routes are those of an accelerator. *)
Definition ids_ok (g : Lsu.ids) : Prop :=
  0 <= Lsu.gfwd_id g < 255 /\ in_word 8 (Lsu.gret_id g).

(** a block copy sends two packets: one that makes the read channel of the
    unit load [n] bytes from the physical address of the source without a
    status, one that makes the write channel store [n] bytes at that of the
    destination and report; once a status has arrived the call returns the
    destination and has consumed the status. *)
Theorem lsu_memcpy_correct {D} `{Device D} port `{!LlCore D (Instance port)} spin ATRAN g dst src n d :
  (0 < spin)%nat -> ids_ok g -> in_word 35 (ATRAN src) -> in_word 35 (ATRAN dst) -> in_word 32 n ->
  tx_words d = [] -> 8 <= vacancy d ->
  exists load store d2,
    Lsu.send_commands spin port load store 16 d = (Some (set_Transmit 16 port), d2) /\
    tx_sent d2 = tx_sent d ++ [words_bytes load; words_bytes store] /\
    decode load = {| k_unit := Lsu.gfwd_id g; k_ret := Lsu.gret_id g; k_go := 1; k_cmd := Some LSU_move;
                     k_reqstat := Some 0; k_addr := Some (ATRAN src); k_size := Some n; k_inc := None; k_rep := None |} /\
    decode store = {| k_unit := Lsu.gfwd_id g + 1; k_ret := Lsu.gret_id g; k_go := 1; k_cmd := Some LSU_move;
                      k_reqstat := Some 1; k_addr := Some (ATRAN dst); k_size := Some n; k_inc := None; k_rep := None |} /\
    (forall st rest, rx_words d2 = [] -> rx_queue d2 = st :: rest -> 8 <= Z.of_nat (length st) < 2 ^ 32 ->
      exists g' d3, Lsu.lsu_memcpy spin ATRAN port g dst src n d = (Some (g', dst), d3) /\ rx_queue d3 = rest).
Proof.
  intros Hspin [Hf Hr] Hsrc Hdst Hn Ht Hv.
  set (load := Lsu.lsu_move (Lsu.gfwd_id g + READ_CH) (Lsu.gret_id g) 203 (LSU_ACMD (ATRAN src) 0 LSU_move) (ATRAN src) n).
  set (store := Lsu.lsu_move (Lsu.gfwd_id g + WRITE_CH) (Lsu.gret_id g) 203 (LSU_ACMD (ATRAN dst) 1 LSU_move) (ATRAN dst) n).
  assert (Hw : forall td a r, in_word 8 td -> Forall (in_word 32)
    (Lsu.lsu_move td (Lsu.gret_id g) 203 (LSU_ACMD a r LSU_move) a n)).
  { intros td a r Htd. repeat apply Forall_cons_2; try (by apply wrap_range); [|apply Forall_nil_2].
    by apply (header_range 3). }
  assert (H8 : in_word 8 (Lsu.gfwd_id g) /\ in_word 8 (Lsu.gfwd_id g + 1)) by (unfold in_word; lia).
  destruct H8 as [H80 H81].
  destruct (send_commands_spec port spin Hspin load store 4 d) as (d2 & Hc & Hsent); [done|done| | |lia|done|lia|].
  { apply Hw. unfold READ_CH. by rewrite Z.add_0_r. } { by apply Hw. }
  exists load, store, d2. split_and!; [exact Hc|exact Hsent| | |].
  - unfold load, READ_CH. rewrite Z.add_0_r. by apply decode_move.
  - by apply decode_move.
  - intros st rest Hwd Hq Hl.
    destruct (run_commands_spec port spin Hspin load store 16 d _ d2 st rest Hc eq_refl Hwd Hq Hl) as (g' & d3 & H3 & Hq3).
    exists g', d3. split; [|done]. unfold Lsu.lsu_memcpy. cbn [Lsu.move_commands]. unfold mbind, io_bind.
    fold load store. by rewrite H3.
Qed.

Definition ids0 : Lsu.ids := snd (Lsu.lsu_setport port0 2 0).

Lemma lsu_memcpy_correct_witness :
  exists load store d2,
    Lsu.send_commands 1 port0 load store 16 empty_core = (Some (set_Transmit 16 port0), d2) /\
    tx_sent (p := core_port) d2 = [words_bytes load; words_bytes store] /\
    k_addr (decode load) = Some 0x512345678 /\ k_addr (decode store) = Some 0x400000000.
Proof.
  destruct (lsu_memcpy_correct (D := core) port0 1 (fun a => 0x400000000 + a) ids0 0 0x112345678 100 empty_core
    (le_n 1) ltac:(split; split; vm_compute; congruence) ltac:(split; vm_compute; congruence) ltac:(split; vm_compute; congruence) ltac:(split; vm_compute; congruence)
    eq_refl ltac:(vm_compute; congruence)) as (load & store & d2 & Hc & Hs & Hl & Hst & _).
  exists load, store, d2. rewrite Hl, Hst. split_and!; [exact Hc|exact Hs|reflexivity..].
Defined.

(** a strided copy sends the same two packets with the block size, the
    stride of its side (the source stride to the read channel, the destination
    stride to the write channel) and the number of blocks. *)
Theorem lsu_smemcpy_correct {D} `{Device D} port `{!LlCore D (Instance port)} spin ATRAN g dst src block_sz dst_inc src_inc n d :
  (0 < spin)%nat -> ids_ok g -> in_word 35 (ATRAN src) -> in_word 35 (ATRAN dst) ->
  in_word 32 block_sz -> in_word 32 dst_inc -> in_word 32 src_inc -> in_word 32 n ->
  tx_words d = [] -> 12 <= vacancy d ->
  exists load store d2,
    Lsu.send_commands spin port load store 24 d = (Some (set_Transmit 24 port), d2) /\
    tx_sent d2 = tx_sent d ++ [words_bytes load; words_bytes store] /\
    decode load = {| k_unit := Lsu.gfwd_id g; k_ret := Lsu.gret_id g; k_go := 1; k_cmd := Some LSU_smove;
                     k_reqstat := Some 0; k_addr := Some (ATRAN src); k_size := Some block_sz;
                     k_inc := Some src_inc; k_rep := Some n |} /\
    decode store = {| k_unit := Lsu.gfwd_id g + 1; k_ret := Lsu.gret_id g; k_go := 1; k_cmd := Some LSU_smove;
                      k_reqstat := Some 1; k_addr := Some (ATRAN dst); k_size := Some block_sz;
                      k_inc := Some dst_inc; k_rep := Some n |} /\
    (forall st rest, rx_words d2 = [] -> rx_queue d2 = st :: rest -> 8 <= Z.of_nat (length st) < 2 ^ 32 ->
      exists g' d3, Lsu.lsu_smemcpy spin ATRAN port g dst src block_sz dst_inc src_inc n d = (Some (g', dst), d3) /\
        rx_queue d3 = rest).
Proof.
  intros Hspin [Hf Hr] Hsrc Hdst Hb Hdi Hsi Hn Ht Hv.
  set (load := Lsu.lsu_smove (Lsu.gfwd_id g + READ_CH) (Lsu.gret_id g) 205 (LSU_ACMD (ATRAN src) 0 LSU_smove) (ATRAN src)
    block_sz src_inc n).
  set (store := Lsu.lsu_smove (Lsu.gfwd_id g + WRITE_CH) (Lsu.gret_id g) 205 (LSU_ACMD (ATRAN dst) 1 LSU_smove) (ATRAN dst)
    block_sz dst_inc n).
  assert (Hw : forall td a r i, in_word 8 td -> Forall (in_word 32)
    (Lsu.lsu_smove td (Lsu.gret_id g) 205 (LSU_ACMD a r LSU_smove) a block_sz i n)).
  { intros td a r i Htd. repeat apply Forall_cons_2; try (by apply wrap_range); [|apply Forall_nil_2].
    by apply (header_range 5). }
  assert (H8 : in_word 8 (Lsu.gfwd_id g) /\ in_word 8 (Lsu.gfwd_id g + 1)) by (unfold in_word; lia).
  destruct H8 as [H80 H81].
  destruct (send_commands_spec port spin Hspin load store 6 d) as (d2 & Hc & Hsent); [done|done| | |lia|done|lia|].
  { apply Hw. unfold READ_CH. by rewrite Z.add_0_r. } { by apply Hw. }
  exists load, store, d2. split_and!; [exact Hc|exact Hsent| | |].
  - unfold load, READ_CH. rewrite Z.add_0_r. by apply decode_smove.
  - by apply decode_smove.
  - intros st rest Hwd Hq Hl.
    destruct (run_commands_spec port spin Hspin load store 24 d _ d2 st rest Hc eq_refl Hwd Hq Hl) as (g' & d3 & H3 & Hq3).
    exists g', d3. split; [|done]. unfold Lsu.lsu_smemcpy. cbn [Lsu.smove_commands]. unfold mbind, io_bind.
    fold load store. by rewrite H3.
Qed.

Lemma lsu_smemcpy_correct_witness :
  exists load store d2,
    Lsu.send_commands 1 port0 load store 24 empty_core = (Some (set_Transmit 24 port0), d2) /\
    tx_sent (p := core_port) d2 = [words_bytes load; words_bytes store] /\
    k_inc (decode load) = Some 128 /\ k_inc (decode store) = Some 64.
Proof.
  destruct (lsu_smemcpy_correct (D := core) port0 1 id ids0 0x2000 0x1000 8 64 128 10 empty_core
    (le_n 1) ltac:(split; split; vm_compute; congruence) ltac:(split; vm_compute; congruence) ltac:(split; vm_compute; congruence)
    ltac:(split; vm_compute; congruence) ltac:(split; vm_compute; congruence) ltac:(split; vm_compute; congruence) ltac:(split; vm_compute; congruence)
    eq_refl ltac:(vm_compute; congruence)) as (load & store & d2 & Hc & Hs & Hl & Hst & _).
  exists load, store, d2. rewrite Hl, Hst. split_and!; [exact Hc|exact Hs|reflexivity..].
Defined.
