(* ===== verification/Cache.v ===== *)
(** Cache maintenance on the Cortex-A53 (linux/drivers/arm64/xil_cache.c):
    whole-cache operations by set and way, line and range operations, and the
    enable and disable sequences.

    A processor is its system registers and the log of the maintenance
    instructions and barriers it executed, each with the interrupt mask at
    that time.  [EL3] is 1, as the file defines it.  Loops that run over
    addresses take fuel and return [None] without enough of it. *)
From S2P Require Import Prelude Device.
Open Scope Z_scope.

(** * The processor *)

Inductive dc := CISW | ISW | CIVAC | IVAC.
Inductive op :=
  | DC (ins : dc) (v : Z)
  | IC_IVAU (v : Z)
  | IC_IALLU
  | TLBI
  | DSB
  | ISB.

#[export] Instance dc_eq_dec : EqDecision dc.
Proof. solve_decision. Defined.
#[export] Instance op_eq_dec : EqDecision op.
Proof. solve_decision. Defined.

Record cpu := {
  daif : Z;
  sctlr : Z;
  csselr : Z;
  ccsidr : Z -> Z;
  prefetch : Z;
  log : list (Z * op)
}.

(* @src linux/drivers/arm64/xpseudo_asm_gcc.h 68-73 mfcpsr, mtcpsr *)
Definition mfcpsr : io cpu Z := gets (fun c => u32 (daif c)).
Definition mtcpsr (v : Z) : io cpu unit :=
  modify (fun c => {| daif := v; sctlr := sctlr c; csselr := csselr c; ccsidr := ccsidr c; prefetch := prefetch c; log := log c |}).
(* @src linux/drivers/arm64/xpseudo_asm_gcc.h 212-224 mtcpdc, mtcpic, mfcp, mtcp *)
Definition issue (o : op) : io cpu unit :=
  modify (fun c => {| daif := daif c; sctlr := sctlr c; csselr := csselr c; ccsidr := ccsidr c; prefetch := prefetch c;
                      log := log c ++ [(daif c, o)] |}).
Definition mtcp_CSSELR (v : Z) : io cpu unit :=
  modify (fun c => {| daif := daif c; sctlr := sctlr c; csselr := v; ccsidr := ccsidr c; prefetch := prefetch c; log := log c |}).
Definition mtcp_SCTLR (v : Z) : io cpu unit :=
  modify (fun c => {| daif := daif c; sctlr := v; csselr := csselr c; ccsidr := ccsidr c; prefetch := prefetch c; log := log c |}).
Definition mtcp_prefetch (v : Z) : io cpu unit :=
  modify (fun c => {| daif := daif c; sctlr := sctlr c; csselr := csselr c; ccsidr := ccsidr c; prefetch := v; log := log c |}).
Definition mfcp_SCTLR : io cpu Z := gets sctlr.
Definition mfcp_CCSIDR : io cpu Z := gets (fun c => ccsidr c (csselr c)).

(** 64-bit count of leading zeroes. *)
(* @src linux/drivers/arm64/xpseudo_asm_gcc.h 203-209 clz *)
Definition clz (x : Z) : Z := if x =? 0 then 64 else 63 - Z.log2 x.

(* @src linux/drivers/arm64/xil_cache.c 108-108 IRQ_FIQ_MASK *)
Definition IRQ_FIQ_MASK : Z := 0xC0.
(* @src linux/drivers/arm64/xreg_cortexa53.h 169-170 XREG_CONTROL *)
Definition XREG_CONTROL_DCACHE_BIT : Z := 0x4.
Definition XREG_CONTROL_ICACHE_BIT : Z := 0x1000.

(** [currmask = mfcpsr(); mtcpsr(currmask | IRQ_FIQ_MASK); ...;
    mtcpsr(currmask);] around a body. *)
Definition masked {A} (body : io cpu A) : io cpu A :=
  currmask ← mfcpsr;
  _ ← mtcpsr (Z.lor currmask IRQ_FIQ_MASK);
  r ← body;
  _ ← mtcpsr currmask;
  mret r.

(** * Set and way *)

(* @src linux/drivers/arm64/xil_cache.c 557-562 set loop *)
Fixpoint set_loop (n : nat) (ins : dc) (Way Set_ CacheLevel LineSize : Z) : io cpu unit :=
  match n with
  | O => mret tt
  | S n' =>
      _ ← issue (DC ins (Z.lor (Z.lor Way Set_) CacheLevel));
      set_loop n' ins Way (u32 (Set_ + u32 (Z.shiftl 1 LineSize))) CacheLevel LineSize
  end.

(* @src linux/drivers/arm64/xil_cache.c 556-564 way loop *)
Fixpoint way_loop (n : nat) (ins : dc) (Way CacheLevel LineSize NumSet WayAdjust : Z) : io cpu unit :=
  match n with
  | O => mret tt
  | S n' =>
      _ ← set_loop (Z.to_nat NumSet) ins Way 0 CacheLevel LineSize;
      way_loop n' ins (u32 (Way + u32 (Z.shiftl 1 WayAdjust))) CacheLevel LineSize NumSet WayAdjust
  end.

(** Geometry, as read from CCSIDR. *)
(* @src linux/drivers/arm64/xil_cache.c 539-540 LineSize *)
Definition LineSize (CsidReg : Z) : Z := Z.land CsidReg 0x7 + 0x4.
(* @src linux/drivers/arm64/xil_cache.c 542-544 NumWays *)
Definition NumWays (CsidReg : Z) : Z := Z.shiftr (Z.land CsidReg 0x1FFF) 3 + 1.
(* @src linux/drivers/arm64/xil_cache.c 546-548 NumSet *)
Definition NumSet (CsidReg : Z) : Z := Z.land (Z.shiftr CsidReg 13) 0x7FFF + 1.
(* @src linux/drivers/arm64/xil_cache.c 550-550 WayAdjust *)
Definition WayAdjust (CsidReg : Z) : Z := u32 (clz (NumWays CsidReg) - 0x1F).

(** One level of the cache: select it, read its geometry, visit every way and
    set. *)
(* @src linux/drivers/arm64/xil_cache.c 532-567 one level *)
Definition all_lines (ins : dc) (CacheLevel : Z) : io cpu unit :=
  _ ← mtcp_CSSELR CacheLevel;
  _ ← issue ISB;
  r ← mfcp_CCSIDR;
  let CsidReg := u32 r in
  _ ← way_loop (Z.to_nat (NumWays CsidReg)) ins 0 CacheLevel (LineSize CsidReg) (NumSet CsidReg) (WayAdjust CsidReg);
  issue DSB.

(** Level 1 and level 2 data caches. *)
(* @src linux/drivers/arm64/xil_cache.c 530-606 both levels *)
Definition both_levels (ins : dc) : io cpu unit :=
  _ ← all_lines ins 0;
  all_lines ins (0 + u32 (Z.shiftl 1 1)).

(* @src linux/drivers/arm64/xil_cache.c 298-385 Xil_DCacheInvalidate *)
Definition Xil_DCacheInvalidate : io cpu unit := masked (both_levels ISW).

(* @src linux/drivers/arm64/xil_cache.c 519-606 Xil_DCacheFlush *)
Definition Xil_DCacheFlush : io cpu unit := masked (both_levels CISW).

(* @src linux/drivers/arm64/xil_cache.c 125-153 Xil_DCacheEnable *)
Definition Xil_DCacheEnable : io cpu unit :=
  r ← mfcp_SCTLR;
  let CtrlReg := u32 r in
  if Z.land CtrlReg XREG_CONTROL_DCACHE_BIT =? 0 then
    _ ← Xil_DCacheInvalidate;
    mtcp_SCTLR (Z.lor CtrlReg XREG_CONTROL_DCACHE_BIT)
  else mret tt.

(** The inline assembly works on the low word of the control register. *)
(* @src linux/drivers/arm64/xil_cache.c 166-278 Xil_DCacheDisable *)
Definition Xil_DCacheDisable : io cpu unit :=
  _ ← issue DSB;
  r ← mfcp_SCTLR;
  _ ← mtcp_SCTLR (Z.land (u32 r) 0xfffffffb);
  _ ← issue DSB;
  _ ← both_levels CISW;
  _ ← issue TLBI;
  _ ← issue DSB;
  issue ISB.

(** * Lines *)

(** [adr & (~0x3F)] for an unsigned 64-bit address: the [int] mask is sign
    extended. *)
(* @src linux/drivers/arm64/xil_cache.c 450-451 line mask *)
Definition line_of (adr : Z) : Z := Z.land adr (Z.lnot 0x3F).

(* @src linux/drivers/arm64/xil_cache.c 405-423 Xil_DCacheInvalidateLine *)
Definition Xil_DCacheInvalidateLine (adr : Z) : io cpu unit :=
  masked
    (_ ← mtcp_CSSELR 0x0;
     _ ← issue (DC CIVAC (line_of adr));
     _ ← issue DSB;
     _ ← mtcp_CSSELR 0x2;
     _ ← issue (DC IVAC (line_of adr));
     issue DSB).

(* @src linux/drivers/arm64/xil_cache.c 623-639 Xil_DCacheFlushLine *)
Definition Xil_DCacheFlushLine (adr : Z) : io cpu unit :=
  masked
    (_ ← mtcp_CSSELR 0x0;
     _ ← issue (DC CIVAC (line_of adr));
     _ ← issue DSB;
     _ ← mtcp_CSSELR 0x2;
     _ ← issue (DC CIVAC (line_of adr));
     issue DSB).

(** * Ranges *)

(* @src linux/drivers/arm64/xil_cache.c 449-449 cacheline *)
Definition cacheline : Z := 64.

(** Lines a loop from [adr] to [end_] can visit. *)
Definition range_fuel (adr end_ : Z) : nat := S (Z.to_nat ((end_ - adr + 63) / 64)).

(* @src linux/drivers/arm64/xil_cache.c 455-458 Xil_DCacheInvalidateRange loop *)
Fixpoint range_loop (fuel : nat) (body : Z -> io cpu unit) (adr end_ : Z) : io cpu (option unit) :=
  match fuel with
  | O => mret None
  | S fuel' => if adr <? end_ then _ ← body adr; range_loop fuel' body (u64 (adr + cacheline)) end_ else mret (Some tt)
  end.

(** [INTPTR] is [uintptr_t]: the end of the range wraps. *)
(* @src linux/drivers/arm64/xil_cache.c 446-463 Xil_DCacheInvalidateRange *)
Definition Xil_DCacheInvalidateRange (adr len : Z) : io cpu (option unit) :=
  let end_ := u64 (adr + len) in
  let adr := line_of adr in
  masked
    (r ← (if negb (len =? 0) then range_loop (range_fuel adr end_) (fun a => issue (DC CIVAC a)) adr end_
          else mret (Some tt));
     _ ← issue DSB;
     mret r).

(** An alias of the above. *)
(* @src linux/drivers/arm64/xil_cache.c 658-665 Xil_DCacheFlushRange *)
Definition Xil_DCacheFlushRange (adr len : Z) : io cpu (option unit) := Xil_DCacheInvalidateRange adr len.

(** The alternative of the [XIL_ALT] build: unsigned addresses, the partial
    lines at both ends flushed, the full lines in between handled at both
    levels. *)
Module Alt.
(* @src linux/drivers/arm64/xil_cache.c 474-488 ends of the range *)
Definition end_lines (len : Z) (adr : Z) (body : Z -> io cpu unit) : io cpu (option unit) :=
  let tempadr := u64 adr in
  let tempend := u64 (tempadr + len) in
  tempadr ← (if truthy (Z.land tempadr (cacheline - 1)) then
               let tempadr := Z.land tempadr (not64 (cacheline - 1)) in
               _ ← Xil_DCacheFlushLine tempadr;
               mret (u64 (tempadr + cacheline))
             else mret tempadr);
  tempend ← (if truthy (Z.land tempend (cacheline - 1)) then
               let tempend := Z.land tempend (not64 (cacheline - 1)) in
               _ ← Xil_DCacheFlushLine tempend;
               mret tempend
             else mret tempend);
  range_loop (range_fuel tempadr tempend) body tempadr tempend.

(* @src linux/drivers/arm64/xil_cache.c 490-501 both levels *)
Definition level_op (ins : dc) (a : Z) : io cpu unit :=
  _ ← mtcp_CSSELR 0x0;
  _ ← issue (DC ins (line_of a));
  _ ← issue DSB;
  _ ← mtcp_CSSELR 0x2;
  _ ← issue (DC ins (line_of a));
  issue DSB.

(* @src linux/drivers/arm64/xil_cache.c 465-505 Xil_DCacheInvalidateRange *)
Definition Xil_DCacheInvalidateRange (adr len : Z) : io cpu (option unit) :=
  masked (if negb (len =? 0) then end_lines len adr (level_op IVAC) else mret (Some tt)).

(* @src linux/drivers/arm64/xil_cache.c 667-707 Xil_DCacheFlushRange *)
Definition Xil_DCacheFlushRange (adr len : Z) : io cpu (option unit) :=
  masked (if negb (len =? 0) then end_lines len adr (level_op CIVAC) else mret (Some tt)).
End Alt.

(** * Instruction cache *)

(* @src linux/drivers/arm64/xil_cache.c 796-808 Xil_ICacheInvalidate *)
Definition Xil_ICacheInvalidate : io cpu unit :=
  masked (_ ← mtcp_CSSELR 0x1; _ ← issue DSB; _ ← issue IC_IALLU; issue DSB).

(* @src linux/drivers/arm64/xil_cache.c 721-748 Xil_ICacheEnable *)
Definition Xil_ICacheEnable : io cpu unit :=
  r ← mfcp_SCTLR;
  let CtrlReg := u32 r in
  if Z.land CtrlReg XREG_CONTROL_ICACHE_BIT =? 0 then
    _ ← Xil_ICacheInvalidate;
    mtcp_SCTLR (Z.lor CtrlReg XREG_CONTROL_ICACHE_BIT)
  else mret tt.

(* @src linux/drivers/arm64/xil_cache.c 761-783 Xil_ICacheDisable *)
Definition Xil_ICacheDisable : io cpu unit :=
  r ← mfcp_SCTLR;
  let CtrlReg := u32 r in
  _ ← Xil_ICacheInvalidate;
  mtcp_SCTLR (Z.land CtrlReg (not32 XREG_CONTROL_ICACHE_BIT)).

(* @src linux/drivers/arm64/xil_cache.c 823-835 Xil_ICacheInvalidateLine *)
Definition Xil_ICacheInvalidateLine (adr : Z) : io cpu unit :=
  masked (_ ← mtcp_CSSELR 0x1; _ ← issue (IC_IVAU (line_of adr)); issue DSB).

(** The loop counts with [tempadr] and issues the line of [adr]. *)
(* @src linux/drivers/arm64/xil_cache.c 852-879 Xil_ICacheInvalidateRange *)
Definition Xil_ICacheInvalidateRange (adr len : Z) : io cpu (option unit) :=
  masked
    (r ← (if negb (len =? 0) then
            let tempend := u64 (adr + len) in
            let tempadr := Z.land adr (Z.lnot (cacheline - 1)) in
            _ ← mtcp_CSSELR 0x1;
            range_loop (range_fuel tempadr tempend) (fun _ => issue (IC_IVAU (line_of adr))) tempadr tempend
          else mret (Some tt));
     _ ← issue DSB;
     mret r).

(* @src linux/drivers/arm64/xil_cache.c 894-903 Xil_ConfigureL1Prefetch *)
Definition Xil_ConfigureL1Prefetch (num : Z) : io cpu unit :=
  val ← gets prefetch;
  mtcp_prefetch (Z.lor (Z.land val (Z.lnot 0xE000)) (Z.shiftl (u8 num) 13)).
