(* ===== verification/CacheProofs.v ===== *)
(** What the cache maintenance operations execute: whole-cache operations
    visit every line of both levels once, range operations clean exactly the
    lines the range touches, all of it with interrupts masked. *)
From S2P Require Import Prelude Device Cache.
Open Scope Z_scope.

(** * Logs *)

(** [c] after executing [os] with its current interrupt mask. *)
Definition ran (c : cpu) (os : list op) : cpu :=
  {| daif := daif c; sctlr := sctlr c; csselr := csselr c; ccsidr := ccsidr c; prefetch := prefetch c;
     log := log c ++ map (pair (daif c)) os |}.

Lemma ran_nil c : ran c [] = c.
Proof. unfold ran. rewrite app_nil_r. by destruct c. Qed.

Lemma ran_app c os os' : ran (ran c os) os' = ran c (os ++ os').
Proof. unfold ran. simpl. by rewrite map_app, app_assoc. Qed.

Lemma issue_ran o c : issue o c = (tt, ran c [o]).
Proof. done. Qed.

(** * Set and way operations *)

(** The way, set and level an operand of a set/way operation names in a
    cache of [2^k] ways and [2^L]-byte lines. *)
Definition decode (k L v : Z) : Z * Z * Z :=
  (v / 2 ^ (32 - k), (v / 2 ^ L) mod 2 ^ (32 - k - L), (v / 2) mod 8).

(** Every line of a level, way by way. *)
Definition all_of (ways sets level : Z) : list (Z * Z * Z) :=
  w ← seqZ 0 ways; s ← seqZ 0 sets; [(w, s, level)].

(** A geometry whose fields fit the operand: [2^k] ways, sets below the way
    field. *)
Definition wf_geometry (r k : Z) : Prop :=
  1 <= k /\ NumWays r = 2 ^ k /\ NumSet r <= 2 ^ (32 - k - LineSize r).

Lemma NumWays_range r : 1 <= NumWays r <= 1024.
Proof.
  unfold NumWays. change 0x1FFF with (Z.ones 13). rewrite (Z.land_ones r 13) by lia. rewrite Z.shiftr_div_pow2 by lia.
  pose proof (Z.mod_pos_bound r (2 ^ 13) ltac:(lia)). div_lia.
Qed.

Lemma NumSet_range r : 1 <= NumSet r <= 32768.
Proof.
  unfold NumSet. change 0x7FFF with (Z.ones 15). rewrite (Z.land_ones _ 15) by lia.
  pose proof (Z.mod_pos_bound (Z.shiftr r 13) (2 ^ 15) ltac:(lia)). lia.
Qed.

Lemma LineSize_range r : 4 <= LineSize r <= 11.
Proof.
  unfold LineSize. change 0x7 with (Z.ones 3). rewrite (Z.land_ones _ 3) by lia.
  pose proof (Z.mod_pos_bound r (2 ^ 3) ltac:(lia)). lia.
Qed.

(** For a power of two, the way field starts where the code puts it. *)
Lemma WayAdjust_pow2 r k : 1 <= k -> NumWays r = 2 ^ k -> k <= 10 /\ WayAdjust r = 32 - k.
Proof.
  intros Hk Hw. pose proof (NumWays_range r) as Hr.
  assert (Hk10 : k <= 10).
  { destruct (Z.le_gt_cases k 10); [done|]. pose proof (Z.pow_le_mono_r 2 11 k). lia. }
  split; [done|]. unfold WayAdjust, clz. destruct (Z.eqb_spec (NumWays r) 0); [lia|].
  rewrite Hw, Z.log2_pow2 by lia. rewrite wrap_id; [lia|]. unfold in_word. lia.
Qed.

Lemma seqZ_S m n : seqZ m (Z.of_nat (S n)) = m :: seqZ (m + 1) (Z.of_nat n).
Proof. rewrite seqZ_cons by lia. do 2 f_equal; lia. Qed.

Lemma set_loop_run n ins W S_ lev sz c :
  0 <= sz < 32 -> in_word 32 S_ ->
  set_loop n ins W S_ lev sz c
  = (tt, ran c (map (fun j => DC ins (Z.lor (Z.lor W (u32 (S_ + j * 2 ^ sz))) lev)) (seqZ 0 (Z.of_nat n)))).
Proof.
  intros Hsz. revert S_ c. induction n as [|n IH]; intros S_ c HS; [by rewrite ran_nil|].
  cbn [set_loop]. erewrite bind_run by apply issue_ran. rewrite IH by (apply wrap_range; lia).
  rewrite ran_app. do 2 f_equal. rewrite seqZ_S. simpl. f_equal; [|].
  - rewrite Z.mul_0_l, Z.add_0_r, (wrap_id _ S_) by done. done.
  - rewrite <- (fmap_add_seqZ 1 0). change (fmap ?f) with (map f). rewrite map_map.
    apply map_ext. intros j. do 3 f_equal.
    rewrite Z.shiftl_mul_pow2, Z.mul_1_l by lia. unfold wrap.
    rewrite Z.add_mod_idemp_r, Z.add_mod_idemp_l by lia. f_equal. lia.
Qed.

Lemma way_loop_run n ins W lev sz sets adj c :
  0 <= sz < 32 -> 0 <= adj < 32 -> 0 <= sets -> in_word 32 W ->
  way_loop n ins W lev sz sets adj c
  = (tt, ran c (i ← seqZ 0 (Z.of_nat n); j ← seqZ 0 sets;
                [DC ins (Z.lor (Z.lor (u32 (W + i * 2 ^ adj)) (u32 (j * 2 ^ sz))) lev)])).
Proof.
  intros Hsz Hadj Hs. revert W c. induction n as [|n IH]; intros W c HW; [by rewrite ran_nil|].
  cbn [way_loop]. erewrite bind_run by (apply set_loop_run; [done|by vm_compute]).
  rewrite IH by (apply wrap_range; lia). rewrite ran_app. do 2 f_equal.
  rewrite seqZ_S, Z2Nat.id by done. simpl. f_equal.
  - rewrite Z.add_0_r, (wrap_id _ W) by done. generalize (seqZ 0 sets). intros l.
    induction l as [|j l IHl]; [done|]. by apply (f_equal (cons _)), IHl.
  - rewrite <- (fmap_add_seqZ 1 0), list_fmap_bind. apply list_bind_ext; [|done]. intros i. simpl.
    apply list_bind_ext; [|done]. intros j. do 4 f_equal.
    rewrite Z.shiftl_mul_pow2, Z.mul_1_l by lia. unfold wrap.
    rewrite Z.add_mod_idemp_r, Z.add_mod_idemp_l by lia. f_equal. lia.
Qed.

(** The operand the loops build names the line they count. *)
Lemma decode_operand k L w s lev :
  1 <= k -> 4 <= L -> 0 <= 32 - k - L -> 0 <= w < 2 ^ k -> 0 <= s < 2 ^ (32 - k - L) -> lev = 0 \/ lev = 1 ->
  decode k L (Z.lor (Z.lor (u32 (0 + w * 2 ^ (32 - k))) (u32 (s * 2 ^ L))) (2 * lev)) = (w, s, lev).
Proof.
  intros Hk HL Hn Hw Hs Hlev. change (in_word k w) in Hw. change (in_word (32 - k - L) s) in Hs.
  assert (Hl : in_word 4 (2 * lev)) by (unfold in_word; lia).
  rewrite Z.add_0_l, <- !Z.shiftl_mul_pow2 by lia.
  rewrite (wrap_id _ (Z.shiftl w _))
    by (apply (in_word_weaken (k + (32 - k))); [lia|apply in_word_shiftl; [lia..|done]]).
  rewrite (wrap_id _ (Z.shiftl s _))
    by (apply (in_word_weaken (32 - k - L + L)); [lia|apply in_word_shiftl; [lia..|done]]).
  unfold decode. rewrite <- !Z.land_ones by lia. change 8 with (2 ^ 3). rewrite <- (Z.land_ones _ 3) by lia.
  change (?x / 2) with (x / 2 ^ 1). rewrite <- !Z.shiftr_div_pow2 by lia.
  set (v := 2 * lev) in *.
  assert (Hv : lev = Z.shiftr v 1) by (subst v; destruct Hlev as [->| ->]; done).
  clearbody v. rewrite Hv. f_equal; [f_equal|]; Zbits.
Qed.

Lemma fmap_bind {A B C} (f : B -> C) (g : A -> list B) (l : list A) :
  f <$> (x ← l; g x) = x ← l; f <$> g x.
Proof. induction l; csimpl; [done|]. rewrite fmap_app. by f_equal. Qed.

Lemma bind_ext_in {A B} (f g : A -> list B) (l : list A) :
  (forall x, x ∈ l -> f x = g x) -> (x ← l; f x) = x ← l; g x.
Proof.
  induction l as [|x l IH]; intros H; [done|]. csimpl. rewrite (H x) by constructor.
  f_equal. apply IH. intros y ?. apply H. by constructor.
Qed.

(** The addresses one level's loops issue, in order, name each of its lines
    once. *)
Lemma all_lines_run ins r k lev c :
  wf_geometry r k -> lev = 0 \/ lev = 1 -> u32 (ccsidr c (2 * lev)) = r ->
  exists vs,
    all_lines ins (2 * lev) c
    = (tt, ran {| daif := daif c; sctlr := sctlr c; csselr := 2 * lev; ccsidr := ccsidr c;
                  prefetch := prefetch c; log := log c |} (ISB :: map (DC ins) vs ++ [DSB]))
    /\ decode k (LineSize r) <$> vs = all_of (NumWays r) (NumSet r) lev.
Proof.
  intros (Hk & Hw & Hs) Hlev Hr. destruct (WayAdjust_pow2 r k Hk Hw) as [Hk10 Hadj].
  pose proof (LineSize_range r) as HL. pose proof (NumSet_range r). pose proof (NumWays_range r).
  exists (i ← seqZ 0 (NumWays r); j ← seqZ 0 (NumSet r);
     [Z.lor (Z.lor (u32 (0 + i * 2 ^ (32 - k))) (u32 (j * 2 ^ LineSize r))) (2 * lev)]). split.
  - unfold all_lines. erewrite bind_run by done. erewrite bind_run by apply issue_ran.
    erewrite bind_run by done. cbn [ran csselr ccsidr]. rewrite Hr.
    erewrite bind_run by (apply way_loop_run; [lia|rewrite Hadj; lia|lia|by vm_compute]).
    rewrite issue_ran, !ran_app, Hadj, Z2Nat.id by lia. do 2 f_equal. simpl. f_equal. f_equal.
    change (map ?f) with (fmap f : list _ -> list _). rewrite !fmap_bind. apply list_bind_ext; [|done]. intros i. by rewrite fmap_bind.
  - rewrite fmap_bind. apply bind_ext_in. intros i Hi%elem_of_seqZ. rewrite fmap_bind.
    apply bind_ext_in. intros j Hj%elem_of_seqZ. simpl. f_equal.
    assert (0 <= 32 - k - LineSize r) by (destruct (Z.neg_nonneg_cases (32 - k - LineSize r)); [rewrite Z.pow_neg_r in Hs|]; lia).
    apply decode_operand; lia.
Qed.

(** * Masking *)

Definition with_daif (v : Z) (c : cpu) : cpu :=
  {| daif := v; sctlr := sctlr c; csselr := csselr c; ccsidr := ccsidr c; prefetch := prefetch c; log := log c |}.

(** The mask a body runs under. *)
Definition mask_of (c : cpu) : Z := Z.lor (u32 (daif c)) IRQ_FIQ_MASK.

Lemma masked_run {A} (body : io cpu A) c a c' :
  body (with_daif (mask_of c) c) = (a, c') -> masked body c = (a, with_daif (u32 (daif c)) c').
Proof. intros H. unfold masked, mask_of in *. unfold mbind, io_bind, mfcpsr, gets, mtcpsr, modify. fold (with_daif (Z.lor (u32 (daif c)) IRQ_FIQ_MASK) c). by rewrite H. Qed.

(** A whole-cache operation, masked: what it logs. *)
Lemma both_levels_log ins c k1 k2 :
  wf_geometry (u32 (ccsidr c 0)) k1 -> wf_geometry (u32 (ccsidr c 2)) k2 ->
  exists v1 v2,
    masked (both_levels ins) c
    = (tt, with_daif (u32 (daif c)) (ran (with_daif (mask_of c)
             {| daif := daif c; sctlr := sctlr c; csselr := 2; ccsidr := ccsidr c; prefetch := prefetch c; log := log c |})
             (ISB :: map (DC ins) v1 ++ DSB :: ISB :: map (DC ins) v2 ++ [DSB])))
    /\ decode k1 (LineSize (u32 (ccsidr c 0))) <$> v1 = all_of (NumWays (u32 (ccsidr c 0))) (NumSet (u32 (ccsidr c 0))) 0
    /\ decode k2 (LineSize (u32 (ccsidr c 2))) <$> v2 = all_of (NumWays (u32 (ccsidr c 2))) (NumSet (u32 (ccsidr c 2))) 1.
Proof.
  intros H1 H2.
  destruct (all_lines_run ins _ k1 0 (with_daif (mask_of c) c) H1 ltac:(by left) eq_refl) as (v1 & R1 & D1).
  match type of R1 with _ = (_, ?c1) =>
    destruct (all_lines_run ins _ k2 1 c1 H2 ltac:(by right) eq_refl) as (v2 & R2 & D2) end.
  exists v1, v2. split; [|done]. apply masked_run. unfold both_levels.
  erewrite bind_run by exact R1. change (0 + u32 (Z.shiftl 1 1)) with (2 * 1). rewrite R2.
  unfold ran, with_daif. cbn [daif sctlr csselr ccsidr prefetch log]. do 2 f_equal.
  rewrite <- app_assoc, <- map_app. by simpl; rewrite <- app_assoc.
Qed.

(** [Xil_DCacheFlush], on caches whose associativity is a power of two
    and whose set field stays below the way field: with IRQ and FIQ masked,
    the clean-and-invalidate operations of level 1 name each (way, set) of
    that level exactly once, in order, then a barrier, then the same for
    level 2, and the interrupt mask is the caller's again at the end. *)
Theorem dcache_flush_every_line c k1 k2 :
  wf_geometry (u32 (ccsidr c 0)) k1 -> wf_geometry (u32 (ccsidr c 2)) k2 ->
  exists v1 v2,
    log (exec Xil_DCacheFlush c)
    = log c ++ map (pair (mask_of c)) (ISB :: map (DC CISW) v1 ++ DSB :: ISB :: map (DC CISW) v2 ++ [DSB])
    /\ decode k1 (LineSize (u32 (ccsidr c 0))) <$> v1 = all_of (NumWays (u32 (ccsidr c 0))) (NumSet (u32 (ccsidr c 0))) 0
    /\ decode k2 (LineSize (u32 (ccsidr c 2))) <$> v2 = all_of (NumWays (u32 (ccsidr c 2))) (NumSet (u32 (ccsidr c 2))) 1
    /\ daif (exec Xil_DCacheFlush c) = u32 (daif c).
Proof.
  intros H1 H2. destruct (both_levels_log CISW c k1 k2 H1 H2) as (v1 & v2 & R & D1 & D2).
  exists v1, v2. unfold exec, Xil_DCacheFlush. rewrite R. done.
Qed.

(** The caches of a Cortex-A53: 32 KB 4-way and 1 MB 16-way, 64-byte lines. *)
Definition a53 : cpu :=
  {| daif := 0; sctlr := 0x1004; csselr := 0;
     ccsidr l := if l =? 2 then 0x7FE07A else 0xFE01A; prefetch := 0; log := [] |}.

Lemma a53_geometry : wf_geometry (u32 (ccsidr a53 0)) 2 /\ wf_geometry (u32 (ccsidr a53 2)) 4.
Proof. unfold wf_geometry. by vm_compute. Qed.

Lemma dcache_flush_every_line_witness :
  wf_geometry (u32 (ccsidr a53 0)) 2 /\ daif (exec Xil_DCacheFlush a53) = 0.
Proof.
  split; [apply a53_geometry|].
  destruct (dcache_flush_every_line a53 2 4 (proj1 a53_geometry) (proj2 a53_geometry)) as (v1 & v2 & H).
  apply H.
Defined.

(** [Xil_DCacheEnable] on a disabled cache: both levels are invalidated
    line by line before the enable bit is written, and nothing else of the
    control register changes; on an enabled cache it does nothing. *)
Theorem dcache_enable_correct c k1 k2 :
  wf_geometry (u32 (ccsidr c 0)) k1 -> wf_geometry (u32 (ccsidr c 2)) k2 ->
  if Z.testbit (u32 (sctlr c)) 2 then exec Xil_DCacheEnable c = c
  else sctlr (exec Xil_DCacheEnable c) = Z.setbit (u32 (sctlr c)) 2
       /\ exists v1 v2,
            log (exec Xil_DCacheEnable c)
            = log c ++ map (pair (mask_of c)) (ISB :: map (DC ISW) v1 ++ DSB :: ISB :: map (DC ISW) v2 ++ [DSB])
            /\ decode k1 (LineSize (u32 (ccsidr c 0))) <$> v1 = all_of (NumWays (u32 (ccsidr c 0))) (NumSet (u32 (ccsidr c 0))) 0
            /\ decode k2 (LineSize (u32 (ccsidr c 2))) <$> v2 = all_of (NumWays (u32 (ccsidr c 2))) (NumSet (u32 (ccsidr c 2))) 1.
Proof.
  intros H1 H2. destruct (both_levels_log ISW c k1 k2 H1 H2) as (v1 & v2 & R & D1 & D2).
  assert (Hb : (Z.land (u32 (sctlr c)) XREG_CONTROL_DCACHE_BIT =? 0) = negb (Z.testbit (u32 (sctlr c)) 2)).
  { change XREG_CONTROL_DCACHE_BIT with (2 ^ 2). generalize (u32 (sctlr c)). intros x.
    rewrite Z.land_comm. destruct (Z.testbit x 2) eqn:E; simpl.
    - apply Z.eqb_neq. intros H0. apply (f_equal (fun y => Z.testbit y 2)) in H0.
      rewrite Z.land_spec, E, Z.bits_0 in H0. done.
    - apply Z.eqb_eq. apply Z.bits_inj'. intros i Hi. rewrite Z.land_spec, Z.bits_0, Z.pow2_bits_eqb by lia.
      destruct (Z.eqb_spec 2 i) as [<-|]; [by rewrite E|done]. }
  unfold exec, Xil_DCacheEnable. erewrite !bind_run by done. cbn beta zeta. rewrite Hb.
  destruct (Z.testbit (u32 (sctlr c)) 2); cbn [negb]; [done|].
  erewrite bind_run by exact R. cbn [snd mtcp_SCTLR modify sctlr log]. split; [done|].
  exists v1, v2. done.
Qed.

Lemma dcache_enable_correct_witness :
  let c := exec (mtcp_SCTLR 0x1000) a53 in sctlr (exec Xil_DCacheEnable c) = 0x1004.
Proof.
  intros c. exact (proj1 (dcache_enable_correct c 2 4 (proj1 a53_geometry) (proj2 a53_geometry))).
Defined.

(** * Ranges *)

(** Lines between a line address and an end address. *)
Definition span (adr end_ : Z) : Z := (end_ - adr + 63) / 64.

(** The loop runs its body at every line from [adr] to [end_], and the fuel
    the operations give it is enough. *)
Lemma range_loop_run body ops adr end_ c :
  (forall a c, body a c = (tt, ran c (ops a))) -> 0 <= adr -> end_ <= 2 ^ 64 - 64 ->
  range_loop (range_fuel adr end_) body adr end_ c
  = (Some tt, ran c (i ← seqZ 0 (span adr end_); ops (adr + 64 * i))).
Proof.
  intros Hb Hadr Hend. unfold range_fuel. fold (span adr end_).
  assert (G : forall n adr c, 0 <= adr -> span adr end_ <= Z.of_nat n ->
    range_loop (S n) body adr end_ c = (Some tt, ran c (i ← seqZ 0 (span adr end_); ops (adr + 64 * i)))).
  { clear adr Hadr c. intros n. induction n as [|n IH]; intros adr c Hadr Hn; cbn [range_loop].
    - destruct (Z.ltb_spec adr end_) as [Hlt|Hge].
      + exfalso. unfold span in Hn. div_lia.
      + rewrite seqZ_nil by lia. by rewrite ran_nil.
    - destruct (Z.ltb_spec adr end_) as [Hlt|Hge].
      + erewrite bind_run by apply Hb.
        rewrite (wrap_id 64 (adr + cacheline)) by (unfold in_word, cacheline; lia).
        assert (Hs : span adr end_ = 1 + span (adr + cacheline) end_) by (unfold span, cacheline; div_lia).
        assert (0 <= span (adr + cacheline) end_) by (unfold span, cacheline; div_lia).
        change (range_loop (S n) body (adr + cacheline) end_ (ran c (ops adr)) = (Some tt, ran c (i ← seqZ 0 (span adr end_); ops (adr + 64 * i)))).
        rewrite IH by (unfold cacheline in *; lia). rewrite ran_app. do 2 f_equal.
        rewrite Hs, (seqZ_cons 0 (1 + _)) by lia. csimpl. f_equal; [f_equal; lia|].
        replace (Z.pred (1 + span (adr + cacheline) end_)) with (span (adr + cacheline) end_) by lia.
        change (Z.succ 0) with (0 + 1). rewrite Z.add_comm, <- (fmap_add_seqZ 1 0), list_fmap_bind.
        apply list_bind_ext; [|done]. intros i. simpl. f_equal. unfold cacheline. lia.
      + assert (span adr end_ <= 0) by (unfold span; div_lia). rewrite seqZ_nil by lia. by rewrite ran_nil. }
  apply G; [done|]. unfold span. lia.
Qed.

Lemma line_of_div adr : line_of adr = 64 * (adr / 64).
Proof.
  unfold line_of. rewrite <- Z.ldiff_land. change 0x3F with (Z.ones 6).
  rewrite Z.ldiff_ones_r by lia. rewrite Z.shiftr_div_pow2, Z.shiftl_mul_pow2 by lia. change (2 ^ 6) with 64. lia.
Qed.

(** The lines that hold a byte of [adr, adr+len), in order. *)
Definition lines_of (adr len : Z) : list Z :=
  (fun i => line_of adr + 64 * i) <$> seqZ 0 (span (line_of adr) (adr + len)).

Lemma lines_of_spec adr len a :
  0 < len -> a ∈ lines_of adr len <-> exists x, adr <= x < adr + len /\ a = line_of x.
Proof.
  intros Hlen. unfold lines_of, span. rewrite list_elem_of_fmap. setoid_rewrite elem_of_seqZ.
  setoid_rewrite line_of_div. split.
  - intros (i & -> & Hi). exists (Z.max adr (64 * (adr / 64) + 64 * i)). div_lia.
  - intros (x & Hx & ->). exists (x / 64 - adr / 64). div_lia.
Qed.

Lemma lines_of_NoDup adr len : NoDup (lines_of adr len).
Proof. apply NoDup_fmap; [intros i j; lia|apply NoDup_seqZ]. Qed.

(** [Xil_DCacheInvalidateRange] (and its alias [Xil_DCacheFlushRange])
    of a range that ends at least a line below 2^64
    returns, and with interrupts masked cleans and invalidates each line that
    holds a byte of the range exactly once and no other line, then waits for
    completion; the caller's interrupt mask is restored. *)
Theorem dcache_range_correct adr len c :
  0 <= adr -> 0 < len -> adr + len <= 2 ^ 64 - 64 ->
  exists lines c',
    Xil_DCacheFlushRange adr len c = (Some tt, c')
    /\ log c' = log c ++ map (pair (mask_of c)) (map (DC CIVAC) lines ++ [DSB])
    /\ NoDup lines
    /\ (forall a, a ∈ lines <-> exists x, adr <= x < adr + len /\ a = line_of x)
    /\ daif c' = u32 (daif c).
Proof.
  intros Hadr Hlen Hend. exists (lines_of adr len). eexists. split.
  - unfold Xil_DCacheFlushRange, Xil_DCacheInvalidateRange. apply masked_run.
    destruct (Z.eqb_spec len 0); [lia|]. cbn [negb]. rewrite (wrap_id 64) by (unfold in_word; lia).
    erewrite bind_run
      by (apply (range_loop_run _ (fun a => [DC CIVAC a])); [done|rewrite line_of_div; div_lia|lia]).
    erewrite bind_run by apply issue_ran. rewrite ran_app. done.
  - cbn [with_daif ran log daif]. split_and!; [|apply lines_of_NoDup|intros; by apply lines_of_spec|done].
    do 4 f_equal. unfold lines_of. generalize (seqZ 0 (span (line_of adr) (adr + len))).
    intros l. induction l as [|i l IH]; [done|]. csimpl. by f_equal.
Qed.

Lemma dcache_range_correct_witness :
  0 <= 0x1030 /\ 0 < 100 /\ exists c', Xil_DCacheFlushRange 0x1030 100 a53 = (Some tt, c') /\ daif c' = 0.
Proof.
  split; [done|]. split; [done|]. destruct (dcache_range_correct 0x1030 100 a53 ltac:(done) ltac:(done) ltac:(done)) as (l & c' & H & _ & _ & _ & Hd).
  exists c'. by split.
Defined.

(** [Xil_ICacheInvalidateRange] executes one operation per line of the
    range, but every one of them on the line of the first address: no other
    line of the range is invalidated. *)
Theorem icache_range_first_line adr len c :
  0 <= adr -> 0 < len -> adr + len <= 2 ^ 64 - 64 ->
  let c' := exec (Xil_ICacheInvalidateRange adr len) c in
  log c' = log c ++ map (pair (mask_of c)) (replicate (length (lines_of adr len)) (IC_IVAU (line_of adr)) ++ [DSB])
  /\ forall x m, adr <= x < adr + len -> line_of x <> line_of adr -> (m, IC_IVAU (line_of x)) ∉ drop (length (log c)) (log c').
Proof.
  intros Hadr Hlen Hend.
  assert (E : log (exec (Xil_ICacheInvalidateRange adr len) c)
    = log c ++ map (pair (mask_of c)) (replicate (length (lines_of adr len)) (IC_IVAU (line_of adr)) ++ [DSB])).
  { unfold exec, Xil_ICacheInvalidateRange. erewrite masked_run.
    2:{ destruct (Z.eqb_spec len 0); [lia|]. cbn [negb]. rewrite (wrap_id 64) by (unfold in_word; lia).
        erewrite bind_run.
        2:{ erewrite bind_run by done. apply (range_loop_run _ (fun _ => [IC_IVAU (line_of adr)]));
          [done|change (0 <= line_of adr); rewrite line_of_div; div_lia|lia]. }
        erewrite bind_run by apply issue_ran. rewrite ran_app. done. }
    cbn [snd with_daif ran log]. do 4 f_equal. unfold lines_of. rewrite length_fmap.
    change (Z.land adr (Z.lnot (cacheline - 1))) with (line_of adr).
    generalize (seqZ 0 (span (line_of adr) (adr + len))). intros l. induction l as [|i l IH]; [done|]. csimpl. by f_equal. }
  intros c'. split; [done|]. intros x m Hx Hne Hin. unfold c' in Hin. rewrite E, drop_app_length in Hin.
  change (map ?f) with (fmap f : list _ -> list _) in Hin. apply list_elem_of_fmap in Hin as (o & [= -> <-] & [Hin|Hin]%elem_of_app).
  - apply elem_of_replicate in Hin as [Hin _]. by injection Hin.
  - by apply list_elem_of_singleton in Hin.
Qed.

Lemma icache_range_first_line_witness :
  0 <= 0x1000 /\ 0 < 128 /\ forall m, (m, IC_IVAU 0x1040) ∉ log (exec (Xil_ICacheInvalidateRange 0x1000 128) a53).
Proof.
  split; [done|]. split; [done|]. intros m.
  exact (proj2 (icache_range_first_line 0x1000 128 a53 ltac:(done) ltac:(done) ltac:(done)) 0x1040 m ltac:(lia) ltac:(vm_compute; congruence)).
Defined.

(** a range that ends in the last 63 bytes of the address space never
    finishes: the address wraps to 0 below the end, with any amount of fuel. *)
Theorem dcache_range_wraps body adr end_ fuel c :
  2 ^ 64 - 64 < end_ -> in_word 64 adr ->
  run (range_loop fuel body (line_of adr) end_) c = None.
Proof.
  intros He Ha. rewrite line_of_div. assert (Hq : 0 <= adr / 64 < 2 ^ 58) by (unfold in_word in Ha; div_lia).
  revert Hq. generalize (adr / 64). intros q Hq. clear adr Ha. revert q Hq c.
  induction fuel as [|fuel IH]; intros q Hq c; [done|]. cbn [range_loop].
  destruct (Z.ltb_spec (64 * q) end_); [|lia]. unfold run, mbind, io_bind. destruct (body (64 * q) c) as [[] c'].
  assert (E : u64 (64 * q + cacheline) = 64 * ((q + 1) mod 2 ^ 58)).
  { unfold wrap, cacheline. replace (64 * q + 64) with (64 * (q + 1)) by lia. change (2 ^ 64) with (64 * 2 ^ 58).
    by rewrite Z.mul_mod_distr_l by lia. }
  rewrite E. apply IH. by apply Z.mod_pos_bound.
Qed.

Lemma dcache_range_wraps_witness :
  2 ^ 64 - 64 < 2 ^ 64 - 1 /\ run (range_loop 9 (fun a => issue (DC CIVAC a)) (line_of (2 ^ 64 - 100)) (2 ^ 64 - 1)) a53 = None.
Proof. split; [done|]. apply dcache_range_wraps; [done|]. split; [done|]. by vm_compute. Defined.
