(* ===== verification/HostCache.v ===== *)
(** Cache management around an accelerator (shared/cache.h): what the macros
    of a program call on the host, and why a program that uses them sees what
    the accelerator wrote and the accelerator what the program wrote.

    The accelerator works on memory behind the caches of the processor.  The
    operations are those of Cache.v; what the instructions they execute do to
    the contents of the caches is [sys_op], as the ARM architecture documents
    them. *)
From S2P Require Import Prelude Device Cache CacheProofs.
Open Scope Z_scope.

(** * The calls *)

(** Operations of the Xilinx library a build links. *)
Record xil (S : Type) := {
  DCacheFlush : io S unit;
  DCacheFlushRange : Z -> Z -> io S (option unit);
  DCacheInvalidate : io S unit;
  DCacheInvalidateRange : Z -> Z -> io S (option unit);
  L1DCacheFlushRange : Z -> Z -> io S (option unit);
  L1DCacheInvalidateRange : Z -> Z -> io S (option unit)
}.
Arguments DCacheFlush {S}. Arguments DCacheFlushRange {S}. Arguments DCacheInvalidate {S}.
Arguments DCacheInvalidateRange {S}. Arguments L1DCacheFlushRange {S}. Arguments L1DCacheInvalidateRange {S}.

(** The processor: [A64] and [A32] with [ZYNQ]; elsewhere the calls are empty
    or only take simulated time. *)
Inductive platform := A64 | A32 | OTHER.

Module host.
Section Host.
Context {S : Type} (plat : platform) (x : xil S).

Definition nothing : io S (option unit) := mret (Some tt).
Definition whole (m : io S unit) : io S (option unit) := _ ← m; mret (Some tt).

(* @src shared/cache.h 126-126 IS_SP *)
Definition IS_SP (ptr : Z) : bool := (0x40000000 <=? ptr) && (ptr <? 0x40200000).

(* @src shared/cache.h 116-127 cache_flush(void) *)
Definition cache_flush : io S (option unit) :=
  match plat with A64 | A32 => whole (DCacheFlush x) | OTHER => nothing end.
(* @src shared/cache.h 128-132 cache_flush(ptr, size) *)
Definition cache_flush_range (ptr size : Z) : io S (option unit) :=
  match plat with
  | A64 => DCacheFlushRange x ptr size
  | A32 => if IS_SP ptr then L1DCacheFlushRange x ptr size else DCacheFlushRange x ptr size
  | OTHER => nothing
  end.
(* @src shared/cache.h 133-133 cache_flush_invalidate(void) *)
Definition cache_flush_invalidate : io S (option unit) :=
  match plat with A64 | A32 => whole (DCacheFlush x) | OTHER => nothing end.
(* @src shared/cache.h 134-138 cache_flush_invalidate(ptr, size) *)
Definition cache_flush_invalidate_range (ptr size : Z) : io S (option unit) :=
  match plat with
  | A64 => DCacheFlushRange x ptr size
  | A32 => if IS_SP ptr then L1DCacheFlushRange x ptr size else DCacheFlushRange x ptr size
  | OTHER => nothing
  end.
(* @src shared/cache.h 139-139 cache_invalidate(void) *)
Definition cache_invalidate : io S (option unit) :=
  match plat with A64 | A32 => whole (DCacheInvalidate x) | OTHER => nothing end.
(* @src shared/cache.h 140-144 cache_invalidate(ptr, size) *)
Definition cache_invalidate_range (ptr size : Z) : io S (option unit) :=
  match plat with
  | A64 => DCacheInvalidateRange x ptr size
  | A32 => if IS_SP ptr then L1DCacheInvalidateRange x ptr size else DCacheInvalidateRange x ptr size
  | OTHER => nothing
  end.

(** The macros around a transfer. *)
Context (USE_STREAM : bool).

(* @src shared/cache.h 36-38 CACHE_SEND_ALL *)
Definition CACHE_SEND_ALL : io S (option unit) := if USE_STREAM then cache_flush else nothing.
(* @src shared/cache.h 39-39 CACHE_RECV_ALL *)
Definition CACHE_RECV_ALL : io S (option unit) := if USE_STREAM then cache_flush_invalidate else nothing.
(* @src shared/cache.h 40-40 CACHE_SEND *)
Definition CACHE_SEND (p n : Z) : io S (option unit) := if USE_STREAM then cache_flush_range p n else nothing.
(* @src shared/cache.h 41-41 CACHE_RECV *)
Definition CACHE_RECV (p n : Z) : io S (option unit) := if USE_STREAM then cache_invalidate_range p n else nothing.

(** The macros between the phases of a program, with the cache operations of
    up to two accelerators that have caches of their own ([CLIENT]). *)
Record client := { a_cache_flush : io S unit; a_cache_invalidate : io S unit; a_cache_invalidate_range : Z -> Z -> io S unit }.
Context (CLIENT : bool).

(* @src shared/cache.h 23-30 CACHE_BARRIER *)
Definition CACHE_BARRIER (a : client) : io S (option unit) :=
  if CLIENT then _ ← a_cache_flush a; _ ← a_cache_invalidate a; cache_flush_invalidate else cache_flush_invalidate.
(* @src shared/cache.h 23-31 CACHE_DISPOSE *)
Definition CACHE_DISPOSE (a : client) (p n : Z) : io S (option unit) :=
  if CLIENT then _ ← a_cache_invalidate_range a p n; cache_invalidate_range p n else cache_invalidate_range p n.
(* @src shared/cache.h 23-32 CACHE_BARRIER2 *)
Definition CACHE_BARRIER2 (a b : client) : io S (option unit) :=
  if CLIENT then
    _ ← a_cache_flush a; _ ← a_cache_invalidate a; _ ← a_cache_flush b; _ ← a_cache_invalidate b; cache_flush_invalidate
  else cache_flush_invalidate.
(* @src shared/cache.h 23-33 CACHE_DISPOSE2 *)
Definition CACHE_DISPOSE2 (a b : client) (p n : Z) : io S (option unit) :=
  if CLIENT then _ ← a_cache_invalidate_range a p n; _ ← a_cache_invalidate_range b p n; cache_invalidate_range p n
  else cache_invalidate_range p n.
End Host.
End host.

(** On the Cortex-A53 the level 1 names are those of the whole cache. *)
(* @src shared/cache.h 54-58 Xil_L1DCacheFlush *)
Definition a53_xil : xil cpu := {|
  DCacheFlush := Xil_DCacheFlush;
  DCacheFlushRange := Xil_DCacheFlushRange;
  DCacheInvalidate := Xil_DCacheInvalidate;
  DCacheInvalidateRange := Xil_DCacheInvalidateRange;
  L1DCacheFlushRange := Xil_DCacheFlushRange;
  L1DCacheInvalidateRange := Xil_DCacheInvalidateRange
|}.

(** * Caches and memory *)

Section Memory.
Context {V : Type}.

(** A line of a cache: where it is (way and set), what it holds, and whether
    that is newer than the next level. *)
Record line := { place : Z * Z; content : V; dirty : bool }.

(** Two levels and the memory behind them, by the address of a line. *)
Record sys := { L1 : Z -> option line; L2 : Z -> option line; ram : Z -> V }.

(** What a load sees. *)
Definition view (s : sys) (a : Z) : V :=
  match L1 s a with
  | Some l => content l
  | None => match L2 s a with Some l => content l | None => ram s a end
  end.

(** What memory holds when everything newer has been written back. *)
Definition newest (o : option line) (v : V) : V := match o with Some l => if dirty l then content l else v | None => v end.
Definition settled (s : sys) (a : Z) : V := newest (L1 s a) (newest (L2 s a) (ram s a)).

(** Geometry: logarithm of the ways and of the line size of both levels; and
    where level 2 puts a line that level 1 casts out, or nowhere. *)
Record geometry := { k1 : Z; z1 : Z; k2 : Z; z2 : Z; victim : Z -> option (Z * Z) }.
Context (g : geometry).

(** Cleaning a line of level 1: into level 2 if it is there or allocated
    there, into memory otherwise. *)
Definition below (o1 o2 : option line) (q : option (Z * Z)) : option line :=
  match o1 with
  | Some l => if dirty l then match o2, q with
                              | Some l2, _ => Some {| place := place l2; content := content l; dirty := true |}
                              | None, Some q => Some {| place := q; content := content l; dirty := true |}
                              | None, None => None
                              end else o2
  | None => o2
  end.

(** A line leaves level 1, or level 2, cleaned. *)
Definition out1 (hit : Z -> line -> bool) (s : sys) : sys := {|
  L1 a := match L1 s a with Some l => if hit a l then None else Some l | None => None end;
  L2 a := match L1 s a with Some l => if hit a l then below (Some l) (L2 s a) (victim g a) else L2 s a | None => L2 s a end;
  ram a := match L1 s a with
           | Some l => if hit a l && dirty l then match L2 s a, victim g a with None, None => content l | _, _ => ram s a end else ram s a
           | None => ram s a
           end
|}.
Definition out2 (hit : Z -> line -> bool) (s : sys) : sys := {|
  L1 := L1 s;
  L2 a := match L2 s a with Some l => if hit a l then None else Some l | None => None end;
  ram a := match L2 s a with Some l => if hit a l && dirty l then content l else ram s a | None => ram s a end
|}.

Definition at_place (q : Z * Z) (_ : Z) (l : line) : bool := bool_decide (place l = q).

(** The instructions. *)
Definition sys_op (o : op) (s : sys) : sys :=
  match o with
  | DC CISW v =>
      let '(w, t, lev) := decode (k1 g) (z1 g) v in
      if lev =? 0 then out1 (at_place (w, t)) s
      else let '(w, t, _) := decode (k2 g) (z2 g) v in if lev =? 1 then out2 (at_place (w, t)) s else s
  | DC CIVAC b =>
      {| L1 a := if a =? b then None else L1 s a; L2 a := if a =? b then None else L2 s a;
         ram a := if a =? b then settled s a else ram s a |}
  | DC ISW v =>
      let '(w, t, lev) := decode (k1 g) (z1 g) v in
      if lev =? 0 then {| L1 a := match L1 s a with Some l => if at_place (w, t) a l then None else Some l | None => None end; L2 := L2 s; ram := ram s |}
      else let '(w, t, _) := decode (k2 g) (z2 g) v in
           if lev =? 1 then {| L1 := L1 s; L2 a := match L2 s a with Some l => if at_place (w, t) a l then None else Some l | None => None end; ram := ram s |}
           else s
  | DC IVAC b =>
      {| L1 a := if a =? b then None else L1 s a; L2 a := if a =? b then None else L2 s a; ram := ram s |}
  | _ => s
  end.

Definition sys_ops (os : list op) (s : sys) : sys := fold_left (fun s o => sys_op o s) os s.

(** The instructions a processor executed since an earlier state. *)
Definition executed (c c' : cpu) : list op := map snd (drop (length (log c)) (log c')).

(** A host operation, its effect on the caches: [None] if it does not end. *)
Definition doing (m : io cpu (option unit)) (c : cpu) (s : sys) : option (cpu * sys) :=
  match m c with
  | (Some _, c') => Some (c', sys_ops (executed c c') s)
  | (None, _) => None
  end.

(** * While the accelerator works *)

(** Loads, prefetches, stores and evictions of the processor at any time, and
    writes of the accelerator; [mine]: lines the program stores to, [theirs]:
    lines the accelerator writes. *)
Inductive step (ok1 ok2 : Z * Z -> Prop) (mine theirs : Z -> Prop) : sys -> sys -> Prop :=
  | s_load s a q :
      ok1 q -> L1 s a = None ->
      step ok1 ok2 mine theirs s
        {| L1 b := if b =? a then Some {| place := q; content := view s a; dirty := false |} else L1 s b; L2 := L2 s; ram := ram s |}
  | s_load2 s a q :
      ok2 q -> L1 s a = None -> L2 s a = None ->
      step ok1 ok2 mine theirs s
        {| L1 := L1 s; L2 b := if b =? a then Some {| place := q; content := ram s a; dirty := false |} else L2 s b; ram := ram s |}
  | s_store s a q v :
      ok1 q -> mine a ->
      step ok1 ok2 mine theirs s
        {| L1 b := if b =? a then Some {| place := q; content := v; dirty := true |} else L1 s b; L2 := L2 s; ram := ram s |}
  | s_evict1 s a : step ok1 ok2 mine theirs s (out1 (fun b _ => b =? a) s)
  | s_evict2 s a : step ok1 ok2 mine theirs s (out2 (fun b _ => b =? a) s)
  | s_device s a v :
      theirs a ->
      step ok1 ok2 mine theirs s {| L1 := L1 s; L2 := L2 s; ram b := if b =? a then v else ram s b |}.

(** * What the operations do *)

Lemma settled_out1 hit s a : settled (out1 hit s) a = settled s a.
Proof.
  unfold settled, out1, newest, below. simpl. destruct (L1 s a) as [[q v d]|]; [|done].
  destruct (hit a _), d, (L2 s a) as [[q2 v2 d2]|], (victim g a); done.
Qed.

Lemma settled_out2 hit s a : settled (out2 hit s) a = settled s a.
Proof.
  unfold settled, out2, newest. simpl. destruct (L2 s a) as [[q v d]|]; [|done]. by destruct (hit a _), d.
Qed.

(** Lines are where the geometry has places. *)
Definition placed (ok1 ok2 : Z * Z -> Prop) (s : sys) : Prop :=
  forall a l, (L1 s a = Some l -> ok1 (place l)) /\ (L2 s a = Some l -> ok2 (place l)).

Section Placed.
Context (ok1 ok2 : Z * Z -> Prop) (victim_ok : forall a q, victim g a = Some q -> ok2 q).

Lemma placed_out1 hit s : placed ok1 ok2 s -> placed ok1 ok2 (out1 hit s).
Proof using victim_ok.
  intros Hp a l. unfold out1, below. simpl. pose proof (Hp a) as Ha.
  destruct (L1 s a) as [l1|] eqn:E1; [destruct (hit a l1), (dirty l1)|]; split; intros E; try done; try (by apply Ha).
  - destruct (L2 s a) as [l2|] eqn:E2; [simplify_eq; simpl; by apply Ha|]. destruct (victim g a) eqn:Ev; simplify_eq. by eapply victim_ok.
Qed.

Lemma placed_out2 hit s : placed ok1 ok2 s -> placed ok1 ok2 (out2 hit s).
Proof.
  intros Hp a l. unfold out2. simpl. pose proof (Hp a) as Ha.
  split; [apply Ha|]. destruct (L2 s a) as [l2|]; [|done]. destruct (hit a l2); [done|]. intros [= <-]. by apply Ha.
Qed.

(** A run of set and way operations on level 1: no line stays where one of
    them went, and nothing newer is lost. *)
Lemma clean_level1 vs s :
  (forall v, v ∈ vs -> (decode (k1 g) (z1 g) v).2 = 0) -> placed ok1 ok2 s ->
  let s' := sys_ops (map (DC CISW) vs) s in
  placed ok1 ok2 s' /\ (forall a, settled s' a = settled s a) /\
  (forall a l, L1 s' a = Some l -> L1 s a = Some l /\ forall v, v ∈ vs -> (decode (k1 g) (z1 g) v).1 <> place l).
Proof using victim_ok.
  revert s. induction vs as [|v vs IH]; intros s Hv Hp; [simpl; split_and!; [done..|]; intros a l E; split; [done|]; by intros ? ?%elem_of_nil|].
  cbn [map sys_ops fold_left]. fold (sys_ops (map (DC CISW) vs) (sys_op (DC CISW v) s)).
  assert (E : sys_op (DC CISW v) s = out1 (at_place (decode (k1 g) (z1 g) v).1) s).
  { unfold sys_op. specialize (Hv v ltac:(constructor)). destruct (decode (k1 g) (z1 g) v) as [[w t] lev]. simpl in Hv. by rewrite Hv. }
  rewrite E. destruct (IH (out1 (at_place (decode (k1 g) (z1 g) v).1) s)) as (H1 & H2 & H3);
    [intros; apply Hv; by constructor|by apply placed_out1|]. split_and!; [done|intros a; by rewrite H2, settled_out1|].
  intros a l El. apply H3 in El as [El Hn]. simpl in El. destruct (L1 s a) as [l0|]; [|done].
  destruct (at_place _ a l0) eqn:Eh; [done|]. injection El as ->. split; [done|]. intros v' Hin. apply elem_of_cons in Hin as [->|Hin]; [|by apply Hn].
  unfold at_place in Eh. apply bool_decide_eq_false in Eh. intros Eq. by apply Eh.
Qed.

Lemma clean_level2 vs s :
  (forall v, v ∈ vs -> (decode (k2 g) (z2 g) v).2 = 1) -> placed ok1 ok2 s ->
  let s' := sys_ops (map (DC CISW) vs) s in
  L1 s' = L1 s /\ (forall a, settled s' a = settled s a) /\
  (forall a l, L2 s' a = Some l -> L2 s a = Some l /\ forall v, v ∈ vs -> (decode (k2 g) (z2 g) v).1 <> place l).
Proof.
  revert s. induction vs as [|v vs IH]; intros s Hv Hp; [simpl; split_and!; [done..|]; intros a l E; split; [done|]; by intros ? ?%elem_of_nil|].
  cbn [map sys_ops fold_left]. fold (sys_ops (map (DC CISW) vs) (sys_op (DC CISW v) s)).
  assert (E : sys_op (DC CISW v) s = out2 (at_place (decode (k2 g) (z2 g) v).1) s).
  { specialize (Hv v ltac:(constructor)). simpl in *. unfold decode in *. simpl in *. by rewrite Hv. }
  rewrite E. destruct (IH (out2 (at_place (decode (k2 g) (z2 g) v).1) s)) as (H1 & H2 & H3);
    [intros; apply Hv; by constructor|by apply placed_out2|]. split_and!; [done|intros a; by rewrite H2, settled_out2|].
  intros a l El. apply H3 in El as [El Hn]. simpl in El. destruct (L2 s a) as [l0|]; [|done].
  destruct (at_place _ a l0) eqn:Eh; [done|]. injection El as ->. split; [done|]. intros v' Hin. apply elem_of_cons in Hin as [->|Hin]; [|by apply Hn].
  unfold at_place in Eh. apply bool_decide_eq_false in Eh. intros Eq. by apply Eh.
Qed.
End Placed.

(** A run of operations by address. *)
Lemma clean_lines lines s :
  NoDup lines ->
  let s' := sys_ops (map (DC CIVAC) lines) s in
  forall a, (a ∈ lines -> L1 s' a = None /\ L2 s' a = None /\ ram s' a = settled s a) /\
            (a ∉ lines -> L1 s' a = L1 s a /\ L2 s' a = L2 s a /\ ram s' a = ram s a).
Proof.
  revert s. induction lines as [|b lines IH]; intros s Hn s' a; [split; [by intros ?%elem_of_nil|done]|].
  apply NoDup_cons in Hn as [Hb Hn]. destruct (IH (sys_op (DC CIVAC b) s) Hn a) as [H1 H2]. subst s'.
  cbn [map sys_ops fold_left]. change (fold_left _ (map (DC CIVAC) lines) (sys_op (DC CIVAC b) s)) with (sys_ops (map (DC CIVAC) lines) (sys_op (DC CIVAC b) s)).
  split.
  - intros Hin. destruct (decide (a = b)) as [->|Hne].
    + destruct (H2 Hb) as (-> & -> & ->). simpl. by rewrite Z.eqb_refl.
    + apply elem_of_cons in Hin as [?|Hin]; [done|]. destruct (H1 Hin) as (-> & -> & ->). split_and!; [done..|].
      unfold settled. simpl. by rewrite (proj2 (Z.eqb_neq a b)).
  - intros [Hne Hin]%not_elem_of_cons. destruct (H2 Hin) as (-> & -> & ->). simpl. by rewrite (proj2 (Z.eqb_neq a b)).
Qed.

(** * While the accelerator works: what stays true *)

(** A line neither side writes: memory and every copy have the value. *)
Definition frozen (v : V) (a : Z) (s : sys) : Prop :=
  ram s a = v /\ (forall l, L1 s a = Some l -> content l = v /\ dirty l = false) /\ (forall l, L2 s a = Some l -> content l = v /\ dirty l = false).
(** A line of the accelerator: no copy is newer than memory. *)
Definition handed (a : Z) (s : sys) : Prop :=
  (forall l, L1 s a = Some l -> dirty l = false) /\ (forall l, L2 s a = Some l -> dirty l = false).
(** A line of the program: copies that are not newer are the same as what is
    below. *)
Definition coherent (a : Z) (s : sys) : Prop :=
  (forall l, L2 s a = Some l -> dirty l = false -> content l = ram s a) /\
  (forall l, L1 s a = Some l -> dirty l = false -> content l = newest (L2 s a) (ram s a)).

Lemma coherent_view a s : coherent a s -> view s a = settled s a.
Proof.
  intros [H2 H1]. unfold view, settled, newest in *. destruct (L1 s a) as [[q v []]|]; [done|by apply (H1 _ eq_refl)|].
  destruct (L2 s a) as [[q v []]|]; [done|by apply (H2 _ eq_refl)|done].
Qed.

Lemma handed_settled a s : handed a s -> settled s a = ram s a.
Proof.
  intros [H1 H2]. unfold settled, newest. destruct (L1 s a) as [l1|]; [rewrite (H1 _ eq_refl)|]; destruct (L2 s a) as [l2|]; rewrite ?(H2 _ eq_refl); done.
Qed.

Section Steps.
Context (ok1 ok2 : Z * Z -> Prop) (mine theirs : Z -> Prop) (victim_ok : forall a q, victim g a = Some q -> ok2 q).
Context (apart : forall a, mine a -> theirs a -> False).
Abbreviation step := (step ok1 ok2 mine theirs).

Lemma frozen_step v a s s' : ~ mine a -> ~ theirs a -> step s s' -> frozen v a s -> frozen v a s'.
Proof.
  intros Hm Ht Hs (Hr & H1 & H2).
  assert (Hv : view s a = v).
  { unfold view. destruct (L1 s a) as [l|]; [by apply H1|]. destruct (L2 s a) as [l|]; [by apply H2|done]. }
  destruct Hs as [s b q _ E|s b q _ E1 E2|s b q w _ Hb|s b|s b|s b w Hb]; unfold frozen; simpl;
    destruct (Z.eqb_spec a b) as [<-|Hne]; try done.
  - split_and!; [done| |done]. by intros l [= <-].
  - split_and!; [done..|]. by intros l [= <-].
  - destruct (L1 s a) as [l1|] eqn:E1; [|done]. destruct (H1 _ eq_refl) as [_ ->]. simpl. by split_and!.
  - by destruct (L1 s a) as [l1|] eqn:E1.
  - destruct (L2 s a) as [l2|] eqn:E2; [|done]. destruct (H2 _ eq_refl) as [_ ->]. simpl. by split_and!.
  - by destruct (L2 s a) as [l2|] eqn:E2.
Qed.

Lemma handed_step a s s' : theirs a -> step s s' -> handed a s -> handed a s'.
Proof using apart.
  intros Ht Hs (H1 & H2).
  destruct Hs as [s b q _ E|s b q _ E1 E2|s b q w _ Hb|s b|s b|s b w Hb]; unfold handed; simpl;
    destruct (Z.eqb_spec a b) as [<-|Hne]; try done.
  - split; [|done]. by intros l [= <-].
  - split; [done|]. by intros l [= <-].
  - by destruct (apart a).
  - destruct (L1 s a) as [l1|] eqn:E1; [|done]. by rewrite (H1 _ eq_refl).
  - by destruct (L1 s a) as [l1|] eqn:E1.
  - by destruct (L2 s a) as [l2|] eqn:E2.
  - by destruct (L2 s a) as [l2|] eqn:E2.
Qed.

Lemma coherent_step a s s' : ~ theirs a -> step s s' -> coherent a s -> coherent a s'.
Proof.
  intros Ht Hs Hc. pose proof (coherent_view a s Hc) as Hv. destruct Hc as [H2 H1].
  destruct Hs as [s b q _ E|s b q _ E1 E2|s b q w _ Hb|s b|s b|s b w Hb]; unfold coherent; simpl;
    destruct (Z.eqb_spec a b) as [<-|Hne]; try done.
  - split; [done|]. intros l [= <-] _. simpl. unfold settled in Hv. by rewrite E in Hv.
  - split; [by intros l [= <-]|]. intros l El. by rewrite E1 in El.
  - split; [done|]. by intros l [= <-].
  - destruct (L1 s a) as [l1|] eqn:E1; [|done]. unfold below. destruct (dirty l1) eqn:Ed; simpl.
    + destruct (L2 s a) as [l2|], (victim g a) as [q2|]; split; intros lx El; by simplify_eq.
    + split; [done|]. by intros l.
  - by destruct (L1 s a) as [l1|] eqn:E1.
  - destruct (L2 s a) as [l2|] eqn:E2; [|split; [done|]; by apply H1]. split; [by intros|]. intros l El Ed. simpl.
    rewrite (H1 l El Ed). unfold newest. by destruct (dirty l2).
  - by destruct (L2 s a) as [l2|] eqn:E2.
Qed.

Lemma placed_step s s' : step s s' -> placed ok1 ok2 s -> placed ok1 ok2 s'.
Proof using victim_ok.
  intros Hs Hp. destruct Hs as [s b q Hq E|s b q Hq E1 E2|s b q w Hq Hb|s b|s b|s b w Hb];
    [| | |by apply placed_out1|by apply placed_out2|done]; intros a l; pose proof (Hp a l); simpl; destruct (Z.eqb_spec a b); naive_solver.
Qed.

Lemma steps_keep (P : sys -> Prop) s s' : (forall s s', step s s' -> P s -> P s') -> rtc step s s' -> P s -> P s'.
Proof. intros HP Hr. induction Hr; eauto. Qed.
End Steps.
End Memory.

(** * The macros on the processor *)

(** The geometry the processor reports. *)
Definition geometry_of (c : cpu) (k1 k2 : Z) (victim : Z -> option (Z * Z)) : geometry :=
  {| HostCache.k1 := k1; z1 := LineSize (u32 (ccsidr c 0)); HostCache.k2 := k2; z2 := LineSize (u32 (ccsidr c 2)); HostCache.victim := victim |}.
Definition place1 (c : cpu) (q : Z * Z) : Prop := (q, 0) ∈ all_of (NumWays (u32 (ccsidr c 0))) (NumSet (u32 (ccsidr c 0))) 0.
Definition place2 (c : cpu) (q : Z * Z) : Prop := (q, 1) ∈ all_of (NumWays (u32 (ccsidr c 2))) (NumSet (u32 (ccsidr c 2))) 1.

Lemma executed_app c c' os m : log c' = log c ++ map (pair m) os -> executed c c' = os.
Proof. intros E. unfold executed. rewrite E, drop_app_length, map_map. simpl. apply map_id. Qed.

Lemma sys_ops_app {V} g (os os' : list op) (s : @sys V) : sys_ops g (os ++ os') s = sys_ops g os' (sys_ops g os s).
Proof. apply fold_left_app. Qed.

Lemma all_of_level ways sets lev x : x ∈ all_of ways sets lev -> x.2 = lev.
Proof.
  unfold all_of. intros Hx. apply list_elem_of_bind in Hx as (w & Hx & _). apply list_elem_of_bind in Hx as (t & Hx & _).
  by apply list_elem_of_singleton in Hx as ->.
Qed.

(** The whole data cache: everything newer is in memory, and nothing is
    cached. *)
Lemma flush_settles {V} c k1 k2 victim (s : @sys V) :
  wf_geometry (u32 (ccsidr c 0)) k1 -> wf_geometry (u32 (ccsidr c 2)) k2 ->
  (forall a q, victim a = Some q -> place2 c q) -> placed (place1 c) (place2 c) s ->
  exists c' s',
    doing (geometry_of c k1 k2 victim) (host.whole Xil_DCacheFlush) c s = Some (c', s') /\ ccsidr c' = ccsidr c /\
    (forall a, L1 s' a = None /\ L2 s' a = None /\ ram s' a = settled s a).
Proof.
  intros W1 W2 Hv Hp. destruct (both_levels_log CISW c k1 k2 W1 W2) as (v1 & v2 & R & D1 & D2).
  match type of R with _ = (tt, ?c1) => set (c' := c1) in R end.
  set (os := ISB :: map (DC CISW) v1 ++ DSB :: ISB :: map (DC CISW) v2 ++ [DSB]) in *.
  exists c', (sys_ops (geometry_of c k1 k2 victim) os s). split; [|split; [done|]].
  { unfold doing, host.whole, Xil_DCacheFlush, mbind, io_bind. rewrite R. unfold mret, io_ret.
    by rewrite (executed_app c c' os (mask_of c)). }
  set (g := geometry_of c k1 k2 victim). unfold os. cbn [sys_ops fold_left]. change (sys_op g ISB s) with s.
  change (fold_left (fun s o => sys_op g o s)) with (sys_ops (V := V) g). rewrite sys_ops_app.
  destruct (clean_level1 g (place1 c) (place2 c) Hv v1 s) as (P1 & S1 & E1); [|done|].
  { intros v Hin. apply (all_of_level (NumWays (u32 (ccsidr c 0))) (NumSet (u32 (ccsidr c 0)))). rewrite <- D1. apply list_elem_of_fmap. by exists v. }
  set (s1 := sys_ops g (map (DC CISW) v1) s) in *. cbn [sys_ops fold_left]. change (sys_op g ISB (sys_op g DSB s1)) with s1.
  change (fold_left (fun s o => sys_op g o s)) with (sys_ops (V := V) g). rewrite sys_ops_app.
  destruct (clean_level2 g (place1 c) (place2 c) v2 s1) as (L & S2 & E2); [|done|].
  { intros v Hin. apply (all_of_level (NumWays (u32 (ccsidr c 2))) (NumSet (u32 (ccsidr c 2)))). rewrite <- D2. apply list_elem_of_fmap. by exists v. }
  set (s2 := sys_ops g (map (DC CISW) v2) s1) in *. change (sys_ops g [DSB] s2) with s2. intros a.
  assert (N1 : L1 s2 a = None).
  { rewrite L. destruct (L1 s1 a) as [l|] eqn:E; [|done]. apply E1 in E as [E Hn]. destruct (Hp a l) as [Hq _]. specialize (Hq E).
    unfold place1 in Hq. rewrite <- D1 in Hq. apply list_elem_of_fmap in Hq as (v & Hq & Hin). destruct (Hn v Hin). symmetry. exact (f_equal fst Hq). }
  assert (N2 : L2 s2 a = None).
  { destruct (L2 s2 a) as [l|] eqn:E; [|done]. apply E2 in E as [E Hn]. destruct (P1 a l) as [_ Hq]. specialize (Hq E).
    unfold place2 in Hq. rewrite <- D2 in Hq. apply list_elem_of_fmap in Hq as (v & Hq & Hin). destruct (Hn v Hin). symmetry. exact (f_equal fst Hq). }
  split_and!; [done..|]. rewrite <- S1, <- S2. unfold settled. by rewrite N1, N2.
Qed.

(** A range: the same for its lines, and no other line changes. *)
Lemma range_settles {V} g c p n (s : @sys V) :
  0 <= p -> 0 < n -> p + n <= 2 ^ 64 - 64 ->
  exists c' s',
    doing g (Xil_DCacheInvalidateRange p n) c s = Some (c', s') /\
    (forall a, (a ∈ lines_of p n -> L1 s' a = None /\ L2 s' a = None /\ ram s' a = settled s a) /\
               (a ∉ lines_of p n -> L1 s' a = L1 s a /\ L2 s' a = L2 s a /\ ram s' a = ram s a)).
Proof.
  intros Hp Hn He. destruct (dcache_range_correct p n c Hp Hn He) as (lines & c' & R & Hl & Hd & Hin & _).
  exists c', (sys_ops g (map (DC CIVAC) lines ++ [DSB]) s). split.
  { unfold doing. change Xil_DCacheInvalidateRange with Xil_DCacheFlushRange. rewrite R. by rewrite (executed_app _ _ _ _ Hl). }
  rewrite sys_ops_app. change (sys_ops g [DSB] ?x) with x. intros a.
  assert (Ha : a ∈ lines_of p n <-> a ∈ lines) by (rewrite Hin; by apply lines_of_spec). rewrite Ha. by apply clean_lines.
Qed.

(** * Theorems *)

(** C7: A program hands its data to the accelerator with CACHE_SEND_ALL and takes
    the results, in the bytes [p, p + n), with CACHE_RECV or CACHE_RECV_ALL.
    Start from any coherent contents of the two caches; meanwhile the
    processor loads, prefetches, evicts and stores as it likes, but stores
    not into the lines of the results.  Then both macros return; at any time
    the accelerator finds in memory what the program saw before in every line
    that neither writes; and afterwards the program sees what the accelerator
    wrote, and everywhere else what it saw before the macro. *)
Theorem offload_coherent {V} c k1 k2 victim (s0 : @sys V) (mine : Z -> Prop) p n :
  wf_geometry (u32 (ccsidr c 0)) k1 -> wf_geometry (u32 (ccsidr c 2)) k2 ->
  (forall a q, victim a = Some q -> place2 c q) -> placed (place1 c) (place2 c) s0 -> (forall a, coherent a s0) ->
  0 <= p -> 0 < n -> p + n <= 2 ^ 64 - 64 -> (forall a, mine a -> a ∉ lines_of p n) ->
  let g := geometry_of c k1 k2 victim in
  exists c1 s1, doing g (host.CACHE_SEND_ALL A64 a53_xil true) c s0 = Some (c1, s1) /\
  forall s2, rtc (step g (place1 c) (place2 c) mine (fun a => a ∈ lines_of p n)) s1 s2 ->
    (forall a, ~ mine a -> a ∉ lines_of p n -> ram s2 a = view s0 a) /\
    (exists c3 s3, doing g (host.CACHE_RECV A64 a53_xil true p n) c1 s2 = Some (c3, s3) /\
       forall a, view s3 a = if decide (a ∈ lines_of p n) then ram s2 a else view s2 a) /\
    (exists c3 s3, doing g (host.CACHE_RECV_ALL A64 a53_xil true) c1 s2 = Some (c3, s3) /\
       forall a, view s3 a = if decide (a ∈ lines_of p n) then ram s2 a else view s2 a).
Proof.
  intros W1 W2 Hv Hpl Hco Hp Hn He Hap g.
  destruct (flush_settles c k1 k2 victim s0 W1 W2 Hv Hpl) as (c1 & s1 & R1 & C1 & E1).
  exists c1, s1. split; [exact R1|]. intros s2 Hr. assert (Hdj : forall a, mine a -> a ∈ lines_of p n -> False) by (intros a ??; by apply (Hap a)).
  assert (N1 : forall a, L1 s1 a = None /\ L2 s1 a = None) by (intros a; destruct (E1 a) as (? & ? & _); done).
  assert (Hfz : forall a, ~ mine a -> a ∉ lines_of p n -> ram s2 a = view s0 a).
  { intros a Hm Ht. apply (steps_keep g (place1 c) (place2 c) mine (fun a => a ∈ lines_of p n) (frozen (view s0 a) a) s1 s2);
      [intros s s'; by apply frozen_step|done|]. unfold frozen.
    destruct (N1 a) as [-> ->]. split_and!; [by destruct (E1 a) as (_ & _ & ->); rewrite coherent_view|done..]. }
  assert (Hh : forall a, a ∈ lines_of p n -> handed a s2).
  { intros a Ht. apply (steps_keep g (place1 c) (place2 c) mine (fun a => a ∈ lines_of p n) (handed a) s1 s2); [intros s s'; by eapply handed_step|done|].
    unfold handed. by destruct (N1 a) as [-> ->]. }
  assert (Hc : forall a, a ∉ lines_of p n -> coherent a s2).
  { intros a Ht. apply (steps_keep g (place1 c) (place2 c) mine (fun a => a ∈ lines_of p n) (coherent a) s1 s2); [intros s s'; by eapply coherent_step|done|].
    unfold coherent. by destruct (N1 a) as [-> ->]. }
  assert (Hpl2 : placed (place1 c) (place2 c) s2).
  { apply (steps_keep g (place1 c) (place2 c) mine (fun a => a ∈ lines_of p n) (placed (place1 c) (place2 c)) s1 s2); [intros s s'; by eapply placed_step|done|].
    intros a l. by destruct (N1 a) as [-> ->]. }
  split; [done|split].
  - destruct (range_settles g c1 p n s2 Hp Hn He) as (c3 & s3 & R3 & E3). exists c3, s3. split; [exact R3|]. intros a.
    unfold view. destruct (E3 a) as [H1 H2]. case_decide as Ht.
    + destruct (H1 Ht) as (-> & -> & ->). by apply handed_settled, Hh.
    + by destruct (H2 Ht) as (-> & -> & ->).
  - assert (Hg : g = geometry_of c1 k1 k2 victim) by (unfold g, geometry_of; by rewrite C1).
    destruct (flush_settles c1 k1 k2 victim s2) as (c3 & s3 & R3 & C3 & E3); [by rewrite C1|by rewrite C1| | |].
    { intros a q. unfold place2. rewrite C1. apply Hv. } { unfold place1, place2. rewrite C1. exact Hpl2. }
    exists c3, s3. rewrite Hg. split; [exact R3|]. intros a. unfold view at 1. destruct (E3 a) as (-> & -> & ->). case_decide as Ht.
    + by apply handed_settled, Hh.
    + symmetry. by apply coherent_view, Hc.
Qed.

(** A processor with two lines in each of its levels. *)
Definition small : cpu :=
  {| daif := 0; sctlr := 0x1004; csselr := 0; ccsidr _ := 0xA; prefetch := 0; log := [] |}.
(** Line 128 is newer in level 1 than in level 2, where it is newer than in
    memory; line 192 is cached as it is in memory. *)
Definition warm : @sys Z := {|
  L1 a := if a =? 128 then Some {| place := (1, 0); content := 7; dirty := true |} else None;
  L2 a := if a =? 128 then Some {| place := (0, 0); content := 6; dirty := true |}
          else if a =? 192 then Some {| place := (1, 0); content := 2; dirty := false |} else None;
  ram a := if a =? 192 then 2 else 1
|}.

Lemma offload_coherent_witness :
  let g := geometry_of small 1 1 (fun _ => None) in
  exists c1 s1, doing g (host.CACHE_SEND_ALL A64 a53_xil true) small warm = Some (c1, s1) /\
  forall s2, rtc (step g (place1 small) (place2 small) (fun a => a = 256) (fun a => a ∈ lines_of 192 64)) s1 s2 ->
    (forall a, ~ a = 256 -> a ∉ lines_of 192 64 -> ram s2 a = view warm a) /\
    (exists c3 s3, doing g (host.CACHE_RECV A64 a53_xil true 192 64) c1 s2 = Some (c3, s3) /\
       forall a, view s3 a = if decide (a ∈ lines_of 192 64) then ram s2 a else view s2 a) /\
    (exists c3 s3, doing g (host.CACHE_RECV_ALL A64 a53_xil true) c1 s2 = Some (c3, s3) /\
       forall a, view s3 a = if decide (a ∈ lines_of 192 64) then ram s2 a else view s2 a).
Proof.
  apply (offload_coherent small 1 1 (fun _ => None) warm (fun a => a = 256) 192 64); [by vm_compute..|done| | |lia|lia|lia|].
  - intros a l. unfold place1, place2. simpl. repeat (case_match; simplify_eq; simpl); split; intros; simplify_eq; vm_compute; set_solver.
  - intros a. unfold coherent, newest. simpl. destruct (Z.eqb_spec a 128), (Z.eqb_spec a 192); simplify_eq; split; intros; by simplify_eq.
  - intros a ->. by vm_compute; set_solver.
Defined.

(** The accelerator's results are lost if the program left newer data of its
    own in their lines: the operation that takes them, an invalidation by its
    name, writes these lines back first. *)
Theorem recv_writes_back {V} g c p n (s : @sys V) a l :
  0 <= p -> 0 < n -> p + n <= 2 ^ 64 - 64 -> a ∈ lines_of p n -> L1 s a = Some l -> dirty l = true ->
  exists c' s', doing g (host.CACHE_RECV A64 a53_xil true p n) c s = Some (c', s') /\ view s' a = content l /\ ram s' a = content l.
Proof.
  intros Hp Hn He Ha E1 Ed. destruct (range_settles g c p n s Hp Hn He) as (c' & s' & R & E). exists c', s'. split; [exact R|].
  destruct (E a) as [H _]. destruct (H Ha) as (N1 & N2 & ->). unfold view, settled, newest. rewrite N1, N2, E1, Ed.
  destruct (H Ha) as (_ & _ & ->). unfold settled, newest. by rewrite E1, Ed.
Qed.

Lemma recv_writes_back_witness :
  exists c' s', doing (geometry_of small 1 1 (fun _ => None)) (host.CACHE_RECV A64 a53_xil true 100 60) small warm = Some (c', s') /\
    view s' 128 = 7 /\ ram s' 128 = 7.
Proof. apply (recv_writes_back _ small 100 60 warm 128 {| place := (1, 0); content := 7; dirty := true |}); [lia..| |done|done]. vm_compute; set_solver. Defined.
