(* ===== verification/CacheAlt.v ===== *)
(** Range operations of the XIL_ALT build (linux/drivers/arm64/xil_cache.c):
    partial lines at the ends of a range are written back, full lines are
    handled as the name of the operation says.  What is executed, and what
    that does to caches and memory. *)
From S2P Require Import Prelude Device Cache CacheProofs HostCache.
Open Scope Z_scope.

(** * What a program executes *)

(** From any state, [m] returns [x] and executes [os]. *)
Definition emits {A} (m : io cpu A) (x : A) (os : list op) : Prop :=
  forall c, exists c', m c = (x, c') /\ exists l, log c' = log c ++ l /\ map snd l = os.

Lemma emits_ret {A} (x : A) : emits (mret x) x [].
Proof. intros c. exists c. split; [done|]. exists []. by rewrite app_nil_r. Qed.

Lemma emits_bind {A B} (m : io cpu A) (f : A -> io cpu B) x y os os' :
  emits m x os -> emits (f x) y os' -> emits (m ≫= f) y (os ++ os').
Proof.
  intros Hm Hf c. destruct (Hm c) as (c1 & E1 & l1 & L1 & M1). destruct (Hf c1) as (c2 & E2 & l2 & L2 & M2).
  exists c2. split; [by rewrite (bind_run _ _ _ _ _ E1)|]. exists (l1 ++ l2). by rewrite L2, L1, <- app_assoc, map_app, M1, M2.
Qed.

Lemma emits_then {A} (m : io cpu unit) (x : A) os : emits m tt os -> emits (_ ← m; mret x) x os.
Proof. intros Hm. rewrite <- (app_nil_r os). apply (emits_bind _ _ tt); [done|apply emits_ret]. Qed.

Lemma emits_issue o : emits (issue o) tt [o].
Proof. intros c. eexists. split; [done|]. by exists [(daif c, o)]. Qed.

Lemma emits_select v : emits (mtcp_CSSELR v) tt [].
Proof. intros c. eexists. split; [done|]. exists []. by rewrite app_nil_r. Qed.

Lemma emits_masked {A} (body : io cpu A) x os : emits body x os -> emits (masked body) x os.
Proof.
  intros Hb c. destruct (Hb (with_daif (mask_of c) c)) as (c' & E & l & L & M). eexists. split; [by apply masked_run|]. by exists l.
Qed.

Lemma emits_loop body ops adr end_ :
  (forall a, emits (body a) tt (ops a)) -> 0 <= adr -> end_ <= 2 ^ 64 - 64 ->
  emits (range_loop (range_fuel adr end_) body adr end_) (Some tt) (i ← seqZ 0 (span adr end_); ops (adr + 64 * i)).
Proof.
  intros Hb Hadr Hend. unfold range_fuel. fold (span adr end_).
  assert (Hn : span adr end_ <= Z.of_nat (Z.to_nat (span adr end_))) by lia. revert Hn.
  generalize (Z.to_nat (span adr end_)). intros n. revert adr Hadr. induction n as [|n IH]; intros adr Hadr Hn; cbn [range_loop].
  1,2: destruct (Z.ltb_spec adr end_) as [Hlt|Hge]; [|rewrite seqZ_nil by (unfold span; div_lia); apply emits_ret].
  { exfalso. unfold span in Hn. div_lia. }
  rewrite (wrap_id 64 (adr + cacheline)) by (unfold in_word, cacheline; lia).
  assert (Hs : span adr end_ = 1 + span (adr + cacheline) end_) by (unfold span, cacheline; div_lia).
  assert (H0 : 0 <= span (adr + cacheline) end_) by (unfold span, cacheline; div_lia).
  assert (El : (i ← seqZ 0 (span adr end_); ops (adr + 64 * i)) = ops adr ++ (i ← seqZ 0 (span (adr + cacheline) end_); ops (adr + cacheline + 64 * i))).
  { rewrite Hs, (seqZ_cons 0 (1 + _)) by lia. csimpl. f_equal; [f_equal; lia|].
    replace (Z.pred (1 + span (adr + cacheline) end_)) with (span (adr + cacheline) end_) by lia.
    change (Z.succ 0) with (1 + 0). rewrite <- (fmap_add_seqZ 1 0), list_fmap_bind. apply list_bind_ext; [|done]. intros i. simpl. f_equal. unfold cacheline. lia. }
  rewrite El. apply (emits_bind _ _ tt); [apply Hb|]. apply IH; unfold cacheline in *; lia.
Qed.

(** ** The operations of a line, and of a range *)

Lemma emits_flush_line a : emits (Xil_DCacheFlushLine a) tt [DC CIVAC (line_of a); DSB; DC CIVAC (line_of a); DSB].
Proof.
  apply emits_masked. repeat first [eapply (emits_bind _ _ tt _ []); [apply emits_select|] | eapply (emits_bind _ _ tt _ [_]); [apply emits_issue|]].
  apply emits_issue.
Qed.

Lemma emits_level_op ins a : emits (Alt.level_op ins a) tt [DC ins (line_of a); DSB; DC ins (line_of a); DSB].
Proof.
  repeat first [eapply (emits_bind _ _ tt _ []); [apply emits_select|] | eapply (emits_bind _ _ tt _ [_]); [apply emits_issue|]].
  apply emits_issue.
Qed.

(** Where the full lines of a range begin and end. *)
Definition full_from (p : Z) : Z := if p mod 64 =? 0 then p else line_of p + 64.
Definition partial_lines (p n : Z) : list Z :=
  (if p mod 64 =? 0 then [] else [line_of p]) ++ (if (p + n) mod 64 =? 0 then [] else [line_of (p + n)]).
Definition twice (ins : dc) (a : Z) : list op := [DC ins (line_of a); DSB; DC ins (line_of a); DSB].

Lemma low_bits x : 0 <= x -> truthy (Z.land x (cacheline - 1)) = negb (x mod 64 =? 0).
Proof. intros Hx. unfold truthy. change (cacheline - 1) with (Z.ones 6). by rewrite Z.land_ones. Qed.

Lemma high_bits x : in_word 64 x -> Z.land x (not64 (cacheline - 1)) = line_of x.
Proof.
  intros Hx. unfold line_of, not_w. apply Z.bits_inj'. intros i Hi. rewrite !Z.land_spec, testbit_wrap by lia.
  destruct (Z.ltb_spec i 64); [done|]. by rewrite (testbit_high 64 x) by (done || lia).
Qed.

Lemma emits_end_lines ins p n :
  0 <= p -> 0 < n -> p + n <= 2 ^ 64 - 64 ->
  emits (Alt.end_lines n p (Alt.level_op ins)) (Some tt)
    (concat (map (twice CIVAC) (partial_lines p n)) ++ (i ← seqZ 0 (span (full_from p) (line_of (p + n))); twice ins (full_from p + 64 * i))).
Proof.
  intros Hp Hn He. unfold Alt.end_lines. rewrite (wrap_id 64 p), (wrap_id 64 (p + n)) by (unfold in_word; lia).
  rewrite !low_bits, !high_bits by (unfold in_word; lia). pose proof (line_of_div p) as Lp. pose proof (line_of_div (p + n)) as Le.
  unfold partial_lines. rewrite map_app, concat_app, <- app_assoc.
  apply (emits_bind _ _ (full_from p)).
  { unfold full_from. destruct (Z.eqb_spec (p mod 64) 0) as [E|E]; simpl; [apply emits_ret|].
    rewrite (wrap_id 64) by (unfold in_word, cacheline; rewrite Lp; div_lia). apply emits_then, emits_flush_line. }
  apply (emits_bind _ _ (line_of (p + n))).
  { destruct (Z.eqb_spec ((p + n) mod 64) 0) as [E|E]; simpl; [assert (E2 : line_of (p + n) = p + n) by (rewrite Le; div_lia); rewrite E2; apply emits_ret|].
    apply emits_then, emits_flush_line. }
  apply emits_loop; [intros a; apply emits_level_op|unfold full_from; case_match; [done|rewrite Lp; div_lia]|rewrite Le; div_lia].
Qed.

Lemma alt_range_emits ins p n :
  0 <= p -> 0 < n -> p + n <= 2 ^ 64 - 64 ->
  emits (masked (if negb (n =? 0) then Alt.end_lines n p (Alt.level_op ins) else mret (Some tt))) (Some tt)
    (concat (map (twice CIVAC) (partial_lines p n)) ++ (i ← seqZ 0 (span (full_from p) (line_of (p + n))); twice ins (full_from p + 64 * i))).
Proof. intros Hp Hn He. apply emits_masked. rewrite (proj2 (Z.eqb_neq n 0)) by lia. by apply emits_end_lines. Qed.

(** * What it does to a line *)

Section Lines.
Context {V : Type} (g : geometry).

(** Operations by address, and barriers. *)
Definition by_line (o : op) : Prop := match o with DC CIVAC _ | DC IVAC _ | DSB => True | _ => False end.

Definition dropped (a : Z) (s s' : @sys V) : Prop := L1 s' a = None /\ L2 s' a = None /\ ram s' a = ram s a.
Definition cleaned (a : Z) (s s' : @sys V) : Prop := L1 s' a = None /\ L2 s' a = None /\ ram s' a = settled s a.
Definition kept (a : Z) (s s' : @sys V) : Prop := L1 s' a = L1 s a /\ L2 s' a = L2 s a /\ ram s' a = ram s a.

Lemma kept_settled a s s' : kept a s s' -> settled s' a = settled s a.
Proof. intros (E1 & E2 & E3). unfold settled. by rewrite E1, E2, E3. Qed.

Lemma op_other o a s : by_line o -> o <> DC CIVAC a -> o <> DC IVAC a -> kept a s (sys_op g o s).
Proof.
  intros Hb H1 H2. unfold kept. destruct o as [[] b| | | | |]; try done; simpl.
  all: destruct (Z.eqb_spec a b) as [->|]; [congruence|done].
Qed.

Lemma ops_other os a s : Forall by_line os -> DC CIVAC a ∉ os -> DC IVAC a ∉ os -> kept a s (sys_ops g os s).
Proof.
  intros Hb. revert s. induction Hb as [|o os Ho _ IH]; intros s H1 H2; [done|].
  apply not_elem_of_cons in H1 as [N1 H1], H2 as [N2 H2]. destruct (IH (sys_op g o s) H1 H2) as (E1 & E2 & E3).
  destruct (op_other o a s Ho) as (F1 & F2 & F3); [congruence..|]. unfold kept. by rewrite <- F1, <- F2, <- F3.
Qed.

Lemma ops_clean os a s : Forall by_line os -> DC CIVAC a ∈ os -> DC IVAC a ∉ os -> cleaned a s (sys_ops g os s).
Proof.
  intros Hb. revert s. induction Hb as [|o os Ho Hos IH]; intros s H1 H2; [by apply elem_of_nil in H1|].
  apply not_elem_of_cons in H2 as [N2 H2]. change (sys_ops g (o :: os) s) with (sys_ops g os (sys_op g o s)).
  destruct (decide (o = DC CIVAC a)) as [->|N1].
  - set (s1 := sys_op g (DC CIVAC a) s). assert (Hs1 : cleaned a s s1) by (unfold cleaned, s1; simpl; by rewrite Z.eqb_refl).
    destruct Hs1 as (A1 & A2 & A3). destruct (decide (DC CIVAC a ∈ os)) as [Hin|Hin].
    + destruct (IH s1 Hin H2) as (E1 & E2 & E3). unfold cleaned. rewrite E1, E2, E3, <- A3. split_and!; [done..|]. unfold settled. by rewrite A1, A2.
    + destruct (ops_other os a s1 Hos Hin H2) as (E1 & E2 & E3). unfold cleaned. by rewrite E1, E2, E3.
  - apply elem_of_cons in H1 as [?|H1]; [congruence|]. destruct (IH (sys_op g o s) H1 H2) as (E1 & E2 & E3).
    unfold cleaned. rewrite E1, E2, E3. by rewrite (kept_settled a s) by (by apply op_other).
Qed.

Lemma ops_drop os a s : Forall by_line os -> DC IVAC a ∈ os -> DC CIVAC a ∉ os -> dropped a s (sys_ops g os s).
Proof.
  intros Hb. revert s. induction Hb as [|o os Ho Hos IH]; intros s H1 H2; [by apply elem_of_nil in H1|].
  apply not_elem_of_cons in H2 as [N2 H2]. change (sys_ops g (o :: os) s) with (sys_ops g os (sys_op g o s)).
  destruct (decide (o = DC IVAC a)) as [->|N1].
  - set (s1 := sys_op g (DC IVAC a) s). assert (Hs1 : dropped a s s1) by (unfold dropped, s1; simpl; by rewrite Z.eqb_refl).
    destruct Hs1 as (A1 & A2 & A3). destruct (decide (DC IVAC a ∈ os)) as [Hin|Hin].
    + destruct (IH s1 Hin H2) as (E1 & E2 & E3). unfold dropped. by rewrite E1, E2, E3, A3.
    + destruct (ops_other os a s1 Hos H2 Hin) as (E1 & E2 & E3). unfold dropped. by rewrite E1, E2, E3.
  - apply elem_of_cons in H1 as [?|H1]; [congruence|]. destruct (IH (sys_op g o s) H1 H2) as (E1 & E2 & E3).
    destruct (op_other o a s Ho) as (_ & _ & F3); [congruence..|]. unfold dropped. by rewrite E1, E2, E3, F3.
Qed.
End Lines.

(** ** Which lines a range operation names *)

Definition full (p n a : Z) : Prop := p <= a /\ a + 64 <= p + n.
#[local] Instance full_dec p n a : Decision (full p n a).
Proof. unfold full. apply _. Defined.

Definition range_ops (ins : dc) (p n : Z) : list op :=
  concat (map (twice CIVAC) (partial_lines p n)) ++ (i ← seqZ 0 (span (full_from p) (line_of (p + n))); twice ins (full_from p + 64 * i)).

Lemma in_twice x y a b : DC x a ∈ twice y b <-> x = y /\ a = line_of b.
Proof. unfold twice. rewrite !elem_of_cons. split; [intros [?|[?|[?|[?|?%elem_of_nil]]]]; by simplify_eq|intros [-> ->]; by left]. Qed.

Lemma in_partial x p n a :
  0 < n -> DC x a ∈ concat (map (twice CIVAC) (partial_lines p n)) <-> x = CIVAC /\ a ∈ lines_of p n /\ ~ full p n a.
Proof.
  intros Hn. rewrite lines_of_spec by done. rewrite list_elem_of_In, in_concat. setoid_rewrite in_map_iff. setoid_rewrite <- list_elem_of_In.
  unfold full, partial_lines. pose proof (line_of_div p) as Lp. pose proof (line_of_div (p + n)) as Le. split.
  - intros (l & (b & <- & Hb) & [-> ->]%in_twice). split; [done|]. apply elem_of_app in Hb as [Hb|Hb]; case_match eqn:E; try (by apply elem_of_nil in Hb).
    all: apply list_elem_of_singleton in Hb as ->; apply Z.eqb_neq in E; rewrite !line_of_div.
    + split; [exists p; rewrite line_of_div|]; div_lia.
    + split; [exists (p + n - 1); rewrite line_of_div|]; div_lia.
  - intros (-> & (x0 & Hx & ->) & Hf). rewrite line_of_div in Hf. destruct (decide (p <= 64 * (x0 / 64))) as [H1|H1].
    + exists (twice CIVAC (line_of (p + n))). split; [|apply in_twice; split; [done|rewrite !line_of_div; div_lia]].
      exists (line_of (p + n)). split; [done|]. apply elem_of_app. right. rewrite (proj2 (Z.eqb_neq _ 0)) by div_lia. by left.
    + exists (twice CIVAC (line_of p)). split; [|apply in_twice; split; [done|rewrite !line_of_div; div_lia]].
      exists (line_of p). split; [done|]. apply elem_of_app. left. rewrite (proj2 (Z.eqb_neq _ 0)) by div_lia. by left.
Qed.

Lemma in_full x ins p n a :
  DC x a ∈ (i ← seqZ 0 (span (full_from p) (line_of (p + n))); twice ins (full_from p + 64 * i)) <->
  x = ins /\ a = line_of a /\ full p n a.
Proof.
  rewrite list_elem_of_bind. setoid_rewrite in_twice. setoid_rewrite elem_of_seqZ. unfold full, span, full_from.
  setoid_rewrite line_of_div. split.
  - intros (i & [-> ->] & Hi). split; [done|]. destruct (Z.eqb_spec (p mod 64) 0) as [E|E].
    + replace ((p + 64 * i) / 64) with (p / 64 + i) by div_lia. div_lia.
    + rewrite (line_of_div p) in *. replace ((64 * (p / 64) + 64 + 64 * i) / 64) with (p / 64 + 1 + i) by div_lia.
      assert (Hu : i <= (p + n) / 64 - p / 64 - 2) by div_lia. assert (64 * (p / 64) <= p < 64 * (p / 64) + 64 /\ 64 * ((p + n) / 64) <= p + n) by div_lia.
      assert (H0 : 0 <= i) by lia. clear Hi. generalize dependent (p / 64). intros k Hk Hb. rewrite (Z.mul_comm 64 (k + 1 + i)), Z.div_mul by done. lia.
  - intros (-> & Ea & Hf). destruct (Z.eqb_spec (p mod 64) 0).
    + exists ((a - p) / 64). split; [split; [done|]|]; div_lia.
    + rewrite (line_of_div p). exists ((a - (64 * (p / 64) + 64)) / 64). split; [split; [done|]|]; div_lia.
Qed.

Lemma range_ops_by_line ins p n : ins = CIVAC \/ ins = IVAC -> Forall by_line (range_ops ins p n).
Proof.
  intros Hi. apply Forall_forall. intros o. unfold range_ops. rewrite elem_of_app. intros [Ho|Ho].
  - rewrite list_elem_of_In, in_concat in Ho. destruct Ho as (l & Hl & Ho). apply in_map_iff in Hl as (b & <- & _). unfold twice in Ho. simpl in Ho.
    destruct Ho as [<-|[<-|[<-|[<-|[]]]]]; done.
  - apply list_elem_of_bind in Ho as (i & Ho & _). unfold twice in Ho. rewrite !elem_of_cons in Ho.
    destruct Ho as [->|[->|[->|[->|?%elem_of_nil]]]]; try done; by destruct Hi as [-> | ->].
Qed.

Lemma in_range_ops x ins p n a : 0 < n ->
  DC x a ∈ range_ops ins p n <-> (x = CIVAC /\ a ∈ lines_of p n /\ ~ full p n a) \/ (x = ins /\ a = line_of a /\ full p n a).
Proof. intros Hn. unfold range_ops. by rewrite elem_of_app, in_partial, in_full. Qed.

Lemma lines_of_aligned p n a : 0 < n -> a ∈ lines_of p n -> a = line_of a.
Proof. intros Hn. rewrite lines_of_spec by done. intros (x & _ & ->). rewrite !line_of_div. div_lia. Qed.

Lemma full_touched p n a : 0 < n -> a = line_of a -> full p n a -> a ∈ lines_of p n.
Proof. intros Hn Ha [H1 H2]. apply lines_of_spec; [done|]. exists a. split; [lia|done]. Qed.

(** An operation that executes the operations of a range. *)
Lemma doing_emits {V} g (m : io cpu (option unit)) os c (s : @sys V) :
  emits m (Some tt) os -> exists c', doing g m c s = Some (c', sys_ops g os s).
Proof.
  intros H. destruct (H c) as (c' & E & l & L & M). exists c'. unfold doing, executed. by rewrite E, L, drop_app_length, M.
Qed.

(** * Theorems *)

(** The invalidation of a range by the XIL_ALT build: it returns; full lines
    of the range are dropped, so that what memory holds is kept even if the
    program had newer data in them; lines the range touches in part are
    written back; and no other line changes. *)
Theorem alt_invalidate_correct {V} g c p n (s : @sys V) :
  0 <= p -> 0 < n -> p + n <= 2 ^ 64 - 64 ->
  exists c' s', doing g (Alt.Xil_DCacheInvalidateRange p n) c s = Some (c', s') /\
  forall a, if decide (a ∈ lines_of p n) then if decide (full p n a) then dropped a s s' else cleaned a s s' else kept a s s'.
Proof.
  intros Hp Hn He. destruct (doing_emits g _ _ c s (alt_range_emits IVAC p n Hp Hn He)) as (c' & E). fold (range_ops IVAC p n) in E.
  exists c', (sys_ops g (range_ops IVAC p n) s). split; [exact E|]. intros a.
  pose proof (range_ops_by_line IVAC p n ltac:(by right)) as Hb. pose proof (lines_of_aligned p n a Hn) as Ha. pose proof (full_touched p n a Hn) as Ht.
  case_decide; [case_decide|].
  - apply ops_drop; [done|apply in_range_ops; [done|]; right; by auto|rewrite in_range_ops by done; naive_solver].
  - apply ops_clean; [done|apply in_range_ops; [done|]; left; by auto|rewrite in_range_ops by done; naive_solver].
  - apply ops_other; [done|rewrite in_range_ops by done; naive_solver..].
Qed.

(** The flush of that build writes back every line the range touches and no
    other, as the one of the standard build does. *)
Theorem alt_flush_correct {V} g c p n (s : @sys V) :
  0 <= p -> 0 < n -> p + n <= 2 ^ 64 - 64 ->
  exists c' s', doing g (Alt.Xil_DCacheFlushRange p n) c s = Some (c', s') /\
  forall a, if decide (a ∈ lines_of p n) then cleaned a s s' else kept a s s'.
Proof.
  intros Hp Hn He. destruct (doing_emits g _ _ c s (alt_range_emits CIVAC p n Hp Hn He)) as (c' & E). fold (range_ops CIVAC p n) in E.
  exists c', (sys_ops g (range_ops CIVAC p n) s). split; [exact E|]. intros a.
  pose proof (range_ops_by_line CIVAC p n ltac:(by left)) as Hb. pose proof (lines_of_aligned p n a Hn) as Ha. pose proof (full_touched p n a Hn) as Ht.
  case_decide.
  - apply ops_clean; [done| |rewrite in_range_ops by done; naive_solver]. apply in_range_ops; [done|]. destruct (decide (full p n a)); [right|left]; by auto.
  - apply ops_other; [done|rewrite in_range_ops by done; naive_solver..].
Qed.

(** Results in lines 128 and 192, the range from byte 100 to 250. *)
Lemma alt_invalidate_correct_witness :
  exists c' s', doing (geometry_of small 1 1 (fun _ => None)) (Alt.Xil_DCacheInvalidateRange 100 150) small warm = Some (c', s') /\ dropped 128 warm s'.
Proof.
  destruct (alt_invalidate_correct (geometry_of small 1 1 (fun _ => None)) small 100 150 warm) as (c' & s' & E & H); [lia..|].
  exists c', s'. split; [exact E|]. specialize (H 128). rewrite decide_True in H by (vm_compute; set_solver). by rewrite decide_True in H by (unfold full; lia).
Defined.

Lemma alt_flush_correct_witness :
  exists c' s', doing (geometry_of small 1 1 (fun _ => None)) (Alt.Xil_DCacheFlushRange 100 150) small warm = Some (c', s') /\ cleaned 64 warm s'.
Proof.
  destruct (alt_flush_correct (geometry_of small 1 1 (fun _ => None)) small 100 150 warm) as (c' & s' & E & H); [lia..|].
  exists c', s'. split; [exact E|]. specialize (H 64). by rewrite decide_True in H by (vm_compute; set_solver).
Defined.
