(* ===== verification/Ioctl.v ===== *)
(** What the two LiME kernel drivers (linux/drivers/lmcache_ops.c and
    lmalloc.c) share: ioctl command codes, the copy of the caller's structure
    into the handler, error numbers, and the life cycle of their character
    device.

    The encoding of command codes belongs to the kernel headers, so it is an
    interface, [Ioc], with the laws that header documents; [asm_generic] is
    the encoding of the generic header. *)
From S2P Require Import Prelude Device.
Open Scope Z_scope.

(** * Command codes *)

Class Ioc := {
  IOC : bool -> bool -> Z -> Z -> Z -> Z;      (* in, out, type, nr, size *)
  ioc_in : Z -> bool;
  ioc_out : Z -> bool;
  IOC_NR : Z -> Z;
  IOC_SIZE : Z -> Z;
  ioc_laws : forall i o ty nr sz, in_word 8 ty -> in_word 8 nr -> in_word 14 sz ->
    ioc_in (IOC i o ty nr sz) = i /\ ioc_out (IOC i o ty nr sz) = o /\
    IOC_NR (IOC i o ty nr sz) = nr /\ IOC_SIZE (IOC i o ty nr sz) = sz
}.

#[local] Lemma b2z_bit (b : bool) n : in_word 1 (Z.b2z b) /\ Z.testbit (Z.b2z b) n = (n =? 0) && b.
Proof.
  split; [by destruct b|]. by destruct b, n.
Qed.

(** nr 0-7, type 8-15, size 16-29, write 30, read 31. *)
#[export] Program Instance asm_generic : Ioc := {
  IOC i o ty nr sz :=
    Z.lor (Z.lor (Z.lor (Z.lor (Z.shiftl (Z.b2z o) 31) (Z.shiftl (Z.b2z i) 30)) (Z.shiftl sz 16)) (Z.shiftl ty 8)) nr;
  ioc_in c := Z.testbit c 30;
  ioc_out c := Z.testbit c 31;
  IOC_NR c := wrap 8 c;
  IOC_SIZE c := get_field 16 14 c
}.
Next Obligation.
  intros i o ty nr sz Ht Hn Hs. destruct (b2z_bit i 0) as [Hi Hi0], (b2z_bit o 0) as [Ho Ho0].
  split_and!.
  - autorewrite with bits. bit_cases; try lia.
    rewrite (testbit_high 14 sz _ Hs), (testbit_high 8 ty _ Ht), (testbit_high 8 nr _ Hn) by lia.
    change (30 - 30) with 0. rewrite Hi0. by destruct i, o.
  - autorewrite with bits. bit_cases; try lia. change (31 - 31) with 0. rewrite Ho0.
    rewrite (testbit_high 14 sz _ Hs), (testbit_high 8 ty _ Ht), (testbit_high 8 nr _ Hn) by lia.
    rewrite (testbit_high 1 _ _ Hi) by lia. by destruct i, o.
  - Zbits.
  - unfold get_field. Zbits.
Qed.

(** * Errors *)

Definition EINTR : Z := 4.
Definition EBADF : Z := 9.
Definition ENOMEM : Z := 12.
Definition EACCES : Z := 13.
Definition EINVAL : Z := 22.

(** * Structures passed by address *)

(** [copy_from_user(&x, arg, sz)]: the first [sz] bytes of the local [stack]
    become those at [arg]; [None] when the caller's bytes end before that. *)
Definition copy_from_user (stack user : list Z) (sz : Z) : option (list Z) :=
  if Z.of_nat (length user) <? sz then None
  else Some (take (Z.to_nat sz) user ++ drop (Z.to_nat sz) stack).

Lemma copy_all stack user :
  length stack = length user -> copy_from_user stack user (Z.of_nat (length user)) = Some user.
Proof.
  intros H. unfold copy_from_user. rewrite Z.ltb_irrefl, Nat2Z.id, firstn_all, drop_ge by lia. by rewrite app_nil_r.
Qed.

(** * Character device *)

(** What the kernel holds for a module. *)
Inductive resource := RClass | RChrdev (major : Z) | RDevice (major : Z).

#[export] Instance resource_eq_dec : EqDecision resource.
Proof. solve_decision. Defined.

(** The kernel's answers: an error number, or for [register_chrdev] the
    allocated major number. *)
Record answers := {
  class_create : option Z;
  register_chrdev : Z;
  device_create : option Z
}.

(** The statics of the module and what it holds. *)
Record module_state := { devno : Z; live : list resource }.

Definition acquire (r : resource) : io module_state unit :=
  modify (fun s => {| devno := devno s; live := live s ++ [r] |}).
Definition release (r : resource) : io module_state unit :=
  modify (fun s => {| devno := devno s; live := filter (fun r' => r' <> r) (live s) |}).
(** [devno] is a [dev_t], an unsigned 32-bit integer. *)
Definition set_devno (v : Z) : io module_state unit :=
  modify (fun s => {| devno := u32 v; live := live s |}).

(** The error returned comes from the pointer, a negative number; a failed
    [register_chrdev] registers nothing. *)
(* @src linux/drivers/lmcache_ops.c 88-116 lmc_init *)
Definition chardev_init (a : answers) : io module_state Z :=
  match class_create a with
  | Some err => mret (- err)
  | None =>
      _ ← acquire RClass;
      _ ← (if 0 <=? register_chrdev a then acquire (RChrdev (u32 (register_chrdev a))) else mret tt);
      _ ← set_devno (register_chrdev a);
      d ← gets devno;
      if d <? 0 then
        _ ← release RClass;
        mret d
      else
        match device_create a with
        | Some err =>
            _ ← release (RChrdev d);
            _ ← release RClass;
            mret (- err)
        | None => _ ← acquire (RDevice d); mret 0
        end
  end.

(* @src linux/drivers/lmcache_ops.c 118-126 lmc_exit *)
Definition chardev_exit : io module_state unit :=
  d ← gets devno;
  _ ← release (RDevice d);
  _ ← release (RChrdev d);
  release RClass.

(** An error is positive, a major number fits the unsigned number. *)
Definition wf_answers (a : answers) : Prop :=
  (forall e, class_create a = Some e -> 0 < e) /\ (forall e, device_create a = Some e -> 0 < e)
  /\ 0 < register_chrdev a < 2 ^ 32.

(** loading either driver, when the kernel can give it a major number:
    on success it holds exactly the class, the device number and the device
    node, and unloading it gives all three back; on a failure of any other
    step it returns that step's error and holds nothing. *)
Theorem chardev_init_correct a d :
  wf_answers a ->
  let s := {| devno := d; live := [] |} in
  let '(ret, s') := chardev_init a s in
  match class_create a, device_create a with
  | None, None =>
      ret = 0 /\ live s' = [RClass; RChrdev (register_chrdev a); RDevice (register_chrdev a)]
      /\ live (exec chardev_exit s') = []
  | Some e, _ | None, Some e => ret = - e /\ live s' = []
  end.
Proof.
  intros (_ & _ & Hr). unfold chardev_init. destruct (class_create a) as [e|]; [done|].
  unfold mbind, io_bind, acquire, set_devno, release, gets, modify. cbn [live devno].
  destruct (Z.leb_spec 0 (register_chrdev a)); [|lia]. rewrite (wrap_id 32) by (unfold in_word; lia).
  cbn [live devno app]. destruct (Z.ltb_spec (register_chrdev a) 0); [lia|].
  destruct (device_create a) as [e|]; cbn; [by repeat (case_decide; try done)|].
  split_and!; [done..|]. unfold exec, chardev_exit, mbind, io_bind, release, gets, modify. cbn.
  by repeat (case_decide; cbn; try done).
Qed.

Lemma chardev_init_correct_witness :
  let a := {| class_create := None; register_chrdev := 240; device_create := None |} in
  wf_answers a /\ live (snd (chardev_init a {| devno := 0; live := [] |})) = [RClass; RChrdev 240; RDevice 240].
Proof.
  intros a. assert (H : wf_answers a) by (by split_and!). split; [done|].
  exact (proj1 (proj2 (chardev_init_correct a 0 H))).
Defined.

(** the check of [register_chrdev] can never fire, because the result is
    stored in an unsigned [dev_t]: when no major number can be registered
    and the device node is created all the same, loading the driver reports
    success with nothing registered. *)
Theorem chardev_init_unregistered a d :
  class_create a = None -> device_create a = None -> - 4096 < register_chrdev a < 0 ->
  let '(ret, s') := chardev_init a {| devno := d; live := [] |} in
  ret = 0 /\ forall m, RChrdev m ∉ live s'.
Proof.
  intros Hc Hd Hr. unfold chardev_init. rewrite Hc, Hd.
  unfold mbind, io_bind, acquire, set_devno, release, gets, modify. cbn [live devno].
  destruct (Z.leb_spec 0 (register_chrdev a)); [lia|].
  pose proof (wrap_range 32 (register_chrdev a) ltac:(lia)) as [? ?].
  destruct (Z.ltb_spec (u32 (register_chrdev a)) 0); [lia|]. cbn.
  split; [done|]. intros m. rewrite !not_elem_of_cons. split_and!; [done..|apply not_elem_of_nil].
Qed.

Lemma chardev_init_unregistered_witness :
  let a := {| class_create := None; register_chrdev := -16; device_create := None |} in
  -4096 < register_chrdev a < 0 /\ fst (chardev_init a {| devno := 0; live := [] |}) = 0.
Proof.
  intros a. split; [by split|].
  exact (proj1 (chardev_init_unregistered a 0 eq_refl eq_refl ltac:(done))).
Defined.
