(* ===== verification/LmCache.v ===== *)
(** Cache maintenance from user programs: the commands of
    linux/drivers/lmcache.h, the driver's handler in
    linux/drivers/lmcache_ops.c, which runs the operations of [Cache], and
    the user library of shared/linux/xil_cache.c, which calls the driver.

    Contents: the interface's commands, [lmc_ioctl], the library functions
    over a process that is one open file slot, the processor and what it
    printed; then the theorem that a library call has exactly the effect of
    the operation of the same name on the processor. *)
From S2P Require Import Prelude Device Cache CacheProofs Ioctl.
Open Scope Z_scope.

(** * Commands *)

(* @src linux/drivers/lmcache.h 43-50 lmc_cmd_t *)
Inductive lmc_cmd_t :=
  | cmd_d_flush
  | cmd_d_flush_rng
  | cmd_d_flush_invalidate
  | cmd_d_flush_invalidate_rng
  | cmd_d_invalidate
  | cmd_d_invalidate_rng.

Definition cmd_nr (c : lmc_cmd_t) : Z :=
  match c with
  | cmd_d_flush => 0 | cmd_d_flush_rng => 1
  | cmd_d_flush_invalidate => 2 | cmd_d_flush_invalidate_rng => 3
  | cmd_d_invalidate => 4 | cmd_d_invalidate_rng => 5
  end.

Definition cmd_of_nr (n : Z) : option lmc_cmd_t :=
  match n with
  | 0 => Some cmd_d_flush | 1 => Some cmd_d_flush_rng
  | 2 => Some cmd_d_flush_invalidate | 3 => Some cmd_d_flush_invalidate_rng
  | 4 => Some cmd_d_invalidate | 5 => Some cmd_d_invalidate_rng
  | _ => None
  end.

(* @src linux/drivers/lmcache.h 29-29 LMC_MAGIC *)
Definition LMC_MAGIC : Z := 255.

(** [rng_t]: an address and a size, 8 bytes each. *)
(* @src linux/drivers/lmcache.h 38-41 rng_t *)
Record rng_t := { addr : Z; size : Z }.
Definition sizeof_rng_t : Z := 16.
Definition rng_bytes (r : rng_t) : list Z := le_bytes 8 (addr r) ++ le_bytes 8 (size r).
Definition rng_of (l : list Z) : rng_t := {| addr := le_val (take 8 l); size := le_val (take 8 (drop 8 l)) |}.

Lemma rng_of_bytes r : rng_of (rng_bytes r) = {| addr := u64 (addr r); size := u64 (size r) |}.
Proof.
  unfold rng_of, rng_bytes. f_equal.
  - by rewrite take_app_le, take_ge, le_val_le_bytes by (by rewrite length_le_bytes).
  - rewrite drop_app_ge by (by rewrite length_le_bytes). rewrite length_le_bytes.
    change (8 - 8)%nat with 0%nat. by rewrite drop_0, take_ge, le_val_le_bytes by (by rewrite length_le_bytes).
Qed.

(** The environment of a call: [sys_open] is what opening [/dev/lmcache]
    returns, [is_lmcache] tells the descriptors that refer to the driver,
    [stack] is what the handler's local structure holds before the copy. *)
Class Env := {
  sys_open : Z;
  is_lmcache : Z -> bool;
  stack : list Z;
  stack_size : length stack = 16%nat
}.

Section Driver.
Context `{Ioc} `{Env}.

Definition with_range (c : lmc_cmd_t) : bool :=
  match c with cmd_d_flush_rng | cmd_d_flush_invalidate_rng | cmd_d_invalidate_rng => true | _ => false end.

(** [_IO] or [_IOW] of the command. *)
(* @src linux/drivers/lmcache.h 31-36 LMC_D_FLUSH *)
Definition LMC (c : lmc_cmd_t) : Z :=
  IOC (with_range c) false LMC_MAGIC (cmd_nr c) (if with_range c then sizeof_rng_t else 0).

Lemma LMC_decode c :
  ioc_in (LMC c) = with_range c /\ IOC_NR (LMC c) = cmd_nr c
  /\ IOC_SIZE (LMC c) = (if with_range c then sizeof_rng_t else 0).
Proof.
  unfold LMC.
  destruct (ioc_laws (with_range c) false LMC_MAGIC (cmd_nr c) (if with_range c then sizeof_rng_t else 0))
    as (Hi & _ & Hn & Hs); [by destruct c..|]. by split_and!.
Qed.

(** * The driver *)

(** The switch on the command number.  [None] only where a range loop has
    not finished. *)
(* @src linux/drivers/lmcache_ops.c 57-80 lmc_ioctl switch *)
Definition lmc_switch (nr : Z) (rng : rng_t) : io cpu (option Z) :=
  match cmd_of_nr nr with
  | Some cmd_d_flush => _ ← Xil_DCacheFlush; mret (Some 0)
  | Some cmd_d_flush_rng =>
      r ← Xil_DCacheFlushRange (addr rng) (size rng);
      mret (match r with Some _ => Some 0 | None => None end)
  | Some cmd_d_invalidate => _ ← Xil_DCacheInvalidate; mret (Some 0)
  | Some cmd_d_invalidate_rng =>
      r ← Xil_DCacheInvalidateRange (addr rng) (size rng);
      mret (match r with Some _ => Some 0 | None => None end)
  | _ => mret (Some (- EINVAL))
  end.

(** [user] is the bytes readable at [arg]. *)
(* @src linux/drivers/lmcache_ops.c 47-82 lmc_ioctl *)
Definition lmc_ioctl (cmd : Z) (user : list Z) : io cpu (option Z) :=
  if ioc_in cmd then
    let sz := IOC_SIZE cmd in
    if sizeof_rng_t <? sz then mret (Some (- EINVAL))
    else
      match copy_from_user stack user sz with
      | None => mret (Some (- EACCES))
      | Some rng => lmc_switch (IOC_NR cmd) (rng_of rng)
      end
  else lmc_switch (IOC_NR cmd) (rng_of stack).

(** * The user library *)

Inductive message := Failed (f : string) | Not_implemented (f : string).

Record proc := { fd : Z; kcpu : cpu; stderr : list message }.

(** The C library's [ioctl]: -1 on any error. *)
Definition ioctl (d cmd : Z) (user : list Z) : io proc (option Z) := fun p =>
  if is_lmcache d then
    let '(r, c) := lmc_ioctl cmd user (kcpu p) in
    (match r with Some r => Some (if r <? 0 then -1 else r) | None => None end,
     {| fd := fd p; kcpu := c; stderr := stderr p |})
  else (Some (-1), p).

(* @src linux/drivers/lmcache.h 54-57 lmc_d_flush *)
Definition lmc_d_flush (d : Z) : io proc (option Z) := ioctl d (LMC cmd_d_flush) [].
(* @src linux/drivers/lmcache.h 59-65 lmc_d_flush_rng *)
Definition lmc_d_flush_rng (d adr sz : Z) : io proc (option Z) :=
  ioctl d (LMC cmd_d_flush_rng) (rng_bytes {| addr := adr; size := sz |}).
(* @src linux/drivers/lmcache.h 67-70 lmc_d_flush_invalidate *)
Definition lmc_d_flush_invalidate (d : Z) : io proc (option Z) := ioctl d (LMC cmd_d_flush_invalidate) [].
(* @src linux/drivers/lmcache.h 72-78 lmc_d_flush_invalidate_rng *)
Definition lmc_d_flush_invalidate_rng (d adr sz : Z) : io proc (option Z) :=
  ioctl d (LMC cmd_d_flush_invalidate_rng) (rng_bytes {| addr := adr; size := sz |}).
(* @src linux/drivers/lmcache.h 80-83 lmc_d_invalidate *)
Definition lmc_d_invalidate (d : Z) : io proc (option Z) := ioctl d (LMC cmd_d_invalidate) [].
(* @src linux/drivers/lmcache.h 85-91 lmc_d_invalidate_rng *)
Definition lmc_d_invalidate_rng (d adr sz : Z) : io proc (option Z) :=
  ioctl d (LMC cmd_d_invalidate_rng) (rng_bytes {| addr := adr; size := sz |}).

(** [if (!fd) fd = open("/dev/lmcache", O_RDWR);] *)
Definition open_device : io proc Z := fun p =>
  let d := if fd p =? 0 then sys_open else fd p in
  (d, {| fd := d; kcpu := kcpu p; stderr := stderr p |}).

Definition fprintf (m : message) : io proc unit :=
  modify (fun p => {| fd := fd p; kcpu := kcpu p; stderr := stderr p ++ [m] |}).

(** A call that reports a failed driver access; [None] as in [lmc_ioctl]. *)
Definition call (f : string) (op : Z -> io proc (option Z)) : io proc (option unit) :=
  d ← open_device;
  ret ← op d;
  match ret with
  | None => mret None
  | Some ret => if ret <? 0 then _ ← fprintf (Failed f); mret (Some tt) else mret (Some tt)
  end.

End Driver.

Module User.
Section User.
Context `{Ioc} `{Env}.
(* @src shared/linux/xil_cache.c 21-29 Xil_DCacheInvalidate *)
Definition Xil_DCacheInvalidate : io proc (option unit) := call "Xil_DCacheInvalidate" lmc_d_invalidate.
(* @src shared/linux/xil_cache.c 31-39 Xil_DCacheInvalidateRange *)
Definition Xil_DCacheInvalidateRange (adr len : Z) : io proc (option unit) :=
  call "Xil_DCacheInvalidateRange" (fun d => lmc_d_invalidate_rng d adr len).
(* @src shared/linux/xil_cache.c 46-54 Xil_DCacheFlush *)
Definition Xil_DCacheFlush : io proc (option unit) := call "Xil_DCacheFlush" lmc_d_flush.
(* @src shared/linux/xil_cache.c 56-64 Xil_DCacheFlushRange *)
Definition Xil_DCacheFlushRange (adr len : Z) : io proc (option unit) :=
  call "Xil_DCacheFlushRange" (fun d => lmc_d_flush_rng d adr len).
(* @src shared/linux/xil_cache.c 11-14 Xil_DCacheEnable *)
Definition Xil_DCacheEnable : io proc unit := fprintf (Not_implemented "Xil_DCacheEnable").
(* @src shared/linux/xil_cache.c 16-19 Xil_DCacheDisable *)
Definition Xil_DCacheDisable : io proc unit := fprintf (Not_implemented "Xil_DCacheDisable").
(* @src shared/linux/xil_cache.c 41-44 Xil_DCacheInvalidateLine *)
Definition Xil_DCacheInvalidateLine (adr : Z) : io proc unit := fprintf (Not_implemented "Xil_DCacheInvalidateLine").
(* @src shared/linux/xil_cache.c 66-69 Xil_DCacheFlushLine *)
Definition Xil_DCacheFlushLine (adr : Z) : io proc unit := fprintf (Not_implemented "Xil_DCacheFlushLine").
(* @src shared/linux/xil_cache.c 72-75 Xil_ICacheEnable *)
Definition Xil_ICacheEnable : io proc unit := fprintf (Not_implemented "Xil_ICacheEnable").
(* @src shared/linux/xil_cache.c 77-80 Xil_ICacheDisable *)
Definition Xil_ICacheDisable : io proc unit := fprintf (Not_implemented "Xil_ICacheDisable").
(* @src shared/linux/xil_cache.c 82-85 Xil_ICacheInvalidate *)
Definition Xil_ICacheInvalidate : io proc unit := fprintf (Not_implemented "Xil_ICacheInvalidate").
(* @src shared/linux/xil_cache.c 87-90 Xil_ICacheInvalidateRange *)
Definition Xil_ICacheInvalidateRange (adr len : Z) : io proc unit := fprintf (Not_implemented "Xil_ICacheInvalidateRange").
(* @src shared/linux/xil_cache.c 92-95 Xil_ICacheInvalidateLine *)
Definition Xil_ICacheInvalidateLine (adr : Z) : io proc unit := fprintf (Not_implemented "Xil_ICacheInvalidateLine").
(* @src shared/linux/xil_cache.c 97-100 Xil_ConfigureL1Prefetch *)
Definition Xil_ConfigureL1Prefetch (num : Z) : io proc unit := fprintf (Not_implemented "Xil_ConfigureL1Prefetch").
End User.
End User.

Section Correctness.
Context `{Ioc} `{Env}.

(** * Correctness *)

Definition opened (p : proc) : Prop := is_lmcache (if fd p =? 0 then sys_open else fd p) = true.

(** A library call does to the processor what the operation does, reports
    nothing, and leaves the device open. *)
Definition refines (u : io proc (option unit)) (k : io cpu (option unit)) : Prop :=
  forall p, opened p ->
    fst (u p) = fst (k (kcpu p)) /\ kcpu (snd (u p)) = snd (k (kcpu p))
    /\ stderr (snd (u p)) = stderr p /\ opened (snd (u p)).

Lemma opened_slot d :
  is_lmcache (if d =? 0 then sys_open else d) = true ->
  is_lmcache (if (if d =? 0 then sys_open else d) =? 0 then sys_open else if d =? 0 then sys_open else d) = true.
Proof. destruct (d =? 0) eqn:E; [by destruct (sys_open =? 0)|by rewrite E]. Qed.

Lemma refines_call f c user k :
  (forall s, lmc_ioctl (LMC c) user s
             = (match fst (k s) with Some _ => Some 0 | None => None end, snd (k s))) ->
  refines (call f (fun d => ioctl d (LMC c) user)) k.
Proof.
  intros Hk p Hp. unfold call, open_device, mbind, io_bind, ioctl. unfold opened in *. rewrite Hp, Hk.
  cbn [fd kcpu stderr]. destruct (k (kcpu p)) as [[[]|] s]; cbn [fst snd].
  - cbn. split_and!; [done..|]. by apply opened_slot.
  - cbn. split_and!; [done..|]. by apply opened_slot.
Qed.

Lemma ioctl_plain c user : with_range c = false -> lmc_ioctl (LMC c) user = lmc_switch (cmd_nr c) (rng_of stack).
Proof. intros Hc. unfold lmc_ioctl. destruct (LMC_decode c) as (-> & -> & _). by rewrite Hc. Qed.

Lemma ioctl_range c adr len :
  with_range c = true -> in_word 64 adr -> in_word 64 len ->
  lmc_ioctl (LMC c) (rng_bytes {| addr := adr; size := len |}) = lmc_switch (cmd_nr c) {| addr := adr; size := len |}.
Proof.
  intros Hc Ha Hl. unfold lmc_ioctl. destruct (LMC_decode c) as (-> & -> & ->). rewrite Hc.
  change (sizeof_rng_t <? sizeof_rng_t) with false. cbv iota zeta.
  assert (Hlen : length (rng_bytes {| addr := adr; size := len |}) = 16%nat) by done.
  change sizeof_rng_t with (Z.of_nat 16). rewrite <- Hlen, copy_all by (by rewrite stack_size).
  rewrite rng_of_bytes. cbn [addr size]. by rewrite !wrap_id.
Qed.

(** C19: through the driver, the four cache operations user programs have do
    to the processor exactly what the operation of the same name does, for
    every address and length, and print nothing. *)
Theorem user_cache_refines adr len :
  in_word 64 adr -> in_word 64 len ->
  refines User.Xil_DCacheFlush (_ ← Cache.Xil_DCacheFlush; mret (Some tt))
  /\ refines User.Xil_DCacheInvalidate (_ ← Cache.Xil_DCacheInvalidate; mret (Some tt))
  /\ refines (User.Xil_DCacheFlushRange adr len) (Cache.Xil_DCacheFlushRange adr len)
  /\ refines (User.Xil_DCacheInvalidateRange adr len) (Cache.Xil_DCacheInvalidateRange adr len).
Proof.
  intros Ha Hl. split_and!; apply refines_call; intros s.
  - rewrite ioctl_plain by done. unfold mbind, io_bind. cbn [lmc_switch cmd_nr cmd_of_nr].
    unfold mbind, io_bind. by destruct (Cache.Xil_DCacheFlush s).
  - rewrite ioctl_plain by done. unfold mbind, io_bind. cbn [lmc_switch cmd_nr cmd_of_nr].
    unfold mbind, io_bind. by destruct (Cache.Xil_DCacheInvalidate s).
  - rewrite ioctl_range by done. cbn [lmc_switch cmd_nr cmd_of_nr addr size].
    unfold mbind, io_bind. by destruct (Cache.Xil_DCacheFlushRange adr len s) as [[]].
  - rewrite ioctl_range by done. cbn [lmc_switch cmd_nr cmd_of_nr addr size].
    unfold mbind, io_bind. by destruct (Cache.Xil_DCacheInvalidateRange adr len s) as [[]].
Qed.

(** the handler refuses what it does not know: a command that passes a
    larger structure and a command number outside the interface get [EINVAL],
    a structure it cannot read [EACCES], all without touching a cache; so do
    the two flush-and-invalidate calls the interface header offers. *)
Theorem lmc_ioctl_errors cmd user s :
  (ioc_in cmd = true -> 16 < IOC_SIZE cmd -> lmc_ioctl cmd user s = (Some (- EINVAL), s))
  /\ (ioc_in cmd = true -> IOC_SIZE cmd <= 16 -> Z.of_nat (length user) < IOC_SIZE cmd ->
      lmc_ioctl cmd user s = (Some (- EACCES), s))
  /\ (ioc_in cmd = false -> cmd_of_nr (IOC_NR cmd) = None -> lmc_ioctl cmd user s = (Some (- EINVAL), s))
  /\ lmc_ioctl (LMC cmd_d_flush_invalidate) user s = (Some (- EINVAL), s)
  /\ forall adr len, in_word 64 adr -> in_word 64 len ->
      lmc_ioctl (LMC cmd_d_flush_invalidate_rng) (rng_bytes {| addr := adr; size := len |}) s
                     = (Some (- EINVAL), s).
Proof.
  split_and!.
  - intros Hi Hs. unfold lmc_ioctl. rewrite Hi. by destruct (Z.ltb_spec sizeof_rng_t (IOC_SIZE cmd)); [|unfold sizeof_rng_t in *; lia].
  - intros Hi Hs Hu. unfold lmc_ioctl. rewrite Hi. destruct (Z.ltb_spec sizeof_rng_t (IOC_SIZE cmd)); [unfold sizeof_rng_t in *; lia|].
    unfold copy_from_user. destruct (Z.ltb_spec (Z.of_nat (length user)) (IOC_SIZE cmd)); [done|lia].
  - intros Hi Hn. unfold lmc_ioctl, lmc_switch. by rewrite Hi, Hn.
  - by rewrite ioctl_plain.
  - intros adr len ??. by rewrite ioctl_range.
Qed.
End Correctness.

Definition env0 : Env :=
  {| sys_open := 3; is_lmcache d := d =? 3; stack := replicate 16 0; stack_size := eq_refl |}.

Lemma user_cache_refines_witness :
  in_word 64 0x1030 /\
  let p := {| fd := 0; kcpu := a53; stderr := [] |} in
  stderr (snd (User.Xil_DCacheFlushRange (H0 := env0) 0x1030 100 p)) = [].
Proof.
  split; [done|]. intros p.
  destruct (user_cache_refines (H0 := env0) 0x1030 100) as (_ & _ & H & _); [done..|].
  exact (proj1 (proj2 (proj2 (H p eq_refl)))).
Defined.

Lemma lmc_ioctl_errors_witness :
  length (@stack env0) = 16%nat /\ fst (lmc_ioctl (H0 := env0) (LMC cmd_d_flush_invalidate) [] a53) = Some (-22).
Proof.
  split; [done|].
  by rewrite (proj1 (proj2 (proj2 (proj2 (lmc_ioctl_errors (H0 := env0) (LMC cmd_d_flush_invalidate) [] a53))))).
Defined.
