(* ===== verification/LmAlloc.v ===== *)
(** The allocation driver (linux/drivers/lmalloc.c) and the calls of
    lmalloc.h: DMA buffers owned by open files, mapped into processes, freed
    one by one or when the file is released.

    Contents: the driver's state (its allocation records by address, the list
    each open file keeps, the live DMA buffers, the process's areas), the
    handlers, the reachable states as a step relation, and the accounting
    invariant.  The kernel's own routines are the interface [Kernel] and the
    answers each handler takes as arguments; a result [None] is an invalid
    pointer dereference. *)
From S2P Require Import Prelude Device Ioctl.
Open Scope Z_scope.

(** * State *)

(** A process's area; [priv] is the pointer in [vm_private_data]. *)
Record vma := { vm_start : Z; vm_end : Z; priv : Z }.

#[export] Instance vma_eq_dec : EqDecision vma.
Proof. solve_decision. Defined.

(* @src linux/drivers/lmalloc.c 49-57 lma_alloc_inf_t *)
Record lma_alloc_inf_t := { cpu_addr : Z; dma_addr : Z; size : Z }.

Record state := {
  infs : gmap Z lma_alloc_inf_t;     (* records by address *)
  heads : gmap Z (list Z);           (* list of each open file *)
  dma : gset Z;                      (* live DMA buffers by CPU address *)
  vmas : list vma
}.

(** What the driver uses of the kernel's memory management. *)
Class Kernel := {
  PAGE_SHIFT : Z;
  page_shift_range : 0 < PAGE_SHIFT < 64;
  find_vma : list vma -> Z -> option vma;
  find_vma_spec : forall vs a v, find_vma vs a = Some v -> v ∈ vs /\ a < vm_end v;
  follow_pfn : vma -> Z -> Z + Z;                 (* error number, or page frame *)
  do_munmap : vma -> list vma -> list vma;
  do_munmap_spec : forall v vs v', v' ∈ do_munmap v vs -> v' ∈ vs /\ v' <> v
}.

Section Driver.
Context `{Kernel} `{Ioc}.

Definition page_align (x : Z) : Z := Z.land (u64 (x + (2 ^ PAGE_SHIFT - 1))) (not64 (2 ^ PAGE_SHIFT - 1)).
Definition page_start (a : Z) : Z := Z.land a (not64 (2 ^ PAGE_SHIFT - 1)).
Definition page_offset (a : Z) : Z := Z.land a (2 ^ PAGE_SHIFT - 1).

(** * Kernel allocations *)

Definition set_inf (p : Z) (i : lma_alloc_inf_t) : io state unit :=
  modify (fun s => {| infs := <[p := i]> (infs s); heads := heads s; dma := dma s; vmas := vmas s |}).
Definition kfree (p : Z) : io state unit :=
  modify (fun s => {| infs := delete p (infs s); heads := heads s; dma := dma s; vmas := vmas s |}).
Definition dma_alloc (a : Z) : io state unit :=
  modify (fun s => {| infs := infs s; heads := heads s; dma := {[a]} ∪ dma s; vmas := vmas s |}).
Definition dma_free_attrs (a : Z) : io state unit :=
  modify (fun s => {| infs := infs s; heads := heads s; dma := dma s ∖ {[a]}; vmas := vmas s |}).
Definition set_heads (g : gmap Z (list Z) -> gmap Z (list Z)) : io state unit :=
  modify (fun s => {| infs := infs s; heads := g (heads s); dma := dma s; vmas := vmas s |}).
Definition set_vmas (g : list vma -> list vma) : io state unit :=
  modify (fun s => {| infs := infs s; heads := heads s; dma := dma s; vmas := g (vmas s) |}).

Definition list_add (f p : Z) : io state unit := set_heads (alter (cons p) f).
Definition list_del (p : Z) : io state unit := set_heads (fmap (M := gmap Z) (filter (fun q => q <> p))).

(** * Handlers *)

(** [kz]: whether [kzalloc] succeeds. *)
(* @src linux/drivers/lmalloc.c 244-253 lma_open *)
Definition lma_open (f : Z) (kz : bool) : io state Z :=
  if negb kz then mret (- ENOMEM) else _ ← set_heads (insert f []); mret 0.

(** [kz], [da] and [mm]: what [kzalloc], [dma_alloc_attrs] (CPU and DMA
    address) and [dma_mmap_attrs] return.  The area enters the process on
    success. *)
(* @src linux/drivers/lmalloc.c 184-221 lma_mmap *)
Definition lma_mmap (f start end_ : Z) (kz : option Z) (da : option (Z * Z)) (mm : Z) : io state Z :=
  match kz with
  | None => mret (- ENOMEM)
  | Some p =>
      let sz := page_align (u64 (end_ - start)) in
      _ ← set_inf p {| cpu_addr := 0; dma_addr := 0; size := sz |};
      match da with
      | None => _ ← kfree p; mret (- ENOMEM)
      | Some (a, d) =>
          _ ← dma_alloc a;
          _ ← set_inf p {| cpu_addr := a; dma_addr := d; size := sz |};
          if mm <? 0 then
            _ ← dma_free_attrs a;
            _ ← kfree p;
            mret mm
          else
            _ ← set_vmas (cons {| vm_start := start; vm_end := end_; priv := p |});
            _ ← list_add f p;
            mret 0
      end
  end.

(** Free the buffer of a record, unlink it and free the record. *)
(* @src linux/drivers/lmalloc.c 231-237 lma_release body *)
Definition free_record (p : Z) : io state (option unit) := fun s =>
  match infs s !! p with
  | None => (None, s)
  | Some i => (_ ← dma_free_attrs (cpu_addr i); _ ← list_del p; _ ← kfree p; mret (Some tt)) s
  end.

(* @src linux/drivers/lmalloc.c 230-238 lma_release loop *)
Fixpoint release_loop (l : list Z) : io state (option unit) :=
  match l with
  | [] => mret (Some tt)
  | p :: l' => r ← free_record p; match r with None => mret None | Some _ => release_loop l' end
  end.

(* @src linux/drivers/lmalloc.c 223-242 lma_release *)
Definition lma_release (f : Z) : io state (option Z) := fun s =>
  match heads s !! f with
  | None => (None, s)
  | Some l =>
      (r ← release_loop l;
       match r with
       | None => mret None
       | Some _ => _ ← set_heads (delete f); mret (Some 0)
       end) s
  end.

(* @src linux/drivers/lmalloc.c 114-130 cmd_tran *)
Definition cmd_tran_case (a : Z) : io state (Z * option Z) := fun s =>
  let start := page_start a in
  let offset := page_offset a in
  match find_vma (vmas s) start with
  | None => ((- EACCES, None), s)
  | Some v =>
      match follow_pfn v start with
      | inl err => ((- err, None), s)
      | inr pfn => ((0, Some (u64 (u64 (Z.shiftl pfn PAGE_SHIFT) + offset))), s)
      end
  end.

(** [killed]: the semaphore was not taken; [mr]: what unmapping returns. *)
(* @src linux/drivers/lmalloc.c 131-167 cmd_free *)
Definition cmd_free_case (a : Z) (killed : bool) (mr : Z) : io state (option Z) := fun s =>
  let start := page_start a in
  if killed then (Some (- EINTR), s)
  else
    match find_vma (vmas s) start with
    | None => (None, s)
    | Some v =>
        if (vm_start v <=? start) && (start <? vm_end v) then
          if mr <? 0 then (Some mr, s)
          else
            (_ ← set_vmas (do_munmap v);
             r ← free_record (priv v);
             match r with None => mret None | Some _ => mret (Some 0) end) s
        else (Some (- EACCES), s)
    end.

(* @src linux/drivers/lmalloc.h 43-46 lma_cmd_t *)
Definition cmd_tran : Z := 0.
Definition cmd_free : Z := 1.
(* @src linux/drivers/lmalloc.h 33-36 LMA_TRAN, LMA_FREE *)
Definition LMA_MAGIC : Z := 254.
Definition sizeof_lma_t : Z := 8.
Definition LMA_TRAN : Z := IOC true true LMA_MAGIC cmd_tran sizeof_lma_t.
Definition LMA_FREE : Z := IOC true false LMA_MAGIC cmd_free sizeof_lma_t.

(** What surrounds a call: the uninitialised local, whether the caller's
    structure can be written, and the answers above. *)
Record context := { local : list Z; writable : bool; killed : bool; munmap_ret : Z }.

(** [user]: the caller's bytes at [arg]; the result holds them afterwards. *)
(* @src linux/drivers/lmalloc.c 71-182 lma_ioctl *)
Definition lma_ioctl (cmd : Z) (user : list Z) (x : context) : io state (option (Z * list Z)) :=
  let copied := if ioc_in cmd then copy_from_user (local x) user sizeof_lma_t else Some (local x) in
  match copied with
  | None => mret (Some (- EACCES, user))
  | Some lma =>
      let addr := le_val (take 8 lma) in
      let finish (paddr : Z) : io state (option (Z * list Z)) :=
        if ioc_out cmd then
          if writable x then mret (Some (0, le_bytes 8 paddr ++ drop 8 user))
          else mret (Some (- EACCES, user))
        else mret (Some (0, user)) in
      if IOC_NR cmd =? cmd_tran then
        r ← cmd_tran_case addr;
        match r with
        | (_, Some paddr) => finish paddr
        | (err, None) => mret (Some (err, user))
        end
      else if IOC_NR cmd =? cmd_free then
        r ← cmd_free_case addr (killed x) (munmap_ret x);
        match r with
        | None => mret None
        | Some ret => if ret =? 0 then finish addr else mret (Some (ret, user))
        end
      else mret (Some (- EINVAL, user))
  end.

(** The calls of the interface, given what the driver answers: the C library
    turns a negative result into -1. *)
Definition ioctl (cmd : Z) (user : list Z) (x : context) : io state (option (Z * list Z)) :=
  r ← lma_ioctl cmd user x;
  mret (match r with Some (ret, u) => Some (if ret <? 0 then -1 else ret, u) | None => None end).

(** Result and [*paddr]. *)
(* @src linux/drivers/lmalloc.h 50-58 lma_tran *)
Definition lma_tran (a : Z) (x : context) : io state (option (Z * Z)) :=
  r ← ioctl LMA_TRAN (le_bytes 8 a) x;
  mret (match r with Some (ret, u) => Some (ret, le_val u) | None => None end).

(** Mapping the device file: [a, b) is the area the kernel chose for the
    length asked for.  Result and [*addr]. *)
(* @src linux/drivers/lmalloc.h 60-65 lma_alloc *)
Definition lma_alloc (f a b : Z) (kz : option Z) (da : option (Z * Z)) (mm : Z) : io state (Z * option Z) :=
  ret ← lma_mmap f a b kz da mm;
  mret (if ret <? 0 then (-1, None) else (0, Some a)).

(* @src linux/drivers/lmalloc.h 67-72 lma_free *)
Definition lma_free (a : Z) (x : context) : io state (option Z) :=
  r ← ioctl LMA_FREE (le_bytes 8 a) x;
  mret (match r with Some (ret, _) => Some ret | None => None end).
(** Loading and unloading, as the cache driver does it, with the device's
    DMA operations set up at the end. *)
(* @src linux/drivers/lmalloc.c 264-302 lma_init *)
Definition lma_init (arch_setup_dma_ops : io module_state unit) (a : answers) : io module_state Z :=
  ret ← chardev_init a;
  _ ← (if ret =? 0 then arch_setup_dma_ops else mret tt);
  mret ret.

(* @src linux/drivers/lmalloc.c 304-312 lma_exit *)
Definition lma_exit : io module_state unit := chardev_exit.
End Driver.

(** * Accounting *)

(** Live buffers are exactly those of the records, one each; records are
    exactly the members of the lists of open files, each on one list once. *)
Record inv (s : state) : Prop := {
  inv_dma : forall a, a ∈ dma s <-> exists p i, infs s !! p = Some i /\ cpu_addr i = a;
  inv_inj : forall p q i j, infs s !! p = Some i -> infs s !! q = Some j -> cpu_addr i = cpu_addr j -> p = q;
  inv_listed : forall p, is_Some (infs s !! p) <-> exists f l, heads s !! f = Some l /\ p ∈ l;
  inv_nodup : forall f l, heads s !! f = Some l -> NoDup l;
  inv_disjoint : forall f g l m p, heads s !! f = Some l -> heads s !! g = Some m -> p ∈ l -> p ∈ m -> f = g
}.

Lemma inv_vmas g s : inv s -> inv (exec (set_vmas g) s).
Proof. by intros []; constructor. Qed.

Lemma filter_absent (p : Z) (l : list Z) : p ∉ l -> filter (fun q => q <> p) l = l.
Proof.
  induction l as [|q l IH]; intros Hp; [done|]. apply not_elem_of_cons in Hp as [? Hp].
  rewrite filter_cons, decide_True by done. by rewrite IH.
Qed.

Lemma filter_first (p : Z) (l : list Z) : p ∉ l -> filter (fun q => q <> p) (p :: l) = l.
Proof. intros Hp. rewrite filter_cons. case_decide; [done|]. by apply filter_absent. Qed.

(** The state after freeing record [p]. *)
Definition freed (p : Z) (i : lma_alloc_inf_t) (s : state) : state :=
  {| infs := delete p (infs s); heads := filter (fun q => q <> p) <$> heads s; dma := dma s ∖ {[cpu_addr i]}; vmas := vmas s |}.

Lemma free_record_run p i s : infs s !! p = Some i -> free_record p s = (Some tt, freed p i s).
Proof. intros H. unfold free_record. by rewrite H. Qed.

Lemma inv_freed p i s : infs s !! p = Some i -> inv s -> inv (freed p i s).
Proof.
  intros Hp [Hd Hi Hl Hn Hj]. constructor; unfold freed; cbn [infs heads dma].
  - intros a. rewrite elem_of_difference, elem_of_singleton, Hd. split.
    + intros [(q & j & Hq & <-) Hne]. exists q, j. by rewrite lookup_delete_ne by congruence.
    + intros (q & j & [Hne Hq]%lookup_delete_Some & <-). split; [by eauto|]. intros E. by eapply Hne, Hi.
  - intros q r j k [_ Hq]%lookup_delete_Some [_ Hr]%lookup_delete_Some. by apply Hi.
  - intros q. split.
    + intros [j [Hne Hq]%lookup_delete_Some]. destruct (proj1 (Hl q) (ex_intro _ j Hq)) as (f & l & Hf & Hin).
      exists f, (filter (fun r => r <> p) l). rewrite lookup_fmap, Hf. split; [done|]. by apply list_elem_of_filter.
    + intros (f & l & Hf & Hin). rewrite lookup_fmap in Hf. apply fmap_Some in Hf as (m & Hf & ->).
      apply list_elem_of_filter in Hin as [Hne Hin]. rewrite lookup_delete_ne by congruence. apply Hl. by eauto.
  - intros f l Hf. rewrite lookup_fmap in Hf. apply fmap_Some in Hf as (m & Hf & ->). apply NoDup_filter. by eapply Hn.
  - intros f g l m q Hf Hg. rewrite lookup_fmap in Hf, Hg. apply fmap_Some in Hf as (l' & Hf & ->), Hg as (m' & Hg & ->).
    intros [_ ?]%list_elem_of_filter [_ ?]%list_elem_of_filter. by eapply Hj.
Qed.

(** Releasing a whole list: it returns, and only that list's records go. *)
Lemma release_loop_run f l s :
  inv s -> heads s !! f = Some l ->
  exists s', release_loop l s = (Some tt, s') /\ inv s' /\ heads s' !! f = Some []
    /\ (forall g, g <> f -> heads s' !! g = heads s !! g) /\ vmas s' = vmas s
    /\ forall p, infs s' !! p = if decide (p ∈ l) then None else infs s !! p.
Proof.
  revert s. induction l as [|p l IH]; intros s Hs Hf.
  { exists s. by split_and!. }
  destruct (proj2 (inv_listed s Hs p)) as [i Hi]; [exists f, (p :: l); split; [done|by constructor]|].
  pose proof (inv_nodup s Hs f _ Hf) as [Hp _]%NoDup_cons.
  destruct (IH (freed p i s)) as (s' & Hr & Hs' & Hf' & Hg & Hv & Hinf).
  - by apply inv_freed.
  - cbn [freed heads]. rewrite lookup_fmap, Hf. cbn [fmap option_fmap option_map]. by rewrite filter_first.
  - exists s'. split_and!; try done.
    + cbn [release_loop]. unfold mbind, io_bind. by rewrite (free_record_run p i s Hi).
    + intros g Hne. rewrite Hg by done. cbn [freed heads]. rewrite lookup_fmap.
      destruct (heads s !! g) as [m|] eqn:Hm; [|done]. cbn [fmap option_fmap option_map]. f_equal.
      apply filter_absent. intros Hpm. apply Hne. by eapply (inv_disjoint s Hs g f m (p :: l) p); [..|constructor].
    + intros q. rewrite Hinf. cbn [freed infs].
      destruct (decide (q = p)) as [->|Hne].
      * rewrite lookup_delete_eq. rewrite (decide_True (P := p ∈ p :: l)) by constructor. by case_decide.
      * rewrite lookup_delete_ne by done. destruct (decide (q ∈ l)), (decide (q ∈ p :: l)) as [Hc|Hc]; rewrite ?elem_of_cons in Hc; naive_solver.
Qed.

Section Steps.
Context `{Kernel} `{Ioc}.

(** What can happen: a file is opened, an area of an open file is mapped
    (the kernel's allocators return fresh memory), a handler call completes,
    an open file is released, the kernel changes the process's areas. *)
Inductive step (s : state) : state -> Prop :=
  | step_open f kz : heads s !! f = None -> step s (exec (lma_open f kz) s)
  | step_mmap f a b kz da mm :
      is_Some (heads s !! f) -> (forall p, kz = Some p -> infs s !! p = None) ->
      (forall x, fst <$> da = Some x -> x ∉ dma s) -> step s (exec (lma_mmap f a b kz da mm) s)
  | step_ioctl cmd user x r s' : lma_ioctl cmd user x s = (Some r, s') -> step s s'
  | step_release f : is_Some (heads s !! f) -> step s (exec (lma_release f) s)
  | step_areas g : step s (exec (set_vmas g) s).

Definition initial : state := {| infs := ∅; heads := ∅; dma := ∅; vmas := [] |}.

Inductive reachable : state -> Prop :=
  | reach_init : reachable initial
  | reach_step s s' : reachable s -> step s s' -> reachable s'.

Lemma inv_open f kz s : inv s -> heads s !! f = None -> inv (exec (lma_open f kz) s).
Proof.
  intros Hs Hf. destruct kz; [|done].
  change (inv {| infs := infs s; heads := <[f := []]> (heads s); dma := dma s; vmas := vmas s |}). destruct Hs as [Hd Hi Hl Hn Hj].
  assert (Hne : forall g m, <[f := []]> (heads s) !! g = Some m -> m = [] \/ heads s !! g = Some m)
    by (intros g m [[? <-]|[]]%lookup_insert_Some; auto).
  constructor; cbn; try done.
  - intros p. rewrite Hl. split; intros (g & l & Hg & Hp); exists g, l; (split; [|done]).
    + by rewrite lookup_insert_ne by congruence.
    + destruct (Hne g l Hg) as [->|]; [set_solver|done].
  - intros g l [->|Hg]%Hne; [constructor|by eapply Hn].
  - intros g h l m p [->|Hg]%Hne [->|Hh]%Hne Hp Hq; [set_solver..|]. by eapply Hj.
Qed.

(** A mapping either fails and leaves the state as it was, or adds one
    record, one buffer and one area. *)
Lemma lma_mmap_cases f a b kz da mm s :
  (forall p, kz = Some p -> infs s !! p = None) -> (forall x, fst <$> da = Some x -> x ∉ dma s) ->
  let '(ret, s') := lma_mmap f a b kz da mm s in
  (ret < 0 /\ s' = s)
  \/ exists p x d, kz = Some p /\ da = Some (x, d) /\ ret = 0 /\
     s' = {| infs := <[p := {| cpu_addr := x; dma_addr := d; size := page_align (u64 (b - a)) |}]> (infs s);
             heads := alter (cons p) f (heads s); dma := {[x]} ∪ dma s;
             vmas := {| vm_start := a; vm_end := b; priv := p |} :: vmas s |}.
Proof.
  intros Hk Hd. unfold lma_mmap. destruct kz as [p|]; [|by left].
  specialize (Hk p eq_refl).
  destruct da as [[x d]|].
  - specialize (Hd x eq_refl). unfold mbind, io_bind. cbn [set_inf dma_alloc modify infs heads dma vmas].
    destruct (Z.ltb_spec mm 0) as [Hm|Hm]; cbn; [left|right].
    + split; [done|]. destruct s as [I Hh D V]. cbn in *. f_equal.
      * by rewrite insert_insert_eq, delete_insert_id.
      * set_solver.
    + exists p, x, d. split_and!; try done. by rewrite insert_insert_eq.
  - left. split; [done|]. destruct s as [I Hh D V]. cbn in *. f_equal. by rewrite delete_insert_id.
Qed.

Lemma inv_mmap f a b kz da mm s :
  inv s -> is_Some (heads s !! f) -> (forall p, kz = Some p -> infs s !! p = None) ->
  (forall x, fst <$> da = Some x -> x ∉ dma s) -> inv (exec (lma_mmap f a b kz da mm) s).
Proof.
  intros Hs [l Hf] Hk Hd. pose proof (lma_mmap_cases f a b kz da mm s Hk Hd) as Hc. unfold exec.
  destruct (lma_mmap f a b kz da mm s) as [ret s']. cbn [snd].
  destruct Hc as [[_ ->]|(p & x & d & -> & -> & _ & ->)]; [done|].
  specialize (Hk p eq_refl). specialize (Hd x eq_refl). destruct Hs as [Hdm Hi Hl Hn Hj].
  assert (Hnew : forall g m, heads s !! g = Some m -> p ∉ m).
  { intros g m Hg Hp. assert (is_Some (infs s !! p)) as [? E] by (apply Hl; by eauto). congruence. }
  assert (Ha : forall g m, alter (cons p) f (heads s) !! g = Some m ->
    (g = f /\ m = p :: l) \/ (g <> f /\ heads s !! g = Some m)).
  { intros g m [(<- & m' & Hm & ->)|[]]%lookup_alter_Some; [|by right]. left. by simplify_eq. }
  constructor; cbn.
  - intros y. rewrite elem_of_union, elem_of_singleton, Hdm. split.
    + intros [->|(q & i & Hq & <-)]; [by eexists p, _; rewrite lookup_insert_eq|].
      exists q, i. by rewrite lookup_insert_ne by congruence.
    + intros (q & i & [[<- <-]|[? ?]]%lookup_insert_Some & <-); [by left|right; by eauto].
  - intros q r i j [[<- <-]|[? Hq]]%lookup_insert_Some [[<- <-]|[? Hr]]%lookup_insert_Some Hc; try done; cbn in Hc.
    + exfalso. apply Hd, Hdm. by eauto.
    + exfalso. apply Hd, Hdm. by eauto.
    + by eapply Hi.
  - intros q. etrans; [apply lookup_insert_is_Some'|]. rewrite Hl. split.
    + intros [<-|(g & m & Hg & Hq)].
      * exists f, (p :: l). rewrite lookup_alter_eq, Hf. split; [done|]. by constructor.
      * destruct (decide (g = f)) as [->|Hne].
        -- exists f, (p :: l). rewrite lookup_alter_eq, Hf. split; [done|]. simplify_eq. by constructor.
        -- exists g, m. by rewrite lookup_alter_ne by congruence.
    + intros (g & m & [[-> ->]|[Hne Hg]]%Ha & Hq).
      * apply elem_of_cons in Hq as [->|]; [by left|right; by eauto].
      * right. by eauto.
  - intros g m [[-> ->]|[_ Hg]]%Ha; [|by eapply Hn]. constructor; [by eapply Hnew|by eapply Hn].
  - intros g h m m' q [[-> ->]|[Hg1 Hg]]%Ha [[-> ->]|[Hh1 Hh]]%Ha Hq Hq'; try done.
    + apply elem_of_cons in Hq as [->|Hq]; [by destruct (Hnew h m')|by eapply Hj].
    + apply elem_of_cons in Hq' as [->|Hq']; [by destruct (Hnew g m)|by eapply Hj].
    + by eapply Hj.
Qed.

Lemma cmd_free_run a v p i s :
  find_vma (vmas s) (page_start a) = Some v -> vm_start v <= page_start a -> priv v = p -> infs s !! p = Some i ->
  forall mr, 0 <= mr ->
  cmd_free_case a false mr s = (Some 0, freed p i (exec (set_vmas (do_munmap v)) s)).
Proof.
  intros Hf Hs <- Hi mr Hmr. unfold cmd_free_case. rewrite Hf. destruct (find_vma_spec _ _ _ Hf) as [_ He].
  destruct (Z.leb_spec (vm_start v) (page_start a)); [|lia]. destruct (Z.ltb_spec (page_start a) (vm_end v)); [|lia].
  destruct (Z.ltb_spec mr 0); [lia|]. cbn [andb]. unfold mbind, io_bind. cbn [set_vmas modify].
  erewrite free_record_run by done. done.
Qed.

Lemma cmd_free_cases a k mr s r s' :
  cmd_free_case a k mr s = (Some r, s') ->
  s' = s \/ exists g p i, infs s !! p = Some i /\ s' = freed p i (exec (set_vmas g) s).
Proof.
  unfold cmd_free_case. destruct k; [by intros [= <- <-]; left|].
  destruct (find_vma _ _) as [v|]; [|done].
  destruct (_ && _); [|by intros [= <- <-]; left]. destruct (mr <? 0); [by intros [= <- <-]; left|].
  unfold mbind, io_bind. cbn [set_vmas modify]. unfold free_record. cbn [infs].
  destruct (infs s !! priv v) as [i|] eqn:Hi; [|done]. intros [= <- <-]. right. by exists (do_munmap v), (priv v), i.
Qed.

Lemma lma_ioctl_cases cmd user x s r s' :
  lma_ioctl cmd user x s = (Some r, s') ->
  s' = s \/ exists g p i, infs s !! p = Some i /\ s' = freed p i (exec (set_vmas g) s).
Proof.
  unfold lma_ioctl. destruct (if ioc_in cmd then _ else _) as [l|]; [|by intros [= <- <-]; left].
  destruct (IOC_NR cmd =? cmd_tran).
  - unfold mbind, io_bind, cmd_tran_case. repeat case_match; simplify_eq; intros Hr; injection Hr as <- <-; by left.
  - destruct (IOC_NR cmd =? cmd_free); [|by intros [= <- <-]; left]. unfold mbind, io_bind.
    destruct (cmd_free_case _ _ _ s) as [[ret|] s1] eqn:E; [|done]. apply cmd_free_cases in E.
    destruct (ret =? 0); [destruct (ioc_out cmd); [destruct (writable x)|]|]; intros Hr; injection Hr as <- <-; exact E.
Qed.

Lemma inv_release f s : inv s -> is_Some (heads s !! f) -> inv (exec (lma_release f) s).
Proof.
  intros Hs [l Hf]. unfold exec, lma_release. rewrite Hf.
  destruct (release_loop_run f l s Hs Hf) as (s' & Hr & [Hd Hi Hl Hn Hj] & Hf' & _).
  unfold mbind, io_bind. rewrite Hr. cbn. constructor; cbn; try done.
  - intros p. rewrite Hl. split; intros (g & m & Hg & Hp); exists g, m.
    + rewrite lookup_delete_ne; [done|]. intros <-. rewrite Hf' in Hg. injection Hg as <-. by apply elem_of_nil in Hp.
    + by apply lookup_delete_Some in Hg as [_ Hg].
  - intros g m [_ Hg]%lookup_delete_Some. by eapply Hn.
  - intros g h m m' p [_ Hg]%lookup_delete_Some [_ Hh]%lookup_delete_Some. by eapply Hj.
Qed.

Lemma step_inv s s' : inv s -> step s s' -> inv s'.
Proof.
  intros Hs [f kz Hf|f a b kz da mm Hf Hk Hd|cmd user x r s1 Hr|f Hf|g].
  - by apply inv_open.
  - by apply inv_mmap.
  - apply lma_ioctl_cases in Hr as [->|(g & p & i & Hi & ->)]; [done|]. apply inv_freed; [done|]. by apply inv_vmas.
  - by apply inv_release.
  - by apply inv_vmas.
Qed.

Lemma reachable_accounted s : reachable s -> inv s.
Proof.
  induction 1 as [|s s' _ IH Hst]; [|by eapply step_inv].
  constructor; cbn; try (intros; simplify_map_eq; done).
  - intros a. split; [set_solver|]. intros (p & i & ? & _). by simplify_map_eq.
  - intros p. split; [intros [? ?]; by simplify_map_eq|]. intros (f & l & ? & _). by simplify_map_eq.
Qed.

(** in every state the driver can reach, whatever is opened, mapped,
    freed and released and whichever of those fail, the live DMA buffers are
    exactly those of the records on the lists of open files, each buffer in
    one record and each record on one list once. *)
Theorem reachable_inv s : reachable s -> inv s.
Proof. apply reachable_accounted. Qed.

(** C29: nothing leaks: once every open file has been released, in whatever
    way the driver got there, no DMA buffer is live and no record is
    allocated. *)
Theorem no_leak s : reachable s -> heads s = ∅ -> dma s = ∅ /\ infs s = ∅.
Proof.
  intros [Hd _ Hl _ _]%reachable_accounted Hh.
  assert (Hi : infs s = ∅).
  { apply map_empty. intros p. destruct (infs s !! p) eqn:E; [|done].
    destruct (proj1 (Hl p) (ex_intro _ _ E)) as (f & m & Hf & _). rewrite Hh in Hf. by simplify_map_eq. }
  split; [|done]. apply set_eq. intros a. rewrite Hd, Hi. split; [intros (p & i & ? & _); by simplify_map_eq|set_solver].
Qed.

(** releasing an open file returns 0 and frees exactly the file's
    records and buffers: the file is gone, every other file keeps its list
    and its records. *)
Theorem lma_release_correct f l s :
  reachable s -> heads s !! f = Some l ->
  exists s', lma_release f s = (Some 0, s') /\ heads s' = delete f (heads s)
    /\ (forall p, infs s' !! p = if decide (p ∈ l) then None else infs s !! p) /\ inv s'.
Proof.
  intros Hs%reachable_accounted Hf. pose proof (inv_release f s Hs (ex_intro _ l Hf)) as Hi'.
  destruct (release_loop_run f l s Hs Hf) as (s' & Hr & _ & Hf' & Hg & _ & Hinf).
  unfold exec, lma_release in *. rewrite Hf in *. unfold mbind, io_bind in *. rewrite Hr in *. cbn in Hi'.
  eexists. split; [done|]. split_and!; [|exact Hinf|exact Hi']. cbn.
  apply map_eq. intros g. destruct (decide (g = f)) as [->|Hne]; [by rewrite !lookup_delete_eq|].
  by rewrite !lookup_delete_ne, Hg by done.
Qed.
End Steps.

Section Calls.
Context `{Kernel} `{Ioc}.

Lemma lma_decode :
  (ioc_in LMA_TRAN = true /\ ioc_out LMA_TRAN = true /\ IOC_NR LMA_TRAN = cmd_tran)
  /\ (ioc_in LMA_FREE = true /\ ioc_out LMA_FREE = false /\ IOC_NR LMA_FREE = cmd_free).
Proof.
  unfold LMA_TRAN, LMA_FREE.
  destruct (ioc_laws true true LMA_MAGIC cmd_tran sizeof_lma_t) as (? & ? & ? & _); [done..|].
  destruct (ioc_laws true false LMA_MAGIC cmd_free sizeof_lma_t) as (? & ? & ? & _); [done..|]. done.
Qed.

(** The handler reads the structure the call passes. *)
Lemma lma_arg a x :
  in_word 64 a -> length (local x) = 8%nat ->
  exists l, copy_from_user (local x) (le_bytes 8 a) sizeof_lma_t = Some l /\ le_val (take 8 l) = a.
Proof.
  intros Ha Hx. exists (le_bytes 8 a). split.
  - change sizeof_lma_t with (Z.of_nat (length (le_bytes 8 a))). by apply copy_all.
  - rewrite take_ge by done. rewrite le_val_le_bytes. by apply wrap_id.
Qed.

Lemma lma_free_run a x v i s :
  in_word 64 a -> length (local x) = 8%nat -> killed x = false -> 0 <= munmap_ret x ->
  find_vma (vmas s) (page_start a) = Some v -> vm_start v <= page_start a -> infs s !! priv v = Some i ->
  lma_free a x s = (Some 0, freed (priv v) i (exec (set_vmas (do_munmap v)) s)).
Proof.
  intros Ha Hx Hk Hm Hf Hs Hi.
  destruct lma_decode as (_ & Hin & Hout & Hnr). destruct (lma_arg a x Ha Hx) as (l & Hc & Hl).
  unfold lma_free, ioctl, lma_ioctl. rewrite Hin, Hout, Hnr, Hc, Hk. cbv zeta. rewrite Hl.
  change (cmd_free =? cmd_tran) with false. change (cmd_free =? cmd_free) with true.
  unfold mbind, io_bind. by rewrite (cmd_free_run a v (priv v) i s Hf Hs eq_refl Hi _ Hm).
Qed.

(** [lma_free] of an address in an area the driver mapped, when the kernel
    unmaps it: it returns 0, the whole area leaves the process, and exactly
    that area's record and buffer are freed. *)
Theorem lma_free_correct a x v i s :
  in_word 64 a -> length (local x) = 8%nat -> killed x = false -> 0 <= munmap_ret x ->
  find_vma (vmas s) (page_start a) = Some v -> vm_start v <= page_start a -> infs s !! priv v = Some i ->
  exists s', lma_free a x s = (Some 0, s')
    /\ infs s' = delete (priv v) (infs s) /\ dma s' = dma s ∖ {[cpu_addr i]} /\ v ∉ vmas s'
    /\ heads s' = (filter (fun q => q <> priv v) <$> heads s).
Proof.
  intros Ha Hx Hk Hm Hf Hs Hi. exists (freed (priv v) i (exec (set_vmas (do_munmap v)) s)).
  split; [by apply lma_free_run|]. by split_and!; try done; intros [_ ?]%do_munmap_spec.
Qed.

Lemma lma_tran_run a x s :
  in_word 64 a -> length (local x) = 8%nat ->
  lma_tran a x s =
  (Some match find_vma (vmas s) (page_start a) with
        | None => (-1, a)
        | Some v =>
            match follow_pfn v (page_start a) with
            | inl err => if - err <? 0 then (-1, a) else (- err, a)
            | inr pfn => if writable x then (0, u64 (u64 (Z.shiftl pfn PAGE_SHIFT) + a mod 2 ^ PAGE_SHIFT)) else (-1, a)
            end
        end, s).
Proof.
  intros Ha Hx. destruct lma_decode as ((Hin & Hout & Hnr) & _). destruct (lma_arg a x Ha Hx) as (l & Hc & Hl).
  assert (Hv : le_val (le_bytes 8 a) = a) by (rewrite le_val_le_bytes; by apply wrap_id).
  assert (Hoff : page_offset a = a mod 2 ^ PAGE_SHIFT).
  { unfold page_offset. rewrite <- Z.land_ones by (pose proof page_shift_range; lia). f_equal. rewrite Z.ones_equiv. lia. }
  unfold lma_tran, ioctl, lma_ioctl. rewrite Hin, Hout, Hnr, Hc. cbv zeta. rewrite Hl.
  change (cmd_tran =? cmd_tran) with true. unfold mbind, io_bind, cmd_tran_case. rewrite Hoff.
  destruct (find_vma (vmas s) (page_start a)) as [v|]; [|unfold mret, io_ret; by rewrite Hv].
  destruct (follow_pfn v (page_start a)) as [err|pfn]; [unfold mret, io_ret; rewrite Hv; by destruct (- err <? 0)|].
  destruct (writable x); unfold mret, io_ret; [|by rewrite Hv].
  change (drop 8 (le_bytes 8 a)) with (@nil Z). rewrite app_nil_r, le_val_le_bytes.
  change (8 * Z.of_nat 8) with 64. by rewrite wrap_wrap by done.
Qed.

(** [lma_tran] of an address whose page is mapped stores the physical
    address of that very byte, frame and offset, and changes nothing; on an
    address outside every area, or when the caller's structure cannot be
    written, it fails and the stored value is the argument itself. *)
Theorem lma_tran_correct a x s :
  in_word 64 a -> length (local x) = 8%nat ->
  lma_tran a x s =
  (Some match find_vma (vmas s) (page_start a) with
        | None => (-1, a)
        | Some v =>
            match follow_pfn v (page_start a) with
            | inl err => if - err <? 0 then (-1, a) else (- err, a)
            | inr pfn => if writable x then (0, u64 (u64 (Z.shiftl pfn PAGE_SHIFT) + a mod 2 ^ PAGE_SHIFT)) else (-1, a)
            end
        end, s).
Proof. apply lma_tran_run. Qed.

Lemma cmd_free_crash a mr s :
  0 <= mr ->
  match find_vma (vmas s) (page_start a) with
  | None => True
  | Some v => vm_start v <= page_start a /\ infs s !! priv v = None
  end ->
  exists s', cmd_free_case a false mr s = (None, s').
Proof.
  intros Hm Hf. unfold cmd_free_case.
  destruct (find_vma (vmas s) (page_start a)) as [v|] eqn:Hv; [|by eexists]. destruct Hf as [Hs Hi].
  destruct (find_vma_spec _ _ _ Hv) as [_ He].
  destruct (Z.leb_spec (vm_start v) (page_start a)); [|lia]. destruct (Z.ltb_spec (page_start a) (vm_end v)); [|lia].
  destruct (Z.ltb_spec mr 0); [lia|]. cbn [andb]. exists (exec (set_vmas (do_munmap v)) s).
  unfold mbind, io_bind. cbn [set_vmas modify]. unfold free_record. cbn [infs]. by rewrite Hi.
Qed.

(** the free command trusts whatever area holds the address: with no
    area above it, or with one that another driver mapped, the handler
    follows a pointer that is not one of its records. *)
Theorem lma_free_unchecked a x s :
  in_word 64 a -> length (local x) = 8%nat -> killed x = false -> 0 <= munmap_ret x ->
  match find_vma (vmas s) (page_start a) with
  | None => True
  | Some v => vm_start v <= page_start a /\ infs s !! priv v = None
  end ->
  run (lma_free a x) s = None.
Proof.
  intros Ha Hx Hk Hm Hf. destruct lma_decode as (_ & Hin & Hout & Hnr). destruct (lma_arg a x Ha Hx) as (l & Hc & Hl).
  unfold run, lma_free, ioctl, lma_ioctl. rewrite Hin, Hout, Hnr, Hc, Hk. cbv zeta. rewrite Hl.
  change (cmd_free =? cmd_tran) with false. change (cmd_free =? cmd_free) with true.
  destruct (cmd_free_crash a (munmap_ret x) s Hm Hf) as [s' E]. unfold mbind, io_bind. by rewrite E.
Qed.
End Calls.

(** * A concrete kernel *)

#[local] Program Instance kernel0 : Kernel := {
  PAGE_SHIFT := 12;
  find_vma vs a := List.find (fun v => a <? vm_end v) vs;
  follow_pfn v a := inr (Z.shiftr a 12);
  do_munmap v := filter (fun v' => v' <> v)
}.
Next Obligation. done. Qed.
Next Obligation.
  simpl. intros vs a v Hv. apply List.find_some in Hv as [Hin Hlt]. split; [by apply list_elem_of_In|by apply Z.ltb_lt].
Qed.
Next Obligation. simpl. intros v vs v' Hin. by apply list_elem_of_filter in Hin as [? ?]. Qed.

Definition context0 : context := {| local := replicate 8 0; writable := true; killed := false; munmap_ret := 0 |}.

(** File 1 open, one buffer mapped at 0x10000. *)
Definition opened1 : state := exec (lma_open 1 true) initial.
Definition one_mapped : state := exec (lma_mmap 1 0x10000 0x12000 (Some 77) (Some (5, 6)) 0) opened1.

Lemma one_mapped_reachable : reachable one_mapped.
Proof.
  apply (reach_step opened1).
  - apply (reach_step initial); [constructor|]. by apply step_open.
  - apply step_mmap; [by exists []|done|]. intros x _. apply not_elem_of_empty.
Qed.

Lemma reachable_inv_witness : reachable one_mapped /\ (5 ∈ dma one_mapped <-> (exists p i, infs one_mapped !! p = Some i /\ cpu_addr i = 5)).
Proof. split; [apply one_mapped_reachable|]. apply (reachable_inv _ one_mapped_reachable). Defined.

Lemma no_leak_witness : dma (exec (lma_release 1) one_mapped) = ∅.
Proof.
  apply (no_leak (exec (lma_release 1) one_mapped)); [|done].
  eapply reach_step; [apply one_mapped_reachable|]. apply step_release. by exists [77].
Defined.

Lemma lma_release_correct_witness : exists s', lma_release 1 one_mapped = (Some 0, s').
Proof. destruct (lma_release_correct 1 [77] one_mapped one_mapped_reachable eq_refl) as (s' & Hr & _). by exists s'. Defined.

Lemma lma_free_correct_witness : exists s', lma_free 0x11234 context0 one_mapped = (Some 0, s') /\ infs s' = delete 77 (infs one_mapped).
Proof.
  destruct (lma_free_correct 0x11234 context0 {| vm_start := 0x10000; vm_end := 0x12000; priv := 77 |}
              {| cpu_addr := 5; dma_addr := 6; size := 0x2000 |} one_mapped) as (s' & Hr & Hi & _); [done..|].
  by exists s'.
Defined.

Lemma lma_tran_correct_witness : run (lma_tran 0x11234 context0) one_mapped = Some (0, 0x11234).
Proof. unfold run. rewrite (lma_tran_correct 0x11234 context0 one_mapped) by done. by vm_compute. Defined.

Lemma lma_free_unchecked_witness : run (lma_free 0x13000 context0) one_mapped = None.
Proof. apply (lma_free_unchecked 0x13000 context0 one_mapped); by vm_compute. Defined.
