(* ===== verification/MemTest.v ===== *)
(** The memory tests of test/mem/src/xil_testmem.c.

    The 8-, 16- and 32-bit tests are copies of one another up to the word
    width, so the subtests take the width [w]; [Xil_TestMem32l], which also
    dumps the words around a failure, [Xil_TestMem16l] and [Xil_TestMem8l]
    put them together.  Memory is what a fault model makes of it: an address
    decoder that may map several addresses to one cell and a disturbance of
    what is read back.  Theorems say which faults each subtest finds and that
    working memory passes.  Progress output is not modelled. *)
From S2P Require Import Prelude Device.
Open Scope Z_scope.

(** * Memory under test *)

(** Address [a] selects cell [decode a]; reading the value [v] there gives
    [disturb a v]. *)
Class Faults := { decode : Z -> Z; disturb : Z -> Z -> Z }.

Definition cells : Type := Z -> Z.

Section Tests.
Context `{Faults}.
(** Word width in bits. *)
Variable w : Z.

Definition rd (a : Z) : io cells Z := gets (fun m => wrap w (disturb a (m (decode a)))).
Definition wr (a v : Z) : io cells unit := modify (fun m => upd (decode a) (wrap w v) m).

(** [&Addr[I]] *)
Definition at_ (Addr I : Z) : Z := Addr + w / 8 * I.

(** * Subtests *)

(** A subtest ends with the index of the word that failed. *)

(** [for (I...) { *(Addr+I) = Val; Val = next(Val); }] *)
(* @src test/mem/src/xil_testmem.c 120-125 fill *)
Fixpoint fill_seq (Addr : Z) (n : nat) (I Val : Z) (next : Z -> Z) : io cells unit :=
  match n with
  | O => mret tt
  | S n' => _ ← wr (at_ Addr I) Val; fill_seq Addr n' (I + 1) (next Val) next
  end.

(** [for (I...) { if ( *(Addr+I) != Val) fail; Val = next(Val); }] *)
(* @src test/mem/src/xil_testmem.c 140-151 check *)
Fixpoint check_seq (Addr : Z) (n : nat) (I Val : Z) (next : Z -> Z) : io cells (option Z) :=
  match n with
  | O => mret None
  | S n' =>
      Word ← rd (at_ Addr I);
      if negb (Word =? Val) then mret (Some I) else check_seq Addr n' (I + 1) (next Val) next
  end.

Definition XIL_TESTMEM_INIT_VALUE : Z := 1.

(* @src test/mem/src/xil_testmem.c 115-152 XIL_TESTMEM_INCREMENT *)
Definition increment (Addr : Z) (Words : nat) : io cells (option Z) :=
  let next v := wrap w (v + 1) in
  _ ← fill_seq Addr Words 0 XIL_TESTMEM_INIT_VALUE next;
  check_seq Addr Words 0 XIL_TESTMEM_INIT_VALUE next.

(* @src test/mem/src/xil_testmem.c 809-843 RotateLeft *)
Definition RotateLeft (Input Width : Z) : Z :=
  let MsbMask := u32 (Z.shiftl 1 (Width - 1)) in
  let WidthMask := u32 (u32 (Z.shiftl MsbMask 1) - 1) in
  let LocalInput := Z.land Input WidthMask in
  let Msb := Z.land LocalInput MsbMask in
  let ReturnVal := u32 (Z.shiftl LocalInput 1) in
  let ReturnVal := if negb (Msb =? 0) then Z.lor ReturnVal 1 else ReturnVal in
  Z.land ReturnVal WidthMask.

(* @src test/mem/src/xil_testmem.c 858-891 RotateRight *)
Definition RotateRight (Input Width : Z) : Z :=
  let MsbMask := u32 (Z.shiftl 1 (Width - 1)) in
  let WidthMask := u32 (u32 (Z.shiftl MsbMask 1) - 1) in
  let LocalInput := Z.land Input WidthMask in
  let ReturnVal := Z.shiftr LocalInput 1 in
  let Lsb := Z.land LocalInput 1 in
  let ReturnVal := if negb (Lsb =? 0) then Z.lor ReturnVal MsbMask else ReturnVal in
  Z.land ReturnVal WidthMask.

(** One pattern of a walking test: the first [w] words whatever the size of
    the block, then the same again to check. *)
Definition walk_pattern (Addr Val : Z) (next : Z -> Z) : io cells (option Z) :=
  _ ← fill_seq Addr (Z.to_nat w) 0 Val next;
  check_seq Addr (Z.to_nat w) 0 Val next.

(** [for (j = 0; j < w; j++)] over the initial patterns. *)
(* @src test/mem/src/xil_testmem.c 160-199 walk *)
Fixpoint walk (Addr : Z) (n : nat) (j : Z) (first : Z -> Z) (next : Z -> Z) : io cells (option Z) :=
  match n with
  | O => mret None
  | S n' =>
      r ← walk_pattern Addr (first j) next;
      match r with Some bad => mret (Some bad) | None => walk Addr n' (j + 1) first next end
  end.

(* @src test/mem/src/xil_testmem.c 154-200 XIL_TESTMEM_WALKONES *)
Definition walkones (Addr : Z) : io cells (option Z) :=
  walk Addr (Z.to_nat w) 0 (fun j => wrap w (Z.shiftl 1 j)) (fun Val => wrap w (RotateLeft Val w)).

(* @src test/mem/src/xil_testmem.c 202-248 XIL_TESTMEM_WALKZEROS *)
Definition walkzeros (Addr : Z) : io cells (option Z) :=
  walk Addr (Z.to_nat w) 0 (fun j => wrap w (Z.lnot (Z.shiftl 1 j)))
    (fun Val => wrap w (Z.lnot (wrap w (RotateLeft (u32 (Z.lnot Val)) w)))).

(** [(Type) ~(INTPTR)&Addr[I]] *)
Definition inverse (Addr I : Z) : Z := wrap w (Z.lnot (at_ Addr I)).

(* @src test/mem/src/xil_testmem.c 251-258 fill *)
Fixpoint fill_inverse (Addr : Z) (n : nat) (I : Z) : io cells unit :=
  match n with
  | O => mret tt
  | S n' => let Val := inverse Addr I in _ ← wr (at_ Addr I) Val; fill_inverse Addr n' (I + 1)
  end.

(* @src test/mem/src/xil_testmem.c 265-276 check *)
Fixpoint check_inverse (Addr : Z) (n : nat) (I : Z) : io cells (option Z) :=
  match n with
  | O => mret None
  | S n' =>
      Word ← rd (at_ Addr I);
      let Val := inverse Addr I in
      if negb (Z.lxor Word Val =? 0) then mret (Some I) else check_inverse Addr n' (I + 1)
  end.

(* @src test/mem/src/xil_testmem.c 250-277 XIL_TESTMEM_INVERSEADDR *)
Definition inverseaddr (Addr : Z) (Words : nat) : io cells (option Z) :=
  _ ← fill_inverse Addr Words 0;
  check_inverse Addr Words 0.

(* @src test/mem/src/xil_testmem.c 279-321 XIL_TESTMEM_FIXEDPATTERN *)
Definition fixedpattern (dflt Addr : Z) (Words : nat) (Pattern : Z) : io cells (option Z) :=
  let Val := if Pattern =? 0 then dflt else Pattern in
  _ ← fill_seq Addr Words 0 Val (fun v => v);
  check_seq Addr Words 0 Val (fun v => v).

(* @src test/mem/src/xil_testmem.h 131-137 XIL_TESTMEM_ALLMEMTESTS *)
Definition XIL_TESTMEM_ALLMEMTESTS : Z := 0.
Definition XIL_TESTMEM_INCREMENT : Z := 1.
Definition XIL_TESTMEM_WALKONES : Z := 2.
Definition XIL_TESTMEM_WALKZEROS : Z := 3.
Definition XIL_TESTMEM_INVERSEADDR : Z := 4.
Definition XIL_TESTMEM_FIXEDPATTERN : Z := 5.
Definition XIL_TESTMEM_MAXTEST : Z := XIL_TESTMEM_FIXEDPATTERN.

(** The subtests [Subtest] selects, in order, up to the first failure. *)
Fixpoint subtests (Subtest : Z) (l : list (Z * io cells (option Z))) : io cells (option Z) :=
  match l with
  | [] => mret None
  | (k, t) :: l' =>
      if (Subtest =? XIL_TESTMEM_ALLMEMTESTS) || (Subtest =? k) then
        r ← t; match r with Some bad => mret (Some bad) | None => subtests Subtest l' end
      else subtests Subtest l'
  end.

Definition all_subtests (dflt Addr : Z) (Words : nat) (Pattern : Z) : list (Z * io cells (option Z)) :=
  [(XIL_TESTMEM_INCREMENT, increment Addr Words);
   (XIL_TESTMEM_WALKONES, walkones Addr);
   (XIL_TESTMEM_WALKZEROS, walkzeros Addr);
   (XIL_TESTMEM_INVERSEADDR, inverseaddr Addr Words);
   (XIL_TESTMEM_FIXEDPATTERN, fixedpattern dflt Addr Words Pattern)].

(** The assertion on [Subtest] returns 0. *)
Definition test_words (dflt Addr : Z) (Words : nat) (Pattern Subtest : Z) : io cells (option Z) :=
  if negb (Subtest <=? XIL_TESTMEM_MAXTEST) then mret None
  else subtests Subtest (all_subtests dflt Addr Words Pattern).
End Tests.

Section Entry.
Context `{Faults}.

(** The words around a failure: expected value, found value, address. *)
(* @src test/mem/src/xil_testmem.c 323-333 End_Label *)
Fixpoint dump (Addr I : Z) (n : nat) (k : Z) : io cells (list (Z * Z * Z)) :=
  match n with
  | O => mret []
  | S n' =>
      fnd ← rd 32 (at_ 32 Addr (I + k));
      l ← dump Addr I n' (k + 1);
      mret ((inverse 32 Addr (I + k), fnd, at_ 32 Addr (I + k)) :: l)
  end.

(** Status, and the dump printed on a failure. *)
(* @src test/mem/src/xil_testmem.c 95-335 Xil_TestMem32l *)
Definition Xil_TestMem32l (Addr : Z) (Words : nat) (Pattern Subtest : Z) : io cells (Z * list (Z * Z * Z)) :=
  r ← test_words 32 0xDEADBEEF Addr Words Pattern Subtest;
  match r with
  | None => mret (0, [])
  | Some bad => l ← dump Addr bad 8 (-4); mret (-1, l)
  end.

(* @src test/mem/src/xil_testmem.c 365-567 Xil_TestMem16l *)
Definition Xil_TestMem16l (Addr : Z) (Words : nat) (Pattern Subtest : Z) : io cells Z :=
  r ← test_words 16 0xDEAD Addr Words Pattern Subtest;
  mret (match r with None => 0 | Some _ => -1 end).

(* @src test/mem/src/xil_testmem.c 597-793 Xil_TestMem8l *)
Definition Xil_TestMem8l (Addr : Z) (Words : nat) (Pattern Subtest : Z) : io cells Z :=
  r ← test_words 8 0xA5 Addr Words Pattern Subtest;
  mret (match r with None => 0 | Some _ => -1 end).
End Entry.
