(* ===== verification/MemTestProofs.v ===== *)
(** Which faults the memory tests find, and that working memory passes. *)
From S2P Require Import Prelude Device MemTest.
Open Scope Z_scope.

(** The widths of the three entry points. *)
Definition width (w : Z) : Prop := w = 8 \/ w = 16 \/ w = 32.

Section Loops.
Context `{Faults}.
Variable w : Z.

(** Memory after writing [f i] to word [i] for each [i] of [I, I+n). *)
Fixpoint written (Addr : Z) (n : nat) (I : Z) (f : Z -> Z) (m : cells) : cells :=
  match n with
  | O => m
  | S n' => written Addr n' (I + 1) f (upd (decode (at_ w Addr I)) (wrap w (f I)) m)
  end.

(** What a fill and check of the values [f] accepts. *)
Definition reads_back (Addr : Z) (n : nat) (I : Z) (f : Z -> Z) (m : cells) : Prop :=
  forall i, I <= i < I + Z.of_nat n -> wrap w (disturb (at_ w Addr i) (m (decode (at_ w Addr i)))) = f i.

Lemma fill_seq_run Addr n I f next m :
  (forall i, I <= i -> next (f i) = f (i + 1)) -> fill_seq w Addr n I (f I) next m = (tt, written Addr n I f m).
Proof.
  revert I m. induction n as [|n IH]; intros I m Hf; [done|]. cbn [fill_seq written].
  erewrite bind_run by done. rewrite Hf by lia. apply IH. intros i ?. apply Hf. lia.
Qed.

Lemma fill_inverse_run Addr n I m : fill_inverse w Addr n I m = (tt, written Addr n I (inverse w Addr) m).
Proof.
  revert I m. induction n as [|n IH]; intros I m; [done|]. cbn [fill_inverse written].
  erewrite bind_run by done. apply IH.
Qed.

Lemma reads_back_S Addr n I f m :
  reads_back Addr (S n) I f m <->
  wrap w (disturb (at_ w Addr I) (m (decode (at_ w Addr I)))) = f I /\ reads_back Addr n (I + 1) f m.
Proof.
  unfold reads_back. split.
  - intros Hr. split; [apply Hr; lia|]. intros i ?. apply Hr. lia.
  - intros [H0 Hr] i Hi. destruct (decide (i = I)) as [->|]; [done|]. apply Hr. lia.
Qed.

Lemma check_seq_run Addr n I f next m :
  (forall i, I <= i -> next (f i) = f (i + 1)) ->
  exists r, check_seq w Addr n I (f I) next m = (r, m) /\ (r = None <-> reads_back Addr n I f m).
Proof.
  revert I. induction n as [|n IH]; intros I Hf.
  { exists None. split; [done|]. split; [|done]. intros _ i. lia. }
  cbn [check_seq]. erewrite bind_run by done.
  destruct (Z.eqb_spec (wrap w (disturb (at_ w Addr I) (m (decode (at_ w Addr I))))) (f I)) as [He|He]; cbn [negb].
  - rewrite Hf by lia. destruct (IH (I + 1)) as (r & Hr & Hiff); [intros; apply Hf; lia|].
    exists r. split; [done|]. rewrite reads_back_S, Hiff. tauto.
  - exists (Some I). split; [done|]. rewrite reads_back_S. split; [done|tauto].
Qed.

Lemma lxor_eqb a b : (Z.lxor a b =? 0) = (a =? b).
Proof.
  destruct (Z.eqb_spec a b) as [->|Hne]; [by rewrite Z.lxor_nilpotent|].
  apply Z.eqb_neq. by rewrite Z.lxor_eq_0_iff.
Qed.

Lemma check_inverse_run Addr n I m :
  exists r, check_inverse w Addr n I m = (r, m) /\ (r = None <-> reads_back Addr n I (inverse w Addr) m).
Proof.
  revert I. induction n as [|n IH]; intros I.
  { exists None. split; [done|]. split; [|done]. intros _ i. lia. }
  cbn [check_inverse]. erewrite bind_run by done. rewrite lxor_eqb.
  destruct (Z.eqb_spec (wrap w (disturb (at_ w Addr I) (m (decode (at_ w Addr I))))) (inverse w Addr I)) as [He|He]; cbn [negb].
  - destruct (IH (I + 1)) as (r & Hr & Hiff). exists r. split; [done|]. rewrite reads_back_S, Hiff. tauto.
  - exists (Some I). split; [done|]. rewrite reads_back_S. split; [done|tauto].
Qed.

(** A cell holds the value of the last word written to it. *)
Lemma written_cases Addr n I f m x :
  (exists j, I <= j < I + Z.of_nat n /\ decode (at_ w Addr j) = x /\ written Addr n I f m x = wrap w (f j))
  \/ ((forall j, I <= j < I + Z.of_nat n -> decode (at_ w Addr j) <> x) /\ written Addr n I f m x = m x).
Proof.
  revert I m. induction n as [|n IH]; intros I m; [right; split; [lia|done]|]. cbn [written].
  destruct (IH (I + 1) (upd (decode (at_ w Addr I)) (wrap w (f I)) m)) as [(j & Hj & Hd & Hw)|[Hn Hw]].
  - left. exists j. split; [lia|done].
  - destruct (decide (decode (at_ w Addr I) = x)) as [<-|Hne].
    + left. exists I. split_and!; [lia|lia|done|]. by rewrite Hw, upd_eq.
    + right. split; [|by rewrite Hw, upd_ne].
      intros j Hj. destruct (decide (j = I)) as [->|]; [done|]. apply Hn. lia.
Qed.

(** [n] words from [Addr] are decoded to different cells. *)
Definition distinct (Addr n : Z) : Prop :=
  forall i j, 0 <= i < n -> 0 <= j < n -> decode (at_ w Addr i) = decode (at_ w Addr j) -> i = j.

Lemma written_distinct Addr n f m i :
  distinct Addr (Z.of_nat n) -> 0 <= i < Z.of_nat n -> written Addr n 0 f m (decode (at_ w Addr i)) = wrap w (f i).
Proof.
  intros Hd Hi. destruct (written_cases Addr n 0 f m (decode (at_ w Addr i))) as [(j & Hj & Hdec & ->)|[Hn _]].
  - by rewrite (Hd j i) by (done || lia).
  - exfalso. by apply (Hn i).
Qed.

(** A fill and check of [f] on distinct cells, whatever they held before. *)
Lemma fill_check_distinct Addr n f next m :
  0 <= w -> distinct Addr (Z.of_nat n) -> (forall i, 0 <= i -> next (f i) = f (i + 1)) -> (forall i, in_word w (f i)) ->
  exists r m', (_ ← fill_seq w Addr n 0 (f 0) next; check_seq w Addr n 0 (f 0) next) m = (r, m')
    /\ (r = None <-> forall i, 0 <= i < Z.of_nat n -> wrap w (disturb (at_ w Addr i) (f i)) = f i).
Proof.
  intros Hw Hd Hf Hr. erewrite bind_run by (apply fill_seq_run; done).
  destruct (check_seq_run Addr n 0 f next (written Addr n 0 f m) Hf) as (r & Hrun & Hiff).
  exists r, (written Addr n 0 f m). split; [done|]. rewrite Hiff. unfold reads_back.
  assert (Hc : forall i, 0 <= i < Z.of_nat n -> written Addr n 0 f m (decode (at_ w Addr i)) = f i)
    by (intros; rewrite written_distinct by (done || lia); by apply wrap_id).
  split; intros Hb i Hi; specialize (Hb i Hi); [by rewrite Hc in Hb by lia|by rewrite Hc by lia].
Qed.

(** * Inverse addresses *)

Lemma inverse_range Addr i : 0 <= w -> in_word w (inverse w Addr i).
Proof. apply wrap_range. Qed.

Lemma inverse_eq Addr i j : 0 <= w -> inverse w Addr i = inverse w Addr j <-> wrap w (at_ w Addr i) = wrap w (at_ w Addr j).
Proof.
  intros Hw. unfold inverse.
  assert (Hn : forall x, wrap w (Z.lnot x) = 2 ^ w - 1 - wrap w x).
  { intros x. unfold wrap. replace (Z.lnot x) with (2 ^ w - 1 - x mod 2 ^ w + (- (x / 2 ^ w) - 1) * 2 ^ w).
    - rewrite Z.mod_add by lia. apply Z.mod_small. pose proof (Z.mod_pos_bound x (2 ^ w)). lia.
    - unfold Z.lnot. pose proof (Z.div_mod x (2 ^ w)). lia. }
  rewrite !Hn. lia.
Qed.

(** The inverse address test, on memory whose only fault is address decoding. *)
Lemma inverseaddr_run Addr n m :
  0 <= w -> (forall a v, disturb a v = v) ->
  exists r m', inverseaddr w Addr n m = (r, m')
    /\ (r = None <-> forall i j, 0 <= i < Z.of_nat n -> 0 <= j < Z.of_nat n ->
          decode (at_ w Addr i) = decode (at_ w Addr j) -> wrap w (at_ w Addr i) = wrap w (at_ w Addr j)).
Proof.
  intros Hw Hv. unfold inverseaddr. erewrite bind_run by apply fill_inverse_run.
  set (m' := written Addr n 0 (inverse w Addr) m).
  destruct (check_inverse_run Addr n 0 m') as (r & Hrun & Hiff). exists r, m'. split; [done|].
  rewrite Hiff. unfold reads_back. setoid_rewrite Hv.
  setoid_rewrite <- (inverse_eq Addr _ _ Hw). split.
  - intros Hb i j Hi Hj He. rewrite <- (Hb i), <- (Hb j), He by lia. done.
  - intros Ha i Hi.
    destruct (written_cases Addr n 0 (inverse w Addr) m (decode (at_ w Addr i))) as [(j & Hj & Hdec & Hc)|[Hn _]].
    + unfold m'. rewrite Hc, !wrap_wrap by done. rewrite (Ha i j) by (done || lia). by apply wrap_id, inverse_range.
    + exfalso. by apply (Hn i).
Qed.
End Loops.

(** * Walking patterns *)

(** One step of the rotation, for every width and bit. *)
Lemma RotateLeft_bit w k : width w -> 0 <= k < w -> RotateLeft (2 ^ k) w = 2 ^ ((k + 1) mod w).
Proof.
  intros Hw Hk.
  assert (Hall : forall w', width w' -> forallb (fun k => RotateLeft (2 ^ k) w' =? 2 ^ ((k + 1) mod w')) (seqZ 0 w') = true)
    by (intros w' [-> | [-> | ->]]; by vm_compute).
  specialize (Hall w Hw). rewrite forallb_forall in Hall. apply Z.eqb_eq, Hall, list_elem_of_In, elem_of_seqZ. lia.
Qed.

Lemma width_range w : width w -> 0 < w <= 32.
Proof. intros [-> | [-> | ->]]; lia. Qed.

Definition one (w j i : Z) : Z := 2 ^ ((j + i) mod w).
Definition zero (w j i : Z) : Z := not_w w (one w j i).

Lemma one_range w j i : width w -> in_word w (one w j i).
Proof.
  intros Hw%width_range. pose proof (Z.mod_pos_bound (j + i) w). unfold one, in_word.
  pose proof (Z.pow_lt_mono_r 2 ((j + i) mod w) w). pose proof (Z.pow_pos_nonneg 2 ((j + i) mod w)). lia.
Qed.

Lemma one_next w j i : width w -> RotateLeft (one w j i) w = one w j (i + 1).
Proof.
  intros Hw. pose proof (width_range w Hw). unfold one.
  rewrite RotateLeft_bit by (done || apply Z.mod_pos_bound; lia). f_equal.
  rewrite Z.add_mod_idemp_l by lia. f_equal. lia.
Qed.

Lemma one_step w j i : width w -> wrap w (RotateLeft (one w j i) w) = one w j (i + 1).
Proof. intros Hw. rewrite one_next by done. by apply wrap_id, one_range. Qed.

(** The rotation masks its argument to the width. *)
Lemma RotateLeft_wrap w x : width w -> RotateLeft (wrap w x) w = RotateLeft x w.
Proof.
  intros Hw. unfold RotateLeft.
  replace (Z.land (wrap w x) (u32 (u32 (Z.shiftl (u32 (Z.shiftl 1 (w - 1))) 1) - 1)))
    with (Z.land x (u32 (u32 (Z.shiftl (u32 (Z.shiftl 1 (w - 1))) 1) - 1))); [done|].
  destruct Hw as [-> | [-> | ->]].
  - change (u32 (u32 (Z.shiftl (u32 (Z.shiftl 1 (8 - 1))) 1) - 1)) with (Z.ones 8). Zbits.
  - change (u32 (u32 (Z.shiftl (u32 (Z.shiftl 1 (16 - 1))) 1) - 1)) with (Z.ones 16). Zbits.
  - change (u32 (u32 (Z.shiftl (u32 (Z.shiftl 1 (32 - 1))) 1) - 1)) with (Z.ones 32). Zbits.
Qed.

Lemma zero_step w j i :
  width w -> wrap w (Z.lnot (wrap w (RotateLeft (u32 (Z.lnot (zero w j i))) w))) = zero w j (i + 1).
Proof.
  intros Hw. pose proof (width_range w Hw). unfold zero.
  assert (E : wrap w (u32 (Z.lnot (not_w w (one w j i)))) = one w j i).
  { pose proof (one_range w j i Hw) as Hr. generalize dependent (one w j i). intros x Hx. Zbits. }
  rewrite <- RotateLeft_wrap, E, one_step by done. done.
Qed.

Section Walk.
Context `{Faults}.
Variable w : Z.
Hypothesis Hw : width w.

Lemma walk_run Addr n j first next f m :
  distinct w Addr w -> (forall j i, 0 <= i -> next (f j i) = f j (i + 1)) -> (forall j i, in_word w (f j i)) ->
  (forall j', j <= j' < j + Z.of_nat n -> first j' = f j' 0) ->
  exists r m', walk w Addr n j first next m = (r, m')
    /\ (r = None <-> forall j' i, j <= j' < j + Z.of_nat n -> 0 <= i < w ->
                     wrap w (disturb (at_ w Addr i) (f j' i)) = f j' i).
Proof.
  intros Hd Hn Hr Hf. pose proof (width_range w Hw) as Hw'. revert j m Hf. induction n as [|n IH]; intros j m Hf.
  { exists None, m. split; [done|]. split; [|done]. intros _ j'. lia. }
  cbn [walk]. unfold walk_pattern. rewrite Hf by lia.
  destruct (fill_check_distinct w Addr (Z.to_nat w) (f j) next m) as (r & m' & Hrun & Hiff); [lia|by rewrite Z2Nat.id by lia|by intros; apply Hn|by intros; apply Hr|].
  erewrite bind_run by exact Hrun. rewrite Z2Nat.id in Hiff by lia. destruct r as [bad|].
  - exists (Some bad), m'. split; [done|]. split; [done|]. intros Hall.
    apply Hiff. intros i Hi. apply Hall; lia.
  - destruct (IH (j + 1) m') as (r & m'' & Hrun' & Hiff'); [intros; apply Hf; lia|]. exists r, m''. split; [done|]. rewrite Hiff'. split.
    + intros Hall j' i Hj Hi. destruct (decide (j' = j)) as [->|]; [by apply Hiff|apply Hall; lia].
    + intros Hall j' i Hj Hi. apply Hall; lia.
Qed.

(** The initial patterns of the two tests. *)
Lemma first_one j : 0 <= j < w -> wrap w (Z.shiftl 1 j) = one w j 0.
Proof.
  intros Hj. unfold one. rewrite Z.add_0_r, Z.mod_small, Z.shiftl_1_l by done. apply wrap_id.
  unfold in_word. pose proof (Z.pow_lt_mono_r 2 j w). pose proof (Z.pow_pos_nonneg 2 j). lia.
Qed.

(** Every bit walks over every word. *)
Lemma one_covers (P : Z -> Z -> Prop) :
  (forall j i, 0 <= j < 0 + Z.of_nat (Z.to_nat w) -> 0 <= i < w -> P i (one w j i)) <->
  (forall i b, 0 <= i < w -> 0 <= b < w -> P i (2 ^ b)).
Proof.
  pose proof (width_range w Hw). rewrite Z2Nat.id by lia. split.
  - intros Hall i b Hi Hb. specialize (Hall ((b - i) mod w) i). unfold one in Hall.
    rewrite Z.add_mod_idemp_l in Hall by lia. rewrite Z.sub_add, (Z.mod_small b) in Hall by lia.
    apply Hall; [pose proof (Z.mod_pos_bound (b - i) w)|]; lia.
  - intros Hall j i Hj Hi. apply Hall; [done|]. apply Z.mod_pos_bound. lia.
Qed.
End Walk.

(** * Entry points *)

Section Entry.
Context `{Faults}.

Lemma entry32 Addr Words Pattern Subtest m r m' :
  test_words 32 0xDEADBEEF Addr Words Pattern Subtest m = (r, m') ->
  fst (fst (Xil_TestMem32l Addr Words Pattern Subtest m)) = match r with None => 0 | Some _ => -1 end.
Proof.
  intros Hr. unfold Xil_TestMem32l. erewrite bind_run by exact Hr. destruct r as [bad|]; [|done].
  unfold mbind, io_bind. by destruct (dump Addr bad 8 (-4) m').
Qed.

Lemma subtests_one w dflt Addr Words Pattern k t m r m' :
  k <> XIL_TESTMEM_ALLMEMTESTS -> (k, t) ∈ all_subtests w dflt Addr Words Pattern -> t m = (r, m') ->
  test_words w dflt Addr Words Pattern k m = (r, m').
Proof.
  intros Hk Hin Ht. unfold test_words, all_subtests in *. rewrite !elem_of_cons, elem_of_nil in Hin.
  destruct Hin as [E|[E|[E|[E|[E|[]]]]]]; injection E as -> ->;
    cbn -[increment walkones walkzeros inverseaddr fixedpattern] in *;
    unfold mbind, io_bind; rewrite Ht; by destruct r.
Qed.

(** the inverse-address subtest of the 32-bit test, on memory whose
    address lines may be broken in any way: it passes exactly when no two
    words of the block that share a cell have addresses that differ in their
    low 32 bits.  So every aliasing within a 4 GB block is found. *)
Theorem inverseaddr_detects Addr Words Pattern m :
  (forall a v, disturb a v = v) ->
  fst (fst (Xil_TestMem32l Addr Words Pattern XIL_TESTMEM_INVERSEADDR m)) = 0 <->
  forall i j, 0 <= i < Z.of_nat Words -> 0 <= j < Z.of_nat Words ->
    decode (Addr + 4 * i) = decode (Addr + 4 * j) -> u32 (Addr + 4 * i) = u32 (Addr + 4 * j).
Proof.
  intros Hv. destruct (inverseaddr_run 32 Addr Words m ltac:(done) Hv) as (r & m' & Hrun & Hiff).
  rewrite (entry32 _ _ _ _ _ r m').
  - change (32 / 8) with 4 in Hiff. destruct r as [bad|].
    + split; [done|]. intros Hall. exfalso. by assert (Some bad = None) by (apply Hiff; exact Hall).
    + split; [|done]. intros _. by apply Hiff.
  - apply (subtests_one _ _ _ _ _ _ (inverseaddr 32 Addr Words)); [done| |done].
    unfold all_subtests. rewrite !elem_of_cons. tauto.
Qed.

(** the walking-ones subtest of the 32-bit test, on memory that decodes the
    first 32 words apart: it passes exactly when each of those words gives
    back each single-bit word written to it.  So a data bit of one of them
    that is stuck, or driven by another one, is found. *)
Theorem walkones_detects Addr Words Pattern m :
  distinct 32 Addr 32 ->
  fst (fst (Xil_TestMem32l Addr Words Pattern XIL_TESTMEM_WALKONES m)) = 0 <->
  forall i b, 0 <= i < 32 -> 0 <= b < 32 -> u32 (disturb (Addr + 4 * i) (2 ^ b)) = 2 ^ b.
Proof.
  intros Hd. assert (Hw : width 32) by (right; by right).
  destruct (walk_run 32 Hw Addr 32 0 (fun j => wrap 32 (Z.shiftl 1 j)) (fun v => wrap 32 (RotateLeft v 32)) (one 32) m Hd)
    as (r & m' & Hrun & Hiff);
    [by intros; apply one_step|by intros; apply one_range|by intros; apply first_one|].
  rewrite (one_covers 32 Hw (fun i v => wrap 32 (disturb (at_ 32 Addr i) v) = v)) in Hiff.
  rewrite (entry32 _ _ _ _ _ r m').
  - change (forall i b, 0 <= i < 32 -> 0 <= b < 32 -> u32 (disturb (Addr + 4 * i) (2 ^ b)) = 2 ^ b)
      with (forall i b, 0 <= i < 32 -> 0 <= b < 32 -> wrap 32 (disturb (at_ 32 Addr i) (2 ^ b)) = 2 ^ b).
    rewrite <- Hiff. by destruct r.
  - apply (subtests_one _ _ _ _ _ _ (walkones 32 Addr)); [done| |done].
    unfold all_subtests. rewrite !elem_of_cons. tauto.
Qed.
End Entry.

(** * Working memory *)

Section Working.
Context `{Faults}.
Variable w : Z.
Hypothesis Hw : width w.
Hypothesis undisturbed : forall a v, disturb a v = v.

(** A subtest that passes whatever memory held before. *)
Definition passes (t : io cells (option Z)) : Prop := forall m, exists m', t m = (None, m').

Lemma fill_check_passes Addr n f next :
  distinct w Addr (Z.of_nat n) -> (forall i, 0 <= i -> next (f i) = f (i + 1)) -> (forall i, in_word w (f i)) ->
  passes (_ ← fill_seq w Addr n 0 (f 0) next; check_seq w Addr n 0 (f 0) next).
Proof.
  intros Hd Hf Hr m. pose proof (width_range w Hw).
  destruct (fill_check_distinct w Addr n f next m) as (r & m' & Hrun & Hiff); [lia|done..|].
  exists m'. rewrite Hrun. f_equal. apply Hiff. intros i Hi. rewrite undisturbed. by apply wrap_id.
Qed.

Lemma increment_passes Addr n : distinct w Addr (Z.of_nat n) -> passes (increment w Addr n).
Proof.
  intros Hd. pose proof (width_range w Hw).
  apply (fill_check_passes Addr n (fun i => wrap w (1 + i)) (fun v => wrap w (v + 1))) in Hd.
  - change (wrap w (1 + 0)) with (wrap w 1) in Hd. unfold increment, XIL_TESTMEM_INIT_VALUE. cbv zeta.
    rewrite (wrap_id w 1) in Hd; [done|]. unfold in_word. pose proof (Z.pow_gt_1 2 w). lia.
  - intros i Hi. unfold wrap. rewrite Z.add_mod_idemp_l by lia. f_equal. lia.
  - intros i. apply wrap_range. lia.
Qed.

Lemma walk_passes Addr first next f :
  distinct w Addr w -> (forall j i, 0 <= i -> next (f j i) = f j (i + 1)) -> (forall j i, in_word w (f j i)) ->
  (forall j', 0 <= j' < w -> first j' = f j' 0) -> passes (walk w Addr (Z.to_nat w) 0 first next).
Proof.
  intros Hd Hn Hr Hf m. pose proof (width_range w Hw).
  destruct (walk_run w Hw Addr (Z.to_nat w) 0 first next f m Hd Hn Hr) as (r & m' & Hrun & Hiff).
  - intros j'. rewrite Z2Nat.id by lia. intros. by apply Hf.
  - exists m'. rewrite Hrun. f_equal. apply Hiff. intros. rewrite undisturbed. by apply wrap_id.
Qed.

Lemma inverseaddr_passes Addr n : distinct w Addr (Z.of_nat n) -> passes (inverseaddr w Addr n).
Proof.
  intros Hd m. pose proof (width_range w Hw).
  destruct (inverseaddr_run w Addr n m ltac:(lia) undisturbed) as (r & m' & Hrun & Hiff).
  exists m'. rewrite Hrun. f_equal. apply Hiff. intros i j Hi Hj He. by rewrite (Hd i j).
Qed.

Lemma all_pass dflt Addr n Pattern :
  distinct w Addr (Z.max w (Z.of_nat n)) -> in_word w dflt -> in_word w Pattern ->
  Forall (fun kt => passes (snd kt)) (all_subtests w dflt Addr n Pattern).
Proof.
  intros Hd Hdf Hp.
  assert (Hdn : distinct w Addr (Z.of_nat n)) by (intros i j ??; apply Hd; lia).
  assert (Hdw : distinct w Addr w) by (intros i j ??; apply Hd; lia).
  unfold all_subtests. repeat apply Forall_cons_2; [..|apply Forall_nil_2]; cbn [snd].
  - by apply increment_passes.
  - apply (walk_passes Addr _ _ (one w)); [done|by intros; apply one_step|by intros; apply one_range|].
    intros j Hj. by apply first_one.
  - apply (walk_passes Addr _ _ (zero w)); [done|by intros; apply zero_step|..].
    + intros j i. pose proof (width_range w Hw). apply in_word_not_w. lia.
    + intros j Hj. unfold zero, not_w. pose proof (width_range w Hw). rewrite <- (first_one w j Hj).
      apply Z.bits_inj'. intros b Hb. autorewrite with bits. bit_cases; try done; try lia.
  - by apply inverseaddr_passes.
  - unfold fixedpattern. cbv zeta. set (v := if Pattern =? 0 then dflt else Pattern).
    apply (fill_check_passes Addr n (fun _ => v) (fun v => v)); [done|done|].
    intros _. unfold v. by destruct (Pattern =? 0).
Qed.

Lemma subtests_pass Subtest l : Forall (fun kt => passes (snd kt)) l -> passes (subtests Subtest l).
Proof.
  induction 1 as [|[k t] l Ht _ IH]; intros m; [by exists m|]. cbn [subtests].
  destruct ((Subtest =? XIL_TESTMEM_ALLMEMTESTS) || (Subtest =? k)); [|apply IH].
  destruct (Ht m) as [m' Hm]. cbn [snd] in Hm. erewrite bind_run by exact Hm. apply IH.
Qed.

Lemma test_words_pass dflt Addr n Pattern Subtest :
  distinct w Addr (Z.max w (Z.of_nat n)) -> in_word w dflt -> in_word w Pattern ->
  passes (test_words w dflt Addr n Pattern Subtest).
Proof.
  intros Hd Hdf Hp. unfold test_words. destruct (negb _); [intros m; by exists m|].
  by apply subtests_pass, all_pass.
Qed.
End Working.

(** working memory passes: when the words of the block, and the words the
    walking tests use beyond a short block, are different cells that give
    back what was stored, all three entry points return 0 for every subtest
    and pattern, whatever memory held before. *)
Theorem working_memory_passes `{Faults} Addr Words Pattern Subtest m :
  (forall a v, disturb a v = v) ->
  (distinct 32 Addr (Z.max 32 (Z.of_nat Words)) -> in_word 32 Pattern ->
   fst (fst (Xil_TestMem32l Addr Words Pattern Subtest m)) = 0)
  /\ (distinct 16 Addr (Z.max 16 (Z.of_nat Words)) -> in_word 16 Pattern ->
      fst (Xil_TestMem16l Addr Words Pattern Subtest m) = 0)
  /\ (distinct 8 Addr (Z.max 8 (Z.of_nat Words)) -> in_word 8 Pattern ->
      fst (Xil_TestMem8l Addr Words Pattern Subtest m) = 0).
Proof.
  intros Hv. split_and!; intros Hd Hp.
  - destruct (test_words_pass 32 ltac:(right; by right) Hv 0xDEADBEEF Addr Words Pattern Subtest Hd) with m as [m' Hm]; [done..|].
    by rewrite (entry32 _ _ _ _ _ None m').
  - destruct (test_words_pass 16 ltac:(right; by left) Hv 0xDEAD Addr Words Pattern Subtest Hd) with m as [m' Hm]; [done..|].
    unfold Xil_TestMem16l. by erewrite bind_run by exact Hm.
  - destruct (test_words_pass 8 ltac:(by left) Hv 0xA5 Addr Words Pattern Subtest Hd) with m as [m' Hm]; [done..|].
    unfold Xil_TestMem8l. by erewrite bind_run by exact Hm.
Qed.

(** * Instances *)

Definition working : Faults := {| decode a := a; disturb _ v := v |}.
(** Address bit 3 not connected. *)
Definition no_a3 : Faults := {| decode a := Z.clearbit a 3; disturb _ v := v |}.
(** Data bit 5 stuck at 0 at address 0x108. *)
Definition stuck : Faults := {| decode a := a; disturb a v := if a =? 0x108 then Z.clearbit v 5 else v |}.

Lemma distinct_working w Addr n : width w -> distinct (H := working) w Addr n.
Proof.
  intros Hw i j _ _ He. unfold decode, working, at_ in He.
  destruct Hw as [-> | [-> | ->]]; [change (8 / 8) with 1 in He|change (16 / 8) with 2 in He|change (32 / 8) with 4 in He]; lia.
Qed.

Lemma working_memory_passes_witness :
  fst (fst (Xil_TestMem32l (H := working) 0x100 40 7 XIL_TESTMEM_ALLMEMTESTS (fun _ => 9))) = 0.
Proof.
  refine (proj1 (working_memory_passes (H := working) 0x100 40 7 XIL_TESTMEM_ALLMEMTESTS (fun _ => 9) (fun _ _ => eq_refl)) _ _).
  - apply distinct_working. right. by right.
  - done.
Defined.

Lemma inverseaddr_detects_witness :
  fst (fst (Xil_TestMem32l (H := no_a3) 0x100 40 0 XIL_TESTMEM_INVERSEADDR (fun _ => 9))) <> 0.
Proof.
  intros Hp. pose proof (proj1 (inverseaddr_detects (H := no_a3) 0x100 40 0 (fun _ => 9) (fun _ _ => eq_refl)) Hp) as Hd.
  specialize (Hd 0 2 ltac:(lia) ltac:(lia) eq_refl). by vm_compute in Hd.
Defined.

Lemma walkones_detects_witness :
  fst (fst (Xil_TestMem32l (H := stuck) 0x100 40 0 XIL_TESTMEM_WALKONES (fun _ => 9))) <> 0.
Proof.
  assert (Hs : distinct (H := stuck) 32 0x100 32) by (apply (distinct_working 32 0x100 32); right; by right).
  intros Hp. pose proof (proj1 (walkones_detects (H := stuck) 0x100 40 0 (fun _ => 9) Hs) Hp) as Hd.
  specialize (Hd 2 5 ltac:(lia) ltac:(lia)). by vm_compute in Hd.
Defined.
