(* ===== verification/Monitor.v ===== *)
(** The monitor programs under Linux (shared/linux/monitor.c).

    [monitor_init] reads the parameters of the performance monitor from the
    device tree and maps its registers; the [stats_] functions program its
    counters and print them; the [trace_] functions start and stop the event
    log and copy the trace memory from the trace capture device to a file.
    [exit] ends the program: it is the [Exit] of [outcome].  The file holds
    the definitions, in the order of the source; the C library's [malloc],
    [fgets], [fopen] and [fwrite] are arguments. *)
From S2P Require Import Prelude Device ApmRegs Apm Devtree Parser.
Open Scope Z_scope.

(** * Programs that exit *)

Inductive outcome (A : Type) := Finished (x : A) | Exit (status : Z) (msg : string).
Arguments Finished {A} x.
Arguments Exit {A} status msg.

#[export] Instance outcome_ret : MRet outcome := fun A x => Finished x.
#[export] Instance outcome_bind : MBind outcome := fun A B f m =>
  match m with Finished x => f x | Exit s msg => Exit s msg end.

(** What is given back to the system. *)
Inductive release := Munmap (vaddr len : Z) | Free | Fclose.

(* @src shared/linux/devtree.c 46-49 dev_munmap *)
Definition dev_munmap (st : mapping) (vaddr : Z) : release := Munmap vaddr (page_size st).

(** * Initialization *)

(** The system: the page size, the descriptor of /dev/mem, [mmap]; the tree
    below [DEV_TREE] and the search's uninitialised name buffer. *)
Record system := {
  sysconf_pagesize : Z;
  open_mem : Z;
  mmap : Z -> Z -> option Z;
  dev_tree : node;
  name_buf : list Z
}.

Section Init.
Context (sys : system).

(** [dev_search(DEV_TREE, dev, 1, prop, &x, sizeof x)], where [x] held [old]:
    the value of [x] when one device was found. *)
Definition search (dev prop : string) (old : list Z) : option (list Z) :=
  let '(found, data) := dev_search (name_buf sys) (dev_tree sys) dev 1 prop old in
  if found =? 1 then Some data else None.

Definition map_device (paddr : Z) (st : mapping) : option Z * mapping :=
  dev_mmap (sysconf_pagesize sys) (open_mem sys) (mmap sys) paddr st.

(** One of the lines that read a 32-bit property into a variable that held
    [old]; [what] is the name the message gives it. *)
(* @src shared/linux/monitor.c 106-107 found = dev_search(...); if (found != 1) ... *)
Definition read_param (what : string) (prop : string) (old : Z) : outcome Z :=
  match search "axi_perf_mon" prop (le_bytes 4 old) with
  | None => Exit 1 (cat ["APM "; what; " not found in device tree."; nl])
  | Some data => Finished (le_val data)
  end.

(** [reg] and [mode0] are what the locals hold at the start; [malloc] is the
    new block of parameters with whatever it contains, [None] for NULL.
    Returns the values of [params], [baseaddr] and the variables of
    devtree.c. *)
(* @src shared/linux/monitor.c 54-145 monitor_init *)
Definition monitor_init (reg : list Z) (mode0 : Z) (malloc : option xapm_param) (st : mapping)
    : outcome (xapm_param * Z * mapping) :=
  match search "axi_perf_mon" "reg" reg with
  | None => Exit 1 (cat ["Can't find APM reg space in device tree."; nl])
  | Some reg =>
      let '(base, st) := map_device (le_val (drop 8 reg)) st in
      match base with
      | None => Exit 1 "APM reg mmap failed."
      | Some baseaddr =>
          match malloc with
          | None => Exit 1 (cat ["APM params allocation failed."; nl])
          | Some p =>
              let md := XAPM_MODE_ADVANCED in
              m ← read_param "enable-profile" "xlnx,enable-profile" mode0;
              let md := if truthy m then XAPM_MODE_PROFILE else md in
              m ← read_param "enable-trace" "xlnx,enable-trace" m;
              let md := if truthy m then XAPM_MODE_TRACE else md in
              p_maxslots ← read_param "num-monitor-slots" "xlnx,num-monitor-slots" (maxslots p);
              p_eventcnt ← read_param "enable-event-count" "xlnx,enable-event-count" (eventcnt p);
              p_eventlog ← read_param "enable-event-log" "xlnx,enable-event-log" (eventlog p);
              p_sampledcnt ← read_param "have-sampled-metric-cnt" "xlnx,have-sampled-metric-cnt" (sampledcnt p);
              p_numcounters ← read_param "num-of-counters" "xlnx,num-of-counters" (numcounters p);
              p_metricwidth ← read_param "metric-count-width" "xlnx,metric-count-width" (metricwidth p);
              p_sampledwidth ← read_param "metrics-sample-count-width" "xlnx,metrics-sample-count-width" (sampledwidth p);
              p_globalcntwidth ← read_param "global-count-width" "xlnx,global-count-width" (globalcntwidth p);
              p_scalefactor ← read_param "metric-count-scale" "xlnx,metric-count-scale" (scalefactor p);
              Finished
                ({| mode := md; maxslots := p_maxslots; eventcnt := p_eventcnt; eventlog := p_eventlog;
                    sampledcnt := p_sampledcnt; numcounters := p_numcounters; metricwidth := p_metricwidth;
                    sampledwidth := p_sampledwidth; globalcntwidth := p_globalcntwidth;
                    scalefactor := p_scalefactor; isr := 0; is_32bit_filter := false |}, baseaddr, st)
          end
      end
  end.

(** [params] is NULL before [monitor_init], and [baseaddr] zero. *)
(* @src shared/linux/monitor.c 147-156 monitor_finish *)
Definition monitor_finish (st : mapping) (baseaddr : Z) (params : option xapm_param) : list release :=
  (if baseaddr =? 0 then [] else [dev_munmap st baseaddr]) ++ (if params is Some _ then [Free] else []).
End Init.

(** * Statistics *)

(** How the program was built: a 64-bit machine, accelerators in use, and
    TRACE set to _TALL_. *)
Record build := { LP64 : bool; USE_ACC : bool; TALL : bool }.

(* @src shared/linux/monitor.c 163-167 I2_RNG_HI *)
Definition I2_RNG_HI (b : build) : Z := if LP64 b then 15 else 3.

Section Stats.
Context {D : Type} `{HD : Device D} (b : build) (params : xapm_param) (baseaddr : Z).

(* @src shared/linux/monitor.c 169-191 stats_start *)
Definition stats_start : io D unit :=
  _ ← setmetrics baseaddr 0 0 0;
  _ ← setmetrics baseaddr 0 1 1;
  _ ← setmetrics baseaddr 0 2 2;
  _ ← setmetrics baseaddr 0 3 3;
  _ ← setincrementerrange baseaddr 2 (I2_RNG_HI b) 0;
  _ ← (if USE_ACC b then
         _ ← setmetrics baseaddr 1 0 4;
         _ ← setmetrics baseaddr 1 1 5;
         _ ← setmetrics baseaddr 1 2 6;
         _ ← setmetrics baseaddr 1 3 7;
         setincrementerrange baseaddr 6 7 0
       else mret tt);
  _ ← intrclear baseaddr XAPM_IXR_ALL_MASK;
  _ ← resetmetriccounter baseaddr;
  enablemetricscounter baseaddr.

(* @src shared/linux/monitor.c 193-199 stats_stop *)
Definition stats_stop : io D unit := disablemetricscounter baseaddr.

(** ["%s%u "] of a counter: a star when its overflow bit is set.  The order in
    which C evaluates the arguments of [printf] is open; this is the order of
    the line. *)
(* @src shared/linux/monitor.c 204-204 a counter of stats_print *)
Definition counter_cell (mask counter : Z) : io D string :=
  v ← getmetriccounter baseaddr counter;
  mret (cat [if truthy (Z.land (intrhwgetstatus params) mask) then "*" else ""; fmt_u v; " "]).

(* @src shared/linux/monitor.c 201-224 stats_print *)
Definition stats_print : io D (list string) :=
  c0 ← counter_cell XAPM_IXR_MC0_OVERFLOW_MASK 0;
  c1 ← counter_cell XAPM_IXR_MC1_OVERFLOW_MASK 1;
  c2 ← counter_cell XAPM_IXR_MC2_OVERFLOW_MASK 2;
  c3 ← counter_cell XAPM_IXR_MC3_OVERFLOW_MASK 3;
  i2 ← getincrementer baseaddr 2;
  let cpu := cat ["CPU "; c0; c1; c2; c3; fmt_u i2; nl] in
  let head := cat ["Slot TranW TranR ByteW ByteR StrobeLW"; nl] in
  if USE_ACC b then
    c4 ← counter_cell XAPM_IXR_MC4_OVERFLOW_MASK 4;
    c5 ← counter_cell XAPM_IXR_MC5_OVERFLOW_MASK 5;
    c6 ← counter_cell XAPM_IXR_MC6_OVERFLOW_MASK 6;
    c7 ← counter_cell XAPM_IXR_MC7_OVERFLOW_MASK 7;
    i6 ← getincrementer baseaddr 6;
    mret [head; cpu; cat ["ACC "; c4; c5; c6; c7; fmt_u i6; nl]]
  else mret [head; cpu].

(** * Trace control *)

(* @src shared/linux/monitor.c 233-234 XAPM_FLAG_MIDWR, XAPM_FLAG_MIDRD *)
Definition XAPM_FLAG_MIDWR : Z := 0x00000080.
Definition XAPM_FLAG_MIDRD : Z := 0x00000100.

(* @src shared/linux/monitor.c 238-253 flags of trace_start *)
Definition trace_flags : Z :=
  if TALL b then
    fold_left Z.lor
      [XAPM_FLAG_FIRSTWR; XAPM_FLAG_LASTWR; XAPM_FLAG_RESPONSE; XAPM_FLAG_RDADDR; XAPM_FLAG_FIRSTRD;
       XAPM_FLAG_LASTRD; XAPM_FLAG_MIDWR; XAPM_FLAG_MIDRD; XAPM_FLAG_SWDATA] XAPM_FLAG_WRADDR
  else Z.lor (Z.lor XAPM_FLAG_WRADDR XAPM_FLAG_RDADDR) XAPM_FLAG_SWDATA.

(* @src shared/linux/monitor.c 236-256 trace_start *)
Definition trace_start : io D unit :=
  _ ← starteventlog baseaddr trace_flags;
  setswdatareg baseaddr 0xAAAAAAAA.

(* @src shared/linux/monitor.c 258-264 trace_stop *)
Definition trace_stop : io D unit :=
  _ ← for_range 16 (fun _ => setswdatareg baseaddr 0xDEADBEEF);
  _ ← stopeventlog baseaddr;
  mret tt.

(* @src shared/linux/monitor.c 366-368 trace_event *)
Definition trace_event (e : Z) : io D unit := setswdatareg baseaddr (u32 e).
End Stats.

(** * Trace capture *)

(* @src shared/linux/monitor.c 266-266 BLK_SZ *)
Definition BLK_SZ : Z := 2 ^ 17.

Fixpoint double_until (fuel : nat) (sz limit : Z) : Z :=
  match fuel with
  | O => sz
  | S fuel' => if sz <? limit then double_until fuel' (u32 (Z.shiftl sz 1)) limit else sz
  end.

(** A 32-bit width divided by 8 is below [2^29], so 29 doublings suffice. *)
(* @src shared/linux/monitor.c 293-293 TCD_ENTRY_SZ *)
Definition TCD_ENTRY_SZ (tdata_width : Z) : Z := double_until 29 1 (tdata_width / 8).

(** How a capture ended: the file, the number of bytes it is believed to
    have, the messages and the totals shown on the way. *)
Record captured := { cfile : list Z; tot : Z; errs : list string; progress : list Z }.

Section Capture.
Context {T : Type} `{HT : Device T}.
(** [fwrite buf] appends as many bytes of [buf] to the file as [fwrite_room]
    says, which knows what the file holds. *)
Context (fwrite_room : list Z -> list Z -> nat).

Definition fwrite (file buf : list Z) : Z * list Z :=
  let put := take (fwrite_room file buf) buf in (Z.of_nat (length put), file ++ put).

(** [buf] is what the loop has stored at the start of [buffer]; a store past
    its end is [None].  The flag [tmp] is the union of the words. *)
(* @src shared/linux/monitor.c 331-333 fill entry *)
Fixpoint fill_entry (tcd : Z) (n : nat) (tmp : Z) (buf : list Z) : io T (option (Z * list Z)) :=
  match n with
  | O => mret (Some (tmp, buf))
  | S n' =>
      if BLK_SZ <? Z.of_nat (length buf) + 4 then mret None else
      w ← bus_read tcd;
      fill_entry tcd n' (Z.lor tmp w) (buf ++ le_bytes 4 w)
  end.

(* @src shared/linux/monitor.c 328-335 fill buffer *)
Fixpoint fill_buffer (fuel : nat) (tcd entry : Z) (buf : list Z) (blen : Z) : io T (option (Z * list Z * Z)) :=
  match fuel with
  | O => mret None
  | S fuel' =>
      r ← fill_entry tcd (Z.to_nat (entry / 4)) 0 buf;
      match r with
      | None => mret None
      | Some (tmp, buf) =>
          let blen := u32 (blen + entry) in
          if truthy tmp && (blen <? BLK_SZ) then fill_buffer fuel' tcd entry buf blen
          else mret (Some (tmp, buf, blen))
      end
  end.

(** A block has at most [BLK_SZ / entry] entries. *)
Definition block_fuel (entry : Z) : nat := S (Z.to_nat (BLK_SZ / entry)).

Definition wrote_less (blen fr : Z) : string :=
  cat ["fwrite: bytes requested: "; fmt_u blen; ", actual: "; fmt_u (u32 fr); nl].
Definition memory_exceeded : string := cat [" -- error: trace capture memory exceeded"; nl].

(* @src shared/linux/monitor.c 325-350 grab trace *)
Fixpoint grab_trace (fuel : nat) (tcd entry mem_sz : Z) (buffer : list Z) (c : captured) : io T (option captured) :=
  match fuel with
  | O => mret None
  | S fuel' =>
      r ← fill_buffer (block_fuel entry) tcd entry [] 0;
      match r with
      | None => mret None
      | Some (tmp, stored, blen) =>
          let buffer := stored ++ drop (length stored) buffer in
          let '(fr, file) := fwrite (cfile c) (take (Z.to_nat blen) buffer) in
          if negb (fr =? blen) then
            mret (Some {| cfile := file; tot := tot c; errs := errs c ++ [wrote_less blen fr]; progress := progress c |})
          else
            let tot' := u64 (tot c + blen) in
            let shown := if Z.land tot' (2 ^ 20 - 1) =? 0 then progress c ++ [tot'] else progress c in
            if mem_sz <=? tot' then
              mret (Some {| cfile := file; tot := tot'; errs := errs c ++ [memory_exceeded]; progress := shown |})
            else
              let c := {| cfile := file; tot := tot'; errs := errs c; progress := shown |} in
              if truthy tmp then grab_trace fuel' tcd entry mem_sz buffer c else mret (Some c)
      end
  end.

(** Every block but the last adds [BLK_SZ] to the total. *)
Definition grab_fuel (mem_sz : Z) : nat := S (Z.to_nat (mem_sz / BLK_SZ)).

(** The name of a line [fgets] has read: up to its last newline. *)
(* @src shared/linux/monitor.c 284-284 strrchr(fn, '\n') *)
Fixpoint cut_newline (s : list Z) : list Z :=
  match s with
  | [] => []
  | ch :: s' => if (ch =? 10) && negb (existsb (Z.eqb 10) s') then [] else ch :: cut_newline s'
  end.

(** What the user sees of a capture; [NoCapture] is the early return. *)
Inductive capture_result := NoCapture | Capture (fn : list Z) (c : captured) (rel : list release).

(** [line] is the string [fgets] stores, [None] for NULL; [w0], [m0] and
    [reg] are what the locals hold at the start, [buffer] likewise. [fopen]
    answers whether the file could be created.  [None] is a shift by the
    width of a word or a store outside the buffer. *)
(* @src shared/linux/monitor.c 268-364 trace_capture *)
Definition trace_capture (sys : system) (line : option (list Z)) (fopen : list Z -> bool)
    (w0 m0 : Z) (reg buffer : list Z) (st : mapping) : io T (option (outcome capture_result)) :=
  match line with
  | None => mret (Some (Finished NoCapture))
  | Some fn =>
      if hd 0 fn =? 10 then mret (Some (Finished NoCapture)) else
      let fn := cut_newline fn in
      match search sys "axi_perf_mon" "xlnx,fifo-axis-tdata-width" (le_bytes 4 w0) with
      | None => mret (Some (Exit 1 (cat ["Can't find APM tdata width in device tree."; nl])))
      | Some tdata_width =>
          let entry := TCD_ENTRY_SZ (le_val tdata_width) in
          match search sys "axi_tcd" "xlnx,mem-addr-width" (le_bytes 4 m0) with
          | None => mret (Some (Exit 1 (cat ["Can't find TCD memory size in device tree."; nl])))
          | Some mem_addr_width =>
              if 64 <=? le_val mem_addr_width then mret None else
              let mem_sz := Z.shiftl 1 (le_val mem_addr_width) in
              match search sys "axi_tcd" "reg" reg with
              | None => mret (Some (Exit 1 (cat ["Can't find TCD reg space in device tree."; nl])))
              | Some reg =>
                  let '(tcd, st) := map_device sys (le_val (drop 8 reg)) st in
                  match tcd with
                  | None => mret (Some (Exit 1 "TCD mmap failed"))
                  | Some tcd =>
                      if negb (fopen fn) then mret (Some (Exit 1 "Can't fopen")) else
                      _ ← bus_write tcd 0;
                      r ← grab_trace (grab_fuel mem_sz) tcd entry mem_sz buffer
                            {| cfile := []; tot := 0; errs := []; progress := [] |};
                      mret (c ← r; Some (Finished (Capture fn c [Fclose; dev_munmap st tcd])))
                  end
              end
          end
      end
  end.
End Capture.
