(* ===== verification/MonitorProofs.v ===== *)
(** The monitor programs: what they set up, measure and capture.

    The capture is proved against [TcdPort], what the trace capture device
    promises at its port: a write of zero rewinds it, and reads return the
    words of the trace one by one.  The last part composes the capture with
    the trace parser. *)
From S2P Require Import Prelude Device ApmRegs Apm Devtree Parser ParserProofs Monitor.
Open Scope Z_scope.

(** * The size of an entry *)

Lemma double_until_spec fuel : forall k limit,
  (0 <= k)%nat -> (k + fuel <= 31)%nat ->
  2 ^ Z.of_nat (k + fuel) >= limit ->
  exists j, double_until fuel (2 ^ Z.of_nat k) limit = 2 ^ Z.of_nat j /\ (k <= j <= k + fuel)%nat /\
    limit <= 2 ^ Z.of_nat j /\ (j = k \/ 2 ^ Z.of_nat j < 2 * limit).
Proof.
  induction fuel as [|f IH]; intros k limit Hk Hf Hl; simpl.
  - exists k. rewrite Nat.add_0_r in *. repeat split; (lia || by left).
  - destruct (Z.ltb_spec (2 ^ Z.of_nat k) limit) as [Hlt|Hge].
    + rewrite Z.shiftl_mul_pow2 by done.
      assert (Hd : 2 ^ Z.of_nat k * 2 ^ 1 = 2 ^ Z.of_nat (S k)) by (rewrite Nat2Z.inj_succ, Z.pow_succ_r; lia).
      rewrite Hd, wrap_id.
      2: { split; [apply Z.pow_nonneg; lia|]. apply Z.pow_lt_mono_r; lia. }
      destruct (IH (S k) limit) as (j & Hj & Hb & Hlj & Hs); [lia|lia| |].
      { by replace (S k + f)%nat with (k + S f)%nat by lia. }
      exists j. split; [done|]. split; [lia|]. split; [done|]. right.
      destruct Hs as [->|Hs]; [|done]. lia.
    + exists k. repeat split; (lia || by left).
Qed.

(** The entry size is the least power of two that holds [tdata_width] bits. *)
Lemma TCD_ENTRY_SZ_spec w :
  in_word 32 w ->
  exists j, TCD_ENTRY_SZ w = 2 ^ Z.of_nat j /\ (j <= 29)%nat /\ w / 8 <= 2 ^ Z.of_nat j /\
    (j = 0%nat \/ 2 ^ Z.of_nat j < 2 * (w / 8)).
Proof.
  intros Hw. unfold TCD_ENTRY_SZ. change 1 with (2 ^ Z.of_nat 0).
  destruct (double_until_spec 29 0 (w / 8)) as (j & ? & ? & ? & ?); [lia|lia| |].
  - simpl Z.of_nat. unfold in_word in Hw. change (2 ^ 29) with 536870912. div_lia.
  - exists j. repeat split; (lia || done).
Qed.

(** * The trace capture device *)

Class TcdPort (T : Type) `{Device T} (tcd : Z) := {
  tcd_word : T -> nat -> Z;
  tcd_trace : T -> nat -> Z;
  tcd_word_range : forall t k, in_word 32 (tcd_word t k);
  tcd_read : forall t, fst (dev_rd tcd t) = tcd_word t 0;
  tcd_next : forall t k, tcd_word (snd (dev_rd tcd t)) k = tcd_word t (S k);
  tcd_rewind : forall t k, tcd_word (dev_wr tcd 0 t) k = tcd_trace t k
}.

(** [n] words of a stream from number [i], and bytes of words. *)
Definition words (f : nat -> Z) (i n : nat) : list Z := map f (seq i n).
Definition word_bytes (l : list Z) : list Z := concat (map (le_bytes 4) l).

Lemma length_words f i n : length (words f i n) = n.
Proof. unfold words. by rewrite length_map, length_seq. Qed.

Lemma words_app f i n m : words f i (n + m) = words f i n ++ words f (i + n) m.
Proof. unfold words. by rewrite seq_app, map_app. Qed.

Lemma word_bytes_app l l' : word_bytes (l ++ l') = word_bytes l ++ word_bytes l'.
Proof. unfold word_bytes. by rewrite map_app, concat_app. Qed.

Lemma length_word_bytes l : length (word_bytes l) = (4 * length l)%nat.
Proof.
  induction l as [|w l IH]; [done|]. change (word_bytes (w :: l)) with (le_bytes 4 w ++ word_bytes l).
  rewrite length_app, length_le_bytes, IH. simpl length. lia.
Qed.

(** Is entry [i], of [w] words, all zero?  How many entries up to the first
    such, that one included, are there from [i] within [n]? *)
Definition zero_entry (f : nat -> Z) (w i : nat) : bool := forallb (Z.eqb 0) (words f (i * w) w).
Fixpoint until_zero (f : nat -> Z) (w n i : nat) : nat :=
  match n with
  | O => O
  | S n' => if zero_entry f w i then 1%nat else S (until_zero f w n' (S i))
  end.

Lemma until_zero_le f w n : forall i, (until_zero f w n i <= n)%nat.
Proof. induction n as [|n IH]; intros i; simpl; [done|]. destruct (zero_entry _ _ _); [lia|]. specialize (IH (S i)). lia. Qed.

Lemma until_zero_pos f w n i : (0 < n)%nat -> (0 < until_zero f w n i)%nat.
Proof. destruct n; simpl; [lia|]. destruct (zero_entry _ _ _); lia. Qed.

(** Does the run end with a zero entry? *)
Definition ended (f : nat -> Z) (w n i : nat) : bool := existsb (zero_entry f w) (seq i n).

Lemma until_zero_split f w n m : forall i,
  until_zero f w (n + m) i
  = if ended f w n i then until_zero f w n i else (n + until_zero f w m (i + n))%nat.
Proof.
  unfold ended. induction n as [|n IH]; intros i; simpl; [by rewrite Nat.add_0_r|].
  destruct (zero_entry f w i); simpl; [done|]. rewrite IH.
  replace (S i + n)%nat with (i + S n)%nat by lia. by destruct (existsb _ _).
Qed.

Lemma until_zero_full f w n : forall i, ended f w n i = false -> until_zero f w n i = n.
Proof.
  unfold ended. induction n as [|n IH]; intros i; simpl; [done|].
  destruct (zero_entry f w i); [done|]. simpl. intros. by rewrite IH.
Qed.

Lemma fold_lor_zero l : forall tmp,
  0 <= tmp -> Forall (fun x => 0 <= x) l ->
  truthy (fold_left Z.lor l tmp) = truthy tmp || negb (forallb (Z.eqb 0) l).
Proof.
  unfold truthy. induction l as [|x l IH]; intros tmp Ht Hl; cbn [fold_left forallb]; [by rewrite orb_false_r|].
  apply Forall_cons in Hl as [Hx Hl]. rewrite IH; [|by apply Z.lor_nonneg|done].
  destruct (Z.eqb_spec tmp 0) as [->|Ht0]; cbn [negb orb].
  - rewrite Z.lor_0_l. rewrite (Z.eqb_sym 0 x). by destruct (x =? 0).
  - destruct (Z.eqb_spec (Z.lor tmp x) 0) as [Hz|]; [|done]. apply Z.lor_eq_0_iff in Hz as [??]. done.
Qed.

Lemma words_ext f g m i n : (forall k, g k = f (m + k)%nat) -> words g i n = words f (m + i) n.
Proof.
  intros Hg. unfold words. revert i. induction n as [|n IH]; intros i; simpl; [done|].
  rewrite Hg, IH. by replace (m + S i)%nat with (S (m + i)) by lia.
Qed.

(** Blocks a capture may fill: the last of them reaches [mem_sz]. *)
Definition block_limit (mem_sz : Z) : nat := Z.to_nat ((mem_sz + BLK_SZ - 1) / BLK_SZ).

Lemma block_limit_spec mem_sz b :
  1 <= mem_sz -> (mem_sz <=? Z.of_nat b * BLK_SZ) = Nat.leb (block_limit mem_sz) b.
Proof.
  intros Hm. unfold block_limit, BLK_SZ. change (2 ^ 17) with 131072.
  apply eq_bool_prop_intro. rewrite !Is_true_true, Nat.leb_le, Z.leb_le. div_lia.
Qed.

Section Capture.
Context {T : Type} `{HT : Device T} (tcd : Z) `{HP : !TcdPort T tcd}.

Lemma fill_entry_spec n : forall tmp buf t,
  Z.of_nat (length buf) + 4 * Z.of_nat n <= BLK_SZ ->
  exists t', fill_entry tcd n tmp buf t
    = (Some (fold_left Z.lor (words (tcd_word t) 0 n) tmp, buf ++ word_bytes (words (tcd_word t) 0 n)), t') /\
    forall k, tcd_word t' k = tcd_word t (n + k).
Proof.
  induction n as [|n IH]; intros tmp buf t Hl.
  - exists t. simpl. by rewrite app_nil_r.
  - cbn [fill_entry]. destruct (Z.ltb_spec BLK_SZ (Z.of_nat (length buf) + 4)); [lia|].
    pose proof (tcd_read t) as Hr. pose proof (tcd_next t) as Hn.
    destruct (dev_rd tcd t) as [w t1] eqn:E. cbn [fst snd] in *. subst w.
    destruct (IH (Z.lor tmp (tcd_word t 0)) (buf ++ le_bytes 4 (tcd_word t 0)) t1) as (t' & Ht & Hk).
    { rewrite length_app, length_le_bytes. lia. }
    exists t'. rewrite (bind_run _ _ t (tcd_word t 0) t1 E), Ht. rewrite (words_ext (tcd_word t) _ 1 0 n Hn).
    split; [|intros k; by rewrite Hk, Hn].
    by rewrite <- app_assoc.
Qed.

(** The stream the capture reads: at entry [i], word [k] of the rest is word
    [i * w + k] of the trace. *)
Definition at_entry (f : nat -> Z) (w : nat) (i : nat) (t : T) : Prop :=
  forall k, tcd_word t k = f (i * w + k)%nat.

Section Blocks.
Context (f : nat -> Z) (w per : nat) (entry : Z).
Hypothesis f_words : forall k, 0 <= f k.
Hypothesis entry_words : entry = 4 * Z.of_nat w.
Hypothesis w_pos : (0 < w)%nat.
Hypothesis per_exact : Z.of_nat per * entry = BLK_SZ.

Lemma zero_entry_truthy i : truthy (fold_left Z.lor (words f (i * w) w) 0) = negb (zero_entry f w i).
Proof. rewrite fold_lor_zero; [done|done|]. unfold words. apply Forall_map, Forall_forall. auto. Qed.

(** One entry more in the buffer. *)
Lemma fill_step i j buf t :
  (j < per)%nat -> Z.of_nat (length buf) = Z.of_nat j * entry -> at_entry f w (i + j) t ->
  exists t', fill_entry tcd (Z.to_nat (entry / 4)) 0 buf t
    = (Some (fold_left Z.lor (words f ((i + j) * w) w) 0, buf ++ word_bytes (words f ((i + j) * w) w)), t') /\
    at_entry f w (i + S j) t' /\ Z.of_nat (length (buf ++ word_bytes (words f ((i + j) * w) w))) = Z.of_nat (S j) * entry /\
    u32 (Z.of_nat j * entry + entry) = Z.of_nat (S j) * entry /\
    (Z.of_nat (S j) * entry <? BLK_SZ) = Nat.ltb (S j) per.
Proof.
  intros Hj Hbuf Ht.
  assert (Hw : Z.to_nat (entry / 4) = w) by (rewrite entry_words, Z.mul_comm, Z.div_mul by lia; lia).
  assert (He : Z.of_nat (S j) * entry <= BLK_SZ) by (rewrite <- per_exact; apply Z.mul_le_mono_nonneg_r; lia).
  destruct (fill_entry_spec w 0 buf t) as (t' & Hfill & Hk); [lia|].
  rewrite Hw, Hfill, (words_ext f (tcd_word t) ((i + j) * w) 0 w Ht), Nat.add_0_r.
  exists t'. split; [done|]. split; [intros k; rewrite Hk, Ht; f_equal; lia|].
  split; [rewrite length_app, length_word_bytes, length_words; lia|].
  split.
  - rewrite wrap_id; [lia|]. split; [lia|]. unfold BLK_SZ in He. lia.
  - apply eq_bool_prop_intro. rewrite !Is_true_true, Nat.ltb_lt, Z.ltb_lt, <- per_exact.
    rewrite <- Z.mul_lt_mono_pos_r by lia. lia.
Qed.

Lemma fill_buffer_spec i m : forall j buf t fuel,
  (per = j + S m)%nat -> Z.of_nat (length buf) = Z.of_nat j * entry -> at_entry f w (i + j) t -> (m < fuel)%nat ->
  let c := until_zero f w (S m) (i + j) in
  exists tmp t', fill_buffer fuel tcd entry buf (Z.of_nat j * entry) t
    = (Some (tmp, buf ++ word_bytes (words f ((i + j) * w) (c * w)), Z.of_nat (j + c) * entry), t') /\
    truthy tmp = negb (ended f w (S m) (i + j)) /\ at_entry f w (i + j + c) t'.
Proof.
  induction m as [|m IH]; intros j buf t fuel Hper Hbuf Ht Hf; (destruct fuel as [|fuel]; [lia|]);
    (destruct (fill_step i j buf t) as (t1 & H1 & Ht1 & Hl1 & Hu1 & Hb1); [lia|done..|]);
    cbn [fill_buffer]; rewrite (bind_run _ _ _ _ _ H1); cbv beta iota zeta; rewrite Hu1, Hb1, zero_entry_truthy;
    cbn [until_zero ended seq existsb].
  - destruct (Nat.ltb_spec (S j) per); [lia|]. rewrite andb_false_r. eexists _, t1.
    assert (E : (if zero_entry f w (i + j) then 1%nat else 1%nat) = 1%nat) by (by destruct (zero_entry _ _ _)).
    rewrite E, Nat.mul_1_l, Nat.add_1_r, orb_false_r. split; [done|]. split; [apply zero_entry_truthy|].
    by replace (i + j + 1)%nat with (i + S j)%nat by lia.
  - destruct (Nat.ltb_spec (S j) per); [|lia]. rewrite andb_true_r. destruct (zero_entry f w (i + j)) eqn:Ez; cbn [negb].
    + eexists _, t1. rewrite Nat.mul_1_l, Nat.add_1_r. split; [done|]. split; [by rewrite zero_entry_truthy, Ez|].
      by replace (i + j + 1)%nat with (i + S j)%nat by lia.
    + destruct (IH (S j) (buf ++ word_bytes (words f ((i + j) * w) w)) t1 fuel) as (tmp & t' & H2 & Htmp & Ht');
        [lia|done|done|lia|].
      replace (i + S j)%nat with (S (i + j)) in * by lia.
      change (if zero_entry f w (S (i + j)) then 1%nat else S (until_zero f w m (S (S (i + j)))))
        with (until_zero f w (S m) (S (i + j))).
      set (c := until_zero f w (S m) (S (i + j))) in *.
      exists tmp, t'. split; [|split; [exact Htmp|]].
      * rewrite H2. do 3 f_equal; [|lia].
        change (S c * w)%nat with (w + c * w)%nat. rewrite words_app, word_bytes_app, <- app_assoc.
        by replace ((i + j) * w + w)%nat with (S (i + j) * w)%nat by lia.
      * by replace (i + j + S c)%nat with (S (i + j) + c)%nat by lia.
Qed.

Context (room : list Z -> list Z -> nat).
Hypothesis disk_has_room : forall file buf, (length buf <= room file buf)%nat.

Lemma fwrite_all file buf : fwrite room file buf = (Z.of_nat (length buf), file ++ buf).
Proof. unfold fwrite. by rewrite take_ge. Qed.

(** One block: at least one entry, up to a full block. *)
Lemma block_spec i t buffer :
  at_entry f w i t -> (0 < per)%nat ->
  let c := until_zero f w per i in
  exists tmp t', fill_buffer (block_fuel entry) tcd entry [] 0 t
    = (Some (tmp, word_bytes (words f (i * w) (c * w)), Z.of_nat c * entry), t') /\
    truthy tmp = negb (ended f w per i) /\ at_entry f w (i + c) t' /\
    take (Z.to_nat (Z.of_nat c * entry))
      (word_bytes (words f (i * w) (c * w)) ++ drop (length (word_bytes (words f (i * w) (c * w)))) buffer)
    = word_bytes (words f (i * w) (c * w)) /\
    Z.of_nat (length (word_bytes (words f (i * w) (c * w)))) = Z.of_nat c * entry.
Proof.
  intros Ht Hper c.
  assert (Hl : Z.of_nat (length (word_bytes (words f (i * w) (c * w)))) = Z.of_nat c * entry)
    by (rewrite length_word_bytes, length_words; lia).
  destruct (fill_buffer_spec i (per - 1) 0 [] t (block_fuel entry)) as (tmp & t' & H1 & H2 & H3);
    [lia|done|by rewrite Nat.add_0_r|unfold block_fuel; rewrite <- per_exact, Z.div_mul by lia; lia|].
  rewrite !Nat.add_0_r in *. replace (S (per - 1)) with per in * by lia.
  exists tmp, t'. split; [exact H1|]. split_and!; [done|done| |done].
  by rewrite take_app_length' by lia.
Qed.

(** What a block leaves in the file and the total. *)
Definition after_block (c : captured) (i c0 : nat) : captured :=
  let tot' := Z.of_nat (i + c0) * entry in
  {| cfile := cfile c ++ word_bytes (words f (i * w) (c0 * w)); tot := tot'; errs := errs c;
     progress := if Z.land tot' (2 ^ 20 - 1) =? 0 then progress c ++ [tot'] else progress c |}.

Lemma grab_step fuel mem_sz b t buffer c :
  1 <= mem_sz <= 2 ^ 63 -> (b < block_limit mem_sz)%nat -> at_entry f w (b * per) t ->
  tot c = Z.of_nat (b * per) * entry ->
  let i := (b * per)%nat in
  let c0 := until_zero f w per i in
  let c1 := after_block c i c0 in
  exists t1 buffer1, at_entry f w (i + c0) t1 /\
    grab_trace room (S fuel) tcd entry mem_sz buffer c t
    = (if mem_sz <=? tot c1 then
         mret (Some {| cfile := cfile c1; tot := tot c1; errs := errs c1 ++ [memory_exceeded]; progress := progress c1 |})
       else if negb (ended f w per i) then grab_trace room fuel tcd entry mem_sz buffer1 c1 else mret (Some c1)) t1.
Proof.
  intros Hm Hb Ht Htot i c0 c1.
  assert (Hper : (0 < per)%nat) by (unfold BLK_SZ in per_exact; destruct per; lia).
  destruct (block_spec i t buffer Ht Hper) as (tmp & t1 & H1 & Htmp & Ht1 & Htake & Hlen). fold c0 in H1, Ht1, Htake, Hlen.
  exists t1. eexists. split; [done|]. cbn [grab_trace].
  rewrite (bind_run _ _ _ _ _ H1). cbv beta iota zeta. rewrite Htake, fwrite_all, Hlen, Z.eqb_refl. cbn [negb].
  assert (Htot' : u64 (tot c + Z.of_nat c0 * entry) = tot c1).
  { pose proof (until_zero_le f w per i : (c0 <= per)%nat) as Hc0. unfold c1. cbn [after_block tot].
    rewrite Htot, Nat2Z.inj_add, Z.mul_add_distr_r. fold i. apply wrap_id. split; [lia|].
    assert (Z.of_nat i * entry + Z.of_nat c0 * entry <= Z.of_nat (S b) * BLK_SZ) by (rewrite <- per_exact; unfold i; nia).
    unfold block_limit in Hb. unfold BLK_SZ in *. revert Hb Hm H. change (2 ^ 17) with 131072. change (2 ^ 63) with 9223372036854775808.
    change (2 ^ 64) with 18446744073709551616. clear. intros. div_lia. }
  rewrite Htot', Htmp. by destruct (mem_sz <=? tot c1), (ended f w per i).
Qed.

Lemma grab_trace_spec mem_sz m : forall b t buffer c fuel,
  1 <= mem_sz <= 2 ^ 63 -> block_limit mem_sz = (b + S m)%nat -> at_entry f w (b * per) t ->
  cfile c = word_bytes (words f 0 (b * per * w)) -> tot c = Z.of_nat (b * per) * entry -> (m < fuel)%nat ->
  let n := (b * per + until_zero f w (S m * per) (b * per))%nat in
  exists c' t', grab_trace room fuel tcd entry mem_sz buffer c t = (Some c', t') /\
    cfile c' = word_bytes (words f 0 (n * w)) /\ tot c' = Z.of_nat n * entry /\
    errs c' = errs c ++ (if mem_sz <=? Z.of_nat n * entry then [memory_exceeded] else []).
Proof.
  induction m as [|m IH]; intros b t buffer c fuel Hm Hlim Ht Hfile Htot Hf n; (destruct fuel as [|fuel]; [lia|]);
    (destruct (grab_step fuel mem_sz b t buffer c) as (t1 & buffer1 & Ht1 & ->); [done|lia|done|done|]);
    set (i := (b * per)%nat) in *; set (c0 := until_zero f w per i) in *;
    (assert (Hcf : cfile (after_block c i c0) = word_bytes (words f 0 ((i + c0) * w)))
       by (cbn; rewrite Hfile, <- word_bytes_app, Nat.mul_add_distr_r, words_app; done)).
  - assert (Hn : n = (i + c0)%nat) by (unfold n; by rewrite Nat.mul_1_l). rewrite Hn.
    destruct (Z.leb_spec mem_sz (tot (after_block c i c0))) as [Hle|Hlt]; cbn [after_block tot] in *.
    + eexists _, t1. split; [done|]. cbn [cfile tot errs]. split_and!; [done|done|].
      destruct (Z.leb_spec mem_sz (Z.of_nat (i + c0) * entry)); [done|lia].
    + destruct (ended f w per i) eqn:He; cbn [negb].
      * eexists _, t1. split; [done|]. cbn [cfile tot errs after_block]. split_and!; [done|done|].
        destruct (Z.leb_spec mem_sz (Z.of_nat (i + c0) * entry)); [lia|]. by rewrite app_nil_r.
      * exfalso. apply until_zero_full in He. unfold c0 in Hlt. rewrite He in Hlt.
        pose proof (block_limit_spec mem_sz (S b)) as Hb. rewrite <- per_exact in Hb.
        destruct (Nat.leb_spec (block_limit mem_sz) (S b)); [|lia].
        assert ((mem_sz <=? Z.of_nat (S b) * (Z.of_nat per * entry)) = true) as Hx%Z.leb_le by (apply Hb; lia).
        unfold i in Hlt. nia.
  - unfold n. replace (S (S m) * per)%nat with (per + S m * per)%nat by lia. rewrite until_zero_split. fold c0.
    destruct (ended f w per i) eqn:He; cbn [negb].
    + destruct (Z.leb_spec mem_sz (tot (after_block c i c0))) as [Hle|Hlt]; cbn [after_block tot] in *;
        eexists _, t1; (split; [done|]); cbn [cfile tot errs after_block]; (split_and!; [done|done|]);
        destruct (Z.leb_spec mem_sz (Z.of_nat (i + c0) * entry)); try lia; [done|by rewrite app_nil_r].
    + apply until_zero_full in He. fold c0 in He.
      assert (Hi : (i + c0 = S b * per)%nat) by (rewrite He; unfold i; lia).
      destruct (Z.leb_spec mem_sz (tot (after_block c i c0))) as [Hle|Hlt]; cbn [after_block tot] in *.
      * exfalso. pose proof (block_limit_spec mem_sz (S b)) as Hb.
        destruct (Nat.leb_spec (block_limit mem_sz) (S b)); [lia|].
        assert ((mem_sz <=? Z.of_nat (S b) * BLK_SZ) = false) as Hx%Z.leb_gt by (apply Hb; lia).
        rewrite Hi in Hle. rewrite <- per_exact in Hx. nia.
      * rewrite Hi in Ht1.
        destruct (IH (S b) t1 buffer1 (after_block c i c0) fuel) as (c' & t' & H2 & H3 & H4 & H5);
          [done|lia|done|by rewrite <- Hi|by cbn [after_block tot]; rewrite <- Hi|lia|].
        exists c', t'. rewrite H2. split; [done|]. cbn [after_block errs] in H5.
        replace (i + (per + until_zero f w (S m * per) (i + per)))%nat
          with (S b * per + until_zero f w (S m * per) (S b * per))%nat; [done|].
        rewrite <- Hi, He. lia.
Qed.
End Blocks.
End Capture.

(** * [trace_capture] *)

(** What a capture finds: the device tree names the width of the stream, the
    size of the memory and the port of the capture device; the file can be
    created and written. *)
Record capture_setup (sys : system) (fn : list Z) (fopen : list Z -> bool) (w0 m0 : Z) (reg : list Z)
    (st : mapping) (width mem_width tcd : Z) (st' : mapping) : Prop := {
  su_name : hd 0 fn <> 10;
  su_width : le_val <$> search sys "axi_perf_mon" "xlnx,fifo-axis-tdata-width" (le_bytes 4 w0) = Some width;
  su_mem : le_val <$> search sys "axi_tcd" "xlnx,mem-addr-width" (le_bytes 4 m0) = Some mem_width;
  su_port : (r ← search sys "axi_tcd" "reg" reg; Some (map_device sys (le_val (drop 8 r)) st)) = Some (Some tcd, st');
  su_fopen : fopen (cut_newline fn) = true;
  su_range : 24 <= width <= 2 ^ 20;
  su_mem_range : 0 <= mem_width < 64
}.

(** Words of an entry and entries of a full memory. *)
Definition entry_words (width : Z) : nat := Z.to_nat (TCD_ENTRY_SZ width / 4).
Definition entry_limit (width mem_width : Z) : nat :=
  (block_limit (2 ^ mem_width) * Z.to_nat (BLK_SZ / TCD_ENTRY_SZ width))%nat.

Lemma entry_geometry width :
  24 <= width <= 2 ^ 20 ->
  TCD_ENTRY_SZ width = 4 * Z.of_nat (entry_words width) /\ (0 < entry_words width)%nat /\
  Z.of_nat (Z.to_nat (BLK_SZ / TCD_ENTRY_SZ width)) * TCD_ENTRY_SZ width = BLK_SZ.
Proof.
  intros Hw. unfold entry_words.
  destruct (TCD_ENTRY_SZ_spec width) as (j & -> & Hj & Hlo & Hhi); [unfold in_word; lia|].
  assert (H8 : 3 <= width / 8 <= 2 ^ 17) by (change (2 ^ 17) with 131072; change (2 ^ 20) with 1048576 in Hw; div_lia).
  assert (Hj2 : (2 <= j <= 17)%nat).
  { split.
    - destruct (decide (j <= 1)%nat) as [Hle|]; [|lia]. exfalso.
      assert (2 ^ Z.of_nat j <= 2 ^ 1) by (apply Z.pow_le_mono_r; lia). lia.
    - destruct (decide (18 <= j)%nat) as [Hge|]; [|lia]. exfalso.
      assert (2 ^ 18 <= 2 ^ Z.of_nat j) by (apply Z.pow_le_mono_r; lia).
      change (2 ^ 18) with (2 * 2 ^ 17) in *. destruct Hhi as [->|]; lia. }
  assert (Hp2 : 2 ^ Z.of_nat j = 4 * 2 ^ Z.of_nat (j - 2))
    by (replace (Z.of_nat j) with (2 + Z.of_nat (j - 2)) by lia; by rewrite Z.pow_add_r by lia).
  assert (0 < 2 ^ Z.of_nat (j - 2)) by (apply Z.pow_pos_nonneg; lia).
  assert (Hq : 2 ^ Z.of_nat j / 4 = 2 ^ Z.of_nat (j - 2)) by (rewrite Hp2, Z.mul_comm; by apply Z.div_mul).
  rewrite Hq. split; [lia|]. split; [lia|].
  unfold BLK_SZ. rewrite <- Z.pow_sub_r by lia.
  rewrite Z2Nat.id by (apply Z.pow_nonneg; lia). rewrite <- Z.pow_add_r by lia. f_equal. lia.
Qed.

Section TraceCapture.
Context {T : Type} `{HT : Device T} (room : list Z -> list Z -> nat).
Hypothesis disk_has_room : forall file buf, (length buf <= room file buf)%nat.

Lemma block_limit_pos mem_sz : 1 <= mem_sz -> (0 < block_limit mem_sz <= grab_fuel mem_sz)%nat.
Proof. intros. unfold block_limit, grab_fuel, BLK_SZ. change (2 ^ 17) with 131072. div_lia. Qed.

Lemma tcd_trace_nonneg `{HP : !TcdPort T tcd} t k : 0 <= tcd_trace t k.
Proof. rewrite <- tcd_rewind. by destruct (tcd_word_range (dev_wr tcd 0 t) k). Qed.

Lemma capture_spec sys fn fopen w0 m0 reg buffer st width mem_width tcd st' `{HP : !TcdPort T tcd} t :
  capture_setup sys fn fopen w0 m0 reg st width mem_width tcd st' ->
  let w := entry_words width in
  let n := until_zero (tcd_trace t) w (entry_limit width mem_width) 0 in
  exists c, run (trace_capture room sys (Some fn) fopen w0 m0 reg buffer st) t
    = Some (Finished (Capture (cut_newline fn) c [Fclose; Munmap tcd (page_size st')])) /\
  cfile c = word_bytes (words (tcd_trace t) 0 (n * w)) /\ tot c = Z.of_nat (n * (4 * w)) /\
  errs c = if 2 ^ mem_width <=? Z.of_nat (n * (4 * w)) then [memory_exceeded] else [].
Proof.
  intros Hs w n. destruct (entry_geometry width (su_range _ _ _ _ _ _ _ _ _ _ _ Hs)) as (He & Hw & Hper).
  destruct Hs as [Hn Hwid Hmem Hport Hopen Hr Hmr].
  assert (H1 : 1 <= 2 ^ mem_width <= 2 ^ 63)
    by (split; [apply (Z.pow_le_mono_r 2 0)|apply Z.pow_le_mono_r]; lia).
  destruct (block_limit_pos (2 ^ mem_width)) as [Hb Hfuel]; [lia|].
  destruct (grab_trace_spec tcd (tcd_trace t) w (Z.to_nat (BLK_SZ / TCD_ENTRY_SZ width)) (TCD_ENTRY_SZ width)
    (tcd_trace_nonneg t) He Hw Hper room disk_has_room (2 ^ mem_width) (block_limit (2 ^ mem_width) - 1) 0
    (dev_wr tcd 0 t) buffer {| cfile := []; tot := 0; errs := []; progress := [] |} (grab_fuel (2 ^ mem_width)))
    as (c & t' & Hg & Hf & Ht & He'); [done|lia|intros k; apply tcd_rewind|done|done|lia|].
  replace (S (block_limit (2 ^ mem_width) - 1)) with (block_limit (2 ^ mem_width)) in * by lia.
  change (0 * _ + until_zero (tcd_trace t) w _ _)%nat with n in Hf, Ht, He'.
  assert (Hlen : Z.of_nat n * TCD_ENTRY_SZ width = Z.of_nat (n * (4 * w))) by (rewrite He; fold w; lia).
  rewrite Hlen in Ht, He'. exists c. split; [|done].
  unfold run, trace_capture. destruct (Z.eqb_spec (hd 0 fn) 10); [done|].
  destruct (search sys "axi_perf_mon" _ _) as [dw|]; [injection Hwid as ->|done].
  destruct (search sys "axi_tcd" "xlnx,mem-addr-width" _) as [dm|]; [injection Hmem as ->|done].
  destruct (search sys "axi_tcd" "reg" _) as [dr|]; [injection Hport as ->|done].
  destruct (Z.leb_spec 64 mem_width); [lia|]. rewrite Hopen. cbn [negb]. rewrite Z.shiftl_1_l.
  rewrite (bind_run _ _ t tt (dev_wr tcd 0 t) eq_refl). by rewrite (bind_run _ _ _ _ _ Hg).
Qed.
End TraceCapture.

(** A capture reads the trace from the start, whole entries of the width the
    device tree names, and ends: with the first all-zero entry, or at the
    block in which the total reaches the size of the memory, with a message.
    The file holds the bytes of exactly these entries and the store never
    leaves the buffer; what the buffer, the locals and the file position were
    before does not matter. *)
Theorem trace_capture_correct {T} `{HT : Device T} room sys fn fopen w0 m0 reg buffer st width mem_width tcd st'
    `{HP : !TcdPort T tcd} t :
  (forall file buf, (length buf <= room file buf)%nat) ->
  capture_setup sys fn fopen w0 m0 reg st width mem_width tcd st' ->
  let w := entry_words width in
  let n := until_zero (tcd_trace t) w (entry_limit width mem_width) 0 in
  exists c, run (trace_capture room sys (Some fn) fopen w0 m0 reg buffer st) t
    = Some (Finished (Capture (cut_newline fn) c [Fclose; Munmap tcd (page_size st')])) /\
  cfile c = word_bytes (words (tcd_trace t) 0 (n * w)) /\ tot c = Z.of_nat (n * (4 * w)) /\
  errs c = if 2 ^ mem_width <=? Z.of_nat (n * (4 * w)) then [memory_exceeded] else [].
Proof. intros Hroom. by apply capture_spec. Qed.

(** A trace memory with the position of the next read. *)
Record trace_mem := { mem_words : list Z; mem_pos : nat }.
#[export] Instance trace_mem_device : Device trace_mem := {
  dev_rd a t := (u32 (nth (mem_pos t) (mem_words t) 0), {| mem_words := mem_words t; mem_pos := S (mem_pos t) |});
  dev_wr a v t := {| mem_words := mem_words t; mem_pos := 0 |}
}.

#[export] Program Instance trace_mem_port tcd : TcdPort trace_mem tcd := {
  tcd_word t k := u32 (nth (mem_pos t + k) (mem_words t) 0);
  tcd_trace t k := u32 (nth k (mem_words t) 0)
}.
Next Obligation. intros. by apply wrap_range. Qed.
Next Obligation. intros. simpl. by rewrite Nat.add_0_r. Qed.
Next Obligation. intros. simpl. do 2 f_equal. lia. Qed.
Next Obligation. done. Qed.

(** ** The entry size of the capture and of the parser *)

(** The entries a capture writes have the size the parser of the same width
    reads, for every width of whole bytes from 72 to 1024 bits; for 64 bits
    or less the capture writes smaller entries than the parser reads. *)
Theorem entry_size_agrees c k :
  FIFO_AXIS_TDATA_WIDTH c = 8 * k ->
  (9 <= k <= 128 -> TCD_ENTRY_BITS c = Some (8 * TCD_ENTRY_SZ (FIFO_AXIS_TDATA_WIDTH c))) /\
  (1 <= k <= 8 -> exists n, TCD_ENTRY_BITS c = Some n /\ 8 * TCD_ENTRY_SZ (FIFO_AXIS_TDATA_WIDTH c) < n).
Proof.
  intros Hk. unfold TCD_ENTRY_BITS. rewrite Hk. split; intros Hr.
  - assert (Hall : forallb (fun k =>
      bool_decide ((if 8 * k <=? 128 then Some 128 else if 8 * k <=? 256 then Some 256
                    else if 8 * k <=? 512 then Some 512 else if 8 * k <=? 1024 then Some 1024 else None)
                   = Some (8 * TCD_ENTRY_SZ (8 * k)))) (seqZ 9 120) = true) by (vm_compute; done).
    rewrite forallb_forall in Hall. eapply bool_decide_eq_true, Hall, list_elem_of_In, elem_of_seqZ. lia.
  - destruct (Z.leb_spec (8 * k) 128); [|lia]. exists 128. split; [done|].
    assert (Hall : forallb (fun k => 8 * TCD_ENTRY_SZ (8 * k) <? 128) (seqZ 1 8) = true) by (vm_compute; done).
    rewrite forallb_forall in Hall. apply Z.ltb_lt, Hall, list_elem_of_In, elem_of_seqZ. lia.
Qed.

Lemma entry_size_agrees_witness : TCD_ENTRY_BITS def_config = Some (8 * TCD_ENTRY_SZ 328).
Proof. destruct (entry_size_agrees def_config 41 eq_refl) as [H _]. apply H. lia. Defined.

(** ** From the trace memory to the text *)

Lemma zero_entry_bytes f w i :
  (forall k, in_word 32 (f k)) ->
  zero_entry f w i = true <-> word_bytes (words f (i * w) w) = repeat 0 (4 * w).
Proof.
  intros Hf. unfold zero_entry, words. generalize (i * w)%nat as s. induction w as [|w IH]; intros s; [done|].
  cbn [seq map forallb]. change (word_bytes (f s :: map f (seq (S s) w)))
    with (le_bytes 4 (f s) ++ word_bytes (map f (seq (S s) w))).
  replace (4 * S w)%nat with (4 + 4 * w)%nat by lia. rewrite repeat_app, andb_true_iff, IH.
  split.
  - intros [->%Z.eqb_eq%eq_sym ->]. done.
  - intros H. apply app_inj_1 in H as [Hh ->]; [|by rewrite length_le_bytes, repeat_length]. split; [|done].
    apply Z.eqb_eq. apply (f_equal le_val) in Hh. rewrite le_val_le_bytes in Hh.
    change (8 * Z.of_nat 4) with 32 in Hh. by rewrite wrap_id in Hh by done.
Qed.

Lemma record_not_zero c n r :
  8 * (n / 8) = n -> 0 <= n -> wf_record c n r -> record_bytes c n r <> repeat 0 (Z.to_nat (n / 8)).
Proof.
  destruct r as [[ts loop] ev]. intros Hn H0 (_ & _ & _ & Hfit & Hnz) He. unfold record_bytes in He.
  pose proof (read_entry_loop_bytes (Z.to_nat (n / 8)) (pad n (encode_entry c ts loop ev)) 0 [] []) as H1.
  rewrite He in H1. pose proof (read_entry_loop_zeroes (Z.to_nat (n / 8)) [] []) as H2.
  rewrite H1 in H2; [|done|unfold pad; rewrite length_app, repeat_length; lia].
  unfold pad in H2. rewrite nonzero_app, Hnz in H2. done.
Qed.

(** The trace memory holds the records [rs], one per entry, and then a zero
    entry. *)
Definition holds_records (c : config) (n : Z) (f : nat -> Z) (w : nat) (rs : list (Z * Z * ParserProofs.trace_event)) : Prop :=
  (forall i r, rs !! i = Some r -> word_bytes (words f (i * w) w) = record_bytes c n r) /\
  zero_entry f w (length rs) = true.

Lemma until_zero_first f w k : forall m i,
  (forall j, (i <= j < i + k)%nat -> zero_entry f w j = false) -> zero_entry f w (i + k) = true -> (k < m)%nat ->
  until_zero f w m i = S k.
Proof.
  induction k as [|k IH]; intros m i Hne Hz Hm; (destruct m as [|m]; [lia|]); simpl.
  - rewrite Nat.add_0_r in Hz. by rewrite Hz.
  - rewrite Hne by lia. f_equal. apply IH; [|by rewrite Nat.add_succ_comm|lia]. intros j Hj. apply Hne. lia.
Qed.

Lemma words_entries c n f w rs : forall i,
  (forall j r, rs !! j = Some r -> word_bytes (words f ((i + j) * w) w) = record_bytes c n r) ->
  word_bytes (words f (i * w) (length rs * w)) = trace_bytes c n rs.
Proof.
  induction rs as [|r rs IH]; intros i Hr; [done|].
  cbn [length]. change (S (length rs) * w)%nat with (w + length rs * w)%nat.
  rewrite words_app, word_bytes_app. change (trace_bytes c n (r :: rs)) with (record_bytes c n r ++ trace_bytes c n rs).
  f_equal.
  - rewrite <- (Nat.add_0_r i) at 1. by apply (Hr 0%nat).
  - replace (i * w + w)%nat with (S i * w)%nat by lia. apply IH. intros j r' Hj.
    replace (S i + j)%nat with (i + S j)%nat by lia. by apply Hr.
Qed.

Section EndToEnd.
Context (c : config) (n : Z) (f : nat -> Z) (w : nat).
Hypothesis f_words : forall k, in_word 32 (f k).
Hypothesis entry_bits : n = 8 * (4 * Z.of_nat w).

Lemma entry_bytes : 8 * (n / 8) = n /\ 0 <= n /\ Z.to_nat (n / 8) = (4 * w)%nat.
Proof. assert (n / 8 = 4 * Z.of_nat w) by (rewrite entry_bits, Z.mul_comm; by apply Z.div_mul). lia. Qed.

Lemma records_until_zero rs m :
  Forall (wf_record c n) rs -> holds_records c n f w rs -> (length rs < m)%nat ->
  until_zero f w m 0 = S (length rs).
Proof.
  intros Hwf [Hr Hz] Hm. destruct entry_bytes as (H8 & H0 & Hb). apply until_zero_first; [|done|done].
  intros j Hj. destruct (lookup_lt_is_Some_2 rs j) as [r Hrj]; [lia|].
  destruct (zero_entry f w j) eqn:Ez; [|done]. exfalso.
  apply (record_not_zero c n r H8 H0); [by eapply Forall_lookup_1|].
  rewrite <- (Hr j r Hrj), Hb. by apply zero_entry_bytes.
Qed.

Lemma records_file rs :
  holds_records c n f w rs ->
  word_bytes (words f 0 (S (length rs) * w)) = trace_bytes c n rs ++ (repeat 0 (Z.to_nat (n / 8)) ++ []).
Proof.
  intros [Hr Hz]. destruct entry_bytes as (_ & _ & ->).
  replace (S (length rs) * w)%nat with (length rs * w + w)%nat by lia.
  rewrite words_app, word_bytes_app, app_nil_r. f_equal; [by apply (words_entries c n f w rs 0)|].
  change (0 + length rs * w)%nat with (length rs * w)%nat. by apply zero_entry_bytes.
Qed.
End EndToEnd.

(** C13: From hardware to text: when the trace memory holds records and then a
    zero entry, all below the size of the memory, the file that the capture
    writes is one the parser turns into the text of exactly these records,
    ended by the all-zero record. *)
Theorem captured_trace_parses {T} `{HT : Device T} room sys fn fopen w0 m0 reg buffer st width mem_width tcd st'
    `{HP : !TcdPort T tcd} t c rs :
  (forall file buf, (length buf <= room file buf)%nat) ->
  capture_setup sys fn fopen w0 m0 reg st width mem_width tcd st' ->
  wf_config c -> TCD_ENTRY_BITS c = Some (8 * TCD_ENTRY_SZ width) ->
  Forall (wf_record c (8 * TCD_ENTRY_SZ width)) rs ->
  holds_records c (8 * TCD_ENTRY_SZ width) (tcd_trace t) (entry_words width) rs ->
  Z.of_nat (S (length rs)) * TCD_ENTRY_SZ width < 2 ^ mem_width ->
  exists cap rel, run (trace_capture room sys (Some fn) fopen w0 m0 reg buffer st) t
    = Some (Finished (Capture (cut_newline fn) cap rel)) /\ errs cap = [] /\
  parse_trace c (8 * TCD_ENTRY_SZ width) (cfile cap)
    = Some (app_output (render_trace c 0 rs) {| out := []; err := [cat ["TRACE END... ZEROES FOUND"; nl]] |}).
Proof.
  intros Hroom Hs Hc Hbits Hrs Hf Hfit.
  destruct (capture_spec room Hroom sys fn fopen w0 m0 reg buffer st width mem_width tcd st' t Hs)
    as (cap & Hrun & Hfile & _ & Herr).
  destruct (entry_geometry width (su_range _ _ _ _ _ _ _ _ _ _ _ Hs)) as (He & Hw & Hper).
  assert (Hwords : forall k, in_word 32 (tcd_trace t k)) by (intros k; rewrite <- tcd_rewind; apply tcd_word_range).
  assert (Hn : 8 * TCD_ENTRY_SZ width = 8 * (4 * Z.of_nat (entry_words width))) by (by rewrite He).
  assert (Hcount : until_zero (tcd_trace t) (entry_words width) (entry_limit width mem_width) 0 = S (length rs)).
  { apply (records_until_zero c _ _ _ Hwords Hn rs _ Hrs Hf).
    assert (H1 : 1 <= 2 ^ mem_width) by (apply (Z.pow_le_mono_r 2 0); [lia|]; apply (su_mem_range _ _ _ _ _ _ _ _ _ _ _ Hs)).
    unfold entry_limit. pose proof (block_limit_spec (2 ^ mem_width) (block_limit (2 ^ mem_width)) H1) as Hb.
    rewrite Nat.leb_refl in Hb. apply Z.leb_le in Hb. rewrite <- Hper in Hb. nia. }
  rewrite Hcount in Hfile, Herr. rewrite (records_file c _ _ _ Hwords Hn rs Hf) in Hfile.
  exists cap, [Fclose; Munmap tcd (page_size st')]. split; [exact Hrun|]. split.
  - rewrite Herr. destruct (Z.leb_spec (2 ^ mem_width) (Z.of_nat (S (length rs) * (4 * entry_words width)))); [lia|done].
  - rewrite Hfile. apply parse_trace_spec; [done..|]. apply end_zeroes.
Qed.

(** A device tree with both devices, and a trace of two records. *)
Definition monitor_tree : node :=
  Dir [("axi_perf_mon@0"%string,
        Dir [("name"%string, File [97; 120; 105; 95; 112; 101; 114; 102; 95; 109; 111; 110; 0]);
             ("xlnx,fifo-axis-tdata-width"%string, File [0; 0; 1; 72])]);
       ("axi_tcd@0"%string,
        Dir [("name"%string, File [97; 120; 105; 95; 116; 99; 100; 0]);
             ("xlnx,mem-addr-width"%string, File [0; 0; 0; 20]);
             ("reg"%string, File [0; 0; 0; 0; 0x80; 0; 0; 0; 0; 0; 0; 0; 0; 1; 0; 0])])].
Definition monitor_system : system :=
  {| sysconf_pagesize := 4096; open_mem := 3; mmap fd addr := Some (0x7F0000000000 + addr);
     dev_tree := monitor_tree; name_buf := repeat 0 64 |}.
Definition unmapped : mapping := {| mfd := 0; page_size := 0 |}.
Definition mapped : mapping := {| mfd := 3; page_size := 4096 |}.
Definition tcd_port : Z := 0x7F0080000000.
Definition disk (file buf : list Z) : nat := length buf.

Lemma capture_setup_example :
  capture_setup monitor_system [116; 10] (fun _ => true) 0 0 (repeat 0 16) unmapped 328 20 tcd_port mapped.
Proof. split; [discriminate|vm_compute; reflexivity..|lia|lia]. Qed.

(** The words of the trace file of [records_example]. *)
Fixpoint words_of_bytes (fuel : nat) (l : list Z) : list Z :=
  match fuel with O => [] | S fuel' => le_val (take 4 l) :: words_of_bytes fuel' (drop 4 l) end.
Definition trace_memory : trace_mem :=
  {| mem_words := words_of_bytes 32 (trace_bytes def_config 512 records_example); mem_pos := 5 |}.

Lemma holds_records_example :
  holds_records def_config 512 (tcd_trace (tcd := tcd_port) trace_memory) 16 records_example.
Proof.
  split; [|vm_compute; reflexivity]. intros i r Hi.
  destruct i as [|[|i]]; [injection Hi as <-; vm_compute; reflexivity..|done].
Qed.

Lemma captured_trace_parses_witness :
  exists cap rel, run (trace_capture disk monitor_system (Some [116; 10]) (fun _ => true) 0 0 (repeat 0 16) [] unmapped)
      trace_memory = Some (Finished (Capture [116] cap rel)) /\ errs cap = [] /\
    parse_trace def_config 512 (cfile cap)
    = Some {| out := [cat ["S,,0x0000CAFE,,,7"; nl]; cat ["0,W,0x0012345678,64,4,107"; nl]; cat ["0,FW,,,,107"; nl]];
              err := [cat ["WARNING: TIMING OVERFLOW"; nl]; cat ["TRACE END... ZEROES FOUND"; nl]] |}.
Proof.
  destruct (captured_trace_parses disk monitor_system [116; 10] (fun _ => true) 0 0 (repeat 0 16) [] unmapped
    328 20 tcd_port mapped trace_memory def_config records_example) as (cap & rel & H1 & H2 & H3).
  - intros file buf. apply Nat.le_refl.
  - apply capture_setup_example.
  - apply wf_def_config.
  - reflexivity.
  - repeat constructor; vm_compute; done.
  - apply holds_records_example.
  - vm_compute. reflexivity.
  - exists cap, rel. split; [exact H1|]. split; [exact H2|]. etransitivity; [exact H3|]. vm_compute. reflexivity.
Defined.

Lemma trace_capture_correct_witness :
  exists c, run (trace_capture disk monitor_system (Some [116; 10]) (fun _ => true) 0 0 (repeat 0 16) [] unmapped)
      trace_memory = Some (Finished (Capture [116] c [Fclose; Munmap tcd_port 4096])) /\ tot c = 192.
Proof.
  destruct (trace_capture_correct disk monitor_system [116; 10] (fun _ => true) 0 0 (repeat 0 16) [] unmapped
    328 20 tcd_port mapped trace_memory (fun _ _ => Nat.le_refl _) capture_setup_example) as (c & H1 & _ & H2 & _).
  exists c. split; [exact H1|]. rewrite H2. vm_compute. reflexivity.
Defined.
