(* ===== verification/MonitorStats.v ===== *)
(** The monitor programs: parameters, statistics and trace control.

    What [monitor_init] takes from the device tree, what [stats_start] and
    [stats_stop] leave in the registers, what [stats_print] can show, and the
    writes of a whole trace session. *)
From S2P Require Import Prelude Device ApmRegs Apm Devtree Parser Monitor.
Open Scope Z_scope.

(** * Parameters *)

Section Init.
Context (sys : system).

(** The data of the first device [dev] with a property [prop] of at least [n]
    bytes. *)
Definition prop_data (dev prop : string) (n : nat) : option (list Z) :=
  head (matches (name_buf sys) dev prop n (dev_tree sys)).

Definition findable (prop : string) : Prop := strlen prop <= NAME_SZ /\ names_fit prop (dev_tree sys).

Lemma search_prop dev prop old : findable prop -> search sys dev prop old = prop_data dev prop (length old).
Proof.
  intros [Hl Hf]. unfold search, prop_data.
  pose proof (dev_search_first (name_buf sys) dev prop (length old) Hl (dev_tree sys) 1 old ltac:(lia) Hf eq_refl
    (or_introl eq_refl)) as H.
  destruct (matches _ _ _ _ _) as [|d ms]; cbn [first_of head] in *; [|by rewrite H].
  destruct H as [H _]. destruct (dev_search _ _ _ _ _ _) as [r d]. simpl in H. by subst.
Qed.

Definition prop_u32 (prop : string) : option Z := le_val <$> prop_data "axi_perf_mon" prop 4.

(** The properties in the order they are looked for: the name messages give
    them, and the property. *)
Definition param_props : list (string * string) :=
  [("enable-profile", "xlnx,enable-profile"); ("enable-trace", "xlnx,enable-trace");
   ("num-monitor-slots", "xlnx,num-monitor-slots"); ("enable-event-count", "xlnx,enable-event-count");
   ("enable-event-log", "xlnx,enable-event-log"); ("have-sampled-metric-cnt", "xlnx,have-sampled-metric-cnt");
   ("num-of-counters", "xlnx,num-of-counters"); ("metric-count-width", "xlnx,metric-count-width");
   ("metrics-sample-count-width", "xlnx,metrics-sample-count-width");
   ("global-count-width", "xlnx,global-count-width"); ("metric-count-scale", "xlnx,metric-count-scale")]%string.

(** The first property that is missing. *)
Fixpoint missing (ps : list (string * string)) : option string :=
  match ps with
  | [] => None
  | (what, prop) :: ps' => if prop_u32 prop is Some _ then missing ps' else Some what
  end.

(** A core that traces is in trace mode, otherwise one that profiles in
    profile mode. *)
Definition mode_of (profile trace : Z) : Z :=
  if truthy trace then XAPM_MODE_TRACE else if truthy profile then XAPM_MODE_PROFILE else XAPM_MODE_ADVANCED.

Definition u32_of (prop : string) : Z := default 0 (prop_u32 prop).

Definition tree_params : xapm_param :=
  {| mode := mode_of (u32_of "xlnx,enable-profile") (u32_of "xlnx,enable-trace");
     maxslots := u32_of "xlnx,num-monitor-slots"; eventcnt := u32_of "xlnx,enable-event-count";
     eventlog := u32_of "xlnx,enable-event-log"; sampledcnt := u32_of "xlnx,have-sampled-metric-cnt";
     numcounters := u32_of "xlnx,num-of-counters"; metricwidth := u32_of "xlnx,metric-count-width";
     sampledwidth := u32_of "xlnx,metrics-sample-count-width"; globalcntwidth := u32_of "xlnx,global-count-width";
     scalefactor := u32_of "xlnx,metric-count-scale"; isr := 0; is_32bit_filter := false |}.

Definition init_spec (malloc_ok : bool) (st : mapping) : outcome (xapm_param * Z * mapping) :=
  match prop_data "axi_perf_mon" "reg" 16 with
  | None => Exit 1 (cat ["Can't find APM reg space in device tree."; nl])
  | Some reg =>
      match map_device sys (le_val (drop 8 reg)) st with
      | (None, _) => Exit 1 "APM reg mmap failed."
      | (Some base, st') =>
          if negb malloc_ok then Exit 1 (cat ["APM params allocation failed."; nl]) else
          match missing param_props with
          | Some what => Exit 1 (cat ["APM "; what; " not found in device tree."; nl])
          | None => Finished (tree_params, base, st')
          end
      end
  end.

Lemma read_param_prop what prop old :
  findable prop ->
  read_param sys what prop old
  = match prop_u32 prop with
    | None => Exit 1 (cat ["APM "; what; " not found in device tree."; nl])
    | Some v => Finished v
    end.
Proof.
  intros H. unfold read_param, prop_u32. rewrite search_prop, length_le_bytes by done. by destruct (prop_data _ _ _).
Qed.
End Init.

(** C31: [monitor_init] implements its abstract specification: the parameters and
    the mapping are those of the first monitor in the tree, the mode follows
    from its two enables, the first missing property ends the program with
    its name, and nothing depends on what the locals or the allocated block
    held before. *)
Theorem monitor_init_correct sys reg mode0 malloc st :
  length reg = 16%nat -> findable sys "reg" -> Forall (fun p => findable sys (snd p)) param_props ->
  monitor_init sys reg mode0 malloc st = init_spec sys (if malloc is Some _ then true else false) st.
Proof.
  intros Hreg Hr Hps. unfold monitor_init, init_spec. rewrite search_prop, Hreg by done.
  destruct (prop_data _ _ _ _) as [data|]; [|done].
  destruct (map_device _ _ _) as [[base|] st']; [|done]. destruct malloc as [p|]; [|done].
  repeat (apply Forall_cons in Hps as [?Hp Hps]). cbn [snd] in *. cbv zeta.
  unfold missing, param_props, tree_params, u32_of, mode_of. cbn [negb].
  repeat match goal with
  | |- context [read_param ?s ?w ?pr ?o] =>
      rewrite (read_param_prop s w pr o) by done; destruct (prop_u32 s pr) as [?|]; [|done]; cbn [mbind outcome_bind]
  end.
  reflexivity.
Qed.

(** A tree whose monitor has every property. *)
Definition be32 (v : Z) : node := File [0; 0; 0; v].
Definition full_tree : node :=
  Dir [("axi_perf_mon@0"%string,
        Dir (("name"%string, File [97; 120; 105; 95; 112; 101; 114; 102; 95; 109; 111; 110; 0]) ::
             ("reg"%string, File [0; 0; 0; 0; 0x80; 1; 0; 0; 0; 0; 0; 0; 0; 1; 0; 0]) ::
             zip_with (fun p v => (snd p, be32 v)) param_props [0; 1; 2; 1; 1; 1; 10; 32; 32; 64; 1]))].
Definition full_system (tree : node) : system :=
  {| sysconf_pagesize := 4096; open_mem := 3; mmap fd addr := Some (0x7F0000000000 + addr);
     dev_tree := tree; name_buf := repeat 0 64 |}.

Lemma findable_full prop : In prop ("reg"%string :: map snd param_props) -> findable (full_system full_tree) prop.
Proof.
  intros H. simpl in H. repeat (destruct H as [<-|H]; [split; [by vm_compute|]; vm_compute; intuition congruence|]). done.
Qed.

Lemma monitor_init_correct_witness :
  monitor_init (full_system full_tree) (repeat 7 16) 3 (Some params16) {| mfd := 0; page_size := 0 |}
  = Finished ({| mode := XAPM_MODE_TRACE; maxslots := 2; eventcnt := 1; eventlog := 1; sampledcnt := 1; numcounters := 10;
                 metricwidth := 32; sampledwidth := 32; globalcntwidth := 64; scalefactor := 1; isr := 0;
                 is_32bit_filter := false |}, 0x7F0080010000, {| mfd := 3; page_size := 4096 |}).
Proof.
  rewrite (monitor_init_correct (full_system full_tree) (repeat 7 16) 3 (Some params16) {| mfd := 0; page_size := 0 |}).
  - vm_compute. reflexivity.
  - reflexivity.
  - apply findable_full. simpl. tauto.
  - apply Forall_forall. intros p Hp%list_elem_of_In. apply findable_full. right. by apply in_map.
Defined.

(** * Statistics *)

Lemma exec_bind {S A B} (m : io S A) (f : A -> io S B) s : exec (m ≫= f) s = exec (f (run m s)) (exec m s).
Proof. unfold exec, run, mbind, io_bind. by destruct (m s). Qed.

Section Stats.
Context {D : Type} `{HD : Device D} (baseaddr : Z) `{RF : !RegFile D (apm_cfg baseaddr)}.
Abbreviation R := (apm_reg baseaddr).

(** [m] changes no configuration register but those at [os]. *)
Definition touches {A} (os : list Z) (m : io D A) : Prop :=
  forall d o, cfg_offset o = true -> existsb (Z.eqb o) os = false -> peek (exec m d) (R o) = peek d (R o).

Lemma cfg_offset_range o : cfg_offset o = true -> 0 <= o < 4096.
Proof.
  unfold cfg_offset. rewrite orb_true_iff, !existsb_exists. intros [(x & Hx & ->%Z.eqb_eq)|(k & Hk & Ho)].
  - simpl in Hx. repeat destruct Hx as [<-|Hx]; done || (vm_compute; split; congruence).
  - apply orb_true_iff in Ho. unfold XAPM_RANGE0_OFFSET, XAPM_MC0LOGEN_OFFSET in Ho.
    assert (0 <= k <= 9) by (simpl in Hk; lia). destruct Ho as [Ho%Z.eqb_eq|Ho%Z.eqb_eq]; lia.
Qed.

Lemma touches_read o : touches [] (readreg baseaddr o).
Proof. intros d o' Ho _. unfold exec, readreg, bus_read. apply rd_keeps. by exists o'. Qed.

Lemma touches_write o v os : 0 <= o < 4096 -> existsb (Z.eqb o) os = true -> touches os (writereg baseaddr o v).
Proof.
  intros Hr Ho d o' Ho' Hn. unfold exec, writereg, bus_write. apply wr_other; [by exists o'|].
  intros He. apply apm_reg_inj in He; [congruence|done|by apply cfg_offset_range].
Qed.

Lemma touches_ret {A} os (x : A) : touches os (mret x).
Proof. by intros d o _ _. Qed.

Lemma touches_bind {A B} os (m : io D A) (f : A -> io D B) :
  touches os m -> (forall x, touches os (f x)) -> touches os (m ≫= f).
Proof. intros Hm Hf d o Ho Hn. rewrite exec_bind, Hf, Hm by done. done. Qed.

Lemma touches_weaken {A} os os' (m : io D A) : touches os m -> forallb (fun o => existsb (Z.eqb o) os') os = true -> touches os' m.
Proof.
  intros Hm Hs d o Ho Hn. apply Hm; [done|]. destruct (existsb (Z.eqb o) os) eqn:E; [|done].
  apply existsb_exists in E as (x & Hx & ->%Z.eqb_eq). rewrite forallb_forall in Hs. by rewrite Hs in Hn.
Qed.

Lemma touches_read_any o os : touches os (readreg baseaddr o).
Proof. by apply touches_weaken with []; [apply touches_read|]. Qed.

Ltac touches_tac :=
  repeat first [ apply touches_bind; [|intros ?] | apply touches_read_any | apply touches_ret
               | apply touches_write; [vm_compute; split; congruence|reflexivity] | case_match ].

Lemma touches_setmetrics slot m c : touches [XAPM_MSR0_OFFSET; XAPM_MSR1_OFFSET; XAPM_MSR2_OFFSET] (setmetrics baseaddr slot m c).
Proof. unfold setmetrics. cbv zeta. destruct (c <=? 3), ((4 <=? c) && (c <=? 7)); touches_tac. Qed.

Lemma touches_range k hi lo :
  0 <= k <= 9 -> touches [XAPM_RANGE0_OFFSET + k * 16] (setincrementerrange baseaddr k hi lo).
Proof. intros. apply touches_write; [unfold XAPM_RANGE0_OFFSET; lia|]. simpl. by rewrite Z.eqb_refl. Qed.

Lemma touches_intrclear mask : touches [XAPM_IS_OFFSET] (intrclear baseaddr mask).
Proof. unfold intrclear. touches_tac. Qed.

Lemma touches_reset : touches [XAPM_CTL_OFFSET] (resetmetriccounter baseaddr).
Proof. unfold resetmetriccounter. touches_tac. Qed.

Lemma touches_enable : touches [XAPM_CTL_OFFSET] (enablemetricscounter baseaddr).
Proof. unfold enablemetricscounter. touches_tac. Qed.

Lemma touches_disable : touches [XAPM_CTL_OFFSET] (disablemetricscounter baseaddr).
Proof. unfold disablemetricscounter. touches_tac. Qed.

(** A program that leaves the selectors alone changes no counter's choice. *)
Lemma getmetrics_frame {A} os (m : io D A) d c :
  touches os m -> Forall (fun o => existsb (Z.eqb o) os = false) [XAPM_MSR0_OFFSET; XAPM_MSR1_OFFSET; XAPM_MSR2_OFFSET] ->
  0 <= c <= 9 ->
  run (getmetrics baseaddr c) (exec m d) = run (getmetrics baseaddr c) d.
Proof.
  intros Hm Hos Hc.
  rewrite (does_run _ _ _ _ _ (does_getmetrics baseaddr _ c Hc) (holds_peek (exec m d))).
  rewrite (does_run _ _ _ _ _ (does_getmetrics baseaddr _ c Hc) (holds_peek d)).
  rewrite (Hm d (msr_offset c)); [done|by apply (counter_cases c)|].
  apply Forall_cons in Hos as [? Hos]. apply Forall_cons in Hos as [? Hos]. apply Forall_cons in Hos as [? Hos].
  unfold msr_offset. by destruct (c <=? 3), (c <=? 7).
Qed.

(** Values of registers after the operations that set them. *)
Lemma peek_after {A} (m : io D A) d σ o :
  leaves m (peek d) σ -> cfg_offset o = true -> peek (exec m d) (R o) = σ (R o).
Proof. intros Hm Ho. apply (leaves_exec _ _ _ d Hm (holds_peek d)). by exists o. Qed.

Lemma range_after d k hi lo :
  0 <= k <= 9 -> in_word 16 hi -> in_word 16 lo ->
  peek (exec (setincrementerrange baseaddr k hi lo) d) (R (XAPM_RANGE0_OFFSET + k * 16))
  = u32 (Z.lor (u32 (Z.shiftl hi 16)) lo).
Proof.
  intros Hk Hhi Hlo. destruct (range_cfg k Hk) as [Hc _].
  unfold setincrementerrange. cbv zeta. rewrite (peek_after _ _ _ _ (leaves_writereg baseaddr _ _ _) Hc). apply upd_eq.
Qed.

Lemma run_getincrementerrange d k v hi lo :
  0 <= k <= 9 -> in_word 16 hi -> in_word 16 lo ->
  peek d (R (XAPM_RANGE0_OFFSET + k * 16)) = u32 (Z.lor (u32 (Z.shiftl hi 16)) lo) -> v = (hi, lo) ->
  run (getincrementerrange baseaddr k) d = v.
Proof.
  intros Hk Hhi Hlo Hp ->. destruct (range_cfg k Hk) as [Hc _].
  assert (Hd : does (getincrementerrange baseaddr k) (peek d)
    (Z.land (Z.shiftr (peek d (R (XAPM_RANGE0_OFFSET + k * 16))) 16) 0xFFFF,
     Z.land (peek d (R (XAPM_RANGE0_OFFSET + k * 16))) 0xFFFF) (peek d)).
  { unfold getincrementerrange. eapply does_bind; [by apply does_readreg|]. apply does_ret. }
  rewrite (does_run _ _ _ _ _ Hd (holds_peek d)), Hp. by destruct (range_word hi lo Hhi Hlo) as [-> ->].
Qed.

(** Setting or clearing one bit of the control register. *)
Lemma ctl_set_after d n :
  0 <= n < 32 ->
  peek (exec (regval ← readreg baseaddr XAPM_CTL_OFFSET; writereg baseaddr XAPM_CTL_OFFSET (Z.lor regval (2 ^ n))) d)
    (R XAPM_CTL_OFFSET) = put_field n 1 1 (peek d (R XAPM_CTL_OFFSET)).
Proof.
  intros Hn. rewrite (peek_after _ _ (upd (R XAPM_CTL_OFFSET) (u32 (Z.lor (peek d (R XAPM_CTL_OFFSET)) (2 ^ n))) (peek d)));
    [|apply does_leaves with tt; eapply does_bind; [by apply does_readreg|]; apply does_writereg|done].
  rewrite upd_eq, set_bit_lor by lia. apply wrap_id, put_field_range; try lia; [done|apply peek_word].
Qed.

Lemma ctl_clear_after d n :
  0 <= n < 32 ->
  peek (exec (regval ← readreg baseaddr XAPM_CTL_OFFSET; writereg baseaddr XAPM_CTL_OFFSET (Z.land regval (not32 (2 ^ n)))) d)
    (R XAPM_CTL_OFFSET) = put_field n 1 0 (peek d (R XAPM_CTL_OFFSET)).
Proof.
  intros Hn. rewrite (peek_after _ _ (upd (R XAPM_CTL_OFFSET) (u32 (Z.land (peek d (R XAPM_CTL_OFFSET)) (not32 (2 ^ n)))) (peek d)));
    [|apply does_leaves with tt; eapply does_bind; [by apply does_readreg|]; apply does_writereg|done].
  rewrite upd_eq, clear_bit_land by lia. rewrite (wrap_id 32 (peek d _)) by apply peek_word.
  apply wrap_id, put_field_range; try lia; [done|apply peek_word].
Qed.

Lemma ctl_reset_after d :
  peek (exec (resetmetriccounter baseaddr) d) (R XAPM_CTL_OFFSET) = put_field 1 1 0 (peek d (R XAPM_CTL_OFFSET)).
Proof.
  rewrite (peek_after _ _ (upd (R XAPM_CTL_OFFSET) (u32 (Z.land (peek d (R XAPM_CTL_OFFSET)) (not32 (2 ^ 1))))
    (upd (R XAPM_CTL_OFFSET) (u32 (Z.lor (peek d (R XAPM_CTL_OFFSET)) XAPM_CR_MCNTR_RESET_MASK)) (peek d))));
    [|apply does_leaves with XST_SUCCESS; unfold resetmetriccounter;
      eapply does_bind; [by apply does_readreg|]; eapply does_bind; [apply does_writereg|];
      eapply does_bind; [apply does_writereg|]; apply does_ret|done].
  rewrite upd_eq, clear_bit_land by lia. rewrite (wrap_id 32 (peek d _)) by apply peek_word.
  apply wrap_id, put_field_range; try lia; [done|apply peek_word].
Qed.

(** The registers [stats_start] programs. *)
Definition stats_offsets : list Z :=
  [XAPM_MSR0_OFFSET; XAPM_MSR1_OFFSET; XAPM_MSR2_OFFSET; XAPM_RANGE0_OFFSET + 2 * 16; XAPM_RANGE0_OFFSET + 6 * 16;
   XAPM_IS_OFFSET; XAPM_CTL_OFFSET].



Lemma touches_stats_start b : touches stats_offsets (stats_start b baseaddr).
Proof.
  assert (Hs : forall s m c, touches stats_offsets (setmetrics baseaddr s m c))
    by (intros; eapply touches_weaken; [apply touches_setmetrics|reflexivity]).
  assert (Hr : forall k hi lo, k = 2 \/ k = 6 -> touches stats_offsets (setincrementerrange baseaddr k hi lo))
    by (intros k hi lo Hk; eapply touches_weaken; [apply touches_range; lia|by destruct Hk as [-> | ->]]).
  unfold stats_start. repeat (apply touches_bind; [auto|intros _]).
  - destruct (USE_ACC b); [|apply touches_ret]. repeat (apply touches_bind; [auto|intros _]). auto.
  - eapply touches_weaken; [apply touches_intrclear|reflexivity].
  - eapply touches_weaken; [apply touches_reset|reflexivity].
  - eapply touches_weaken; [apply touches_enable|reflexivity].
Qed.
End Stats.

Lemma exec_ret {S A} (x : A) (s : S) : exec (mret x) s = s.
Proof. done. Qed.

Section StatsTheorems.
Context {D : Type} `{HD : Device D} (b : build) (baseaddr : Z) `{RF : !RegFile D (apm_cfg baseaddr)}.
Abbreviation R := (apm_reg baseaddr).

(** What each counter counts after [stats_start], as metric and slot. *)
Definition stats_metric (c : Z) : option (Z * Z) :=
  if c <? 4 then Some (c, 0) else if USE_ACC b && (c <? 8) then Some (c - 4, 1) else None.

Lemma stats_getmetrics d c :
  0 <= c <= 9 ->
  run (getmetrics baseaddr c) (exec (stats_start b baseaddr) d)
  = match stats_metric c with
    | Some (m, s) => (XST_SUCCESS, m, s)
    | None => run (getmetrics baseaddr c) d
    end.
Proof.
  intros Hc. unfold stats_start. rewrite !exec_bind.
  rewrite (getmetrics_frame baseaddr _ _ _ _ (touches_enable baseaddr)) by (done || by repeat constructor).
  rewrite (getmetrics_frame baseaddr _ _ _ _ (touches_reset baseaddr)) by (done || by repeat constructor).
  rewrite (getmetrics_frame baseaddr _ _ _ _ (touches_intrclear baseaddr _)) by (done || by repeat constructor).
  assert (Hr : forall k hi lo d, 0 <= k <= 9 -> run (getmetrics baseaddr c) (exec (setincrementerrange baseaddr k hi lo) d)
    = run (getmetrics baseaddr c) d).
  { intros k hi lo d' Hk. apply (getmetrics_frame baseaddr _ _ _ _ (touches_range baseaddr k hi lo Hk)); [|done].
    unfold XAPM_RANGE0_OFFSET, XAPM_MSR0_OFFSET, XAPM_MSR1_OFFSET, XAPM_MSR2_OFFSET.
    do 3 (apply Forall_cons; split; [cbn [existsb]; rewrite orb_false_r; apply Z.eqb_neq; lia|]). by apply Forall_nil. }
  unfold stats_metric.
  destruct (USE_ACC b); do 2 rewrite ?exec_bind, ?exec_ret, ?Hr, ?(getmetrics_after_setmetrics baseaddr (RF := RF)) by (lia || by split);
    by apply (counter_cases c).
Qed.

Lemma stats_range2 d : run (getincrementerrange baseaddr 2) (exec (stats_start b baseaddr) d) = (I2_RNG_HI b, 0).
Proof.
  assert (Hi : in_word 16 (I2_RNG_HI b)) by (unfold I2_RNG_HI; by destruct (LP64 b)).
  eapply (run_getincrementerrange baseaddr _ 2 _ (I2_RNG_HI b) 0); [done..| |done].
  assert (Hs : forall s m c, touches baseaddr [XAPM_MSR0_OFFSET; XAPM_MSR1_OFFSET; XAPM_MSR2_OFFSET] (setmetrics baseaddr s m c))
    by (intros; apply touches_setmetrics).
  unfold stats_start. rewrite !exec_bind.
  rewrite (touches_enable baseaddr), (touches_reset baseaddr), (touches_intrclear baseaddr) by done.
  destruct (USE_ACC b); rewrite ?exec_bind, ?exec_ret; [|by apply range_after].
  rewrite (touches_range baseaddr 6), !(touches_setmetrics baseaddr) by done. by apply range_after.
Qed.

Lemma stats_range6 d :
  USE_ACC b = true -> run (getincrementerrange baseaddr 6) (exec (stats_start b baseaddr) d) = (7, 0).
Proof.
  intros Hb. eapply (run_getincrementerrange baseaddr _ 6 _ 7 0); [done..| |done].
  unfold stats_start. rewrite Hb, !exec_bind.
  rewrite (touches_enable baseaddr), (touches_reset baseaddr), (touches_intrclear baseaddr) by done.
  by apply range_after.
Qed.

Lemma stats_ctl d :
  peek (exec (stats_start b baseaddr) d) (R XAPM_CTL_OFFSET) = put_field 0 1 1 (put_field 1 1 0 (peek d (R XAPM_CTL_OFFSET))).
Proof.
  unfold stats_start. rewrite !exec_bind.
  unfold enablemetricscounter. change XAPM_CR_MCNTR_ENABLE_MASK with (2 ^ 0).
  rewrite ctl_set_after by done. rewrite ctl_reset_after, (touches_intrclear baseaddr) by done.
  do 2 f_equal. destruct (USE_ACC b); rewrite ?exec_bind, ?exec_ret;
    rewrite ?(touches_range baseaddr 6), ?(touches_range baseaddr 2), ?(touches_setmetrics baseaddr) by done; [|done].
  by rewrite (touches_range baseaddr 2), ?(touches_setmetrics baseaddr) by done.
Qed.

(** After [stats_start], counters 0 to 3 count write and read transactions
    and bytes of slot 0, counters 4 to 7 those of slot 1 when accelerators
    are in use, with the strobe ranges set; the counters run from zero
    resets, the other two counters keep their choice, and no register but
    these changes.  [stats_stop] then clears the enable bit and nothing
    else. *)
Theorem stats_start_correct d :
  let d1 := exec (stats_start b baseaddr) d in
  let d2 := exec (stats_stop baseaddr) d1 in
  (forall c, 0 <= c <= 9 ->
   run (getmetrics baseaddr c) d1 =
     match stats_metric c with Some (m, s) => (XST_SUCCESS, m, s) | None => run (getmetrics baseaddr c) d end) /\
  run (getincrementerrange baseaddr 2) d1 = (I2_RNG_HI b, 0) /\
  (USE_ACC b = true -> run (getincrementerrange baseaddr 6) d1 = (7, 0)) /\
  peek d1 (R XAPM_CTL_OFFSET) = put_field 0 1 1 (put_field 1 1 0 (peek d (R XAPM_CTL_OFFSET))) /\
  (forall o, cfg_offset o = true -> existsb (Z.eqb o) stats_offsets = false -> peek d1 (R o) = peek d (R o)) /\
  peek d2 (R XAPM_CTL_OFFSET) = put_field 0 1 0 (peek d1 (R XAPM_CTL_OFFSET)) /\
  (forall o, cfg_offset o = true -> o <> XAPM_CTL_OFFSET -> peek d2 (R o) = peek d1 (R o)).
Proof.
  intros d1 d2. split_and!.
  - intros c Hc. by apply stats_getmetrics.
  - apply stats_range2.
  - apply stats_range6.
  - apply stats_ctl.
  - apply touches_stats_start.
  - unfold d2, stats_stop, disablemetricscounter. change XAPM_CR_MCNTR_ENABLE_MASK with (2 ^ 0). by apply ctl_clear_after.
  - intros o Ho Hne. apply (touches_disable baseaddr); [done|]. cbn [existsb]. rewrite orb_false_r. by apply Z.eqb_neq.
Qed.
End StatsTheorems.

Lemma stats_start_correct_witness :
  run (getmetrics 0 5) (exec (stats_start {| LP64 := true; USE_ACC := true; TALL := false |} 0) (ram_fill 0xFFFFFFFF))
  = (XST_SUCCESS, 1, 1).
Proof.
  destruct (stats_start_correct {| LP64 := true; USE_ACC := true; TALL := false |} 0 (RF := ram_regfile (apm_cfg 0))
    (ram_fill 0xFFFFFFFF)) as [H _].
  rewrite H by lia. reflexivity.
Defined.

(** ** What is printed *)

Section Print.
Context {D : Type} `{HD : Device D} (b : build) (params : xapm_param) (baseaddr : Z).

(** A line: four counters and an incrementer, read in this order. *)
Definition plain_cell (v : Z) : string := cat [""; fmt_u v; " "].
Definition plain_line (who : string) (c0 c1 c2 c3 i : Z) : io D string :=
  v0 ← getmetriccounter baseaddr c0;
  v1 ← getmetriccounter baseaddr c1;
  v2 ← getmetriccounter baseaddr c2;
  v3 ← getmetriccounter baseaddr c3;
  v4 ← getincrementer baseaddr i;
  mret (cat [who; plain_cell v0; plain_cell v1; plain_cell v2; plain_cell v3; fmt_u v4; nl]).

Definition plain_stats : io D (list string) :=
  cpu ← plain_line "CPU " 0 1 2 3 2;
  let head := cat ["Slot TranW TranR ByteW ByteR StrobeLW"; nl] in
  if USE_ACC b then
    acc ← plain_line "ACC " 4 5 6 7 6;
    mret [head; cpu; acc]
  else mret [head; cpu].
End Print.

(** No counter is ever marked as overflowed: with the interrupt status that
    [monitor_init] stores in the parameters, and that nothing updates, the
    lines are those of the plain counter values, whatever the status register
    of the core says. *)
Theorem stats_print_never_starred {D} `{HD : Device D} b params baseaddr d :
  isr params = 0 -> stats_print b params baseaddr d = plain_stats b baseaddr d.
Proof.
  intros Hi. unfold stats_print, plain_stats, plain_line, counter_cell, intrhwgetstatus, getmetriccounter, getincrementer.
  rewrite Hi, !Z.land_0_l. unfold readreg, bus_read, mbind, io_bind, mret, io_ret.
  destruct (USE_ACC b); by repeat (destruct (dev_rd _ _) as [? ?]).
Qed.

(** Both lines of a core whose status register has every overflow bit set. *)
Lemma stats_print_never_starred_witness :
  run (stats_print {| LP64 := true; USE_ACC := false; TALL := false |} params16 0) (ram_fill 0xFFFFFFFF)
  = [cat ["Slot TranW TranR ByteW ByteR StrobeLW"; nl];
     cat ["CPU 4294967295 4294967295 4294967295 4294967295 4294967295"; nl]].
Proof.
  unfold run. rewrite (stats_print_never_starred _ params16) by reflexivity. vm_compute. reflexivity.
Defined.

(** * A trace session *)

(** The storage registers of a logged device are those of the device. *)
#[export] Program Instance logged_regfile D `{HD : Device D} cfg `{RF : !RegFile D cfg} : RegFile (logged D) cfg :=
  { peek d r := peek (fst d) r }.
Next Obligation. intros. apply peek_word. Qed.
Next Obligation.
  intros D HD cfg RF [d l] r Hr. simpl. rewrite <- rd_peek by done. by destruct (dev_rd r d).
Qed.
Next Obligation.
  intros D HD cfg RF [d l] r r' Hr. simpl. pose proof (rd_keeps d r r' Hr). by destruct (dev_rd r d).
Qed.
Next Obligation. intros. by apply wr_same. Qed.
Next Obligation. intros. by apply wr_other. Qed.

Section Session.
Context {D : Type} `{HD : Device D} (b : build) (baseaddr : Z) `{RF : !RegFile D (apm_cfg baseaddr)}.
Abbreviation R := (apm_reg baseaddr).

(** [TRACE_START], an event for each element of [es], [TRACE_STOP]. *)
Definition session (es : list Z) : io (logged D) unit :=
  _ ← trace_start b baseaddr;
  _ ← foldr (fun e rest => _ ← trace_event baseaddr e; rest) (mret tt) es;
  trace_stop baseaddr.

Lemma run_setswdatareg v (d : logged D) :
  setswdatareg baseaddr v d = (tt, (dev_wr (R XAPM_SWD_OFFSET) (u32 v) (fst d), snd d ++ [Wr (R XAPM_SWD_OFFSET) (u32 v)])).
Proof. done. Qed.

Lemma swd_keeps_ctl v (d : D) : peek (dev_wr (R XAPM_SWD_OFFSET) v d) (R XAPM_CTL_OFFSET) = peek d (R XAPM_CTL_OFFSET).
Proof. apply wr_other; [by apply cfg_reg|]. intros He. by apply apm_reg_inj in He. Qed.

(** Programs that post events: the writes they add, and that they leave the
    control register alone. *)
Definition posts (m : io (logged D) unit) (vs : list Z) : Prop :=
  forall d, exists d', m d = (tt, d') /\ writes (snd d') = writes (snd d) ++ map (pair (R XAPM_SWD_OFFSET)) vs /\
    peek (fst d') (R XAPM_CTL_OFFSET) = peek (fst d) (R XAPM_CTL_OFFSET).

Lemma posts_ret : posts (mret tt) [].
Proof. intros d. exists d. by rewrite app_nil_r. Qed.

Lemma posts_swd v : posts (setswdatareg baseaddr v) [u32 v].
Proof.
  intros d. eexists. split; [apply run_setswdatareg|]. cbn [fst snd]. split; [|apply swd_keeps_ctl].
  by rewrite writes_app.
Qed.

Lemma posts_bind m f vs ws : posts m vs -> posts (f tt) ws -> posts (m ≫= f) (vs ++ ws).
Proof.
  intros Hm Hf d. destruct (Hm d) as (d1 & H1 & H2 & H3). destruct (Hf d1) as (d2 & H4 & H5 & H6).
  exists d2. rewrite (bind_run _ _ _ _ _ H1), H5, H2, map_app, app_assoc. split_and!; [done|done|congruence].
Qed.

Lemma posts_events es :
  posts (foldr (fun e rest => _ ← trace_event baseaddr e; rest) (mret tt) es) (map u32 es).
Proof.
  induction es as [|e es IH]; [apply posts_ret|].
  apply (posts_bind _ (fun _ => _) [u32 e]); [|done]. unfold trace_event.
  pose proof (posts_swd (u32 e)) as H. by rewrite wrap_wrap in H.
Qed.

Lemma posts_flush n i :
  posts (for_from i n (fun _ => setswdatareg baseaddr 0xDEADBEEF)) (replicate n 0xDEADBEEF).
Proof.
  revert i. induction n as [|n IH]; intros i; [apply posts_ret|].
  apply (posts_bind _ (fun _ => _) [0xDEADBEEF]); [apply (posts_swd 0xDEADBEEF)|apply IH].
Qed.

Lemma read_ctl (d : logged D) :
  exists d1, readreg baseaddr XAPM_CTL_OFFSET d = (peek (fst d) (R XAPM_CTL_OFFSET), d1) /\
    writes (snd d1) = writes (snd d) /\ peek (fst d1) (R XAPM_CTL_OFFSET) = peek (fst d) (R XAPM_CTL_OFFSET).
Proof.
  destruct d as [d l].
  pose proof (rd_peek d (R XAPM_CTL_OFFSET) (cfg_reg baseaddr XAPM_CTL_OFFSET eq_refl)) as H1.
  pose proof (rd_keeps d (R XAPM_CTL_OFFSET) (R XAPM_CTL_OFFSET) (cfg_reg baseaddr XAPM_CTL_OFFSET eq_refl)) as H2.
  unfold readreg, bus_read. change (u64 (baseaddr + XAPM_CTL_OFFSET)) with (R XAPM_CTL_OFFSET). simpl.
  destruct (dev_rd (R XAPM_CTL_OFFSET) d) as [v d1]. simpl in *. subst v. eexists. split; [done|].
  split; [|done]. simpl. by rewrite writes_app, app_nil_r.
Qed.

Lemma run_writereg o v (d : logged D) :
  writereg baseaddr o v d = (tt, (dev_wr (R o) (u32 v) (fst d), snd d ++ [Wr (R o) (u32 v)])).
Proof. done. Qed.

Lemma bit8_set v : in_word 32 v -> u32 (Z.lor v XAPM_CR_EVENTLOG_ENABLE_MASK) = put_field 8 1 1 v.
Proof.
  intros Hv. change XAPM_CR_EVENTLOG_ENABLE_MASK with (2 ^ 8). rewrite set_bit_lor by done.
  apply wrap_id, put_field_range; done || lia.
Qed.

Lemma bit8_clear v : in_word 32 v -> u32 (Z.land v (not32 XAPM_CR_EVENTLOG_ENABLE_MASK)) = put_field 8 1 0 v.
Proof.
  intros Hv. change XAPM_CR_EVENTLOG_ENABLE_MASK with (2 ^ 8). rewrite clear_bit_land by done.
  rewrite (wrap_id 32 v) by done. apply wrap_id, put_field_range; done || lia.
Qed.

Lemma run_starteventlog fl (d : logged D) :
  let v := peek (fst d) (R XAPM_CTL_OFFSET) in
  exists d1, starteventlog baseaddr fl d = (XST_SUCCESS, d1) /\
    writes (snd d1) = writes (snd d) ++ [(R XAPM_FEC_OFFSET, u32 fl); (R XAPM_CTL_OFFSET, put_field 8 1 1 v)] /\
    peek (fst d1) (R XAPM_CTL_OFFSET) = put_field 8 1 1 v.
Proof.
  intros v. destruct (read_ctl d) as (d1 & H1 & H2 & _). unfold starteventlog. rewrite (bind_run _ _ _ _ _ H1).
  rewrite (bind_run _ _ _ _ _ (run_writereg _ _ _)), (bind_run _ _ _ _ _ (run_writereg _ _ _)).
  eexists. split; [done|]. cbn [fst snd]. rewrite !writes_app, H2, <- app_assoc, bit8_set by apply peek_word.
  split; [done|]. apply wr_same; [by apply cfg_reg|]. apply put_field_range; try done; try lia. apply peek_word.
Qed.

Lemma run_stopeventlog (d : logged D) :
  exists d1, stopeventlog baseaddr d = (XST_SUCCESS, d1) /\
    writes (snd d1) = writes (snd d) ++ [(R XAPM_CTL_OFFSET, put_field 8 1 0 (peek (fst d) (R XAPM_CTL_OFFSET)))].
Proof.
  destruct (read_ctl d) as (d1 & H1 & H2 & _). unfold stopeventlog. rewrite (bind_run _ _ _ _ _ H1).
  rewrite (bind_run _ _ _ _ _ (run_writereg _ _ _)). eexists. split; [done|].
  cbn [fst snd]. by rewrite !writes_app, H2, bit8_clear by apply peek_word.
Qed.

(** A session turns the event log on, posts the start mark, the events and
    sixteen end marks while it is on, and turns it off: these are all the
    writes to the core, in this order; the control register ends as it was
    with the log disabled. *)
Theorem trace_session_writes d es :
  let v := peek (fst d) (R XAPM_CTL_OFFSET) in
  writes (snd (exec (session es) d))
  = writes (snd d) ++
    [(R XAPM_FEC_OFFSET, u32 (trace_flags b)); (R XAPM_CTL_OFFSET, put_field 8 1 1 v)] ++
    map (pair (R XAPM_SWD_OFFSET)) ([0xAAAAAAAA] ++ map u32 es ++ replicate 16 0xDEADBEEF) ++
    [(R XAPM_CTL_OFFSET, put_field 8 1 0 v)].
Proof.
  intros v. unfold exec, session, trace_start, trace_stop, for_range.
  destruct (run_starteventlog (trace_flags b) d) as (d1 & H1 & W1 & P1).
  destruct (posts_swd 0xAAAAAAAA d1) as (d2 & H2 & W2 & P2).
  destruct (posts_events es d2) as (d3 & H3 & W3 & P3).
  destruct (posts_flush (Z.to_nat 16) 0 d3) as (d4 & H4 & W4 & P4).
  destruct (run_stopeventlog d4) as (d5 & H5 & W5).
  rewrite (bind_run _ _ _ tt d2) by (by rewrite (bind_run _ _ _ _ _ H1), H2).
  rewrite (bind_run _ _ _ _ _ H3), (bind_run _ _ _ _ _ H4), (bind_run _ _ _ _ _ H5). cbn [snd mret io_ret].
  change (writes (snd d5) = writes (snd d) ++
    [(R XAPM_FEC_OFFSET, u32 (trace_flags b)); (R XAPM_CTL_OFFSET, put_field 8 1 1 v)] ++
    map (pair (R XAPM_SWD_OFFSET)) ([0xAAAAAAAA] ++ map u32 es ++ replicate 16 0xDEADBEEF) ++
    [(R XAPM_CTL_OFFSET, put_field 8 1 0 v)]).
  rewrite W5, W4, W3, W2, W1, P4, P3, P2, P1. rewrite put_field_put by done || lia.
  rewrite !map_app, <- !app_assoc. done.
Qed.
End Session.

Lemma trace_session_writes_witness :
  writes (snd (exec (session {| LP64 := true; USE_ACC := false; TALL := false |} 0 [5]) (ram_fill 0, [])))
  = [(0x400, 0x10011); (0x300, 0x100); (0x404, 0xAAAAAAAA); (0x404, 5)] ++
    replicate 16 (0x404, 0xDEADBEEF) ++ [(0x300, 0)].
Proof.
  etransitivity; [exact (trace_session_writes {| LP64 := true; USE_ACC := false; TALL := false |} 0 (ram_fill 0, []) [5]
    (RF := ram_regfile (apm_cfg 0)))|]. vm_compute. reflexivity.
Defined.
