(* ===== verification/Fatfs.v ===== *)
(** POSIX-style file access over FatFs (shared/standalone/fatfs.c).

    The bare-metal programs use [open], [read], [write] and the like; this
    layer implements them with a table of [MAX_FD] FatFs file objects and the
    console.  FatFs is third-party code: it is the interface [FatFs], whose
    documented behaviour is stated as classes of laws in [FatfsProofs].  The
    definitions follow the source function by function; messages for the
    console on errors are left out. *)
From S2P Require Import Prelude Device.
Open Scope Z_scope.

(** * Constants *)

(* @src shared/standalone/fatfs.c 428-447 FRESULT *)
Inductive FRESULT :=
  | FR_OK | FR_DISK_ERR | FR_INT_ERR | FR_NOT_READY | FR_NO_FILE | FR_NO_PATH | FR_INVALID_NAME
  | FR_DENIED | FR_EXIST | FR_INVALID_OBJECT | FR_WRITE_PROTECTED | FR_INVALID_DRIVE | FR_NOT_ENABLED
  | FR_NO_FILESYSTEM | FR_MKFS_ABORTED | FR_TIMEOUT | FR_LOCKED | FR_NOT_ENOUGH_CORE
  | FR_TOO_MANY_OPEN_FILES | FR_INVALID_PARAMETER.

#[export] Instance FRESULT_eq_dec : EqDecision FRESULT.
Proof. solve_decision. Defined.

(** Access flags of FatFs. *)
(* @src shared/standalone/fatfs.c 344-350 FA_READ ... FA_OPEN_ALWAYS *)
Definition FA_READ : Z := 0x01.
Definition FA_WRITE : Z := 0x02.
Definition FA_CREATE_NEW : Z := 0x04.
Definition FA_OPEN_ALWAYS : Z := 0x10.

(** Read-only attribute. *)
(* @src shared/standalone/fatfs.c 393-393 AM_RDO *)
Definition AM_RDO : Z := 0x01.

(** Flags of the C library (newlib). *)
Definition O_RDONLY : Z := 0.
Definition O_WRONLY : Z := 1.
Definition O_RDWR : Z := 2.
Definition O_APPEND : Z := 0x0008.
Definition O_CREAT : Z := 0x0200.
Definition O_TRUNC : Z := 0x0400.
Definition O_EXCL : Z := 0x0800.
(* @src shared/standalone/fatfs.c 407-407 S_IWUSR *)
Definition S_IWUSR : Z := 0x80.
Definition S_IFCHR : Z := 0x2000.
Definition S_IFREG : Z := 0x8000.
Definition SEEK_SET : Z := 0.
Definition SEEK_CUR : Z := 1.
Definition SEEK_END : Z := 2.

Definition ENOENT : Z := 2.
Definition EIO : Z := 5.
Definition ENXIO : Z := 6.
Definition EBADF : Z := 9.
Definition ENOMEM : Z := 12.
Definition EACCES : Z := 13.
Definition EFAULT : Z := 14.
Definition EBUSY : Z := 16.
Definition EEXIST : Z := 17.
Definition ENODEV : Z := 19.
Definition EINVAL : Z := 22.
Definition ENFILE : Z := 23.
Definition EMFILE : Z := 24.
Definition ENOTTY : Z := 25.
Definition ESPIPE : Z := 29.
Definition EROFS : Z := 30.
Definition ECANCELED : Z := 140.

(* @src shared/standalone/fatfs.c 12-12 MAX_FD *)
Definition MAX_FD : Z := 2.

(** Does [flags] have a bit of [mask]? *)
Definition has (flags mask : Z) : bool := truthy (Z.land flags mask).

(* @src shared/standalone/fatfs.c 30-40 map_access *)
Definition map_access (flags : Z) : Z :=
  let access :=
    if has flags O_RDWR then Z.lor FA_READ FA_WRITE
    else if has flags O_WRONLY then FA_WRITE
    else FA_READ in
  if has flags O_CREAT && has flags O_EXCL then Z.lor access FA_CREATE_NEW
  else if has flags O_CREAT then Z.lor access FA_OPEN_ALWAYS
  else access.

(* @src shared/standalone/fatfs.c 46-70 map_error *)
Definition map_error (fr : FRESULT) : Z :=
  match fr with
  | FR_DISK_ERR => EIO
  | FR_INT_ERR => EFAULT
  | FR_NOT_READY => EBUSY
  | FR_NO_FILE => ENOENT
  | FR_NO_PATH => ENOENT
  | FR_INVALID_NAME => EINVAL
  | FR_DENIED => EACCES
  | FR_EXIST => EEXIST
  | FR_INVALID_OBJECT => EBADF
  | FR_WRITE_PROTECTED => EROFS
  | FR_INVALID_DRIVE => ENODEV
  | FR_NOT_ENABLED => ENOMEM
  | FR_NO_FILESYSTEM => ENXIO
  | FR_MKFS_ABORTED => ECANCELED
  | FR_TIMEOUT => EBUSY
  | FR_LOCKED => EBUSY
  | FR_NOT_ENOUGH_CORE => ENOMEM
  | FR_TOO_MANY_OPEN_FILES => ENFILE
  | FR_INVALID_PARAMETER => EINVAL
  | _ => 0
  end.

(** * FatFs *)

(** [V]: the volume with its work area; [F]: file objects. *)
Class FatFs (V F : Type) := {
  f_mount : V -> FRESULT * V;
  f_open : F -> string -> Z -> V -> FRESULT * F * V;
  f_chmod : string -> Z -> Z -> V -> FRESULT * V;
  f_truncate : F -> V -> FRESULT * F * V;
  f_lseek : F -> Z -> V -> FRESULT * F * V;
  f_read : F -> Z -> V -> FRESULT * list Z * F * V;
  f_write : F -> list Z -> V -> FRESULT * Z * F * V;
  f_close : F -> V -> FRESULT * F * V;
  f_unlink : string -> V -> FRESULT * V;
  fs_null : F -> bool;
  f_tell : F -> Z;
  file_size : F -> Z
}.

(** The variables of the file, [errno] and the console: what is still to be
    typed and what was shown. *)
(* @src shared/standalone/fatfs.c 14-16 mounted, ffsvol, fds *)
Record fstate (V F : Type) := {
  mounted : bool;
  ffsvol : V;
  fds : list F;
  errno : Z;
  console_in : nat -> Z;
  console_out : list Z
}.
Arguments mounted {V F} _.
Arguments ffsvol {V F} _.
Arguments fds {V F} _.
Arguments errno {V F} _.
Arguments console_in {V F} _.
Arguments console_out {V F} _.

Section Files.
Context {V F : Type} `{HF : FatFs V F} (no_file : F).
Abbreviation M := (io (fstate V F)).

Definition set_errno (e : Z) : M unit :=
  modify (fun s => {| mounted := mounted s; ffsvol := ffsvol s; fds := fds s; errno := e;
                      console_in := console_in s; console_out := console_out s |}).
Definition set_mounted : M unit :=
  modify (fun s => {| mounted := true; ffsvol := ffsvol s; fds := fds s; errno := errno s;
                      console_in := console_in s; console_out := console_out s |}).
Definition on_volume {A} (f : V -> A * V) : M A := fun s =>
  let '(a, v) := f (ffsvol s) in
  (a, {| mounted := mounted s; ffsvol := v; fds := fds s; errno := errno s;
         console_in := console_in s; console_out := console_out s |}).
(** [f(&fds[i])] *)
Definition on_file {A} (i : nat) (f : F -> V -> A * F * V) : M A := fun s =>
  let '(a, fp, v) := f (nth i (fds s) no_file) (ffsvol s) in
  (a, {| mounted := mounted s; ffsvol := v; fds := <[i := fp]> (fds s); errno := errno s;
         console_in := console_in s; console_out := console_out s |}).
Definition file (i : nat) : M F := gets (fun s => nth i (fds s) no_file).

Definition outbyte (ch : Z) : M unit :=
  modify (fun s => {| mounted := mounted s; ffsvol := ffsvol s; fds := fds s; errno := errno s;
                      console_in := console_in s; console_out := console_out s ++ [u8 ch] |}).
Definition inbyte : M Z := fun s =>
  (u8 (console_in s 0%nat),
   {| mounted := mounted s; ffsvol := ffsvol s; fds := fds s; errno := errno s;
      console_in := fun k => console_in s (S k); console_out := console_out s |}).

(** [errno = e; return(r)] *)
Definition fail_with (e r : Z) : M Z := _ ← set_errno e; mret r.

(* @src shared/standalone/fatfs.c 76-83 _isatty *)
Definition _isatty (fd : Z) : M Z := if fd <? 3 then mret 1 else fail_with ENOTTY 0.

(* @src shared/standalone/fatfs.c 85-89 _fcntl *)
Definition _fcntl (fd cmd arg : Z) : M Z := mret 0.

(** The result and the mode stored in the buffer. *)
(* @src shared/standalone/fatfs.c 91-96 _fstat *)
Definition _fstat (fd : Z) : M (Z * Z) := mret (0, if fd <? 3 then S_IFCHR else S_IFREG).

(** The steps of [_open] once a slot is free, [i] of the table. *)
(* @src shared/standalone/fatfs.c 115-147 body of the loop of _open *)
Definition open_slot (i : nat) (pathname : string) (flags mode : Z) : M Z :=
  let access := map_access flags in
  fr ← on_file i (fun fp => f_open fp pathname access);
  if negb (bool_decide (fr = FR_OK)) then fail_with (map_error fr) (-1) else
  fr ← (if has flags O_CREAT then
          let attrib := if has flags S_IWUSR then 0 else AM_RDO in
          on_volume (f_chmod pathname attrib AM_RDO)
        else mret FR_OK);
  if negb (bool_decide (fr = FR_OK)) then fail_with (map_error fr) (-1) else
  fr ← (if has flags O_TRUNC then on_file i f_truncate else mret FR_OK);
  if negb (bool_decide (fr = FR_OK)) then fail_with (map_error fr) (-1) else
  fp ← file i;
  fr ← (if has flags O_APPEND then on_file i (fun fp => f_lseek fp (file_size fp)) else mret FR_OK);
  if negb (bool_decide (fr = FR_OK)) then fail_with (map_error fr) (-1) else
  mret (Z.of_nat i + 3).

(** The loop over the table, from slot [i] with [n] to go. *)
(* @src shared/standalone/fatfs.c 113-151 loop of _open *)
Fixpoint open_loop (n i : nat) (pathname : string) (flags mode : Z) : M Z :=
  match n with
  | O => fail_with ENFILE (-1)
  | S n' =>
      fp ← file i;
      if fs_null fp then open_slot i pathname flags mode else open_loop n' (S i) pathname flags mode
  end.

(* @src shared/standalone/fatfs.c 98-152 _open *)
Definition _open (pathname : string) (flags mode : Z) : M Z :=
  m ← gets mounted;
  fr ← (if m then mret FR_OK else on_volume f_mount);
  if negb (bool_decide (fr = FR_OK)) then fail_with ENXIO (-1) else
  _ ← (if (m : bool) then mret tt else set_mounted);
  open_loop (Z.to_nat MAX_FD) 0 pathname flags mode.

(** The slot of a descriptor that is not a console's. *)
Definition slot (fd : Z) : nat := Z.to_nat (fd - 3).

(* @src shared/standalone/fatfs.c 154-180 _lseek *)
Definition _lseek (fd offset whence : Z) : M Z :=
  if fd <? 3 then fail_with ESPIPE (-1)
  else if fd - 3 <? MAX_FD then
    fp ← file (slot fd);
    if negb ((whence =? SEEK_SET) || (whence =? SEEK_CUR) || (whence =? SEEK_END)) then fail_with EINVAL (-1) else
    let absoff :=
      u32 (if whence =? SEEK_SET then offset
           else if whence =? SEEK_CUR then f_tell fp + offset
           else file_size fp + offset) in
    fr ← on_file (slot fd) (fun fp => f_lseek fp absoff);
    if negb (bool_decide (fr = FR_OK)) then fail_with (map_error fr) (-1) else
    mret absoff
  else fail_with EMFILE (-1).

(** Reading a line from the console: at most [n] bytes, up to a line end. *)
(* @src shared/standalone/fatfs.c 196-199 console loop of _read *)
Fixpoint read_line (n : nat) (acc : list Z) : M (list Z) :=
  match n with
  | O => mret acc
  | Datatypes.S n' =>
      ch ← inbyte;
      if (ch =? 10) || (ch =? 13) then mret (acc ++ [ch]) else read_line n' (acc ++ [ch])
  end.

(** [buf_null] is [buf == NULL]; the result comes with the bytes stored at
    the start of the buffer. *)
(* @src shared/standalone/fatfs.c 182-215 _read *)
Definition _read (fd : Z) (buf_null : bool) (count : Z) : M (Z * list Z) :=
  if buf_null then r ← fail_with EINVAL (-1); mret (r, [])
  else if fd <? 3 then
    if negb (fd =? 0) then r ← fail_with EINVAL (-1); mret (r, [])
    else l ← read_line (Z.to_nat count) []; mret (Z.of_nat (length l), l)
  else if fd - 3 <? MAX_FD then
    '(fr, l) ← on_file (A := FRESULT * list Z) (slot fd) (fun fp v => let '(fr, l, fp, v) := f_read fp (u32 count) v in ((fr, l), fp, v));
    if negb (bool_decide (fr = FR_OK)) then r ← fail_with (map_error fr) (-1); mret (r, l)
    else mret (Z.of_nat (length l), l)
  else r ← fail_with EMFILE (-1); mret (r, []).

(** Writing to the console. *)
(* @src shared/standalone/fatfs.c 231-234 console loop of _write *)
Fixpoint write_console (l : list Z) : M unit :=
  match l with
  | [] => mret tt
  | ch :: l' =>
      _ ← (if ch =? 10 then outbyte 13 else mret tt);
      _ ← outbyte ch;
      write_console l'
  end.

(** [buf] is [None] for NULL, and otherwise the [count] bytes to write. *)
(* @src shared/standalone/fatfs.c 217-250 _write *)
Definition _write (fd : Z) (buf : option (list Z)) : M Z :=
  match buf with
  | None => fail_with EINVAL (-1)
  | Some l =>
      if fd <? 3 then
        if fd =? 0 then fail_with EINVAL (-1)
        else _ ← write_console l; mret (Z.of_nat (length l))
      else if fd - 3 <? MAX_FD then
        let l := take (Z.to_nat (u32 (Z.of_nat (length l)))) l in
        '(fr, bw) ← on_file (A := FRESULT * Z) (slot fd) (fun fp v => let '(fr, bw, fp, v) := f_write fp l v in ((fr, bw), fp, v));
        if negb (bool_decide (fr = FR_OK)) then fail_with (map_error fr) (-1) else mret bw
      else fail_with EMFILE (-1)
  end.

(* @src shared/standalone/fatfs.c 252-270 _close *)
Definition _close (fd : Z) : M Z :=
  if fd <? 3 then mret 0
  else if fd - 3 <? MAX_FD then
    fr ← on_file (slot fd) f_close;
    if negb (bool_decide (fr = FR_OK)) then fail_with (map_error fr) (-1) else mret 0
  else fail_with EMFILE (-1).

(* @src shared/standalone/fatfs.c 272-284 _unlink *)
Definition _unlink (pathname : string) : M Z :=
  fr ← on_volume (f_unlink pathname);
  if negb (bool_decide (fr = FR_OK)) then fail_with (map_error fr) (-1) else mret 0.

(** ** The names programs call *)

(* @src shared/standalone/fatfs.c 288-291 isatty *)
Definition isatty (fd : Z) : M Z := _isatty fd.
(* @src shared/standalone/fatfs.c 293-296 fcntl *)
Definition fcntl (fd cmd : Z) : M Z := _fcntl fd cmd 0.
(* @src shared/standalone/fatfs.c 298-301 fstat *)
Definition fstat (fd : Z) : M (Z * Z) := _fstat fd.
(* @src shared/standalone/fatfs.c 303-314 open *)
Definition open (pathname : string) (flags mode : Z) : M Z := _open pathname flags mode.
(* @src shared/standalone/fatfs.c 316-319 lseek *)
Definition lseek (fd offset whence : Z) : M Z := _lseek fd offset whence.
(* @src shared/standalone/fatfs.c 321-324 read *)
Definition read (fd : Z) (buf_null : bool) (count : Z) : M (Z * list Z) := _read fd buf_null count.
(* @src shared/standalone/fatfs.c 326-329 write *)
Definition write (fd : Z) (buf : option (list Z)) : M Z := _write fd buf.
(* @src shared/standalone/fatfs.c 331-334 close *)
Definition close (fd : Z) : M Z := _close fd.
(* @src shared/standalone/fatfs.c 336-339 unlink *)
Definition unlink (pathname : string) : M Z := _unlink pathname.
End Files.
