(* ===== verification/FatfsProofs.v ===== *)
(** The file layer: descriptors, contents, attributes, console.

    The theorems hold for every FatFs that meets the documented laws below;
    [rdisk], a volume in memory, discharges them and serves the witnesses. *)
From S2P Require Import Prelude Device Fatfs.
Open Scope Z_scope.

(** * What FatFs documents *)

(** File objects: opened ones are attached to a volume, others are not;
    functions refuse a file object that is not attached. *)
Class FatObjects (V F : Type) `{FatFs V F} (no_file : F) := {
  no_file_null : fs_null no_file = true;
  open_ok : forall fp p a v fp' v', f_open fp p a v = (FR_OK, fp', v') -> fs_null fp' = false;
  open_fail : forall fp p a v fr fp' v', f_open fp p a v = (fr, fp', v') -> fr <> FR_OK -> fs_null fp' = true;
  close_ok : forall fp v fp' v', f_close fp v = (FR_OK, fp', v') -> fs_null fp' = true;
  close_fail : forall fp v fr fp' v', f_close fp v = (fr, fp', v') -> fr <> FR_OK -> fs_null fp' = fs_null fp;
  truncate_keeps : forall fp v fr fp' v', f_truncate fp v = (fr, fp', v') -> fs_null fp' = fs_null fp;
  lseek_keeps : forall fp o v fr fp' v', f_lseek fp o v = (fr, fp', v') -> fs_null fp' = fs_null fp;
  read_keeps : forall fp n v fr l fp' v', f_read fp n v = (fr, l, fp', v') -> fs_null fp' = fs_null fp;
  write_keeps : forall fp l v fr n fp' v', f_write fp l v = (fr, n, fp', v') -> fs_null fp' = fs_null fp;
  not_attached : forall fp v, fs_null fp = true ->
    (forall o, fst (fst (f_lseek fp o v)) = FR_INVALID_OBJECT) /\
    (forall n, fst (fst (fst (f_read fp n v))) = FR_INVALID_OBJECT) /\
    (forall l, fst (fst (fst (f_write fp l v))) = FR_INVALID_OBJECT) /\
    fst (fst (f_close fp v)) = FR_INVALID_OBJECT
}.

(** Contents: [file_data fp v] is the data of the file [fp] has open. *)
Class FatData (V F : Type) `{FatFs V F} := {
  file_data : F -> V -> list Z;
  read_ok : forall fp n v l fp' v', 0 <= f_tell fp -> f_read fp n v = (FR_OK, l, fp', v') ->
    l = take (Z.to_nat n) (drop (Z.to_nat (f_tell fp)) (file_data fp v));
  write_ok : forall fp l v n fp' v', 0 <= f_tell fp <= Z.of_nat (length (file_data fp v)) ->
    f_write fp l v = (FR_OK, n, fp', v') ->
    0 <= n <= Z.of_nat (length l) /\ f_tell fp' = f_tell fp + n /\
    file_data fp' v' = take (Z.to_nat (f_tell fp)) (file_data fp v) ++ take (Z.to_nat n) l ++
                       drop (Z.to_nat (f_tell fp + n)) (file_data fp v);
  lseek_ok : forall fp o v fp' v', 0 <= o <= Z.of_nat (length (file_data fp v)) ->
    f_lseek fp o v = (FR_OK, fp', v') -> f_tell fp' = o /\ file_data fp' v' = file_data fp v
}.

(** Attributes: a file marked read-only cannot be opened for writing; only
    [f_chmod] changes the mark. *)
Class FatAttributes (V F : Type) `{FatFs V F} := {
  read_only : V -> string -> bool;
  chmod_ok : forall p attr v v', f_chmod p attr AM_RDO v = (FR_OK, v') -> read_only v' p = has attr AM_RDO;
  open_denied : forall fp p a v, read_only v p = true -> has a FA_WRITE = true -> has a FA_CREATE_NEW = false ->
    fst (fst (f_open fp p a v)) = FR_DENIED;
  truncate_attr : forall fp v p, read_only (snd (f_truncate fp v)) p = read_only v p;
  lseek_attr : forall fp o v p, read_only (snd (f_lseek fp o v)) p = read_only v p;
  close_attr : forall fp v p, read_only (snd (f_close fp v)) p = read_only v p
}.

(** * Descriptors *)

Section Descriptors.
Context {V F : Type} `{HF : FatFs V F} (no_file : F) `{HO : !FatObjects V F no_file}.
Abbreviation st := (fstate V F).

Definition opened (s : st) : list bool := (fun fp => negb (fs_null fp)) <$> fds s.
Definition table (s : st) : Prop := Z.of_nat (length (fds s)) = MAX_FD.

(** The first free slot. *)
Fixpoint first_free (l : list bool) : option nat :=
  match l with [] => None | b :: l' => if b then S <$> first_free l' else Some 0%nat end.

Definition live (s : st) (fd : Z) : Prop := 3 <= fd /\ opened s !! slot fd = Some true.

Lemma length_opened s : length (opened s) = length (fds s).
Proof. apply length_fmap. Qed.

Lemma opened_nth s i : (i < length (fds s))%nat -> opened s !! i = Some (negb (fs_null (nth i (fds s) no_file))).
Proof.
  intros Hi. unfold opened. rewrite list_lookup_fmap. apply lookup_lt_is_Some_2 in Hi as [fp Hfp].
  rewrite Hfp. simpl. by rewrite (nth_lookup_Some _ _ _ _ Hfp).
Qed.

Lemma live_range s fd : table s -> live s fd -> 3 <= fd < 3 + MAX_FD.
Proof.
  intros Ht [H3 Hl]. apply lookup_lt_Some in Hl. rewrite length_opened in Hl. unfold table, slot in *. lia.
Qed.

(** The effect of a call on one file object. *)
Lemma on_file_opened {A} i (f : F -> V -> A * F * V) s :
  (i < length (fds s))%nat ->
  let '(a, fp, v) := f (nth i (fds s) no_file) (ffsvol s) in
  exists s', on_file no_file i f s = (a, s') /\ opened s' = <[i := negb (fs_null fp)]> (opened s) /\
    length (fds s') = length (fds s) /\ ffsvol s' = v /\ nth i (fds s') no_file = fp /\ mounted s' = mounted s.
Proof.
  intros Hi. unfold on_file. destruct (f _ _) as [[a fp] v]. eexists. split; [done|]. cbn [opened fds ffsvol mounted].
  split; [unfold opened; cbn [fds]; by rewrite list_fmap_insert|]. split; [by rewrite length_insert|].
  split; [done|]. split; [|done]. apply nth_lookup_Some. by apply list_lookup_insert_eq.
Qed.

(** A call that keeps the attachment of the file object keeps the table. *)
Lemma on_file_keeps {A} i (f : F -> V -> A * F * V) s :
  (i < length (fds s))%nat ->
  (forall fp v a fp' v', f fp v = (a, fp', v') -> fs_null fp' = fs_null fp) ->
  exists a s', on_file no_file i f s = (a, s') /\ opened s' = opened s /\ length (fds s') = length (fds s) /\
    mounted s' = mounted s.
Proof.
  intros Hi Hf. pose proof (on_file_opened i f s Hi) as H.
  destruct (f (nth i (fds s) no_file) (ffsvol s)) as [[a fp] v] eqn:E.
  destruct H as (s' & H1 & H2 & H3 & _ & _ & H4). exists a, s'. split; [done|]. split; [|done].
  rewrite H2, (Hf _ _ _ _ _ E). apply list_insert_id. by apply opened_nth.
Qed.

Lemma first_free_lookup l i : first_free l = Some i -> l !! i = Some false.
Proof.
  revert i. induction l as [|[] l IH]; intros i; simpl; [done| |intros [= <-]; done].
  destruct (first_free l) as [j|]; [|done]. intros [= <-]. by apply IH.
Qed.

Lemma first_free_none l i : first_free l = None -> l !! i <> Some false.
Proof.
  revert i. induction l as [|[] l IH]; intros i; simpl; [done| |done].
  destruct (first_free l) as [j|]; [done|]. intros _. destruct i; simpl; [done|]. by apply IH.
Qed.

Lemma map_error_nonzero fr : fr <> FR_OK -> map_error fr <> 0.
Proof. by destruct fr. Qed.

(** Calls that leave the table as it is. *)
Definition same_table (s s' : st) : Prop :=
  opened s' = opened s /\ length (fds s') = length (fds s) /\ mounted s' = mounted s.
Definition keeps {A} (n : nat) (m : io st A) : Prop :=
  forall s, (n < length (fds s))%nat -> exists a s', m s = (a, s') /\ same_table s s'.

Lemma same_table_trans s1 s2 s3 : same_table s1 s2 -> same_table s2 s3 -> same_table s1 s3.
Proof. intros (? & ? & ?) (? & ? & ?). repeat split; congruence. Qed.

Lemma keeps_ret {A} n (a : A) : keeps n (mret a).
Proof. intros s _. by exists a, s. Qed.

Lemma keeps_volume {A} n (f : V -> A * V) : keeps n (on_volume f).
Proof. intros s _. unfold on_volume. destruct (f (ffsvol s)) as [a v]. by eexists _, _. Qed.

Lemma keeps_file {A} n (f : F -> V -> A * F * V) :
  (forall fp v a fp' v', f fp v = (a, fp', v') -> fs_null fp' = fs_null fp) -> keeps n (on_file no_file n f).
Proof. intros Hf s Hn. destruct (on_file_keeps n f s Hn Hf) as (a & s' & ? & ?). by exists a, s'. Qed.

Lemma keeps_bind {A B} n (m : io st A) (f : A -> io st B) :
  keeps n m -> (forall a, keeps n (f a)) -> keeps n (m ≫= f).
Proof.
  intros Hm Hf s Hn. destruct (Hm s Hn) as (a & s1 & H1 & T1).
  destruct (Hf a s1) as (b & s2 & H2 & T2); [by destruct T1 as (_ & -> & _)|].
  exists b, s2. rewrite (bind_run _ _ _ _ _ H1). split; [done|]. by eapply same_table_trans.
Qed.

Lemma keeps_fail n e r : keeps n (fail_with e r : io st Z).
Proof. intros s _. by eexists _, _. Qed.

(** A call whose result is a descriptor, or -1 with an error number. *)
Definition ends (r0 : Z) (m : io st Z) (n : nat) : Prop :=
  forall s, (n < length (fds s))%nat ->
    exists r s', m s = (r, s') /\ same_table s s' /\ (r = r0 \/ r = -1 /\ errno s' <> 0).

Lemma ends_guard r0 n (m : io st FRESULT) (k : io st Z) :
  keeps n m -> ends r0 k n ->
  ends r0 (fr ← m; if negb (bool_decide (fr = FR_OK)) then fail_with (map_error fr) (-1) else k) n.
Proof.
  intros Hm Hk s Hn. destruct (Hm s Hn) as (fr & s1 & H1 & T1). rewrite (bind_run _ _ _ _ _ H1).
  destruct (bool_decide_reflect (fr = FR_OK)) as [->|Hfr]; cbn [negb].
  - destruct (Hk s1) as (r & s2 & H2 & T2 & Hr); [by destruct T1 as (_ & -> & _)|].
    exists r, s2. split; [done|]. split; [by eapply same_table_trans|done].
  - eexists _, _. split; [done|]. split; [done|]. right. split; [done|]. by apply map_error_nonzero.
Qed.

(** After [f_open]: the slot stays taken, whatever the later steps answer. *)
Lemma open_rest_spec i pathname flags mode s :
  (i < length (fds s))%nat ->
  let fo := f_open (nth i (fds s) no_file) pathname (map_access flags) (ffsvol s) in
  exists r s', open_slot no_file i pathname flags mode s = (r, s') /\ length (fds s') = length (fds s) /\
    mounted s' = mounted s /\
    opened s' = <[i := bool_decide (fst (fst fo) = FR_OK)]> (opened s) /\
    (r = Z.of_nat i + 3 /\ fst (fst fo) = FR_OK \/ r = -1 /\ errno s' <> 0).
Proof.
  intros Hi fo. unfold open_slot. cbv zeta.
  pose proof (on_file_opened i (fun fp => f_open fp pathname (map_access flags)) s Hi) as H.
  cbv beta in H. unfold fo. clear fo. destruct (f_open _ _ _ _) as [[fr fp] v] eqn:E. destruct H as (s1 & H1 & H2 & H3 & _ & _ & H4).
  rewrite (bind_run _ _ _ _ _ H1). cbn [fst].
  destruct (bool_decide_reflect (fr = FR_OK)) as [->|Hfr]; cbn [negb].
  - rewrite (open_ok _ _ _ _ _ _ E) in H2. cbn [negb] in H2.
    assert (Hk : ends (Z.of_nat i + 3)
      (fr ← (if has flags O_CREAT then
               let attrib := if has flags S_IWUSR then 0 else AM_RDO in
               on_volume (f_chmod pathname attrib AM_RDO)
             else mret FR_OK);
       if negb (bool_decide (fr = FR_OK)) then fail_with (map_error fr) (-1) else
       fr ← (if has flags O_TRUNC then on_file no_file i f_truncate else mret FR_OK);
       if negb (bool_decide (fr = FR_OK)) then fail_with (map_error fr) (-1) else
       fp ← file no_file i;
       fr ← (if has flags O_APPEND then on_file no_file i (fun fp => f_lseek fp (file_size fp)) else mret FR_OK);
       if negb (bool_decide (fr = FR_OK)) then fail_with (map_error fr) (-1) else
       mret (Z.of_nat i + 3)) i).
    { apply ends_guard; [destruct (has _ _); [apply keeps_volume|apply keeps_ret]|].
      apply ends_guard.
      { destruct (has _ _); [|apply keeps_ret]. apply keeps_file. intros. by eapply truncate_keeps. }
      intros s2 Hs2. unfold file. change ((gets ?f ≫= ?k) s2) with (k (f s2) s2). cbv beta.
      revert s2 Hs2. apply (ends_guard (Z.of_nat i + 3) i).
      - destruct (has _ _); [|apply keeps_ret]. apply keeps_file. intros. by eapply lseek_keeps.
      - intros s2 _. eexists _, _. split; [done|]. split; [done|]. by left. }
    destruct (Hk s1) as (r & s2 & H5 & (T1 & T2 & T3) & Hr); [lia|].
    exists r, s2. rewrite T1, T2, T3. split; [exact H5|]. split_and!; [lia|congruence|done|].
    destruct Hr as [->|Hr]; [by left|by right].
  - rewrite (open_fail _ _ _ _ _ _ _ E Hfr) in H2. cbn [negb] in H2.
    eexists _, _. split; [done|]. cbn [fds opened mounted errno]. split_and!; [done|done|exact H2|].
    right. split; [done|]. by apply map_error_nonzero.
Qed.

(** The state with another error number, everything else as it was. *)
Definition with_errno (e : Z) (s : st) : st :=
  {| mounted := mounted s; ffsvol := ffsvol s; fds := fds s; errno := e; console_in := console_in s; console_out := console_out s |}.

Lemma open_loop_spec n pathname flags mode : forall i s,
  (i + n = length (fds s))%nat ->
  match first_free (drop i (opened s)) with
  | None => open_loop no_file n i pathname flags mode s = (-1, with_errno ENFILE s)
  | Some j =>
      open_loop no_file n i pathname flags mode s = open_slot no_file (i + j) pathname flags mode s
  end.
Proof.
  induction n as [|n IH]; intros i s Hn.
  - rewrite drop_ge by (rewrite length_opened; lia). done.
  - rewrite (drop_S _ (negb (fs_null (nth i (fds s) no_file)))) by (apply opened_nth; lia).
    cbn [first_free open_loop]. unfold file. change ((gets ?f ≫= ?k) s) with (k (f s) s). cbv beta.
    destruct (fs_null (nth i (fds s) no_file)); cbn [negb]; [by rewrite Nat.add_0_r|].
    specialize (IH (S i) s ltac:(lia)). destruct (first_free (drop (S i) (opened s))) as [j|]; cbn [fmap option_fmap option_map].
    + rewrite IH. by rewrite Nat.add_succ_comm.
    + exact IH.
Qed.

Lemma open_mounted pathname flags mode s :
  mounted s = true ->
  open no_file pathname flags mode s = open_loop no_file (Z.to_nat MAX_FD) 0 pathname flags mode s.
Proof. intros Hm. unfold open, _open. change ((gets ?f ≫= ?k) s) with (k (f s) s). cbv beta. by rewrite Hm. Qed.

Lemma open_spec pathname flags mode s :
  table s -> mounted s = true ->
  match first_free (opened s) with
  | None => open no_file pathname flags mode s = (-1, with_errno ENFILE s)
  | Some i =>
      let fr := fst (fst (f_open (nth i (fds s) no_file) pathname (map_access flags) (ffsvol s))) in
      exists r s', open no_file pathname flags mode s = (r, s') /\ table s' /\ mounted s' = true /\
        opened s' = <[i := bool_decide (fr = FR_OK)]> (opened s) /\
        (r = Z.of_nat i + 3 /\ fr = FR_OK \/ r = -1 /\ errno s' <> 0)
  end.
Proof.
  intros Ht Hm. rewrite open_mounted by done.
  pose proof (open_loop_spec (Z.to_nat MAX_FD) pathname flags mode 0 s) as H. rewrite drop_0 in H.
  unfold table in *. specialize (H ltac:(unfold MAX_FD in *; lia)).
  destruct (first_free (opened s)) as [i|] eqn:E; [|exact H]. rewrite H. cbn [Nat.add].
  apply first_free_lookup, lookup_lt_Some in E. rewrite length_opened in E.
  destruct (open_rest_spec i pathname flags mode s E) as (r & s' & H1 & H2 & H3 & H4 & H5).
  exists r, s'. by rewrite H2, H3.
Qed.

(** [close] on a descriptor of the table. *)
Lemma close_spec fd s :
  table s -> 3 <= fd < 3 + MAX_FD ->
  exists r s', close no_file fd s = (r, s') /\ table s' /\ mounted s' = mounted s /\
    (r = 0 /\ opened s' = <[slot fd := false]> (opened s) \/ r = -1 /\ errno s' <> 0 /\ opened s' = opened s).
Proof.
  intros Ht Hfd. unfold close, _close, table in *.
  destruct (Z.ltb_spec fd 3); [lia|]. destruct (Z.ltb_spec (fd - 3) MAX_FD); [|lia].
  assert (Hi : (slot fd < length (fds s))%nat) by (unfold slot; lia).
  pose proof (on_file_opened (slot fd) f_close s Hi) as H1.
  destruct (f_close _ _) as [[fr fp] v] eqn:E. destruct H1 as (s1 & H1 & H2 & H3 & _ & _ & H4).
  rewrite (bind_run _ _ _ _ _ H1). destruct (bool_decide_reflect (fr = FR_OK)) as [->|Hfr]; cbn [negb].
  - rewrite (close_ok _ _ _ _ E) in H2. exists 0, s1. split; [done|]. split; [lia|]. split; [done|]. by left.
  - rewrite (close_fail _ _ _ _ _ E Hfr) in H2. eexists _, _. split; [done|]. cbn [fds opened mounted errno].
    split; [lia|]. split; [done|]. right. split; [done|]. split; [by apply map_error_nonzero|].
    etransitivity; [exact H2|]. apply list_insert_id. by apply opened_nth.
Qed.
End Descriptors.

(** * Programs over descriptors *)

Inductive call :=
  | Open (pathname : string) (flags mode : Z)
  | Close (fd : Z)
  | Lseek (fd offset whence : Z)
  | Read (fd : Z) (buf_null : bool) (count : Z)
  | Write (fd : Z) (buf : option (list Z))
  | Unlink (pathname : string).

Section Programs.
Context {V F : Type} `{HF : FatFs V F} (no_file : F) `{HO : !FatObjects V F no_file}.
Abbreviation st := (fstate V F).

Definition run_call (c : call) : io st Z :=
  match c with
  | Open p fl md => open no_file p fl md
  | Close fd => close no_file fd
  | Lseek fd o w => lseek no_file fd o w
  | Read fd b n => '(r, _) ← read no_file fd b n; mret r
  | Write fd b => write no_file fd b
  | Unlink p => unlink p
  end.

(** The descriptors a program holds: those [open] gave it and it has not
    closed. *)
Definition held_after (c : call) (r : Z) (held : gset Z) : gset Z :=
  match c with
  | Open _ _ _ => if 0 <=? r then {[r]} ∪ held else held
  | Close fd => if r =? 0 then held ∖ {[fd]} else held
  | _ => held
  end.

(** Any sequence of calls, with any arguments, from an empty table. *)
Inductive reach : st -> gset Z -> Prop :=
  | reach_init s : table s -> Forall (fun fp => fs_null fp = true) (fds s) -> reach s ∅
  | reach_call s held c r s' : reach s held -> run_call c s = (r, s') -> reach s' (held_after c r held).

Definition good (s : st) (held : gset Z) : Prop := table s /\ forall fd, fd ∈ held -> live s fd.

Lemma good_keeps (m : io st Z) n s r s' held :
  keeps n m -> (n < length (fds s))%nat -> m s = (r, s') -> good s held -> good s' held.
Proof.
  intros Hm Hn He [Ht Hh]. destruct (Hm s Hn) as (a & s1 & H1 & T1 & T2 & T3).
  rewrite He in H1. injection H1 as <- <-. split; [unfold table in *; by rewrite T2|].
  intros fd Hfd. unfold live. rewrite T1. by apply Hh.
Qed.

(** The slot a descriptor names, and slot 0 for the others. *)
Definition slot_or_0 (fd : Z) : nat := if (3 <=? fd) && (fd - 3 <? MAX_FD) then slot fd else 0%nat.

Lemma slot_or_0_lt (s : st) fd : table s -> (slot_or_0 fd < length (fds s))%nat.
Proof.
  unfold table, slot_or_0, slot, MAX_FD. intros. destruct (Z.leb_spec 3 fd), (Z.ltb_spec (fd - 3) 2); simpl; lia.
Qed.

Lemma slot_or_0_in fd : (fd <? 3) = false -> (fd - 3 <? MAX_FD) = true -> slot_or_0 fd = slot fd.
Proof. unfold slot_or_0. intros ?%Z.ltb_ge ->. by destruct (Z.leb_spec 3 fd); [|lia]. Qed.

Lemma keeps_errno n fr (m : io st Z) :
  keeps n m -> keeps n (if negb (bool_decide (fr = FR_OK)) then fail_with (map_error fr) (-1) else m).
Proof. intros Hm. destruct (negb _); [apply keeps_fail|done]. Qed.

Lemma keeps_gets {A} n (f : st -> A) : keeps n (gets f).
Proof. intros s _. by exists (f s), s. Qed.

(** [errno], the console and the mount are no part of the table. *)
Lemma keeps_modify n (f : st -> st) : (forall s, same_table s (f s)) -> keeps n (modify f).
Proof. intros Hf s _. by exists tt, (f s). Qed.

Lemma keeps_write_console n l : keeps n (write_console l : io st unit).
Proof.
  induction l as [|ch l IH]; [apply keeps_ret|]. cbn [write_console].
  apply keeps_bind; [destruct (ch =? 10); [by apply keeps_modify|apply keeps_ret]|intros _].
  apply keeps_bind; [by apply keeps_modify|done].
Qed.

Lemma keeps_read_line n k : forall acc, keeps n (Fatfs.read_line k acc : io st (list Z)).
Proof.
  induction k as [|k IH]; intros acc; [apply keeps_ret|]. cbn [Fatfs.read_line].
  apply keeps_bind; [intros s _; by eexists _, _|intros ch]. destruct (_ || _); [apply keeps_ret|apply IH].
Qed.

Lemma keeps_lseek fd o w : keeps (slot_or_0 fd) (lseek no_file fd o w).
Proof.
  unfold lseek, _lseek. destruct (fd <? 3) eqn:E1; [apply keeps_fail|].
  destruct (fd - 3 <? MAX_FD) eqn:E2; [|apply keeps_fail]. rewrite slot_or_0_in by done.
  apply keeps_bind; [apply keeps_gets|intros fp]. destruct (negb _); [apply keeps_fail|]. cbv zeta.
  apply keeps_bind; [apply keeps_file; intros; by eapply lseek_keeps|intros fr]. apply keeps_errno, keeps_ret.
Qed.

Lemma keeps_read fd b n : keeps (slot_or_0 fd) (run_call (Read fd b n)).
Proof.
  apply keeps_bind; [|intros [r l]; apply keeps_ret]. unfold read, _read.
  destruct b; [apply keeps_bind; [apply keeps_fail|intros; apply keeps_ret]|].
  destruct (fd <? 3) eqn:E1.
  { destruct (negb _); [apply keeps_bind; [apply keeps_fail|intros; apply keeps_ret]|].
    apply keeps_bind; [apply keeps_read_line|intros; apply keeps_ret]. }
  destruct (fd - 3 <? MAX_FD) eqn:E2; [|apply keeps_bind; [apply keeps_fail|intros; apply keeps_ret]].
  rewrite slot_or_0_in by done. apply keeps_bind.
  - apply keeps_file. intros fp v a fp' v'. destruct (f_read fp (u32 n) v) as [[[fr l] fp1] v1] eqn:E.
    intros [= <- <- <-]. by eapply read_keeps.
  - intros [fr l]. destruct (negb _); [apply keeps_bind; [apply keeps_fail|intros; apply keeps_ret]|apply keeps_ret].
Qed.

Lemma keeps_write fd b : keeps (slot_or_0 fd) (write no_file fd b).
Proof.
  unfold write, _write. destruct b as [l|]; [|apply keeps_fail]. destruct (fd <? 3) eqn:E1.
  { destruct (fd =? 0); [apply keeps_fail|].
    apply keeps_bind; [apply keeps_write_console|intros; apply keeps_ret]. }
  destruct (fd - 3 <? MAX_FD) eqn:E2; [|apply keeps_fail].
  rewrite slot_or_0_in by done. apply keeps_bind.
  - apply keeps_file. intros fp v a fp' v'. cbv zeta. destruct (f_write fp _ v) as [[[fr bw] fp1] v1] eqn:E.
    intros [= <- <- <-]. by eapply write_keeps.
  - intros [fr bw]. apply keeps_errno, keeps_ret.
Qed.

Lemma keeps_unlink n p : keeps n (unlink p : io st Z).
Proof. apply keeps_bind; [apply keeps_volume|intros fr; apply keeps_errno, keeps_ret]. Qed.

(** Opening, whether or not the volume is mounted: the table is as before or
    one free slot was used, and a descriptor names a slot that was free. *)
Lemma open_descriptor pathname flags mode s r s' :
  table s -> open no_file pathname flags mode s = (r, s') ->
  table s' /\
  ((r = -1 /\ errno s' <> 0 /\ opened s' = opened s) \/
   exists i, opened s !! i = Some false /\ (opened s' = <[i := true]> (opened s)) /\
     (r = Z.of_nat i + 3 \/ r = -1 /\ errno s' <> 0)).
Proof.
  intros Ht He.
  assert (Hmounted : forall s, table s -> mounted s = true -> open no_file pathname flags mode s = (r, s') ->
    table s' /\ ((r = -1 /\ errno s' <> 0 /\ opened s' = opened s) \/
     exists i, opened s !! i = Some false /\ (opened s' = <[i := true]> (opened s)) /\
       (r = Z.of_nat i + 3 \/ r = -1 /\ errno s' <> 0))).
  { clear s Ht He. intros s Ht Hm He. pose proof (open_spec no_file pathname flags mode s Ht Hm) as H.
    destruct (first_free (opened s)) as [i|] eqn:Ei.
    - cbv zeta in H. destruct H as (r1 & s1 & H1 & H2 & H3 & H4 & H5). rewrite He in H1. injection H1 as <- <-.
      split; [done|]. apply first_free_lookup in Ei. case_bool_decide as Hfr; rewrite ?Hfr in *.
      + right. exists i. split_and!; [done|done|]. destruct H5 as [[-> _]|H5]; [by left|by right].
      + left. destruct H5 as [[_ ?]|[-> ?]]; [done|]. split_and!; [done|done|]. rewrite H4. by apply list_insert_id.
    - rewrite He in H. injection H as -> ->. split; [done|]. by left. }
  destruct (mounted s) eqn:Hm; [by apply Hmounted|].
  unfold open, _open in He. change ((gets ?f ≫= ?k) s) with (k (f s) s) in He. cbv beta in He. rewrite Hm in He.
  unfold on_volume in He. unfold mbind at 1, io_bind at 1 in He. destruct (f_mount (ffsvol s)) as [fr v] eqn:Ef.
  destruct (bool_decide_reflect (fr = FR_OK)) as [->|Hfr]; cbn [negb] in He.
  - apply (Hmounted {| mounted := true; ffsvol := v; fds := fds s; errno := errno s; console_in := console_in s;
      console_out := console_out s |}); [done|done|]. rewrite open_mounted by done. exact He.
  - injection He as <- <-. split; [done|]. by left.
Qed.

(** The volume is mounted by the first call that needs it, and stays so. *)
Lemma open_mounts pathname flags mode s r s' :
  table s -> open no_file pathname flags mode s = (r, s') ->
  mounted s' = true \/ (mounted s' = mounted s /\ opened s' = opened s).
Proof.
  intros Ht He. assert (Hmounted : forall s, table s -> mounted s = true -> open no_file pathname flags mode s = (r, s') -> mounted s' = true).
  { clear s Ht He. intros s Ht Hm He. pose proof (open_spec no_file pathname flags mode s Ht Hm) as H.
    destruct (first_free (opened s)); [|rewrite He in H; by injection H as -> ->].
    cbv zeta in H. destruct H as (r1 & s1 & H1 & _ & H3 & _). rewrite He in H1. by injection H1 as <- <-. }
  destruct (mounted s) eqn:Hm; [left; by apply (Hmounted s)|].
  unfold open, _open in He. change ((gets ?f ≫= ?k) s) with (k (f s) s) in He. cbv beta in He. rewrite Hm in He.
  unfold on_volume in He. unfold mbind at 1, io_bind at 1 in He. destruct (f_mount (ffsvol s)) as [fr v] eqn:Ef.
  destruct (bool_decide_reflect (fr = FR_OK)) as [->|Hfr]; cbn [negb] in He.
  - left. apply (Hmounted {| mounted := true; ffsvol := v; fds := fds s; errno := errno s; console_in := console_in s;
      console_out := console_out s |}); [done|done|]. rewrite open_mounted by done. exact He.
  - injection He as <- <-. right. by split.
Qed.

(** Nothing is open on a volume that is not mounted. *)
Definition nothing_unmounted (s : st) : Prop := mounted s = true \/ forall i, opened s !! i <> Some true.

Lemma unmounted_keeps (m : io st Z) n s r s' :
  keeps n m -> (n < length (fds s))%nat -> m s = (r, s') -> nothing_unmounted s -> nothing_unmounted s'.
Proof.
  intros Hm Hn He Hs. destruct (Hm s Hn) as (a & s1 & H1 & T1 & _ & T3). rewrite He in H1. injection H1 as <- <-.
  unfold nothing_unmounted. by rewrite T1, T3.
Qed.

Lemma unmounted_call s c r s' : table s -> nothing_unmounted s -> run_call c s = (r, s') -> nothing_unmounted s'.
Proof.
  intros Ht Hs He. destruct c as [p fl md|fd|fd o w|fd b n|fd b|p]; cbn [run_call] in *.
  - destruct (open_mounts p fl md s r s' Ht He) as [Hm|[Hm Ho]]; [by left|]. unfold nothing_unmounted. by rewrite Hm, Ho.
  - destruct (decide (3 <= fd < 3 + MAX_FD)) as [Hr|Hr].
    + destruct (close_spec no_file fd s Ht Hr) as (r1 & s1 & H1 & _ & Hm & H3). rewrite He in H1. injection H1 as <- <-.
      unfold nothing_unmounted. rewrite Hm. destruct Hs as [|Hs]; [by left|right]. intros i.
      destruct H3 as [[_ ->]|(_ & _ & ->)]; [|done]. intros Hi. apply list_lookup_insert_Some in Hi as [(_ & ? & _)|[_ Hi]]; [done|by apply (Hs i)].
    + unfold close, _close in He. destruct (Z.ltb_spec fd 3); [by injection He as <- <-|].
      destruct (Z.ltb_spec (fd - 3) MAX_FD); [lia|]. by injection He as <- <-.
  - eapply unmounted_keeps; [apply (keeps_lseek fd o w)|by apply slot_or_0_lt|done|done].
  - eapply unmounted_keeps; [apply (keeps_read fd b n)|by apply slot_or_0_lt|done|done].
  - eapply unmounted_keeps; [apply (keeps_write fd b)|by apply slot_or_0_lt|done|done].
  - eapply unmounted_keeps; [apply (keeps_unlink 0 p)|by apply (slot_or_0_lt s 0)|done|done].
Qed.

Lemma slot_inj fd fd' : 3 <= fd -> 3 <= fd' -> slot fd = slot fd' -> fd = fd'.
Proof. unfold slot. lia. Qed.

Lemma good_open s held p fl md r s' :
  good s held -> open no_file p fl md s = (r, s') ->
  good s' (held_after (Open p fl md) r held) /\ (0 <= r -> r ∉ held).
Proof.
  intros [Ht Hh] He. destruct (open_descriptor _ _ _ _ _ _ Ht He) as [Ht' Hr]. cbn [held_after].
  destruct Hr as [(-> & _ & Ho)|(i & Hi & Ho & Hr)].
  - split; [|done]. split; [done|]. intros fd Hfd. unfold live. rewrite Ho. by apply Hh.
  - assert (Hold : forall fd, fd ∈ held -> live s' fd).
    { intros fd Hfd. destruct (Hh fd Hfd) as [H3 Hl]. split; [done|]. rewrite Ho.
      destruct (decide (i = slot fd)) as [->|Hne]; [congruence|]. by rewrite list_lookup_insert_ne. }
    destruct Hr as [->|[-> _]].
    + destruct (Z.leb_spec 0 (Z.of_nat i + 3)); [|lia].
      assert (Hs : slot (Z.of_nat i + 3) = i) by (unfold slot; lia). split.
      * split; [done|]. intros fd [->%elem_of_singleton|Hfd]%elem_of_union; [|by apply Hold].
        split; [lia|]. rewrite Ho, Hs. apply list_lookup_insert_eq. by apply lookup_lt_Some in Hi.
      * intros _ Hin. destruct (Hh _ Hin) as [_ Hl]. rewrite Hs in Hl. congruence.
    + split; [by split|done].
Qed.

Lemma good_close s held fd r s' :
  good s held -> close no_file fd s = (r, s') -> good s' (held_after (Close fd) r held).
Proof.
  intros [Ht Hh] He. cbn [held_after]. destruct (decide (3 <= fd < 3 + MAX_FD)) as [Hr|Hr].
  - destruct (close_spec no_file fd s Ht Hr) as (r1 & s1 & H1 & H2 & _ & H3). rewrite He in H1. injection H1 as <- <-.
    split; [done|]. intros fd' Hfd'. destruct H3 as [[-> Ho]|(-> & _ & Ho)].
    + cbn in Hfd'. apply elem_of_difference in Hfd' as [Hin Hne%not_elem_of_singleton].
      destruct (Hh fd' Hin) as [H3' Hl]. split; [done|]. rewrite Ho, list_lookup_insert_ne; [done|].
      intros He'. apply Hne. symmetry. apply slot_inj; [lia|done|done].
    + unfold live. rewrite Ho. by apply Hh.
  - assert (Hs : opened s' = opened s /\ length (fds s') = length (fds s)).
    { unfold close, _close in He. destruct (Z.ltb_spec fd 3); [by injection He as <- <-|].
      destruct (Z.ltb_spec (fd - 3) MAX_FD); [lia|]. by injection He as <- <-. }
    destruct Hs as [Ho Hl]. split; [unfold table in *; by rewrite Hl|]. intros fd' Hfd'.
    unfold live. rewrite Ho. apply Hh. destruct (r =? 0); set_solver.
Qed.

Lemma good_call s held c r s' :
  good s held -> run_call c s = (r, s') -> good s' (held_after c r held).
Proof.
  intros Hg He. destruct c as [p fl md|fd|fd o w|fd b n|fd b|p]; cbn [run_call held_after] in *.
  - by eapply good_open.
  - by eapply good_close.
  - eapply good_keeps; [apply (keeps_lseek fd o w)|apply slot_or_0_lt, Hg|done|done].
  - eapply good_keeps; [apply (keeps_read fd b n)|apply slot_or_0_lt, Hg|done|done].
  - eapply good_keeps; [apply (keeps_write fd b)|apply slot_or_0_lt, Hg|done|done].
  - eapply good_keeps; [apply (keeps_unlink 0 p)|apply (slot_or_0_lt s 0), Hg|done|done].
Qed.

Lemma reach_good s held : reach s held -> good s held.
Proof.
  induction 1 as [s Ht _|s held c r s' _ IH He]; [|by eapply good_call].
  split; [done|]. intros fd Hfd. by apply not_elem_of_empty in Hfd.
Qed.

Lemma reach_mounted s held : reach s held -> nothing_unmounted s.
Proof.
  induction 1 as [s Ht Hf|s held c r s' Hr IH He]; [|eapply unmounted_call; [by apply reach_good in Hr as [? _]|done|done]].
  right. intros i Hi. unfold opened in Hi. rewrite list_lookup_fmap in Hi. destruct (fds s !! i) as [fp|] eqn:E; [|done].
  rewrite Forall_lookup in Hf. simpl in Hi. by rewrite (Hf _ _ E) in Hi.
Qed.

(** With a full table [open] only sets the error number. *)
Lemma open_full s held p fl md : reach s held -> first_free (opened s) = None -> open no_file p fl md s = (-1, with_errno ENFILE s).
Proof.
  intros Hr Hf. pose proof (reach_mounted s held Hr) as Hm. apply reach_good in Hr as [Ht _].
  assert (H : mounted s = true).
  { destruct Hm as [|Hm]; [done|]. exfalso. unfold table, MAX_FD in Ht. rewrite <- length_opened in Ht.
    destruct (opened s) as [|b l] eqn:E; [simpl in Ht; lia|]. destruct b; [by apply (Hm 0%nat)|done]. }
  pose proof (open_spec no_file p fl md s Ht H) as Ho. by rewrite Hf in Ho.
Qed.
End Programs.

(** C28: In every state programs can reach, by any calls with any arguments, each
    descriptor a program holds names an open file object of the table, and a
    descriptor [open] returns is not one already held; at most [MAX_FD] are
    held, and with all slots in use [open] answers -1 with [ENFILE] and
    changes nothing else: no file object, no file and nothing on the volume. *)
Theorem descriptors_safe {V F} `{HF : FatFs V F} no_file `{HO : !FatObjects V F no_file} s held :
  reach no_file s held ->
  (forall fd, fd ∈ held -> 3 <= fd < 3 + MAX_FD /\ live s fd) /\
  (size held <= 2)%nat /\
  forall p fl md r s', open no_file p fl md s = (r, s') ->
    (0 <= r -> 3 <= r < 3 + MAX_FD /\ r ∉ held) /\
    (first_free (opened s) = None -> r = -1 /\ s' = with_errno ENFILE s).
Proof.
  intros Hr. pose proof Hr as Hr0. pose proof (open_full no_file s held) as Hfull. apply (reach_good no_file (HO := HO)) in Hr as [Ht Hh].
  assert (Hrange : forall fd, fd ∈ held -> 3 <= fd < 3 + MAX_FD) by (intros fd Hfd; apply (live_range s fd Ht), Hh, Hfd).
  split; [by auto|]. split.
  { assert (Hs : held ⊆ {[3; 4]}) by (intros fd Hfd; specialize (Hrange fd Hfd); unfold MAX_FD in *; set_unfold; lia).
    apply subseteq_size in Hs. etransitivity; [exact Hs|]. vm_compute. lia. }
  intros p fl md r s' He. split.
  - intros H0. destruct (good_open no_file s held p fl md r s' (conj Ht Hh) He) as [[Ht' Hh'] Hn]. split; [|by apply Hn].
    cbn [held_after] in Hh'. destruct (Z.leb_spec 0 r); [|lia]. apply (live_range s' r Ht'), Hh'. set_solver.
  - intros Hf. rewrite (Hfull p fl md Hr0 Hf) in He. by injection He as <- <-.
Qed.

(** * A volume in memory *)

(** Files with their read-only mark; a file object names its file. *)
Record rdisk := { rfiles : gmap string (list Z * bool); chmod_fails : bool }.
Record rfil := { rpath : option string; rpos : Z; racc : Z; rsize : Z }.
Definition rnull : rfil := {| rpath := None; rpos := 0; racc := 0; rsize := 0 |}.

Definition rdata (fp : rfil) (v : rdisk) : list Z := 
  match rpath fp with Some p => match rfiles v !! p with Some (d, _) => d | None => [] end | None => [] end.
Definition rset (p : string) (d : list Z) (v : rdisk) : rdisk :=
  {| rfiles := alter (fun e => (d, snd e)) p (rfiles v); chmod_fails := chmod_fails v |}.

#[export] Instance rdisk_fatfs : FatFs rdisk rfil := {
  f_mount v := (FR_OK, v);
  f_open fp (p : string) a v :=
    match rfiles v !! p with
    | None =>
        if has a FA_CREATE_NEW || has a FA_OPEN_ALWAYS then
          (FR_OK, {| rpath := Some p; rpos := 0; racc := a; rsize := 0 |},
           {| rfiles := <[p := ([], false)]> (rfiles v); chmod_fails := chmod_fails v |})
        else (FR_NO_FILE, rnull, v)
    | Some (d, ro) =>
        if has a FA_CREATE_NEW then (FR_EXIST, rnull, v)
        else if ro && has a FA_WRITE then (FR_DENIED, rnull, v)
        else (FR_OK, {| rpath := Some p; rpos := 0; racc := a; rsize := Z.of_nat (length d) |}, v)
    end;
  f_chmod p attr mask v :=
    if chmod_fails v then (FR_TIMEOUT, v) else
    match rfiles v !! p with
    | None => (FR_NO_FILE, v)
    | Some (d, ro) =>
        (FR_OK, {| rfiles := <[p := (d, if has mask AM_RDO then has attr AM_RDO else ro)]> (rfiles v);
                   chmod_fails := chmod_fails v |})
    end;
  f_truncate fp v :=
    match rpath fp with
    | None => (FR_INVALID_OBJECT, fp, v)
    | Some p =>
        (FR_OK, {| rpath := Some p; rpos := rpos fp; racc := racc fp; rsize := rpos fp |},
         rset p (take (Z.to_nat (rpos fp)) (rdata fp v)) v)
    end;
  f_lseek fp o v :=
    match rpath fp with
    | None => (FR_INVALID_OBJECT, fp, v)
    | Some p =>
        (FR_OK, {| rpath := Some p; rpos := Z.min o (Z.of_nat (length (rdata fp v))); racc := racc fp; rsize := rsize fp |}, v)
    end;
  f_read fp n v :=
    match rpath fp with
    | None => (FR_INVALID_OBJECT, [], fp, v)
    | Some p =>
        let l := take (Z.to_nat n) (drop (Z.to_nat (rpos fp)) (rdata fp v)) in
        (FR_OK, l, {| rpath := Some p; rpos := rpos fp + Z.of_nat (length l); racc := racc fp; rsize := rsize fp |}, v)
    end;
  f_write fp l v :=
    match rpath fp with
    | None => (FR_INVALID_OBJECT, 0, fp, v)
    | Some p =>
        if negb (has (racc fp) FA_WRITE) || negb (bool_decide (is_Some (rfiles v !! p))) then (FR_DENIED, 0, fp, v) else
        let n := Z.of_nat (length l) in
        let d := take (Z.to_nat (rpos fp)) (rdata fp v) ++ l ++ drop (Z.to_nat (rpos fp + n)) (rdata fp v) in
        (FR_OK, n, {| rpath := Some p; rpos := rpos fp + n; racc := racc fp; rsize := Z.of_nat (length d) |}, rset p d v)
    end;
  f_close fp v := match rpath fp with None => (FR_INVALID_OBJECT, fp, v) | Some _ => (FR_OK, rnull, v) end;
  f_unlink p v :=
    match rfiles v !! p with
    | None => (FR_NO_FILE, v)
    | Some (_, ro) =>
        if (ro : bool) then (FR_DENIED, v) else (FR_OK, {| rfiles := delete p (rfiles v); chmod_fails := chmod_fails v |})
    end;
  fs_null fp := if rpath fp is Some _ then false else true;
  f_tell := rpos;
  file_size := rsize
}.

#[export] Instance rdisk_objects : FatObjects rdisk rfil rnull.
Proof.
  split; try (intros; simpl in *; repeat case_match; simplify_eq; done).
  all: intros fp; intros; simpl in *; destruct (rpath fp) as [p|] eqn:E; repeat case_match; simplify_eq; simpl;
    by rewrite ?E.
Qed.

#[export] Instance rdisk_contents : FatData rdisk rfil.
Proof.
  refine {| file_data := rdata |}.
  - intros fp n v l fp' v' _ H. simpl in *. by destruct (rpath fp); simplify_eq.
  - intros fp l v n fp' v' Hp H. simpl in *. destruct (rpath fp) as [p|] eqn:Ep; [|done].
    destruct (negb _ || negb _) eqn:Eg; simplify_eq. simpl. split; [lia|]. split; [done|].
    apply orb_false_iff in Eg as [_ Eg%negb_false_iff%bool_decide_eq_true]. destruct Eg as [[d ro] Ed].
    rewrite (take_ge l) by lia. unfold rdata at 1. simpl. by rewrite lookup_alter_eq, Ed.
  - intros fp o v fp' v' Ho H. simpl in *. destruct (rpath fp) as [p|] eqn:Ep; [|done]. simplify_eq.
    split; [simpl; lia|]. unfold rdata. simpl. by rewrite Ep.
Defined.

Definition rread_only (v : rdisk) (p : string) : bool := match rfiles v !! p with Some (_, ro) => ro | None => false end.

Lemma rset_attr p d v q : rread_only (rset p d v) q = rread_only v q.
Proof.
  unfold rread_only, rset. simpl. destruct (decide (p = q)) as [->|Hne]; [|by rewrite lookup_alter_ne].
  rewrite lookup_alter_eq. by destruct (rfiles v !! q) as [[? ?]|].
Qed.

#[export] Instance rdisk_attributes : FatAttributes rdisk rfil.
Proof.
  refine {| read_only := rread_only |}.
  - intros p attr v v' H. simpl in H. destruct (chmod_fails v); [done|].
    destruct (rfiles v !! p) as [[d ro]|]; [|done]. simplify_eq. unfold rread_only. simpl. by rewrite lookup_insert_eq.
  - intros fp p a v Hro Ha Hc. unfold rread_only in Hro. simpl.
    destruct (rfiles v !! p) as [[d ro]|]; [|done]. subst ro. by rewrite Hc, Ha.
  - intros fp v p. simpl. destruct (rpath fp); [|done]. apply rset_attr.
  - intros fp o v p. simpl. by destruct (rpath fp).
  - intros fp v p. simpl. by destruct (rpath fp).
Defined.

Definition rinit (fails : bool) : fstate rdisk rfil :=
  {| mounted := false; ffsvol := {| rfiles := ∅; chmod_fails := fails |}; fds := [rnull; rnull]; errno := 0;
     console_in := fun _ => 10; console_out := [] |}.

Lemma reach_rinit fails : reach rnull (rinit fails) ∅.
Proof. constructor; [done|]. by repeat constructor. Qed.

Lemma descriptors_safe_witness :
  (3 ∉ ({[4]} : gset Z)) /\
  let s1 := exec (open rnull "a" 0x201 0) (rinit false) in
  let s2 := exec (open rnull "b" 0x201 0) s1 in
  let s3 := exec (close rnull 3) s2 in
  open rnull "c" 0x201 0 s2 = (-1, with_errno ENFILE s2) /\ fst (open rnull "c" 0x201 0 s3) = 3.
Proof.
  pose (s1 := exec (open rnull "a" 0x201 0) (rinit false)).
  pose (s2 := exec (open rnull "b" 0x201 0) s1).
  pose (s3 := exec (close rnull 3) s2).
  assert (H1 : reach rnull s1 ({[3]} ∪ ∅)) by exact (reach_call rnull _ _ (Open "a" 0x201 0) 3 s1 (reach_rinit false) eq_refl).
  assert (H2 : reach rnull s2 ({[4]} ∪ ({[3]} ∪ ∅))) by exact (reach_call rnull _ _ (Open "b" 0x201 0) 4 s2 H1 eq_refl).
  assert (H : reach rnull s3 {[4]}).
  { replace {[4]} with (({[4]} ∪ ({[3]} ∪ ∅)) ∖ {[3]} : gset Z) by (by vm_compute).
    exact (reach_call rnull _ _ (Close 3) 0 s3 H2 eq_refl). }
  destruct (descriptors_safe rnull s3 {[4]} H) as (_ & _ & Hopen).
  destruct (descriptors_safe rnull s2 _ H2) as (_ & _ & Hfull).
  assert (H3 : run (open rnull "c" 0x201 0) s3 = 3) by (vm_compute; reflexivity).
  destruct (Hopen "c"%string 0x201 0 _ _ (surjective_pairing (open rnull "c" 0x201 0 s3))) as [Hr _].
  change (fst (open rnull "c" 0x201 0 s3)) with (run (open rnull "c" 0x201 0) s3) in Hr. rewrite H3 in Hr.
  destruct Hr as [_ Hn]; [lia|]. split; [exact Hn|]. split; [|exact H3].
  destruct (Hfull "c"%string 0x201 0 _ _ (surjective_pairing (open rnull "c" 0x201 0 s2))) as [_ Hf].
  destruct Hf as [E1 E2]; [by vm_compute|]. rewrite (surjective_pairing (open rnull "c" 0x201 0 s2)). by rewrite E1, E2.
Defined.

(** * What can go wrong in [open] *)

Lemma map_access_spec f :
  has (map_access f) FA_READ = has f O_RDWR || negb (has f O_WRONLY) /\
  has (map_access f) FA_WRITE = has f O_RDWR || has f O_WRONLY /\
  has (map_access f) FA_CREATE_NEW = has f O_CREAT && has f O_EXCL /\
  has (map_access f) FA_OPEN_ALWAYS = has f O_CREAT && negb (has f O_EXCL).
Proof.
  unfold map_access. by destruct (has f O_RDWR), (has f O_WRONLY), (has f O_CREAT), (has f O_EXCL).
Qed.

Section OpenErrors.
Context {V F : Type} `{HF : FatFs V F} (no_file : F) `{HO : !FatObjects V F no_file}.
Abbreviation st := (fstate V F).

(** When the attribute of a new file cannot be set, [open] answers -1 but the
    slot stays taken: the program has no descriptor to close it with. *)
Theorem open_leaks_slot s pathname flags mode i fp v e v' :
  table s -> mounted s = true -> first_free (opened s) = Some i ->
  f_open (nth i (fds s) no_file) pathname (map_access flags) (ffsvol s) = (FR_OK, fp, v) ->
  has flags O_CREAT = true -> has flags S_IWUSR = false ->
  f_chmod pathname AM_RDO AM_RDO v = (e, v') -> e <> FR_OK ->
  exists s', open no_file pathname flags mode s = (-1, s') /\ errno s' = map_error e /\
    opened s' = <[i := true]> (opened s).
Proof.
  intros Ht Hm Hi Hopen Hc Hw Hchmod He.
  pose proof (open_spec no_file pathname flags mode s Ht Hm) as H. rewrite Hi, Hopen in H.
  destruct H as (r & s' & H1 & _ & _ & H2 & _). exists s'.
  pose proof (open_loop_spec no_file (Z.to_nat MAX_FD) pathname flags mode 0 s) as Hl. rewrite drop_0, Hi in Hl.
  rewrite open_mounted in H1 by done. rewrite Hl in H1 by (unfold table, MAX_FD in *; lia).
  rewrite open_mounted, Hl by (done || unfold table, MAX_FD in *; lia). rewrite H1.
  cbn [Nat.add] in H1. unfold open_slot in H1. unfold mbind, io_bind, on_file, on_volume in H1. cbv zeta in H1.
  rewrite Hopen, Hc, Hw, (bool_decide_eq_true_2 (FR_OK = FR_OK) eq_refl) in H1. cbn [negb ffsvol] in H1. rewrite Hchmod in H1.
  destruct (bool_decide_reflect (e = FR_OK)); [done|]. cbn [negb] in H1. injection H1 as <- <-.
  split; [done|]. split; [done|]. exact H2.
Qed.
End OpenErrors.

(** Two failed calls, and a program that holds nothing can open nothing. *)
Lemma open_leaks_slot_witness :
  let s1 := exec (open rnull "a" 0x201 0) (rinit true) in
  let s2 := exec (open rnull "a" 0x201 0) s1 in
  reach rnull s2 ∅ /\ opened s2 = [true; true] /\ run (open rnull "a" 0 0) s2 = -1.
Proof.
  pose (s1 := exec (open rnull "a" 0x201 0) (rinit true)).
  pose (s2 := exec (open rnull "a" 0x201 0) s1).
  cbv zeta. split.
  - refine (reach_call rnull s1 ∅ (Open "a" 0x201 0) (-1) s2 _ eq_refl).
    exact (reach_call rnull (rinit true) ∅ (Open "a" 0x201 0) (-1) s1 (reach_rinit true) eq_refl).
  - destruct (open_leaks_slot rnull s1 "a" 0x201 0 1
      {| rpath := Some "a"%string; rpos := 0; racc := 0x12; rsize := 0 |} (ffsvol s1) FR_TIMEOUT (ffsvol s1))
      as (s' & H1 & _ & H2); [vm_compute; reflexivity..|discriminate|].
    assert (Hs : s2 = s') by (unfold s2, exec; by rewrite H1).
    change (opened s2 = [true; true] /\ run (open rnull "a" 0 0) s2 = -1). split; [by rewrite Hs, H2|reflexivity].
Defined.

(** * Created files are read-only *)

Section Attributes.
Context {V F : Type} `{HF : FatFs V F} (no_file : F) `{HO : !FatObjects V F no_file} `{HA : !FatAttributes V F}.
Abbreviation st := (fstate V F).

Lemma on_file_volume {A} i (f : F -> V -> A * F * V) (s : st) a s' :
  on_file no_file i f s = (a, s') -> ffsvol s' = snd (f (nth i (fds s) no_file) (ffsvol s)).
Proof. unfold on_file. destruct (f _ _) as [[? ?] ?]. by intros [= <- <-]. Qed.

(** A step of [open] that ends it on an error. *)
Lemma guard_inv (m : io st FRESULT) (k : io st Z) s r s' :
  (fr ← m; if negb (bool_decide (fr = FR_OK)) then fail_with (map_error fr) (-1) else k) s = (r, s') -> 0 <= r ->
  exists s1, m s = (FR_OK, s1) /\ k s1 = (r, s').
Proof.
  unfold mbind, io_bind. destruct (m s) as [fr s1]. destruct (bool_decide_reflect (fr = FR_OK)) as [->|]; cbn [negb].
  - intros H _. by exists s1.
  - intros [= <- _]. lia.
Qed.

Lemma open_slot_read_only i p fl md s r s' :
  open_slot no_file i p fl md s = (r, s') -> 0 <= r ->
  has fl O_CREAT = true -> has fl S_IWUSR = false -> read_only (ffsvol s') p = true.
Proof.
  intros He Hr Hc Hw. unfold open_slot in He. cbv zeta in He. rewrite Hc, Hw in He.
  apply guard_inv in He as (s1 & _ & He); [|done].
  apply guard_inv in He as (s2 & H2 & He); [|done].
  apply guard_inv in He as (s3 & H3 & He); [|done].
  unfold file in He. change ((gets ?f ≫= ?k) s3) with (k (f s3) s3) in He. cbv beta in He.
  apply guard_inv in He as (s4 & H4 & He); [|done]. injection He as _ <-.
  assert (E2 : read_only (ffsvol s2) p = true).
  { unfold on_volume in H2. destruct (f_chmod p AM_RDO AM_RDO (ffsvol s1)) as [e v] eqn:Ec. injection H2 as -> <-.
    by rewrite (chmod_ok _ _ _ _ Ec). }
  assert (E3 : read_only (ffsvol s3) p = true).
  { destruct (has fl O_TRUNC); [|injection H3 as <-; done]. by rewrite (on_file_volume _ _ _ _ _ H3), truncate_attr. }
  destruct (has fl O_APPEND); [|injection H4 as <-; done]. by rewrite (on_file_volume _ _ _ _ _ H4), lseek_attr.
Qed.

(** The descriptor and volume of a successful call. *)
Lemma open_success p fl md s r s' :
  table s -> mounted s = true -> open no_file p fl md s = (r, s') -> 0 <= r ->
  exists i, first_free (opened s) = Some i /\ r = Z.of_nat i + 3 /\ opened s' = <[i := true]> (opened s) /\
    table s' /\ mounted s' = true /\ open_slot no_file i p fl md s = (r, s').
Proof.
  intros Ht Hm He Hr. pose proof (open_spec no_file p fl md s Ht Hm) as H.
  pose proof (open_loop_spec no_file (Z.to_nat MAX_FD) p fl md 0 s) as Hl. rewrite drop_0 in Hl.
  specialize (Hl ltac:(unfold table, MAX_FD in *; lia)). rewrite <- open_mounted, He in Hl by done. rewrite He in H.
  destruct (first_free (opened s)) as [i|].
  - cbv zeta in H. destruct H as (r1 & s1 & [= <- <-] & H1 & H2 & H3 & H4). exists i. cbn [Nat.add] in Hl.
    destruct H4 as [[-> Hfr]|[? _]]; [|lia]. rewrite Hfr in H3. by rewrite bool_decide_eq_true_2 in H3.
  - injection H as -> _. lia.
Qed.
End Attributes.

(** Whatever mode a program passes, the file it creates is read-only: the
    mode is not looked at, and the bit tested for it belongs to the flags.
    Once closed, the file cannot be opened for writing again. *)
Theorem created_files_read_only {V F} `{HF : FatFs V F} no_file `{HO : !FatObjects V F no_file}
    `{HA : !FatAttributes V F} s p fl md fd s1 s2 fl2 md2 :
  table s -> mounted s = true ->
  open no_file p fl md s = (fd, s1) -> 0 <= fd -> has fl O_CREAT = true -> has fl S_IWUSR = false ->
  close no_file fd s1 = (0, s2) ->
  has fl2 O_WRONLY || has fl2 O_RDWR = true -> has fl2 O_CREAT && has fl2 O_EXCL = false ->
  exists s3, open no_file p fl2 md2 s2 = (-1, s3) /\ errno s3 = EACCES.
Proof.
  intros Ht Hm Hopen Hfd Hc Hw Hclose Hw2 Hx2.
  destruct (open_success no_file p fl md s fd s1 Ht Hm Hopen Hfd) as (i & Hi & -> & Ho1 & Ht1 & Hm1 & Hs).
  pose proof (open_slot_read_only no_file i p fl md s _ s1 Hs Hfd Hc Hw) as Hro.
  assert (Hil : (i < Z.to_nat MAX_FD)%nat).
  { apply first_free_lookup, lookup_lt_Some in Hi. rewrite length_opened in Hi. unfold table in Ht. lia. }
  destruct (close_spec no_file (Z.of_nat i + 3) s1 Ht1 ltac:(lia)) as (r & s2' & H1 & Ht2 & Hm2 & H2).
  rewrite Hclose in H1. injection H1 as <- <-. destruct H2 as [[_ Ho2]|[? _]]; [|done].
  assert (Hro2 : read_only (ffsvol s2) p = true).
  { unfold close, _close in Hclose. destruct (Z.ltb_spec (Z.of_nat i + 3) 3); [lia|].
    destruct (Z.ltb_spec (Z.of_nat i + 3 - 3) MAX_FD); [|lia].
    unfold mbind, io_bind in Hclose. destruct (on_file no_file _ f_close s1) as [fr sc] eqn:Ec.
    destruct (bool_decide_reflect (fr = FR_OK)); [|by injection Hclose]. injection Hclose as <-.
    by rewrite (on_file_volume no_file _ _ _ _ _ Ec), close_attr. }
  pose proof (open_spec no_file p fl2 md2 s2 Ht2 ltac:(congruence)) as H3.
  pose proof (open_loop_spec no_file (Z.to_nat MAX_FD) p fl2 md2 0 s2) as Hl. rewrite drop_0 in Hl.
  specialize (Hl ltac:(unfold table, MAX_FD in *; lia)). rewrite <- open_mounted in Hl by congruence.
  destruct (first_free (opened s2)) as [j|] eqn:Ej.
  - destruct (map_access_spec fl2) as (_ & Hwr & Hnew & _).
    pose proof (open_denied (nth j (fds s2) no_file) p (map_access fl2) (ffsvol s2) Hro2
      ltac:(rewrite Hwr, orb_comm; done) ltac:(by rewrite Hnew)) as Hd.
    cbn [Nat.add] in Hl. rewrite Hl. unfold open_slot, mbind, io_bind, on_file. cbv zeta.
    destruct (f_open _ _ _ _) as [[fr fp] v]. cbn [fst] in Hd. subst fr. eexists. split; [done|done].
  - exfalso. apply (first_free_none (opened s2) i) in Ej. apply Ej. rewrite Ho2.
    replace (slot (Z.of_nat i + 3)) with i by (unfold slot; lia). apply list_lookup_insert_eq.
    rewrite length_opened. unfold table in Ht1. lia.
Qed.

Definition rmounted (files : gmap string (list Z * bool)) : fstate rdisk rfil :=
  {| mounted := true; ffsvol := {| rfiles := files; chmod_fails := false |}; fds := [rnull; rnull]; errno := 0;
     console_in := fun k => nth k [104; 105; 10; 33] 10; console_out := [] |}.

Lemma created_files_read_only_witness :
  let s1 := exec (open rnull "f" (Z.lor O_CREAT O_WRONLY) 0x1B6) (rmounted ∅) in
  let s2 := exec (close rnull 3) s1 in
  exists s3, open rnull "f" O_WRONLY 0x1B6 s2 = (-1, s3) /\ errno s3 = EACCES.
Proof.
  refine (created_files_read_only rnull (rmounted ∅) "f" (Z.lor O_CREAT O_WRONLY) 0x1B6 3 _ _ O_WRONLY 0x1B6
    eq_refl eq_refl _ _ _ _ _ _ _); (done || (vm_compute; reflexivity)).
Defined.

(** * Contents *)

Section Contents.
Context {V F : Type} `{HF : FatFs V F} (no_file : F) `{HD : !FatData V F}.
Abbreviation st := (fstate V F).

Lemma on_file_run {A} i (f : F -> V -> A * F * V) (s : st) a fp v :
  (i < length (fds s))%nat -> f (nth i (fds s) no_file) (ffsvol s) = (a, fp, v) ->
  exists s', on_file no_file i f s = (a, s') /\ nth i (fds s') no_file = fp /\ ffsvol s' = v /\
    length (fds s') = length (fds s).
Proof.
  intros Hi Hf. unfold on_file. rewrite Hf. eexists. split; [done|]. cbn [fds ffsvol]. split; [|split; [done|by rewrite length_insert]].
  apply nth_lookup_Some. by apply list_lookup_insert_eq.
Qed.

Definition in_table (fd : Z) (s : st) : Prop := 3 <= fd < 3 + MAX_FD /\ table s.

Lemma in_table_slot fd s : in_table fd s -> (slot fd < length (fds s))%nat.
Proof. unfold in_table, table, slot. lia. Qed.

Lemma in_table_tests fd s : in_table fd s -> (fd <? 3) = false /\ (fd - 3 <? MAX_FD) = true.
Proof. intros [? _]. split; [apply Z.ltb_ge|apply Z.ltb_lt]; lia. Qed.

Definition fil_of (fd : Z) (s : st) : F := nth (slot fd) (fds s) no_file.

(** Calls that succeed, in terms of the FatFs call they make. *)
Lemma write_run fd l s n s' :
  in_table fd s -> Z.of_nat (length l) < 2 ^ 32 -> write no_file fd (Some l) s = (n, s') -> 0 <= n ->
  f_write (fil_of fd s) l (ffsvol s) = (FR_OK, n, fil_of fd s', ffsvol s') /\ in_table fd s'.
Proof.
  intros Hfd Hl He Hn. destruct (in_table_tests fd s Hfd) as [T1 T2]. pose proof (in_table_slot fd s Hfd) as Hi.
  unfold write, _write in He. rewrite T1, T2 in He. cbv zeta in He.
  rewrite wrap_id, Nat2Z.id, take_ge in He by (done || split; lia). unfold fil_of.
  destruct (f_write _ l (ffsvol s)) as [[[fr bw] fp] v] eqn:Ew.
  destruct (on_file_run (slot fd) (fun fp v => let '(fr, bw, fp, v) := f_write fp l v in ((fr, bw), fp, v)) s
    (fr, bw) fp v Hi) as (s1 & H1 & F1 & V1 & L1); [by rewrite Ew|].
  rewrite (bind_run _ _ _ _ _ H1) in He.
  destruct (bool_decide_reflect (fr = FR_OK)) as [->|]; cbn [negb] in He; [|injection He; lia].
  injection He as -> ->. rewrite F1, V1. split; [done|]. destruct Hfd as [? Ht]. split; [done|]. unfold table in *. lia.
Qed.

Lemma lseek_run fd o s n s' :
  in_table fd s -> 0 <= o < 2 ^ 32 -> lseek no_file fd o SEEK_SET s = (n, s') -> 0 <= n ->
  n = o /\ f_lseek (fil_of fd s) o (ffsvol s) = (FR_OK, fil_of fd s', ffsvol s') /\ in_table fd s'.
Proof.
  intros Hfd Ho He Hn. destruct (in_table_tests fd s Hfd) as [T1 T2]. pose proof (in_table_slot fd s Hfd) as Hi.
  unfold lseek, _lseek, file in He. rewrite T1, T2 in He.
  change ((gets ?f ≫= ?k) s) with (k (f s) s) in He. cbv beta in He. change (SEEK_SET =? SEEK_SET) with true in He.
  cbn [negb orb] in He. cbv zeta in He. rewrite wrap_id in He by (split; lia). unfold fil_of.
  destruct (f_lseek _ o (ffsvol s)) as [[fr fp] v] eqn:Es.
  destruct (on_file_run (slot fd) (fun fp => f_lseek fp o) s fr fp v Hi Es) as (s1 & H1 & F1 & V1 & L1).
  rewrite (bind_run _ _ _ _ _ H1) in He.
  destruct (bool_decide_reflect (fr = FR_OK)) as [->|]; cbn [negb] in He; [|injection He; lia].
  injection He as -> ->. rewrite F1, V1. split; [done|]. split; [done|]. destruct Hfd as [? Ht]. split; [done|]. unfold table in *. lia.
Qed.

Lemma read_run fd k s n d s' :
  in_table fd s -> 0 <= k < 2 ^ 32 -> read no_file fd false k s = ((n, d), s') -> 0 <= n ->
  n = Z.of_nat (length d) /\ f_read (fil_of fd s) k (ffsvol s) = (FR_OK, d, fil_of fd s', ffsvol s') /\ in_table fd s'.
Proof.
  intros Hfd Hk He Hn. destruct (in_table_tests fd s Hfd) as [T1 T2]. pose proof (in_table_slot fd s Hfd) as Hi.
  unfold read, _read in He. rewrite T1, T2, wrap_id in He by (split; lia). unfold fil_of.
  destruct (f_read _ k (ffsvol s)) as [[[fr d1] fp] v] eqn:Er.
  destruct (on_file_run (slot fd) (fun fp v => let '(fr, l, fp, v) := f_read fp k v in ((fr, l), fp, v)) s
    (fr, d1) fp v Hi) as (s1 & H1 & F1 & V1 & L1); [by rewrite Er|].
  rewrite (bind_run _ _ _ _ _ H1) in He.
  destruct (bool_decide_reflect (fr = FR_OK)) as [->|]; cbn [negb] in He.
  - injection He as <- -> ->. rewrite F1, V1. split; [done|]. split; [done|]. destruct Hfd as [? Ht]. split; [done|]. unfold table in *. lia.
  - unfold mbind, io_bind, mret, io_ret in He. cbn in He. injection He; lia.
Qed.

(** What a program has written it reads back: [write], a seek to where the
    write began, [read] of as many bytes, when none of them answers -1 and
    the write was complete. *)
Theorem write_seek_read fd l s n1 s1 n2 s2 n3 d s3 :
  in_table fd s -> Z.of_nat (length l) < 2 ^ 32 ->
  let p := f_tell (fil_of fd s) in
  0 <= p <= Z.of_nat (length (file_data (fil_of fd s) (ffsvol s))) -> p < 2 ^ 32 ->
  write no_file fd (Some l) s = (n1, s1) -> n1 = Z.of_nat (length l) ->
  lseek no_file fd p SEEK_SET s1 = (n2, s2) -> 0 <= n2 ->
  read no_file fd false (Z.of_nat (length l)) s2 = ((n3, d), s3) -> 0 <= n3 ->
  n2 = p /\ n3 = Z.of_nat (length l) /\ d = l.
Proof.
  intros Hfd Hl p Hp Hp32 Hw -> Hs Hn2 Hr Hn3.
  destruct (write_run _ _ _ _ _ Hfd Hl Hw ltac:(lia)) as [Ew Hfd1].
  destruct (lseek_run _ p _ _ _ Hfd1 ltac:(lia) Hs Hn2) as (-> & Es & Hfd2).
  destruct (read_run _ (Z.of_nat (length l)) _ _ _ _ Hfd2 ltac:(lia) Hr Hn3) as (-> & Er & _).
  destruct (write_ok _ l _ _ _ _ Hp Ew) as (_ & _ & Hdata). rewrite Nat2Z.id, (take_ge l) in Hdata by done.
  destruct (lseek_ok _ p _ _ _ ltac:(rewrite Hdata, !length_app, length_take, length_drop; lia) Es) as [Ht2 Hd2].
  assert (H0 : 0 <= f_tell (fil_of fd s2)) by (rewrite Ht2; lia).
  pose proof (read_ok _ _ _ _ _ _ H0 Er) as Hd. rewrite Ht2, Hd2, Hdata in Hd. fold p in Hd.
  rewrite drop_app_length' in Hd by (rewrite length_take; unfold p in *; lia).
  rewrite take_app_length' in Hd by lia. by subst d.
Qed.
End Contents.

Definition ropened : fstate rdisk rfil := exec (open rnull "f" O_RDWR 0) (rmounted {[ "f"%string := ([1; 2; 3; 4], false) ]}).
Definition rsought : fstate rdisk rfil := exec (lseek rnull 3 1 SEEK_SET) ropened.

Lemma write_seek_read_witness :
  let s1 := exec (write rnull 3 (Some [7; 8])) rsought in
  let s2 := exec (lseek rnull 3 1 SEEK_SET) s1 in
  run (read rnull 3 false 2) s2 = (2, [7; 8]) /\ rdata (fil_of rnull 3 s2) (ffsvol s2) = [1; 7; 8; 4].
Proof.
  cbv zeta. split; [|vm_compute; reflexivity].
  assert (E : run (read rnull 3 false 2) (exec (lseek rnull 3 1 SEEK_SET) (exec (write rnull 3 (Some [7; 8])) rsought))
    = (2, snd (run (read rnull 3 false 2) (exec (lseek rnull 3 1 SEEK_SET) (exec (write rnull 3 (Some [7; 8])) rsought)))))
    by (vm_compute; reflexivity).
  rewrite E. apply (f_equal (pair 2)).
  refine (proj2 (proj2 (write_seek_read rnull 3 [7; 8] rsought 2 (exec (write rnull 3 (Some [7; 8])) rsought) 1
    (exec (lseek rnull 3 1 SEEK_SET) (exec (write rnull 3 (Some [7; 8])) rsought)) 2 _
    (exec (read rnull 3 false 2) (exec (lseek rnull 3 1 SEEK_SET) (exec (write rnull 3 (Some [7; 8])) rsought)))
    _ _ _ _ _ _ _ _ _ _))); (done || (vm_compute; intuition congruence)).
Defined.

(** * Console *)

Section Console.
Context {V F : Type} `{HF : FatFs V F} (no_file : F).
Abbreviation st := (fstate V F).

(** Line ends are written as carriage return and line feed. *)
Definition crlf (l : list Z) : list Z := flat_map (fun ch => if ch =? 10 then [13; u8 ch] else [u8 ch]) l.

Lemma write_console_spec l : forall s : st,
  write_console l s
  = (tt, {| mounted := mounted s; ffsvol := ffsvol s; fds := fds s; errno := errno s; console_in := console_in s;
            console_out := console_out s ++ crlf l |}).
Proof.
  induction l as [|ch l IH]; intros s; cbn [write_console crlf flat_map].
  - rewrite app_nil_r. by destruct s.
  - unfold mbind, io_bind. destruct (ch =? 10); cbn [outbyte modify mret io_ret]; rewrite IH;
      cbn [mounted ffsvol fds errno console_in console_out]; by rewrite <- !app_assoc.
Qed.

(** The length of a line of the input: up to and including its line end, at
    most [n]. *)
Fixpoint line_length (n : nat) (inp : nat -> Z) : nat :=
  match n with
  | O => O
  | S n' => if (u8 (inp 0%nat) =? 10) || (u8 (inp 0%nat) =? 13) then 1%nat else S (line_length n' (fun k => inp (S k)))
  end.

Lemma read_line_spec n : forall acc (s : st),
  exists s', Fatfs.read_line n acc s = (acc ++ map (fun k => u8 (console_in s k)) (seq 0 (line_length n (console_in s))), s') /\
    console_out s' = console_out s /\ opened s' = opened s /\ errno s' = errno s /\
    forall k, console_in s' k = console_in s (line_length n (console_in s) + k)%nat.
Proof.
  induction n as [|n IH]; intros acc s; cbn [Fatfs.read_line line_length].
  - exists s. by rewrite app_nil_r.
  - unfold inbyte, mbind, io_bind. destruct (_ || _); [by eexists|].
    set (s1 := {| mounted := _ |}). destruct (IH (acc ++ [u8 (console_in s 0%nat)]) s1) as (s' & H1 & H2 & H3 & H4 & H5).
    exists s'. split; [|by auto]. rewrite H1, <- app_assoc. cbn [console_in s1 seq map app]. by rewrite <- seq_shift, map_map.
Qed.

(** The console: what [write] shows on descriptor 1 or 2 is the bytes with
    each line feed preceded by a carriage return, and all are counted as
    written; [read] on descriptor 0 takes the next line, at most [count]
    bytes of it, and the rest stays to be read; files are not touched. *)
Theorem console_io (s : st) fd l count :
  (fd = 1 \/ fd = 2 ->
   exists s', write no_file fd (Some l) s = (Z.of_nat (length l), s') /\ console_out s' = console_out s ++ crlf l /\
     opened s' = opened s /\ ffsvol s' = ffsvol s) /\
  let n := line_length (Z.to_nat count) (console_in s) in
  exists s', read no_file 0 false count s = ((Z.of_nat n, map (fun k => u8 (console_in s k)) (seq 0 n)), s') /\
    console_out s' = console_out s /\ opened s' = opened s /\ (forall k, console_in s' k = console_in s (n + k)%nat).
Proof.
  split.
  - intros Hfd. unfold write, _write. destruct (Z.ltb_spec fd 3); [|lia]. destruct (Z.eqb_spec fd 0); [lia|].
    rewrite (bind_run _ _ _ _ _ (write_console_spec l s)). by eexists.
  - intros n. unfold read, _read. change (0 <? 3) with true. change (negb (0 =? 0)) with false. cbv iota.
    destruct (read_line_spec (Z.to_nat count) [] s) as (s' & H1 & H2 & H3 & _ & H4).
    rewrite (bind_run _ _ _ _ _ H1). exists s'. rewrite app_nil_l, length_map, length_seq. by split_and!.
Qed.

(** The line that is read ends at the first line end or is full. *)
Lemma line_length_le n inp : (line_length n inp <= n)%nat.
Proof. revert inp. induction n as [|n IH]; intros inp; simpl; [lia|]. destruct (_ || _); [lia|]. specialize (IH (fun k => inp (S k))). lia. Qed.
End Console.

Lemma console_io_witness :
  console_out (exec (write rnull 1 (Some [104; 10])) (rmounted ∅)) = [104; 13; 10] /\
  run (read rnull 0 false 80) (rmounted ∅) = (3, [104; 105; 10]).
Proof.
  destruct (console_io rnull (rmounted ∅) 1 [104; 10] 80) as [Hw Hr].
  destruct (Hw (or_introl eq_refl)) as (s1 & H1 & H2 & _). destruct Hr as (s2 & H3 & _).
  split; [unfold exec; rewrite H1; exact H2|unfold run; rewrite H3; reflexivity].
Defined.

(** * Bad descriptors *)

Definition io_call (c : call) : option Z :=
  match c with
  | Close fd => Some fd
  | Lseek fd _ w => if (w =? SEEK_SET) || (w =? SEEK_CUR) || (w =? SEEK_END) then Some fd else None
  | Read fd b _ => if b then None else Some fd
  | Write fd b => if b is Some _ then Some fd else None
  | _ => None
  end.

Lemma opened_insert {V F} `{HF : FatFs V F} no_file i fp (s s' : fstate V F) :
  fds s' = <[i := fp]> (fds s) -> (i < length (fds s))%nat -> fs_null fp = fs_null (nth i (fds s) no_file) ->
  opened s' = opened s.
Proof.
  intros Hf Hi Hn. unfold opened. rewrite Hf, list_fmap_insert, Hn. apply list_insert_id.
  pose proof (opened_nth no_file s i Hi) as H. exact H.
Qed.

(** Calls on a descriptor that is not open answer -1: with [EBADF] when the
    table has its slot, with [EMFILE] when it is beyond the table; either way
    nothing but [errno] (and what FatFs does on a refused object) changes. *)
Theorem bad_descriptor {V F} `{HF : FatFs V F} no_file `{HO : !FatObjects V F no_file} s c fd :
  table s -> io_call c = Some fd -> 3 <= fd -> ~ live s fd ->
  let '(r, s') := run_call no_file c s in
  r = -1 /\ errno s' = (if fd <? 3 + MAX_FD then EBADF else EMFILE) /\ opened s' = opened s.
Proof.
  intros Ht Hc H3 Hl.
  assert (T1 : (fd <? 3) = false) by (apply Z.ltb_ge; lia).
  destruct (Z.ltb_spec fd (3 + MAX_FD)) as [Hin|Hout].
  - assert (T2 : (fd - 3 <? MAX_FD) = true) by (apply Z.ltb_lt; lia).
    assert (Hi : (slot fd < length (fds s))%nat) by (unfold table, slot in *; lia).
    assert (Hnull : fs_null (nth (slot fd) (fds s) no_file) = true).
    { destruct (fs_null _) eqn:E; [done|]. exfalso. apply Hl. split; [done|]. rewrite (opened_nth no_file) by done. by rewrite E. }
    destruct (not_attached (no_file := no_file) _ (ffsvol s) Hnull) as (Hsk & Hrd & Hwr & Hcl).
    destruct c as [p fl md|fd'|fd' o w|fd' b n|fd' b|p]; simpl in Hc; try done.
    + injection Hc as ->. cbn [run_call]. unfold close, _close, mbind, io_bind, on_file. rewrite T1, T2.
      destruct (f_close _ _) as [[fr fp] v] eqn:E. simpl in Hcl. subst fr. split; [done|]. split; [done|].
      eapply opened_insert; [done|done|]. by apply (close_fail _ _ _ _ _ E).
    + destruct (_ || _) eqn:Ew in Hc; [|done]. injection Hc as ->. cbn [run_call].
      unfold lseek, _lseek, file, mbind, io_bind, gets, on_file. rewrite T1, T2, Ew. cbn [negb]. cbv zeta.
      match goal with |- context [f_lseek _ ?o _] => specialize (Hsk o) end.
      destruct (f_lseek _ _ _) as [[fr fp] v] eqn:E. simpl in Hsk. subst fr. split; [done|]. split; [done|].
      eapply opened_insert; [done|done|]. by apply (lseek_keeps _ _ _ _ _ _ E).
    + destruct b; [done|]. injection Hc as ->. cbn [run_call].
      unfold read, _read, mbind, io_bind, on_file. rewrite T1, T2. specialize (Hrd (u32 n)).
      destruct (f_read _ _ _) as [[[fr d] fp] v] eqn:E. simpl in Hrd. subst fr. split; [done|]. split; [done|].
      eapply opened_insert; [done|done|]. by apply (read_keeps _ _ _ _ _ _ _ E).
    + destruct b as [l|]; [|done]. injection Hc as ->. cbn [run_call].
      unfold write, _write, mbind, io_bind, on_file. rewrite T1, T2. cbv zeta.
      match goal with |- context [f_write _ ?l _] => specialize (Hwr l) end.
      destruct (f_write _ _ _) as [[[fr n] fp] v] eqn:E. simpl in Hwr. subst fr. split; [done|]. split; [done|].
      eapply opened_insert; [done|done|]. by apply (write_keeps _ _ _ _ _ _ _ E).
  - assert (T2 : (fd - 3 <? MAX_FD) = false) by (apply Z.ltb_ge; lia).
    destruct c as [p fl md|fd'|fd' o w|fd' b n|fd' b|p]; simpl in Hc; try done.
    + injection Hc as ->. cbn [run_call]. unfold close, _close. by rewrite T1, T2.
    + destruct (_ || _) in Hc; [|done]. injection Hc as ->. cbn [run_call]. unfold lseek, _lseek. by rewrite T1, T2.
    + destruct b; [done|]. injection Hc as ->. cbn [run_call]. unfold read, _read. by rewrite T1, T2.
    + destruct b as [l|]; [|done]. injection Hc as ->. cbn [run_call]. unfold write, _write. by rewrite T1, T2.
Qed.

Lemma bad_descriptor_witness :
  (let '(r, s') := run_call rnull (Close 4) (rmounted ∅) in r = -1 /\ errno s' = EBADF) /\
  (let '(r, s') := run_call rnull (Write 5 (Some [1])) (rmounted ∅) in r = -1 /\ errno s' = EMFILE).
Proof.
  assert (Hl : forall fd, fd = 4 \/ fd = 5 -> ~ live (rmounted ∅) fd) by (intros fd [-> | ->] [_ H]; discriminate H).
  pose proof (bad_descriptor rnull (rmounted ∅) (Close 4) 4 eq_refl eq_refl ltac:(lia) (Hl 4 (or_introl eq_refl))) as H1.
  pose proof (bad_descriptor rnull (rmounted ∅) (Write 5 (Some [1])) 5 eq_refl eq_refl ltac:(lia) (Hl 5 (or_intror eq_refl))) as H2.
  split.
  - destruct (run_call rnull (Close 4) (rmounted ∅)) as [r s']. destruct H1 as (? & ? & _). by split.
  - destruct (run_call rnull (Write 5 (Some [1])) (rmounted ∅)) as [r s']. destruct H2 as (? & ? & _). by split.
Defined.
