(* ===== verification/Clocks.v ===== *)
(** Clock and delay settings of the emulation (shared/standalone/clocks.c,
    shared/linux/clocks.c and shared/clocks.h).

    [clocks_emulate] slows the clocks of the processor and the programmable
    logic and programs the delay units so that memory looks as fast as the
    emulated one; [clocks_normal] undoes it.  [Z7] and [ZU] are the two
    bare-metal versions, [Linux] maps the same registers through /dev/mem and
    must give the mappings back.  A function returns the error message it
    prints, if any; the values it prints are read but not shown. *)
From S2P Require Import Prelude Device Devtree.
Open Scope Z_scope.

(** * Timing *)

(** The latencies a build may set, in nanoseconds: average off-chip write and
    read, and transport. *)
(* @src shared/clocks.h 19-27 T_W, T_R, T_TRANS *)
Record timing := { T_W : Z; T_R : Z; T_TRANS : Z }.
Definition def_timing : timing := {| T_W := 106; T_R := 85; T_TRANS := 24 |}.

(* @src shared/clocks.h 28-28 T_SRAM_W *)
Definition T_SRAM_W : Z := 12.
(* @src shared/clocks.h 29-29 T_SRAM_R *)
Definition T_SRAM_R : Z := 12.
(* @src shared/clocks.h 30-30 T_DRAM_W *)
Definition T_DRAM_W : Z := 45.
(* @src shared/clocks.h 31-31 T_DRAM_R *)
Definition T_DRAM_R : Z := 45.
(* @src shared/clocks.h 32-32 T_QUEUE_W *)
Definition T_QUEUE_W (t : timing) : Z := T_W t - T_DRAM_W - T_TRANS t.
(* @src shared/clocks.h 33-33 T_QUEUE_R *)
Definition T_QUEUE_R (t : timing) : Z := T_R t - T_DRAM_R - T_TRANS t.

(** The delay units of a design: base addresses of the pairs for slot 0 (the
    processor) and slot 1 (the accelerators), when it has them. *)
Record delays := { slot0 : option (Z * Z); slot1 : option (Z * Z) }.

Definition incompatible : string := " -- error: clocks_emulate: incompatible clock configuration".
Definition emulate_not_set : string := " -- error: clocks_emulate: clock configuration not set".
Definition normal_not_set : string := " -- error: clocks_normal: clock configuration not set".

Section Registers.
Context {D : Type} `{HD : Device D}.

(** [p[i]] of an array of 32-bit registers. *)
Definition reg32 (base i : Z) : Z := base + 4 * i.

(** [*r1 != v1 || *r2 != v2 || ...]: registers are read until one differs. *)
Fixpoint any_differs (l : list (Z * Z)) : io D bool :=
  match l with
  | [] => mret false
  | (r, v) :: l' => x ← bus_read r; if negb (x =? v) then mret true else any_differs l'
  end.

Fixpoint write_all (l : list (Z * Z)) : io D unit :=
  match l with
  | [] => mret tt
  | (r, v) :: l' => _ ← bus_write r v; write_all l'
  end.

(** Registers read for printing. *)
Fixpoint read_all (l : list Z) : io D unit :=
  match l with
  | [] => mret tt
  | r :: l' => _ ← bus_read r; read_all l'
  end.
End Registers.

(** The four values a slot's delay units get: write and read delay of the
    first unit, then of the second. *)
(* @src shared/standalone/clocks.c 67-80 clocks_emulate delay units *)
Definition program_delays (units : option (Z * Z)) (v : Z * Z * Z * Z) : list (Z * Z) :=
  match units with
  | None => []
  | Some (d0, d1) =>
      let '(w0, r0, w1, r1) := v in
      [(reg32 d0 2, w0); (reg32 d0 4, r0); (reg32 d1 2, w1); (reg32 d1 4, r1)]
  end.

(** * Zynq-7000 *)

Module Z7.
(* @src shared/standalone/clocks.c 17-17 SLCR *)
Definition SLCR : Z := 0xF8000000.
(* @src shared/standalone/clocks.c 18-18 SLCR_UNLOCK *)
Definition unlock : Z := SLCR + 0x008.
(* @src shared/standalone/clocks.c 19-19 SLCR_UNLOCK_KEY *)
Definition SLCR_UNLOCK_KEY : Z := 0xDF0D.
(* @src shared/standalone/clocks.c 20-20 ARM_PLL_CTRL *)
Definition apll_c : Z := SLCR + 0x100.
(* @src shared/standalone/clocks.c 21-21 APLL_CHK *)
Definition APLL_CHK : Z := 0x00036008.
(* @src shared/standalone/clocks.c 22-22 DDR_PLL_CTRL *)
Definition dpll_c : Z := SLCR + 0x104.
(* @src shared/standalone/clocks.c 23-23 IO_PLL_CTRL *)
Definition iopll_c : Z := SLCR + 0x108.
(* @src shared/standalone/clocks.c 24-24 IOPLL_CHK *)
Definition IOPLL_CHK : Z := 0x0001E008.
(* @src shared/standalone/clocks.c 25-25 ARM_CLK_CTRL *)
Definition arm_cc : Z := SLCR + 0x120.
(* @src shared/standalone/clocks.c 26-26 ACPU_EMUL *)
Definition ACPU_EMUL : Z := 0x1F000E00.
(* @src shared/standalone/clocks.c 27-27 ACPU_NORM *)
Definition ACPU_NORM : Z := 0x1F000300.
(* @src shared/standalone/clocks.c 28-28 DDR_CLK_CTRL *)
Definition ddr_cc : Z := SLCR + 0x124.
(* @src shared/standalone/clocks.c 29-29 FPGA0_CLK_CTRL *)
Definition fpga0_cc : Z := SLCR + 0x170.
(* @src shared/standalone/clocks.c 30-30 PL0_EMUL *)
Definition PL0_EMUL : Z := 0x00101000.
(* @src shared/standalone/clocks.c 31-31 PL0_NORM *)
Definition PL0_NORM : Z := 0x00100600.
(* @src shared/standalone/clocks.c 32-32 FPGA1_CLK_CTRL *)
Definition fpga1_cc : Z := SLCR + 0x180.
(* @src shared/standalone/clocks.c 33-33 CLK_621_TRUE *)
Definition clk_621 : Z := SLCR + 0x1C4.
(* @src shared/standalone/clocks.c 34-34 CLK_621_CHK *)
Definition CLK_621_CHK : Z := 0.

(* @src shared/standalone/clocks.c 70-71 delays of slot 0 *)
Definition slot0_values (t : timing) : Z * Z * Z * Z :=
  (4 * (T_SRAM_W + T_TRANS t) - 44, 4 * (T_SRAM_R + T_TRANS t) - 39,
   4 * (T_DRAM_W + T_QUEUE_W t + T_TRANS t) - 45, 4 * (T_DRAM_R + T_QUEUE_R t + T_TRANS t) - 44).

(* @src shared/standalone/clocks.c 78-79 delays of slot 1 *)
Definition slot1_values (t : timing) : Z * Z * Z * Z :=
  (4 * T_SRAM_W - 21, 4 * T_SRAM_R - 36, 4 * (T_DRAM_W + T_QUEUE_W t) - 21, 4 * (T_DRAM_R + T_QUEUE_R t) - 37).

Section Functions.
Context {D : Type} `{HD : Device D} (t : timing) (dl : delays).

(* @src shared/standalone/clocks.c 36-82 clocks_emulate *)
Definition clocks_emulate : io D (option string) :=
  _ ← read_all [apll_c; dpll_c; iopll_c; clk_621];
  bad ← any_differs [(apll_c, APLL_CHK); (iopll_c, IOPLL_CHK); (clk_621, CLK_621_CHK)];
  if (bad : bool) then mret (Some incompatible) else
  _ ← write_all [(unlock, SLCR_UNLOCK_KEY); (arm_cc, ACPU_EMUL); (fpga0_cc, PL0_EMUL)];
  _ ← read_all [arm_cc; ddr_cc; fpga0_cc; fpga1_cc];
  bad ← any_differs [(arm_cc, ACPU_EMUL); (fpga0_cc, PL0_EMUL)];
  if (bad : bool) then mret (Some emulate_not_set) else
  _ ← write_all (program_delays (slot0 dl) (slot0_values t));
  _ ← read_all (map fst (program_delays (slot0 dl) (slot0_values t)));
  _ ← write_all (program_delays (slot1 dl) (slot1_values t));
  _ ← read_all (map fst (program_delays (slot1 dl) (slot1_values t)));
  mret None.

(* @src shared/standalone/clocks.c 84-106 clocks_normal *)
Definition clocks_normal : io D (option string) :=
  _ ← write_all [(unlock, SLCR_UNLOCK_KEY); (arm_cc, ACPU_NORM); (fpga0_cc, PL0_NORM)];
  bad ← any_differs [(arm_cc, ACPU_NORM); (fpga0_cc, PL0_NORM)];
  if (bad : bool) then mret (Some normal_not_set) else
  _ ← write_all (program_delays (slot0 dl) (0, 0, 0, 0));
  _ ← write_all (program_delays (slot1 dl) (0, 0, 0, 0));
  mret None.
End Functions.
End Z7.

(** * Zynq UltraScale+ *)

Module ZU.
(* @src shared/standalone/clocks.c 112-112 FPD_SLCR *)
Definition FPD_SLCR : Z := 0xFD610000.
(* @src shared/standalone/clocks.c 113-113 wprot0 *)
Definition wprot0 : Z := 0x000.
(* @src shared/standalone/clocks.c 114-114 wprot0_off *)
Definition wprot0_off : Z := 0x00000000.
(* @src shared/standalone/clocks.c 116-116 CRF_APB *)
Definition CRF_APB : Z := 0xFD1A0000.
(* @src shared/standalone/clocks.c 117-117 APLL_CTRL *)
Definition APLL_CTRL : Z := 0x020.
(* @src shared/standalone/clocks.c 118-118 APLL_CHK *)
Definition APLL_CHK : Z := 0x00014200.
(* @src shared/standalone/clocks.c 119-119 DPLL_CTRL *)
Definition DPLL_CTRL : Z := 0x02C.
(* @src shared/standalone/clocks.c 120-120 ACPU_CTRL *)
Definition ACPU_CTRL : Z := 0x060.
(* @src shared/standalone/clocks.c 121-121 ACPU_EMUL *)
Definition ACPU_EMUL : Z := 0x03000800.
(* @src shared/standalone/clocks.c 122-122 ACPU_NORM *)
Definition ACPU_NORM : Z := 0x03000100.
(* @src shared/standalone/clocks.c 123-123 DDR_CTRL *)
Definition DDR_CTRL : Z := 0x080.
(* @src shared/standalone/clocks.c 125-125 CRL_APB *)
Definition CRL_APB : Z := 0xFF5E0000.
(* @src shared/standalone/clocks.c 126-126 IOPLL_CTRL *)
Definition IOPLL_CTRL : Z := 0x020.
(* @src shared/standalone/clocks.c 127-127 IOPLL_CHK *)
Definition IOPLL_CHK : Z := 0x00015A00.
(* @src shared/standalone/clocks.c 128-128 PL0_REF_CTRL *)
Definition PL0_REF_CTRL : Z := 0x0C0.
(* @src shared/standalone/clocks.c 129-129 PL0_EMUL *)
Definition PL0_EMUL : Z := 0x01011800.
(* @src shared/standalone/clocks.c 130-130 PL0_NORM *)
Definition PL0_NORM : Z := 0x01010600.
(* @src shared/standalone/clocks.c 131-131 PL1_REF_CTRL *)
Definition PL1_REF_CTRL : Z := 0x0C4.

(* @src shared/standalone/clocks.c 170-171 delays of slot 0 *)
Definition slot0_values (t : timing) : Z * Z * Z * Z :=
  (6 * (T_SRAM_W + T_TRANS t) - 52, 6 * (T_SRAM_R + T_TRANS t) - 69,
   6 * (T_DRAM_W + T_QUEUE_W t + T_TRANS t) - 52, 6 * (T_DRAM_R + T_QUEUE_R t + T_TRANS t) - 69).

(* @src shared/standalone/clocks.c 178-179 delays of slot 1 *)
Definition slot1_values (t : timing) : Z * Z * Z * Z :=
  (6 * T_SRAM_W - 48, 6 * T_SRAM_R - 66, 6 * (T_DRAM_W + T_QUEUE_W t) - 48, 6 * (T_DRAM_R + T_QUEUE_R t) - 66).

Section Functions.
Context {D : Type} `{HD : Device D} (t : timing) (dl : delays).

(* @src shared/standalone/clocks.c 133-182 clocks_emulate *)
Definition clocks_emulate : io D (option string) :=
  let unlock := FPD_SLCR + wprot0 in
  let apll_c := CRF_APB + APLL_CTRL in
  let dpll_c := CRF_APB + DPLL_CTRL in
  let arm_cc := CRF_APB + ACPU_CTRL in
  let ddr_cc := CRF_APB + DDR_CTRL in
  let iopll_c := CRL_APB + IOPLL_CTRL in
  let fpga0_cc := CRL_APB + PL0_REF_CTRL in
  let fpga1_cc := CRL_APB + PL1_REF_CTRL in
  _ ← read_all [apll_c; dpll_c; iopll_c];
  bad ← any_differs [(apll_c, APLL_CHK); (iopll_c, IOPLL_CHK)];
  if (bad : bool) then mret (Some incompatible) else
  _ ← write_all [(unlock, wprot0_off); (arm_cc, ACPU_EMUL); (fpga0_cc, PL0_EMUL)];
  _ ← read_all [arm_cc; ddr_cc; fpga0_cc; fpga1_cc];
  bad ← any_differs [(arm_cc, ACPU_EMUL); (fpga0_cc, PL0_EMUL)];
  if (bad : bool) then mret (Some emulate_not_set) else
  _ ← write_all (program_delays (slot0 dl) (slot0_values t));
  _ ← read_all (map fst (program_delays (slot0 dl) (slot0_values t)));
  _ ← write_all (program_delays (slot1 dl) (slot1_values t));
  _ ← read_all (map fst (program_delays (slot1 dl) (slot1_values t)));
  mret None.

(* @src shared/standalone/clocks.c 184-206 clocks_normal *)
Definition clocks_normal : io D (option string) :=
  let unlock := FPD_SLCR + wprot0 in
  let arm_cc := CRF_APB + ACPU_CTRL in
  let fpga0_cc := CRL_APB + PL0_REF_CTRL in
  _ ← write_all [(unlock, wprot0_off); (arm_cc, ACPU_NORM); (fpga0_cc, PL0_NORM)];
  bad ← any_differs [(arm_cc, ACPU_NORM); (fpga0_cc, PL0_NORM)];
  if (bad : bool) then mret (Some normal_not_set) else
  _ ← write_all (program_delays (slot0 dl) (0, 0, 0, 0));
  _ ← write_all (program_delays (slot1 dl) (0, 0, 0, 0));
  mret None.
End Functions.
End ZU.

(** * Linux *)

Module Linux.
(** What happens to mappings, in order. *)
Inductive action := Mapped (vaddr : Z) | Unmapped (vaddr : Z).

#[export] Instance action_eq_dec : EqDecision action.
Proof. solve_decision. Defined.

(** The device as the process sees it, the variables of devtree.c, and the
    mappings made and given back. *)
Record lstate (D : Type) := { dev : D; dmap : mapping; acts : list action }.
Arguments dev {D} _.
Arguments dmap {D} _.
Arguments acts {D} _.

Section Functions.
Context {D : Type} `{HD : Device D} (t : timing).
(** The system: page size, /dev/mem, [mmap], the device tree, and the CPU
    frequency driver: [None] when its file does not open, otherwise what
    writing bytes to it does to the device.  [after] is what follows a string
    literal in memory, [reg0] what an uninitialised local holds. *)
Context (sysconf_pagesize open_mem : Z) (mmap : Z -> Z -> option Z) (dev_tree : node) (name_buf reg0 : list Z).
Context (cpufreq : option (list Z -> D -> D)) (after : list Z).
Abbreviation M := (io (lstate D)).

Definition on_dev {A} (m : io D A) : M A := fun s =>
  let '(a, d) := m (dev s) in (a, {| dev := d; dmap := dmap s; acts := acts s |}).

Definition dev_mmap_ (paddr : Z) : M (option Z) := fun s =>
  let '(r, mp) := dev_mmap sysconf_pagesize open_mem mmap paddr (dmap s) in
  (r, {| dev := dev s; dmap := mp; acts := acts s ++ match r with Some va => [Mapped va] | None => [] end |}).

(** [if (p != MAP_FAILED) dev_munmap(p)] *)
Definition unmap_if (p : option Z) : M unit :=
  modify (fun s => {| dev := dev s; dmap := dmap s;
                      acts := acts s ++ match p with Some va => [Unmapped va] | None => [] end |}).

(* @src shared/linux/clocks.c 43-48 dev_smmap *)
Definition dev_smmap (name : string) (inst : Z) : M (option Z) :=
  let '(found, reg) := dev_search name_buf dev_tree name inst "reg" reg0 in
  if found =? inst then dev_mmap_ (le_val (drop 8 reg)) else mret None.

(** The bytes [fwrite(str, 1, sizeof(str), fp)] sends: [sizeof] is that of
    the pointer. *)
(* @src shared/linux/clocks.c 78-79 fwrite(str, sizeof(char), sizeof(str), fp) *)
Definition set_speed (str : list Z) : M unit :=
  match cpufreq with
  | None => mret tt
  | Some wr => on_dev (modify (wr (take 8 (str ++ [0] ++ after))))
  end.

(** The delay units of one slot: instances [i] and [i + 1] of the tree. *)
(* @src shared/linux/clocks.c 91-99 delay units of a slot *)
Definition slot_delays (i : Z) (v : Z * Z * Z * Z) (show : bool) : M unit :=
  d0 ← dev_smmap "axi_delay" i;
  d1 ← dev_smmap "axi_delay" (i + 1);
  _ ← match d0, d1 with
      | Some d0, Some d1 =>
          let ws := program_delays (Some (d0, d1)) v in
          on_dev (_ ← write_all ws; if show then read_all (map fst ws) else mret tt)
      | _, _ => mret tt
      end;
  _ ← unmap_if d0;
  unmap_if d1.

(** The digits of the two speeds. *)
Definition speed_emul : list Z := [49; 51; 55; 53; 48; 48].
Definition speed_norm : list Z := [49; 49; 48; 48; 48; 48; 48].

(* @src shared/linux/clocks.c 57-109 clocks_emulate after the mappings *)
Definition emulate_body (fpd_slcr crf_apb crl_apb : Z) : M (option string) :=
  let unlock := fpd_slcr + ZU.wprot0 in
  let apll_c := crf_apb + ZU.APLL_CTRL in
  let dpll_c := crf_apb + ZU.DPLL_CTRL in
  let arm_cc := crf_apb + ZU.ACPU_CTRL in
  let ddr_cc := crf_apb + ZU.DDR_CTRL in
  let iopll_c := crl_apb + ZU.IOPLL_CTRL in
  let fpga0_cc := crl_apb + ZU.PL0_REF_CTRL in
  let fpga1_cc := crl_apb + ZU.PL1_REF_CTRL in
  _ ← on_dev (read_all [apll_c; dpll_c; iopll_c]);
  bad ← on_dev (any_differs [(apll_c, ZU.APLL_CHK); (iopll_c, ZU.IOPLL_CHK)]);
  if (bad : bool) then mret (Some incompatible) else
  _ ← on_dev (write_all [(unlock, ZU.wprot0_off); (fpga0_cc, ZU.PL0_EMUL)]);
  _ ← set_speed speed_emul;
  _ ← on_dev (read_all [arm_cc; ddr_cc; fpga0_cc; fpga1_cc]);
  bad ← on_dev (any_differs [(arm_cc, ZU.ACPU_EMUL); (fpga0_cc, ZU.PL0_EMUL)]);
  if (bad : bool) then mret (Some emulate_not_set) else
  _ ← slot_delays 1 (ZU.slot0_values t) true;
  _ ← slot_delays 3 (ZU.slot1_values t) true;
  mret None.

(* @src shared/linux/clocks.c 124-152 clocks_normal after the mappings *)
Definition normal_body (fpd_slcr crf_apb crl_apb : Z) : M (option string) :=
  let unlock := fpd_slcr + ZU.wprot0 in
  let arm_cc := crf_apb + ZU.ACPU_CTRL in
  let fpga0_cc := crl_apb + ZU.PL0_REF_CTRL in
  _ ← on_dev (write_all [(unlock, ZU.wprot0_off); (fpga0_cc, ZU.PL0_NORM)]);
  _ ← set_speed speed_norm;
  bad ← on_dev (any_differs [(arm_cc, ZU.ACPU_NORM); (fpga0_cc, ZU.PL0_NORM)]);
  if (bad : bool) then mret (Some normal_not_set) else
  _ ← slot_delays 1 (0, 0, 0, 0) false;
  _ ← slot_delays 3 (0, 0, 0, 0) false;
  mret None.

(** The three mappings around a body, and the way out. *)
(* @src shared/linux/clocks.c 52-55 mappings and ce_return *)
Definition with_mappings (body : Z -> Z -> Z -> M (option string)) : M (option string) :=
  fpd_slcr ← dev_mmap_ ZU.FPD_SLCR;
  crf_apb ← dev_mmap_ ZU.CRF_APB;
  crl_apb ← dev_mmap_ ZU.CRL_APB;
  r ← match fpd_slcr, crf_apb, crl_apb with
      | Some a, Some b, Some c => body a b c
      | _, _, _ => mret None
      end;
  _ ← unmap_if fpd_slcr;
  _ ← unmap_if crf_apb;
  _ ← unmap_if crl_apb;
  mret r.

(* @src shared/linux/clocks.c 50-115 clocks_emulate *)
Definition clocks_emulate : M (option string) := with_mappings emulate_body.

(* @src shared/linux/clocks.c 117-158 clocks_normal *)
Definition clocks_normal : M (option string) := with_mappings normal_body.
End Functions.
End Linux.
