(* ===== verification/ClocksProofs.v ===== *)
(** Clock settings: what emulation programs, that it can be undone, that its
    delays fit, and that every mapping is given back. *)
From stdpp Require Import gmultiset.
From S2P Require Import Prelude Device Devtree Clocks.
Open Scope Z_scope.

(** * Register programs as lists of writes *)

Fixpoint apply_writes (ws : list (Z * Z)) (σ : regs) : regs :=
  match ws with [] => σ | (r, v) :: ws' => apply_writes ws' (upd r (u32 v) σ) end.

Lemma apply_writes_app ws ws' σ : apply_writes (ws ++ ws') σ = apply_writes ws' (apply_writes ws σ).
Proof. revert σ. induction ws as [|[r v] ws IH]; intros σ; simpl; [done|]. apply IH. Qed.

(** Registers a list writes last decide; the others keep their value. *)
Lemma apply_writes_cover ws σ σ' r :
  (r ∈ map fst ws \/ σ r = σ' r) -> apply_writes ws σ r = apply_writes ws σ' r.
Proof.
  revert σ σ'. induction ws as [|[q v] ws IH]; intros σ σ' H; simpl in *.
  - destruct H as [H|H]; [by apply elem_of_nil in H|done].
  - apply IH. destruct (decide (q = r)) as [->|Hne]; [right; by rewrite !upd_eq|].
    destruct H as [[->|H]%elem_of_cons|H]; [done|by left|right]. by rewrite !upd_ne.
Qed.

Lemma apply_writes_other ws σ r : r ∉ map fst ws -> apply_writes ws σ r = σ r.
Proof.
  revert σ. induction ws as [|[q v] ws IH]; intros σ H; simpl in *; [done|].
  apply not_elem_of_cons in H as [Hne H]. rewrite IH by done. by apply upd_ne.
Qed.

(** A list that writes every register of the one before hides it. *)
Lemma apply_writes_hide ws ws' σ r :
  (forall q, q ∈ map fst ws -> q ∈ map fst ws') -> apply_writes ws' (apply_writes ws σ) r = apply_writes ws' σ r.
Proof.
  intros Hsub. apply apply_writes_cover. destruct (decide (r ∈ map fst ws')) as [|Hn]; [by left|right].
  apply apply_writes_other. auto.
Qed.

(** * Registers behind a write protection

    The clock registers are not plain storage.  On the Zynq-7000 they belong
    to the system-level control registers, which ignore what is written to
    them until a key has been written to a register of its own, write-only;
    on the Zynq UltraScale+ a bit of a protection register does the same.  A
    gate says which registers are protected and what each write does to the
    protection. *)
Record gate := { guards : Z -> bool; lock_after : Z -> Z -> bool -> bool }.

(** [GatedRegs D g cfg]: reads change neither the registers of [cfg] nor the
    protection; a write takes effect on the register written, one of [cfg],
    unless the gate guards it and is shut; and the gate opens and shuts as
    [g] says, never by a write to a register of [cfg].  What the registers
    that work the gate themselves read as is left open. *)
Class GatedRegs (D : Type) `{Device D} (g : gate) (cfg : Z -> Prop) := {
  stored : D -> Z -> Z;
  locked : D -> bool;
  rd_stored : forall d r, cfg r -> fst (dev_rd r d) = stored d r;
  rd_stores : forall d r r', cfg r -> cfg r' -> stored (snd (dev_rd r d)) r' = stored d r';
  rd_locked : forall d r, cfg r -> locked (snd (dev_rd r d)) = locked d;
  wr_stored : forall d r r' v, cfg r' -> in_word 32 v ->
    stored (dev_wr r v d) r' = if (r =? r') && negb (locked d && guards g r) then v else stored d r';
  wr_locked : forall d r v, in_word 32 v -> locked (dev_wr r v d) = lock_after g r v (locked d);
  cfg_no_gate : forall r v l, cfg r -> lock_after g r v l = l
}.

Section Programs.
Context {D : Type} `{HD : Device D} {g : gate} {cfg : Z -> Prop} `{GR : !GatedRegs D g cfg}.

(** The device holds [σ] in its registers, with the protection on or off. *)
Definition is_at (σ : regs) (l : bool) (d : D) : Prop := locked d = l /\ forall r, cfg r -> stored d r = σ r.

(** [leads m σ l x σ' l']: from every device that holds [σ], protected or not
    as [l] says, the program returns [x] and leaves [σ'] and [l']. *)
Definition leads {A} (m : io D A) (σ : regs) (l : bool) (x : A) (σ' : regs) (l' : bool) : Prop :=
  forall d, is_at σ l d -> exists d', m d = (x, d') /\ is_at σ' l' d'.

Lemma leads_ret {A} (x : A) σ l : leads (mret x) σ l x σ l.
Proof. intros d Hd. by exists d. Qed.

Lemma leads_bind {A B} (m : io D A) (f : A -> io D B) σ l x σ' l' y σ'' l'' :
  leads m σ l x σ' l' -> leads (f x) σ' l' y σ'' l'' -> leads (m ≫= f) σ l y σ'' l''.
Proof.
  intros Hm Hf d Hd. destruct (Hm d Hd) as (d1 & E1 & H1). destruct (Hf d1 H1) as (d2 & E2 & H2).
  exists d2. split; [|done]. by erewrite bind_run by exact E1.
Qed.

Lemma leads_conseq {A} (m : io D A) σ l x σ' σ'' l' :
  leads m σ l x σ' l' -> (forall r, cfg r -> σ' r = σ'' r) -> leads m σ l x σ'' l'.
Proof.
  intros Hm E d Hd. destruct (Hm d Hd) as (d' & ? & Hl & Hs). exists d'. split; [done|]. split; [done|].
  intros r Hr. by rewrite Hs, E.
Qed.

Lemma leads_read r σ l : cfg r -> leads (bus_read r) σ l (σ r) σ l.
Proof.
  intros Hr d [Hl Hs]. unfold bus_read. exists (snd (dev_rd r d)). split.
  - by rewrite (surjective_pairing (dev_rd r d)), (rd_stored d r Hr), (Hs r Hr).
  - split; [by rewrite rd_locked|]. intros r' Hr'. by rewrite rd_stores, Hs.
Qed.

(** A write through the open gate. *)
Lemma leads_write r v σ : cfg r -> leads (bus_write r v) σ false tt (upd r (u32 v) σ) false.
Proof.
  intros Hr d [Hl Hs]. eexists. split; [done|]. assert (Hw : in_word 32 (u32 v)) by (by apply wrap_range).
  split; [by rewrite wr_locked, cfg_no_gate|]. intros r' Hr'. rewrite wr_stored, Hl by done. simpl.
  unfold upd. rewrite andb_true_r. by destruct (r =? r'); [|apply Hs].
Qed.

(** The write that opens the gate, whatever its state. *)
Definition opened_by (r v : Z) : Prop := in_word 32 v /\ forall l, lock_after g r v l = false.

Lemma leads_open r v σ l : opened_by r v -> leads (bus_write r v) σ l tt σ false.
Proof.
  intros [Hv Ho] d [Hl Hs]. eexists. split; [done|]. rewrite (wrap_id 32 v Hv).
  split; [by rewrite wr_locked, Ho|]. intros r' Hr'. rewrite wr_stored by done.
  destruct (Z.eqb_spec r r') as [->|]; [|by apply Hs]. pose proof (Ho true) as E. by rewrite cfg_no_gate in E.
Qed.

Lemma leads_write_all ws σ : Forall cfg (map fst ws) -> leads (write_all ws) σ false tt (apply_writes ws σ) false.
Proof.
  revert σ. induction ws as [|[r v] ws IH]; intros σ Hr; simpl; [apply leads_ret|]. apply Forall_cons in Hr as [Hr Hws].
  eapply leads_bind; [by apply leads_write|by apply IH].
Qed.

Lemma leads_read_all rs σ l : Forall cfg rs -> leads (read_all rs) σ l tt σ l.
Proof.
  induction 1 as [|r rs Hr _ IH]; simpl; [apply leads_ret|]. eapply leads_bind; [by apply leads_read|]. apply IH.
Qed.

Definition differs (l : list (Z * Z)) (σ : regs) : bool := existsb (fun p => negb (σ (fst p) =? snd p)) l.

Lemma leads_any_differs ws σ l : Forall cfg (map fst ws) -> leads (any_differs ws) σ l (differs ws σ) σ l.
Proof.
  induction ws as [|[r v] ws IH]; intros Hl; simpl; [apply leads_ret|]. apply Forall_cons in Hl as [Hr Hl].
  eapply leads_bind; [by apply leads_read|]. destruct (negb (σ r =? v)); simpl; [apply leads_ret|by apply IH].
Qed.
End Programs.

Create HintDb gated.
#[export] Hint Resolve leads_ret leads_read_all leads_any_differs leads_write_all leads_open : gated.
Arguments opened_by _ _ _ : clear implicits.

(** Through a program, one step after the other. *)
Ltac lead := repeat (eapply leads_bind; [by eauto with gated|]); try by eauto with gated.

(** The addresses the delay units of a slot are programmed at. *)
Definition unit_regs (units : option (Z * Z)) : list Z :=
  match units with None => [] | Some (d0, d1) => [reg32 d0 2; reg32 d0 4; reg32 d1 2; reg32 d1 4] end.

Lemma program_delays_regs units v : map fst (program_delays units v) = unit_regs units.
Proof. destruct units as [[d0 d1]|], v as [[[? ?] ?] ?]; done. Qed.

(** Both bare-metal versions are this program, with their registers. *)
Section Patterns.
Context {D : Type} `{HD : Device D}.

Definition emulate_program (shown : list Z) (checks setup : list (Z * Z)) (shown2 : list Z)
    (settled w0 w1 : list (Z * Z)) : io D (option string) :=
  _ ← read_all shown;
  bad ← any_differs checks;
  if (bad : bool) then mret (Some incompatible) else
  _ ← write_all setup;
  _ ← read_all shown2;
  bad ← any_differs settled;
  if (bad : bool) then mret (Some emulate_not_set) else
  _ ← write_all w0;
  _ ← read_all (map fst w0);
  _ ← write_all w1;
  _ ← read_all (map fst w1);
  mret None.

Definition normal_program (setup settled w0 w1 : list (Z * Z)) : io D (option string) :=
  _ ← write_all setup;
  bad ← any_differs settled;
  if (bad : bool) then mret (Some normal_not_set) else
  _ ← write_all w0;
  _ ← write_all w1;
  mret None.

Context {g : gate} {cfg : Z -> Prop} `{GR : !GatedRegs D g cfg}.
Context (key : Z * Z) (Hkey : opened_by g key.1 key.2).

(** The checks come before the protection is lifted, so a refusal leaves it
    as it was. *)
Lemma leads_emulate shown checks setup shown2 settled w0 w1 σ l :
  Forall cfg (shown ++ map fst checks ++ map fst setup ++ shown2 ++ map fst settled ++ map fst w0 ++ map fst w1) ->
  differs settled (apply_writes setup σ) = false ->
  leads (emulate_program shown checks (key :: setup) shown2 settled w0 w1) σ l
    (if differs checks σ then Some incompatible else None)
    (if differs checks σ then σ else apply_writes (setup ++ w0 ++ w1) σ) (if differs checks σ then l else false).
Proof using Hkey.
  rewrite !Forall_app. intros (H1 & H2 & H3 & H4 & H5 & H6 & H7) Hs. unfold emulate_program. destruct key as [kr kv].
  eapply leads_bind; [by eauto with gated|]. eapply leads_bind; [by eauto with gated|].
  destruct (differs checks σ); [by eauto with gated|]. rewrite !apply_writes_app. simpl write_all.
  eapply leads_bind; [eapply leads_bind; [by apply leads_open|by apply leads_write_all]|].
  eapply leads_bind; [by eauto with gated|]. eapply leads_bind; [by eauto with gated|]. rewrite Hs. lead.
Qed.

Lemma leads_normal setup settled w0 w1 σ l :
  Forall cfg (map fst setup ++ map fst settled ++ map fst w0 ++ map fst w1) -> differs settled (apply_writes setup σ) = false ->
  leads (normal_program (key :: setup) settled w0 w1) σ l None (apply_writes (setup ++ w0 ++ w1) σ) false.
Proof using Hkey.
  rewrite !Forall_app. intros (H1 & H2 & H3 & H4) Hs. unfold normal_program. destruct key as [kr kv]. simpl write_all.
  rewrite !apply_writes_app.
  eapply leads_bind; [eapply leads_bind; [by apply leads_open|by apply leads_write_all]|].
  eapply leads_bind; [by eauto with gated|]. rewrite Hs. lead.
Qed.
End Patterns.

(** * Zynq-7000 and Zynq UltraScale+ *)

(** What each version writes to the clocks when it emulates and when it goes
    back, the registers it reads or writes, the write that lifts the
    protection, and the condition it checks. *)
Definition z7_key : Z * Z := (Z7.unlock, Z7.SLCR_UNLOCK_KEY).
Definition z7_clocks (emul : bool) : list (Z * Z) :=
  [(Z7.arm_cc, if emul then Z7.ACPU_EMUL else Z7.ACPU_NORM); (Z7.fpga0_cc, if emul then Z7.PL0_EMUL else Z7.PL0_NORM)].
Definition z7_regs : list Z :=
  [Z7.apll_c; Z7.dpll_c; Z7.iopll_c; Z7.clk_621; Z7.arm_cc; Z7.ddr_cc; Z7.fpga0_cc; Z7.fpga1_cc].
Definition z7_compatible (σ : regs) : bool :=
  negb (differs [(Z7.apll_c, Z7.APLL_CHK); (Z7.iopll_c, Z7.IOPLL_CHK); (Z7.clk_621, Z7.CLK_621_CHK)] σ).

Definition zu_key : Z * Z := (ZU.FPD_SLCR + ZU.wprot0, ZU.wprot0_off).
Definition zu_arm : Z := ZU.CRF_APB + ZU.ACPU_CTRL.
Definition zu_fpga0 : Z := ZU.CRL_APB + ZU.PL0_REF_CTRL.
Definition zu_clocks (emul : bool) : list (Z * Z) :=
  [(zu_arm, if emul then ZU.ACPU_EMUL else ZU.ACPU_NORM); (zu_fpga0, if emul then ZU.PL0_EMUL else ZU.PL0_NORM)].
Definition zu_regs : list Z :=
  [ZU.CRF_APB + ZU.APLL_CTRL; ZU.CRF_APB + ZU.DPLL_CTRL; ZU.CRL_APB + ZU.IOPLL_CTRL;
   zu_arm; ZU.CRF_APB + ZU.DDR_CTRL; zu_fpga0; ZU.CRL_APB + ZU.PL1_REF_CTRL].
Definition zu_compatible (σ : regs) : bool :=
  negb (differs [(ZU.CRF_APB + ZU.APLL_CTRL, ZU.APLL_CHK); (ZU.CRL_APB + ZU.IOPLL_CTRL, ZU.IOPLL_CHK)] σ).

Definition unit_writes (dl : delays) (v0 v1 : Z * Z * Z * Z) : list (Z * Z) :=
  program_delays (slot0 dl) v0 ++ program_delays (slot1 dl) v1.
Definition zeroes : Z * Z * Z * Z := (0, 0, 0, 0).

Section BareMetal.
Context {D : Type} `{HD : Device D} {g : gate} {cfg : Z -> Prop} `{GR : !GatedRegs D g cfg} (t : timing) (dl : delays).
Hypothesis units_cfg : Forall cfg (unit_regs (slot0 dl) ++ unit_regs (slot1 dl)).

Ltac cfg_regs Hr :=
  rewrite ?program_delays_regs, ?Forall_app; rewrite Forall_app in units_cfg; destruct units_cfg;
  unfold z7_regs, zu_regs in Hr; repeat (apply Forall_cons in Hr as [? Hr]); cbn [map fst z7_clocks zu_clocks];
  split_and?; try assumption; repeat (apply Forall_cons; split; [assumption|]); apply Forall_nil; exact I.

Lemma z7_emulate σ l :
  opened_by g z7_key.1 z7_key.2 -> Forall cfg z7_regs ->
  leads (Z7.clocks_emulate t dl) σ l (if z7_compatible σ then None else Some incompatible)
    (if z7_compatible σ then apply_writes (z7_clocks true ++ unit_writes dl (Z7.slot0_values t) (Z7.slot1_values t)) σ else σ)
    (if z7_compatible σ then false else l).
Proof.
  intros Hk Hr. pose proof (leads_emulate z7_key Hk [Z7.apll_c; Z7.dpll_c; Z7.iopll_c; Z7.clk_621]
    [(Z7.apll_c, Z7.APLL_CHK); (Z7.iopll_c, Z7.IOPLL_CHK); (Z7.clk_621, Z7.CLK_621_CHK)] (z7_clocks true)
    [Z7.arm_cc; Z7.ddr_cc; Z7.fpga0_cc; Z7.fpga1_cc] [(Z7.arm_cc, Z7.ACPU_EMUL); (Z7.fpga0_cc, Z7.PL0_EMUL)]
    (program_delays (slot0 dl) (Z7.slot0_values t)) (program_delays (slot1 dl) (Z7.slot1_values t)) σ l) as H.
  unfold z7_compatible. destruct (differs _ σ); apply H; [cfg_regs Hr|reflexivity|cfg_regs Hr|reflexivity].
Qed.

Lemma z7_normal σ l :
  opened_by g z7_key.1 z7_key.2 -> Forall cfg z7_regs ->
  leads (Z7.clocks_normal dl) σ l None (apply_writes (z7_clocks false ++ unit_writes dl zeroes zeroes) σ) false.
Proof.
  intros Hk Hr. apply (leads_normal z7_key Hk (z7_clocks false) [(Z7.arm_cc, Z7.ACPU_NORM); (Z7.fpga0_cc, Z7.PL0_NORM)]
    (program_delays (slot0 dl) zeroes) (program_delays (slot1 dl) zeroes)); [cfg_regs Hr|reflexivity].
Qed.

Lemma zu_emulate σ l :
  opened_by g zu_key.1 zu_key.2 -> Forall cfg zu_regs ->
  leads (ZU.clocks_emulate t dl) σ l (if zu_compatible σ then None else Some incompatible)
    (if zu_compatible σ then apply_writes (zu_clocks true ++ unit_writes dl (ZU.slot0_values t) (ZU.slot1_values t)) σ else σ)
    (if zu_compatible σ then false else l).
Proof.
  intros Hk Hr. pose proof (leads_emulate zu_key Hk
    [ZU.CRF_APB + ZU.APLL_CTRL; ZU.CRF_APB + ZU.DPLL_CTRL; ZU.CRL_APB + ZU.IOPLL_CTRL]
    [(ZU.CRF_APB + ZU.APLL_CTRL, ZU.APLL_CHK); (ZU.CRL_APB + ZU.IOPLL_CTRL, ZU.IOPLL_CHK)] (zu_clocks true)
    [zu_arm; ZU.CRF_APB + ZU.DDR_CTRL; zu_fpga0; ZU.CRL_APB + ZU.PL1_REF_CTRL]
    [(zu_arm, ZU.ACPU_EMUL); (zu_fpga0, ZU.PL0_EMUL)]
    (program_delays (slot0 dl) (ZU.slot0_values t)) (program_delays (slot1 dl) (ZU.slot1_values t)) σ l) as H.
  unfold zu_compatible. destruct (differs _ σ); apply H; [cfg_regs Hr|reflexivity|cfg_regs Hr|reflexivity].
Qed.

Lemma zu_normal σ l :
  opened_by g zu_key.1 zu_key.2 -> Forall cfg zu_regs ->
  leads (ZU.clocks_normal dl) σ l None (apply_writes (zu_clocks false ++ unit_writes dl zeroes zeroes) σ) false.
Proof.
  intros Hk Hr. apply (leads_normal zu_key Hk (zu_clocks false) [(zu_arm, ZU.ACPU_NORM); (zu_fpga0, ZU.PL0_NORM)]
    (program_delays (slot0 dl) zeroes) (program_delays (slot1 dl) zeroes)); [cfg_regs Hr|reflexivity].
Qed.
End BareMetal.

Section Undo.
Context {D : Type} `{HD : Device D} {g : gate} {cfg : Z -> Prop} `{GR : !GatedRegs D g cfg} (t : timing) (dl : delays).


(** Emulation, for both versions: on compatible PLL settings the protection
    is lifted, the clock and delay registers get the emulation values, in this
    order, and nothing else changes; otherwise nothing changes at all, the
    protection included, and the error is reported. *)
Theorem clocks_emulate_correct σ l :
  Forall cfg (unit_regs (slot0 dl) ++ unit_regs (slot1 dl)) ->
  (opened_by g z7_key.1 z7_key.2 -> Forall cfg z7_regs ->
   leads (Z7.clocks_emulate t dl) σ l (if z7_compatible σ then None else Some incompatible)
     (if z7_compatible σ then apply_writes (z7_clocks true ++ unit_writes dl (Z7.slot0_values t) (Z7.slot1_values t)) σ else σ)
     (if z7_compatible σ then false else l)) /\
  (opened_by g zu_key.1 zu_key.2 -> Forall cfg zu_regs ->
   leads (ZU.clocks_emulate t dl) σ l (if zu_compatible σ then None else Some incompatible)
     (if zu_compatible σ then apply_writes (zu_clocks true ++ unit_writes dl (ZU.slot0_values t) (ZU.slot1_values t)) σ else σ)
     (if zu_compatible σ then false else l)).
Proof. intros Hu. split; intros Hk Hr; [by apply z7_emulate|by apply zu_emulate]. Qed.
End Undo.

(** ** Protected register memories *)

Record gated_ram := { contents : Z -> Z; shut : bool }.

(** Storage behind a gate; the registers that work the gate, [keys], are not
    part of it and read as zero. *)
#[local] Instance gate_device (g : gate) (keys : list Z) : Device gated_ram := {
  dev_rd r d := (if bool_decide (r ∈ keys) then 0 else contents d r, d);
  dev_wr r v d := {| contents := fun r' => if (r =? r') && negb (shut d && guards g r) then v else contents d r';
                     shut := lock_after g r v (shut d) |}
}.

Lemma gate_gated g keys :
  (forall r v l, r ∉ keys -> lock_after g r v l = l) -> @GatedRegs gated_ram (gate_device g keys) g (.∉ keys).
Proof.
  intros Hg. refine {| stored := contents : gated_ram -> Z -> Z; locked := shut |}; try done.
  intros d r Hr. simpl. by rewrite bool_decide_false.
Defined.

(** The Zynq-7000: the page of control registers ignores writes while it is
    locked; two of them lock and unlock it. *)
Definition slcr_keys : list Z := [Z7.SLCR + 4; Z7.unlock].
Definition slcr_gate : gate := {|
  guards r := (Z7.SLCR <=? r) && (r <? Z7.SLCR + 0x1000);
  lock_after r v l :=
    if r =? Z7.unlock then (if u16 v =? Z7.SLCR_UNLOCK_KEY then false else l)
    else if r =? Z7.SLCR + 4 then (if u16 v =? 0x767B then true else l)
    else l
|}.

(** The Zynq UltraScale+: one bit protects the clock registers of both power
    domains, as the program takes it to. *)
Definition wprot_keys : list Z := [ZU.FPD_SLCR + ZU.wprot0].
Definition wprot_gate : gate := {|
  guards r := ((ZU.CRF_APB <=? r) && (r <? ZU.CRF_APB + 0x1000)) || ((ZU.CRL_APB <=? r) && (r <? ZU.CRL_APB + 0x1000));
  lock_after r v l := if r =? ZU.FPD_SLCR + ZU.wprot0 then Z.testbit v 0 else l
|}.

#[local] Instance slcr_gated : @GatedRegs gated_ram (gate_device slcr_gate slcr_keys) slcr_gate (.∉ slcr_keys).
Proof.
  apply gate_gated. intros r v l [H1 [H2 _]%not_elem_of_cons]%not_elem_of_cons. simpl.
  by rewrite (proj2 (Z.eqb_neq _ _) H1), (proj2 (Z.eqb_neq _ _) H2).
Defined.

#[local] Instance wprot_gated : @GatedRegs gated_ram (gate_device wprot_gate wprot_keys) wprot_gate (.∉ wprot_keys).
Proof. apply gate_gated. intros r v l [H _]%not_elem_of_cons. simpl. by rewrite (proj2 (Z.eqb_neq _ _) H). Defined.

Lemma no_keys (keys l : list Z) : forallb (fun r => bool_decide (r ∉ keys)) l = true -> Forall (.∉ keys) l.
Proof.
  intros H. apply Forall_forall. intros r Hr. rewrite forallb_forall in H. apply list_elem_of_In, H in Hr.
  by apply bool_decide_eq_true in Hr.
Qed.

Lemma slcr_opens : opened_by slcr_gate z7_key.1 z7_key.2.
Proof. split; [by vm_compute|intros []; reflexivity]. Qed.
Lemma wprot_opens : opened_by wprot_gate zu_key.1 zu_key.2.
Proof. split; [by vm_compute|intros []; reflexivity]. Qed.

Definition example_delays : delays := {| slot0 := Some (0x80000000, 0x80010000); slot1 := Some (0x80020000, 0x80030000) |}.

(** A Zynq-7000 after its boot loader: locked, the PLLs as the program wants them. *)
Definition z7_booted : gated_ram := {|
  contents r := if r =? Z7.apll_c then Z7.APLL_CHK else if r =? Z7.iopll_c then Z7.IOPLL_CHK else 0;
  shut := true
|}.

Definition zu_booted : gated_ram := {|
  contents r := if r =? ZU.CRF_APB + ZU.APLL_CTRL then ZU.APLL_CHK else if r =? ZU.CRL_APB + ZU.IOPLL_CTRL then ZU.IOPLL_CHK else 0;
  shut := true
|}.


(** On the Zynq-7000 the clock that emulation sets is there, and a program
    that does not unlock finds that it is not. *)
Lemma clocks_emulate_correct_witness :
  let HD := gate_device slcr_gate slcr_keys in
  contents (exec (Z7.clocks_emulate def_timing example_delays) z7_booted) Z7.arm_cc = Z7.ACPU_EMUL /\
  run (_ ← write_all (z7_clocks false); any_differs (z7_clocks false)) z7_booted = true.
Proof.
  intros HD. destruct (clocks_emulate_correct (GR := slcr_gated) def_timing example_delays (contents z7_booted) true
    ltac:(by apply no_keys)) as [H _].
  destruct (H slcr_opens ltac:(by apply no_keys) z7_booted) as (d' & H1 & _ & H2); [by split|].
  split; [|reflexivity]. unfold exec, HD. rewrite H1. specialize (H2 Z7.arm_cc ltac:(by apply (bool_decide_eq_true_1 (Z7.arm_cc ∉ slcr_keys)))). simpl in H2 |- *. rewrite H2. reflexivity.
Defined.

(** * Delays fit their registers *)

Definition all_values (v : Z * Z * Z * Z) : list Z := let '(a, b, c, d) := v in [a; b; c; d].

(** The emulated latencies: the processor's DRAM delays follow from the
    total latencies alone, and no delay is negative (as an unsigned register
    value it would be a delay of seconds) exactly when the transport takes
    no negative time and leaves 8 of the write and 11 of the read latency
    (6 and 10 on the Zynq-7000); within these limits every delay is the
    32-bit value of its formula. *)
Theorem delays_fit t :
  T_W t < 2 ^ 28 -> T_R t < 2 ^ 28 -> T_TRANS t < 2 ^ 28 ->
  ZU.slot0_values t = (6 * (12 + T_TRANS t) - 52, 6 * (12 + T_TRANS t) - 69, 6 * T_W t - 52, 6 * T_R t - 69) /\
  (Forall (in_word 32) (all_values (ZU.slot0_values t) ++ all_values (ZU.slot1_values t)) <->
   0 <= T_TRANS t /\ 9 <= T_W t /\ 12 <= T_R t /\ 8 <= T_W t - T_TRANS t /\ 11 <= T_R t - T_TRANS t) /\
  (Forall (in_word 32) (all_values (Z7.slot0_values t) ++ all_values (Z7.slot1_values t)) <->
   -1 <= T_TRANS t /\ 12 <= T_W t /\ 11 <= T_R t /\ 6 <= T_W t - T_TRANS t /\ 10 <= T_R t - T_TRANS t).
Proof.
  intros Hw Hr Ht.
  unfold ZU.slot0_values, ZU.slot1_values, Z7.slot0_values, Z7.slot1_values, all_values, T_QUEUE_W, T_QUEUE_R,
    T_DRAM_W, T_DRAM_R, T_SRAM_W, T_SRAM_R, in_word.
  split; [repeat f_equal; lia|]. cbn [app]. rewrite !Forall_cons, !Forall_nil. split; split; intros; split_and?; lia || tauto.
Qed.

Lemma delays_fit_witness :
  Forall (in_word 32) (all_values (ZU.slot0_values def_timing) ++ all_values (ZU.slot1_values def_timing)).
Proof. apply (delays_fit def_timing); simpl; lia. Defined.

(** * Mappings under Linux *)

(** The mappings held after a list of actions; [None] when something is given
    back that is not held. *)
Fixpoint held (X : gmultiset Z) (l : list Linux.action) : option (gmultiset Z) :=
  match l with
  | [] => Some X
  | Linux.Mapped va :: l' => held (X ⊎ {[+ va +]}) l'
  | Linux.Unmapped va :: l' => if decide (va ∈ X) then held (X ∖ {[+ va +]}) l' else None
  end.

Lemma held_app X l l' : held X (l ++ l') = held X l ≫= fun Y => held Y l'.
Proof.
  revert X. induction l as [|[va|va] l IH]; intros X; simpl; [done|apply IH|]. destruct (decide _); [apply IH|done].
Qed.

Section Mappings.
Context {D : Type} `{HD : Device D} (t : timing).
Context (sysconf_pagesize open_mem : Z) (mmap : Z -> Z -> option Z) (dev_tree : node) (name_buf reg0 : list Z).
Context (cpufreq : option (list Z -> D -> D)) (after : list Z).
Abbreviation st := (Linux.lstate D).

(** [m] gives back the mappings [R], whatever else is held, and no others. *)
Definition gives {A} (R : gmultiset Z) (m : io st A) : Prop :=
  forall s, exists l, Linux.acts (exec m s) = Linux.acts s ++ l /\ forall X, held (X ⊎ R) l = Some X.

Definition bag (p : option Z) : gmultiset Z := match p with Some va => {[+ va +]} | None => ∅ end.

Lemma gives_ret {A} (a : A) : gives ∅ (mret a).
Proof. intros s. exists []. rewrite app_nil_r. split; [done|]. intros X. simpl. f_equal. multiset_solver. Qed.

Lemma gives_dev {A} (m : io D A) : gives ∅ (Linux.on_dev m).
Proof.
  intros s. exists []. unfold exec, Linux.on_dev. destruct (m (Linux.dev s)). rewrite app_nil_r.
  split; [done|]. intros X. simpl. f_equal. multiset_solver.
Qed.

(** First a part that gives back what it takes. *)
Lemma gives_bind {A B} R (m : io st A) (f : A -> io st B) :
  gives ∅ m -> (forall a, gives R (f a)) -> gives R (m ≫= f).
Proof.
  intros Hm Hf s. destruct (Hm s) as (l1 & H1 & K1). unfold exec, mbind, io_bind in *.
  destruct (m s) as [a s1]. destruct (Hf a s1) as (l2 & H2 & K2). unfold exec in H2. cbn [snd] in H1.
  exists (l1 ++ l2). rewrite H2, H1, app_assoc. split; [done|]. intros X.
  rewrite held_app. specialize (K1 (X ⊎ R)). replace (X ⊎ R ⊎ ∅) with (X ⊎ R) in K1 by multiset_solver.
  rewrite K1. simpl. apply K2.
Qed.

Lemma gives_map {A} R paddr (f : option Z -> io st A) :
  (forall p, gives (R ⊎ bag p) (f p)) ->
  gives R (p ← Linux.dev_mmap_ sysconf_pagesize open_mem mmap paddr; f p).
Proof.
  intros Hf s. unfold exec, mbind, io_bind, Linux.dev_mmap_. destruct (dev_mmap _ _ _ _ _) as [p mp].
  set (s1 := {| Linux.dev := _ |}). destruct (Hf p s1) as (l & H1 & K1). unfold exec in H1.
  exists ((match p with Some va => [Linux.Mapped va] | None => [] end) ++ l). rewrite H1, app_assoc. split; [done|].
  intros X. rewrite held_app. specialize (K1 X). destruct p as [va|]; simpl in *.
  - by replace (X ⊎ R ⊎ {[+ va +]}) with (X ⊎ (R ⊎ {[+ va +]})) by multiset_solver.
  - by replace (X ⊎ R) with (X ⊎ (R ⊎ ∅)) by multiset_solver.
Qed.

Lemma gives_unmap p : gives (bag p) (Linux.unmap_if p).
Proof.
  intros s. exists (match p with Some va => [Linux.Unmapped va] | None => [] end). split; [done|]. intros X.
  destruct p as [va|]; simpl; [|f_equal; multiset_solver].
  rewrite decide_True by multiset_solver. f_equal. multiset_solver.
Qed.

(** First a part that gives back some of it. *)
Lemma gives_bind_unmap {B} R p (f : unit -> io st B) :
  gives R (f tt) -> gives (R ⊎ bag p) (Linux.unmap_if p ≫= f).
Proof.
  intros Hf s. destruct (gives_unmap p s) as (l1 & H1 & K1). unfold exec, mbind, io_bind in *.
  destruct (Linux.unmap_if p s) as [[] s1]. destruct (Hf s1) as (l2 & H2 & K2). unfold exec in H2. cbn [snd] in H1.
  exists (l1 ++ l2). rewrite H2, H1, app_assoc. split; [done|]. intros X. rewrite held_app.
  replace (X ⊎ (R ⊎ bag p)) with (X ⊎ R ⊎ bag p) by multiset_solver. rewrite K1. simpl. apply K2.
Qed.

Lemma gives_eq {A} R R' (m : io st A) : gives R m -> R = R' -> gives R' m.
Proof. by intros ? <-. Qed.

Abbreviation slot_delays := (Linux.slot_delays sysconf_pagesize open_mem mmap dev_tree name_buf reg0).

Lemma gives_smmap {A} R name inst (f : option Z -> io st A) :
  (forall p, gives (R ⊎ bag p) (f p)) ->
  gives R (p ← Linux.dev_smmap sysconf_pagesize open_mem mmap dev_tree name_buf reg0 name inst; f p).
Proof.
  intros Hf. unfold Linux.dev_smmap. destruct (dev_search _ _ _ _ _ _) as [found reg].
  destruct (found =? inst); [by apply gives_map|].
  specialize (Hf None). simpl in Hf. replace (R ⊎ ∅) with R in Hf by multiset_solver. exact Hf.
Qed.

Lemma gives_slot i v show : gives ∅ (slot_delays i v show).
Proof.
  unfold Linux.slot_delays. apply gives_smmap. intros d0. apply gives_smmap. intros d1.
  apply gives_bind; [destruct d0, d1; (apply gives_ret || apply gives_dev)|]. intros _.
  apply gives_eq with (bag d1 ⊎ bag d0); [|multiset_solver].
  apply gives_bind_unmap, gives_unmap.
Qed.

Lemma gives_speed str : gives ∅ (Linux.set_speed cpufreq after str).
Proof. unfold Linux.set_speed. destruct cpufreq; [apply gives_dev|apply gives_ret]. Qed.

Lemma gives_emulate a b c :
  gives ∅ (Linux.emulate_body t sysconf_pagesize open_mem mmap dev_tree name_buf reg0 cpufreq after a b c).
Proof.
  unfold Linux.emulate_body. apply gives_bind; [apply gives_dev|intros _].
  apply gives_bind; [apply gives_dev|intros bad]. destruct bad; [apply gives_ret|].
  apply gives_bind; [apply gives_dev|intros _]. apply gives_bind; [apply gives_speed|intros _].
  apply gives_bind; [apply gives_dev|intros _]. apply gives_bind; [apply gives_dev|intros bad].
  destruct bad; [apply gives_ret|].
  apply gives_bind; [apply gives_slot|intros _]. apply gives_bind; [apply gives_slot|intros _]. apply gives_ret.
Qed.

Lemma gives_normal a b c :
  gives ∅ (Linux.normal_body sysconf_pagesize open_mem mmap dev_tree name_buf reg0 cpufreq after a b c).
Proof.
  unfold Linux.normal_body. apply gives_bind; [apply gives_dev|intros _]. apply gives_bind; [apply gives_speed|intros _].
  apply gives_bind; [apply gives_dev|intros bad]. destruct bad; [apply gives_ret|].
  apply gives_bind; [apply gives_slot|intros _]. apply gives_bind; [apply gives_slot|intros _]. apply gives_ret.
Qed.

Lemma gives_with_mappings body :
  (forall a b c, gives ∅ (body a b c)) -> gives ∅ (Linux.with_mappings sysconf_pagesize open_mem mmap body).
Proof.
  intros Hb. unfold Linux.with_mappings. apply gives_map. intros p1. apply gives_map. intros p2. apply gives_map. intros p3.
  apply gives_bind; [destruct p1, p2, p3; (apply Hb || apply gives_ret)|]. intros r.
  apply gives_eq with (∅ ⊎ bag p3 ⊎ bag p2 ⊎ bag p1); [|multiset_solver].
  apply gives_bind_unmap, gives_bind_unmap, gives_bind_unmap, gives_ret.
Qed.

(** Under Linux every mapping is given back, once, on every path: whichever
    of the mappings fail, whatever the registers read, with or without delay
    units in the tree and a frequency driver, after [clocks_emulate] and
    after [clocks_normal] the process holds the mappings it held before. *)
Theorem mappings_given_back (s : st) X :
  held ∅ (Linux.acts s) = Some X ->
  held ∅ (Linux.acts (exec (Linux.clocks_emulate t sysconf_pagesize open_mem mmap dev_tree name_buf reg0 cpufreq after) s)) = Some X /\
  held ∅ (Linux.acts (exec (Linux.clocks_normal sysconf_pagesize open_mem mmap dev_tree name_buf reg0 cpufreq after) s)) = Some X.
Proof.
  intros HX. split.
  - destruct (gives_with_mappings _ gives_emulate s) as (l & H1 & H2). unfold Linux.clocks_emulate.
    rewrite H1, held_app, HX. simpl. specialize (H2 X). by replace (X ⊎ ∅) with X in H2 by multiset_solver.
  - destruct (gives_with_mappings _ gives_normal s) as (l & H1 & H2). unfold Linux.clocks_normal.
    rewrite H1, held_app, HX. simpl. specialize (H2 X). by replace (X ⊎ ∅) with X in H2 by multiset_solver.
Qed.
End Mappings.

Lemma mappings_given_back_witness :
  let s := {| Linux.dev := ram_fill 0; Linux.dmap := {| mfd := 0; page_size := 0 |}; Linux.acts := [] |} in
  held ∅ (Linux.acts (exec (Linux.clocks_emulate def_timing 4096 3 (fun _ a => Some a) (File []) [] (repeat 0 16) None []) s))
  = Some ∅.
Proof.
  refine (proj1 (mappings_given_back def_timing 4096 3 (fun _ a => Some a) (File []) [] (repeat 0 16) None []
    {| Linux.dev := ram_fill 0; Linux.dmap := {| mfd := 0; page_size := 0 |}; Linux.acts := [] |} ∅ _)). reflexivity.
Defined.

(** The bytes written to set the speed are eight, the size of a pointer: the
    six digits and the end of the string, and for the emulation speed one
    byte of whatever follows the string in memory. *)
Lemma speed_bytes b after :
  take 8 (Linux.speed_emul ++ [0] ++ b :: after) = Linux.speed_emul ++ [0; b] /\
  take 8 (Linux.speed_norm ++ [0] ++ after) = Linux.speed_norm ++ [0].
Proof. done. Qed.
