(* ===== verification/Handshake.v ===== *)
(** Clocked stages with a valid/ready handshake (ip/sysc/sfifo_cc.h, sreg.h):
    the elements the accelerator models are wired from.

    A stage is a register-transfer model: outputs are functions of the state
    (and [ready] also of the consumer's ready), and [clock] is one rising edge
    with the reset inactive.  [StageOk] is what a stage promises to its
    neighbours: it holds the images of the data it accepted, in order, gives
    them out in that order and, when the consumer is ready, within [lat]
    cycles.  The order and liveness theorems are proved once against this
    interface, for the FIFO, the register slices and chains of stages. *)
From S2P Require Import Prelude.
Open Scope nat_scope.

(** * The interface *)

Class Stage (A B : Type) := {
  st : Type;
  do_reset : st -> st;                       (* rising edge with reset active *)
  ready : st -> bool -> bool;                (* s_port.ready, from m_port.ready *)
  valid : st -> bool;                        (* m_port.valid *)
  dout : st -> B;                            (* m_port.data *)
  clock : st -> bool -> A -> bool -> st      (* s_port.valid, s_port.data, m_port.ready *)
}.
Arguments st {A B} _.

(** With the consumer ready, [valid] comes within [n] cycles, whatever the
    producer does. *)
Inductive soon {A B} `{S : Stage A B} : nat -> st S -> Prop :=
  | soon_now n s : valid s = true -> soon n s
  | soon_later n s : (forall v a, soon n (clock s v a true)) -> soon (Datatypes.S n) s.

Class StageOk {A B} (S : Stage A B) (f : A -> B) := {
  shape : st S -> Prop;
  inv : st S -> Prop;
  contents : st S -> list B;
  cap : nat;
  lat : nat;
  ok_reset s : shape s -> inv (do_reset s) /\ contents (do_reset s) = [];
  ok_inv s v a r : inv s -> inv (clock s v a r);
  ok_valid s : inv s -> valid s = true -> head (contents s) = Some (dout s);
  ok_clock s v a r : inv s ->
    contents (clock s v a r)
    = (if valid s && r then tail (contents s) else contents s) ++ (if v && ready s r then [f a] else []);
  ok_cap s : inv s -> length (contents s) <= cap;
  ok_ready s : inv s -> valid s = false -> contents s = [] -> ready s true = true;
  ok_live s : inv s -> contents s <> [] -> soon lat s
}.

(** * Runs *)

Section Runs.
Context {A B : Type} {S : Stage A B} {f : A -> B} {SO : StageOk S f}.

(** A cycle of the environment: the producer's valid and data, the consumer's
    ready. *)
Definition cycle : Type := bool * A * bool.

(** The state after the cycles, the data accepted and the data given out. *)
Fixpoint run (s : st S) (cs : list cycle) : st S * list A * list B :=
  match cs with
  | [] => (s, [], [])
  | (v, a, r) :: cs =>
      let '(s', ins, outs) := run (clock s v a r) cs in
      (s', (if v && ready s r then [a] else []) ++ ins, (if valid s && r then [dout s] else []) ++ outs)
  end.

Lemma run_inv s cs : inv s -> inv (fst (fst (run s cs))).
Proof.
  revert s. induction cs as [|[[v a] r] cs IH]; intros s Hs; [done|].
  simpl. specialize (IH _ (ok_inv s v a r Hs)). by destruct (run _ cs) as [[??]?].
Qed.

Lemma contents_step s v a r :
  inv s ->
  (if valid s && r then [dout s] else []) ++ contents (clock s v a r)
  = contents s ++ (if v && ready s r then [f a] else []).
Proof.
  intros Hs. rewrite ok_clock by done. destruct (valid s) eqn:Hv, r; simpl; try done.
  apply ok_valid in Hv; [|done]. destruct (contents s); naive_solver.
Qed.

Lemma run_order s cs s' ins outs :
  inv s -> run s cs = (s', ins, outs) -> outs ++ contents s' = contents s ++ map f ins.
Proof.
  revert s s' ins outs. induction cs as [|[[v a] r] cs IH]; intros s s' ins outs Hs Hr; simpl in Hr.
  { injection Hr as <- <- <-. simpl. by rewrite app_nil_r. }
  destruct (run _ cs) as [[s1 ins1] outs1] eqn:E. injection Hr as <- <- <-.
  apply IH in E; [|by apply ok_inv].
  rewrite map_app, <- app_assoc, E, (app_assoc _ (contents _)), contents_step, <- !app_assoc by done.
  by destruct (v && ready s r).
Qed.

Lemma soon_run n s cs s' ins outs :
  inv s -> soon n s -> n < length cs -> Forall (fun c => snd c = true) cs -> run s cs = (s', ins, outs) ->
  outs <> [].
Proof.
  intros Hs Hn. revert cs s' ins outs Hs. induction Hn as [n s Hv|n s _ IH];
    intros [|[[v a] r] cs] s' ins outs Hs Hl Hr Hrun; simpl in Hl; try lia.
  all: apply Forall_cons in Hr as [Hr Hcs]; simpl in Hr; subst r; simpl in Hrun.
  all: destruct (run _ cs) as [[s1 ins1] outs1] eqn:E; injection Hrun as <- <- <-.
  - by rewrite Hv.
  - apply IH in E; [|by apply ok_inv|lia|done]. by destruct (valid s && true).
Qed.

Lemma run_app s cs1 cs2 :
  run s (cs1 ++ cs2)
  = let '(s1, i1, o1) := run s cs1 in let '(s2, i2, o2) := run s1 cs2 in (s2, i1 ++ i2, o1 ++ o2).
Proof.
  revert s. induction cs1 as [|[[v a] r] cs1 IH]; intros s; simpl.
  { by destruct (run s cs2) as [[??]?]. }
  rewrite IH. destruct (run _ cs1) as [[s1 i1] o1]. destruct (run s1 cs2) as [[??]?]. by rewrite !app_assoc.
Qed.

(** What the stage holds comes out within [lat + 1] cycles a datum. *)
Lemma run_drains n s cs s' ins outs :
  inv s -> n <= length (contents s) -> Forall (fun c => snd c = true) cs -> (lat + 1) * n <= length cs ->
  run s cs = (s', ins, outs) -> n <= length outs.
Proof.
  revert s cs s' ins outs. induction (lt_wf n) as [n _ IH]; intros s cs s' ins outs Hs Hn Hr Hl Hrun.
  destruct n as [|n]; [lia|]. assert (Hc : (lat + 1) * n + (lat + 1) <= length cs) by (rewrite Nat.mul_succ_r in Hl; lia). clear Hl.
  rewrite <- (take_drop (lat + 1) cs) in Hrun, Hr. apply Forall_app in Hr as [Hr1 Hr2].
  rewrite run_app in Hrun. destruct (run s (take _ cs)) as [[s1 i1] o1] eqn:E1.
  destruct (run s1 _) as [[s2 i2] o2] eqn:E2. injection Hrun as <- <- <-.
  pose proof (run_inv s (take (lat + 1) cs) Hs) as Hs1. rewrite E1 in Hs1. simpl in Hs1.
  pose proof (f_equal length (run_order _ _ _ _ _ Hs E1)) as Ho. rewrite !length_app, length_map in Ho.
  assert (Ho1 : o1 <> []).
  { eapply (soon_run lat s (take (lat + 1) cs)); [done|apply ok_live; [done|]|rewrite length_take; lia|done|done].
    intros E. rewrite E in Hn. simpl in Hn. lia. }
  destruct o1 as [|o o1]; [done|]. rewrite length_app. simpl in Ho |- *.
  enough (n - length o1 <= length o2) by lia.
  eapply (IH (n - length o1)); [lia|exact Hs1|lia|done|rewrite length_drop|exact E2].
  assert ((lat + 1) * (n - length o1) <= (lat + 1) * n) by (apply Nat.mul_le_mono_l; lia). lia.
Qed.
End Runs.

(** * The stream FIFO *)

Section Sfifo.
(** [T()], the index width and the depth, which the constructor checks. *)
Context {T : Type} (dflt : T) (IW : Z) (depth : nat).

Definition MAX_DEPTH : nat := Z.to_nat (2 ^ IW).

(* @src ip/sysc/sfifo_cc.h 43-50 sfifo_cc registers *)
Record sfifo_cc := { data : list T; rd_idx : Z; wr_idx : Z; full_i : bool; empty_i : bool }.

(* @src ip/sysc/sfifo_cc.h 60-60 mc_proc *)
Definition mc_data (s : sfifo_cc) : T := nth (Z.to_nat (rd_idx s)) (data s) dflt.
(* @src ip/sysc/sfifo_cc.h 62-62 mc_proc *)
Definition wr_en_i (s : sfifo_cc) (s_valid : bool) : bool := s_valid && negb (full_i s).
(* @src ip/sysc/sfifo_cc.h 63-63 mc_proc *)
Definition rd_en_i (s : sfifo_cc) (m_ready : bool) : bool := m_ready && negb (empty_i s).
(* @src ip/sysc/sfifo_cc.h 65-65 mc_proc *)
Definition s_ready (s : sfifo_cc) : bool := negb (full_i s).
(* @src ip/sysc/sfifo_cc.h 66-66 mc_proc *)
Definition m_valid (s : sfifo_cc) : bool := negb (empty_i s).

(** The successor of an index, held in [IW] bits. *)
(* @src ip/sysc/sfifo_cc.h 74-75 ms_proc *)
Definition inc (i : Z) : Z := wrap IW ((i + 1) mod Z.of_nat depth)%Z.

(** The rising edge: [rst] is whether the reset is active. *)
(* @src ip/sysc/sfifo_cc.h 69-99 ms_proc *)
Definition ms_proc (rst : bool) (s : sfifo_cc) (s_valid : bool) (s_data : T) (m_ready : bool) : sfifo_cc :=
  let wr_inc := inc (wr_idx s) in
  let rd_inc := inc (rd_idx s) in
  if rst then
    {| data := replicate depth dflt ++ drop depth (data s); rd_idx := 0; wr_idx := 0; full_i := false; empty_i := true |}
  else
    let wr_en := wr_en_i s s_valid in
    let rd_en := rd_en_i s m_ready in
    {| data := if wr_en then <[Z.to_nat (wr_idx s) := s_data]> (data s) else data s;
       rd_idx := if rd_en then rd_inc else rd_idx s;
       wr_idx := if wr_en then wr_inc else wr_idx s;
       full_i := if wr_en && negb rd_en && (wr_inc =? rd_idx s)%Z then true
                 else if rd_en && negb wr_en then false else full_i s;
       empty_i := if rd_en && negb wr_en && (rd_inc =? wr_idx s)%Z then true
                  else if wr_en && negb rd_en then false else empty_i s |}.

#[local] Instance sfifo_stage : Stage T T := {
  st := sfifo_cc;
  do_reset s := ms_proc true s false dflt false;
  ready s _ := s_ready s;
  valid := m_valid;
  dout := mc_data;
  clock := ms_proc false
}.

(** Number of elements, and the elements, oldest first: the window of the
    array that starts at [rd_idx], taken round the end. *)
Definition fill (s : sfifo_cc) : nat :=
  if full_i s then depth else Z.to_nat ((wr_idx s - rd_idx s) mod Z.of_nat depth)%Z.
Definition slot (i : Z) (k : nat) : nat := Z.to_nat ((i + Z.of_nat k) mod Z.of_nat depth)%Z.
Definition window (d : list T) (i : Z) (n : nat) : list T := map (fun k => nth (slot i k) d dflt) (seq 0 n).
Definition held (s : sfifo_cc) : list T := window (data s) (rd_idx s) (fill s).

Definition wf_sfifo (s : sfifo_cc) : Prop :=
  length (data s) = MAX_DEPTH /\ (0 <= rd_idx s < Z.of_nat depth)%Z /\ (0 <= wr_idx s < Z.of_nat depth)%Z /\
  (full_i s = true -> rd_idx s = wr_idx s /\ empty_i s = false) /\
  (empty_i s = true <-> rd_idx s = wr_idx s /\ full_i s = false).

Hypothesis depth_pos : 0 < depth.
Hypothesis depth_max : depth <= MAX_DEPTH.
Hypothesis IW_pos : (0 <= IW)%Z.

Lemma inc_eq i : inc i = ((i + 1) mod Z.of_nat depth)%Z.
Proof.
  unfold inc. unfold MAX_DEPTH in depth_max. apply wrap_id.
  pose proof (Z.mod_pos_bound (i + 1) (Z.of_nat depth)). unfold in_word. lia.
Qed.

Lemma window_pop d i n : window d i (S n) = nth (slot i 0) d dflt :: window d (inc i) n.
Proof.
  unfold window. cbn [seq map]. f_equal. rewrite <- seq_shift, map_map. apply map_ext. intros k. f_equal.
  unfold slot. rewrite inc_eq, Zplus_mod_idemp_l. do 2 f_equal. lia.
Qed.

Lemma slot_lt i k : slot i k < depth.
Proof. unfold slot. pose proof (Z.mod_pos_bound (i + Z.of_nat k) (Z.of_nat depth)). lia. Qed.

Lemma mod_eq_sub x y : (x mod Z.of_nat depth = y mod Z.of_nat depth -> (y - x) mod Z.of_nat depth = 0)%Z.
Proof. intros E. rewrite Zminus_mod, E, Z.sub_diag. apply Z.mod_0_l. lia. Qed.

Lemma fifo_slot_inj i k n : k < n -> n < depth -> slot i k <> slot i n.
Proof.
  intros Hk Hn. unfold slot. intros E.
  pose proof (Z.mod_pos_bound (i + Z.of_nat k) (Z.of_nat depth)). pose proof (Z.mod_pos_bound (i + Z.of_nat n) (Z.of_nat depth)).
  assert (E' : ((i + Z.of_nat k) mod Z.of_nat depth = (i + Z.of_nat n) mod Z.of_nat depth)%Z) by lia.
  assert (Hd : ((Z.of_nat n - Z.of_nat k) mod Z.of_nat depth = 0)%Z).
  { apply mod_eq_sub in E'. rewrite <- E'. f_equal. lia. }
  rewrite Z.mod_small in Hd; lia.
Qed.

Lemma window_push d i n a :
  n < depth -> length d = MAX_DEPTH -> window (<[slot i n := a]> d) i (S n) = window d i n ++ [a].
Proof.
  intros Hn Hd. unfold window. rewrite seq_S, map_app. cbn [map]. f_equal.
  - apply map_ext_in. intros k Hk. apply in_seq in Hk.
    rewrite !nth_lookup, list_lookup_insert_ne by (intros E; apply (fifo_slot_inj i k n); [lia..|done]). done.
  - rewrite nth_lookup, list_lookup_insert_eq; [done|]. pose proof (slot_lt i n). lia.
Qed.

(** The fill level, and how the indices determine it. *)
Lemma slot_fill s : wf_sfifo s -> slot (rd_idx s) (fill s) = Z.to_nat (wr_idx s).
Proof.
  intros (_ & Hr & Hw & Hf & _). unfold slot, fill. destruct (full_i s).
  - destruct (Hf eq_refl) as [<- _]. f_equal. rewrite <- Zplus_mod_idemp_r, Z.mod_same, Z.add_0_r by lia. by apply Z.mod_small.
  - f_equal. pose proof (Z.mod_pos_bound (wr_idx s - rd_idx s) (Z.of_nat depth)).
    rewrite Z2Nat.id, Zplus_mod_idemp_r by lia. replace (rd_idx s + (wr_idx s - rd_idx s))%Z with (wr_idx s) by lia. by apply Z.mod_small.
Qed.

Lemma fill_le s : wf_sfifo s -> fill s <= depth /\ (full_i s = false -> fill s < depth) /\ (empty_i s = true <-> fill s = 0).
Proof.
  intros (_ & Hr & Hw & Hf & He). unfold fill. pose proof (Z.mod_pos_bound (wr_idx s - rd_idx s) (Z.of_nat depth)) as Hb.
  destruct (full_i s) eqn:E; [split_and!; [lia|done|destruct (Hf eq_refl) as [_ ->]; split; [done|lia]]|].
  split_and!; [lia|lia|]. split; intros H.
  - apply He in H as [-> _]. by rewrite Z.sub_diag, Z.mod_0_l by lia.
  - apply He. split; [|done]. clear He Hf.
    assert (Hz : ((wr_idx s - rd_idx s) mod Z.of_nat depth = 0)%Z) by lia.
    destruct (Z.lt_trichotomy (rd_idx s) (wr_idx s)) as [Hlt|[Heq|Hgt]]; [|done|].
    + rewrite Z.mod_small in Hz; lia.
    + rewrite <- (Z_mod_plus_full _ 1), Z.mod_small in Hz; lia.
Qed.

Lemma dist_inc_l r w : ((inc w - r) mod Z.of_nat depth = ((w - r) mod Z.of_nat depth + 1) mod Z.of_nat depth)%Z.
Proof. rewrite inc_eq, Zminus_mod_idemp_l, Zplus_mod_idemp_l. f_equal. lia. Qed.

Lemma dist_inc_r r w : ((w - inc r) mod Z.of_nat depth = ((w - r) mod Z.of_nat depth - 1) mod Z.of_nat depth)%Z.
Proof. rewrite inc_eq, Zminus_mod_idemp_r, Zminus_mod_idemp_l. f_equal. lia. Qed.

Lemma inc_range i : (0 <= inc i < Z.of_nat depth)%Z.
Proof. rewrite inc_eq. apply Z.mod_pos_bound. lia. Qed.

(** Equal indices, in terms of the distance. *)
Lemma dist_0 r w :
  (0 <= r < Z.of_nat depth)%Z -> (0 <= w < Z.of_nat depth)%Z -> ((w - r) mod Z.of_nat depth = 0 <-> w = r)%Z.
Proof.
  intros Hr Hw. split; [|intros ->; rewrite Z.sub_diag; apply Z.mod_0_l; lia]. intros Hz.
  destruct (Z.lt_trichotomy r w) as [Hlt|[Heq|Hgt]]; [|done|].
  - rewrite Z.mod_small in Hz; lia.
  - rewrite <- (Z_mod_plus_full _ 1), Z.mod_small in Hz; lia.
Qed.

Lemma wf_ms_proc s v a r : wf_sfifo s -> wf_sfifo (ms_proc false s v a r).
Proof.
  intros (Hl & Hr & Hw & Hf & He). pose proof (inc_range (rd_idx s)). pose proof (inc_range (wr_idx s)).
  assert (Hri : rd_idx s = wr_idx s -> inc (rd_idx s) = inc (wr_idx s)) by congruence.
  assert (Hir : inc (rd_idx s) = inc (wr_idx s) -> rd_idx s = wr_idx s).
  { intros E. rewrite !inc_eq in E. symmetry. apply dist_0; [done..|]. apply mod_eq_sub in E. rewrite <- E. f_equal. lia. }
  unfold wf_sfifo, ms_proc, wr_en_i, rd_en_i. cbn [data rd_idx wr_idx full_i empty_i].
  destruct v, r, (full_i s) eqn:Ef, (empty_i s) eqn:Ee; cbn [andb negb];
    try (destruct (Hf eq_refl); congruence);
    rewrite ?length_insert; split_and!; try done; try lia;
    repeat match goal with |- context [Z.eqb ?x ?y] => destruct (Z.eqb_spec x y) end; intuition congruence.
Qed.
(** The fill level after a clock edge. *)
Lemma fill_ms_proc s v a r :
  wf_sfifo s ->
  fill (ms_proc false s v a r)
  = fill s + (if wr_en_i s v then 1 else 0) - (if rd_en_i s r then 1 else 0).
Proof.
  intros Hwf. pose proof (fill_le s Hwf) as (Hle & Hlt & He). destruct Hwf as (Hl & Hr & Hw & Hf & Hem).
  pose proof (dist_inc_l (rd_idx s) (wr_idx s)) as Hi. pose proof (dist_inc_r (rd_idx s) (wr_idx s)) as Hd.
  pose proof (dist_inc_l (inc (rd_idx s)) (wr_idx s)) as Hb.
  pose proof (Z.mod_pos_bound (wr_idx s - rd_idx s) (Z.of_nat depth)) as Hm.
  pose proof (dist_0 _ _ Hr Hw) as H0. pose proof (dist_0 _ _ Hr (inc_range (wr_idx s))) as H1.
  assert (Hwe : wr_en_i s v = true -> full_i s = false) by (unfold wr_en_i; destruct v, (full_i s); done).
  assert (Hre : rd_en_i s r = true -> empty_i s = false) by (unfold rd_en_i; destruct r, (empty_i s); done).
  unfold fill in *. unfold ms_proc. cbn [data rd_idx wr_idx full_i empty_i].
  set (m := ((wr_idx s - rd_idx s) mod Z.of_nat depth)%Z) in *.
  destruct (wr_en_i s v), (rd_en_i s r); cbn [andb negb]; try lia.
  - rewrite (Hwe eq_refl), Hb, Hd, Zplus_mod_idemp_l, Z.sub_add. unfold m. rewrite Zmod_mod. lia.
  - rewrite (Hwe eq_refl) in *. specialize (Hlt eq_refl). destruct (Z.eqb_spec (inc (wr_idx s)) (rd_idx s)) as [E|E].
    + apply H1 in E. rewrite Hi in E. destruct (decide (m + 1 = Z.of_nat depth)%Z); [lia|].
      rewrite Z.mod_small in E; lia.
    + assert (E' : ((inc (wr_idx s) - rd_idx s) mod Z.of_nat depth <> 0)%Z) by (by rewrite H1). rewrite Hi in E' |- *.
      destruct (decide (m + 1 = Z.of_nat depth)%Z) as [E2|]; [by rewrite E2, Z.mod_same in E' by lia|].
      rewrite Z.mod_small; lia.
  - rewrite (Hre eq_refl) in *. rewrite Hd. destruct (full_i s) eqn:Ef.
    + destruct (Hf eq_refl) as [E _]. assert (Hz : m = 0%Z) by (apply H0; congruence). rewrite Hz.
      rewrite <- (Z_mod_plus_full _ 1), Z.mod_small; lia.
    + assert (m <> 0%Z) by (intros Hz; apply H0 in Hz; enough (false = true) by done; apply Hem; auto).
      rewrite Z.mod_small; lia.
  - subst m. lia.
Qed.

Lemma held_ms_proc s v a r :
  wf_sfifo s ->
  held (ms_proc false s v a r)
  = (if rd_en_i s r then tail (held s) else held s) ++ (if wr_en_i s v then [a] else []).
Proof.
  intros Hwf. unfold held. rewrite fill_ms_proc by done.
  pose proof (fill_le s Hwf) as (Hle & Hlt & He). pose proof (slot_fill s Hwf) as Hs.
  assert (Hwe : wr_en_i s v = true -> full_i s = false) by (unfold wr_en_i; destruct v, (full_i s); done).
  assert (Hre : rd_en_i s r = true -> fill s <> 0)
    by (unfold rd_en_i; intros H E; apply He in E; by rewrite E, andb_false_r in H).
  pose proof (window_push (data s) (rd_idx s) (fill s) a) as Hp. rewrite Hs in Hp. destruct Hwf as (Hl & _).
  unfold ms_proc. cbn [data rd_idx].
  destruct (wr_en_i s v), (rd_en_i s r); rewrite ?app_nil_r, ?Nat.add_0_r, ?Nat.sub_0_r; try done.
  all: try specialize (Hlt (Hwe eq_refl)); try specialize (Hp Hlt Hl); try specialize (Hre eq_refl).
  - destruct (fill s) as [|n]; [done|]. rewrite Nat.add_sub, (window_pop (data s)). cbn [tail].
    rewrite window_pop, (window_pop (data s)) in Hp. cbn [app] in Hp. by injection Hp.
  - by rewrite Nat.add_1_r.
  - destruct (fill s) as [|n]; [done|]. simpl (S n - 1). rewrite Nat.sub_0_r. by rewrite (window_pop _ _ n).
Qed.

#[local, refine] Instance sfifo_ok : StageOk sfifo_stage id := {
  shape s := length (data s) = MAX_DEPTH;
  inv := wf_sfifo;
  contents := held;
  cap := depth;
  lat := 0
}.
Proof.
  - intros s Hs. simpl in *. split; [|unfold held, fill; simpl; by rewrite Z.mod_0_l by lia].
    unfold wf_sfifo. simpl. rewrite length_app, length_replicate, length_drop. split_and!; try done; lia.
  - intros. by apply wf_ms_proc.
  - intros s Hwf Hv. pose proof (fill_le s Hwf) as (_ & _ & He). simpl in Hv. unfold m_valid in Hv. unfold held.
    destruct (fill s) as [|n]; [by rewrite (proj2 He eq_refl) in Hv|].
    rewrite window_pop. simpl. unfold mc_data, slot. rewrite Z.add_0_r, Z.mod_small; [done|apply Hwf].
  - intros s v a r Hwf. etrans; [apply (held_ms_proc s v a r Hwf)|]. unfold rd_en_i. simpl. by rewrite (andb_comm r).
  - intros s Hwf. unfold held, window. rewrite length_map, length_seq. apply fill_le in Hwf. lia.
  - intros s Hwf Hv Hc. pose proof (fill_le s Hwf) as (_ & _ & He). simpl in *. unfold m_valid, s_ready in *.
    destruct Hwf as (_ & _ & _ & Hf & _). destruct (full_i s); [|done]. destruct (Hf eq_refl) as [_ E]. by rewrite E in Hv.
  - intros s Hwf Hc. apply soon_now. simpl. unfold m_valid. pose proof (fill_le s Hwf) as (_ & _ & He).
    destruct (empty_i s); [|done]. unfold held in Hc. by rewrite (proj1 He eq_refl) in Hc.
Defined.
End Sfifo.
(** * Register slices *)

Module sreg.
Section Fwd.
Context {T : Type} (dflt : T).

(** The output register [m_port.data] and [c_valid]. *)
(* @src ip/sysc/sreg.h 75-80 sreg FWD *)
Record FWD := { m_data : T; c_valid : bool }.

(* @src ip/sysc/sreg.h 82-86 mc_proc *)
Definition mc_ready (s : FWD) (m_ready : bool) : bool := m_ready || negb (c_valid s).

(* @src ip/sysc/sreg.h 88-99 ms_proc *)
Definition ms_FWD (rst : bool) (s : FWD) (s_valid : bool) (s_data : T) (m_ready : bool) : FWD :=
  if rst then {| m_data := dflt; c_valid := false |}
  else if m_ready || negb (c_valid s) then {| m_data := s_data; c_valid := s_valid |}
  else s.

#[local] Instance fwd_stage : Stage T T := {
  st := FWD;
  do_reset s := ms_FWD true s false dflt false;
  ready := mc_ready;
  valid := c_valid;
  dout := m_data;
  clock := ms_FWD false
}.

#[local, refine] Instance fwd_ok : StageOk fwd_stage id := {
  shape _ := True;
  inv _ := True;
  contents s := if c_valid s then [m_data s] else [];
  cap := 1;
  lat := 0
}.
Proof.
  - done.
  - done.
  - intros [m []]; done.
  - intros [m []] [] a []; done.
  - intros [m []]; simpl; lia.
  - intros [m []]; done.
  - intros [m []] _ H; simpl in *; [by apply soon_now|done].
Defined.
End Fwd.

(** The two-entry slice is the logic of the stream FIFO at depth two. *)
(* @src ip/sysc/sreg.h 115-195 sreg FWD_REV *)
Definition FWD_REV {T : Type} (dflt : T) : Stage T T := sfifo_stage dflt 1 2.
End sreg.

(** * Chains *)

Section Chain.
Context {A B C : Type} {S1 : Stage A B} {S2 : Stage B C} {f1 : A -> B} {f2 : B -> C}.
Context {O1 : StageOk S1 f1} {O2 : StageOk S2 f2}.

(** Two stages sharing a channel. *)
Definition chain : Stage A C := {|
  st := st S1 * st S2;
  do_reset '(s1, s2) := (do_reset s1, do_reset s2);
  ready '(s1, s2) r := ready s1 (ready s2 r);
  valid '(s1, s2) := valid s2;
  dout '(s1, s2) := dout s2;
  clock '(s1, s2) v a r := (clock s1 v a (ready s2 r), clock s2 (valid s1) (dout s1) r)
|}.

Lemma chain_soon2 n (s1 : st S1) (s2 : st S2) : soon n s2 -> soon (S := chain) n (s1, s2).
Proof. intros H. revert s1. induction H as [n s2 Hv|n s2 _ IH]; intros s1; [by apply soon_now|]. apply soon_later. intros v a. apply IH. Qed.

Lemma soon_weaken {X Y} {S : Stage X Y} n m (s : st S) : soon n s -> n <= m -> soon m s.
Proof.
  intros H. revert m. induction H as [n s Hv|n s _ IH]; intros m Hm; [by apply soon_now|].
  destruct m as [|m]; [lia|]. apply soon_later. intros v a. apply IH. lia.
Qed.

(** While the second stage is empty it accepts, so the first one proceeds. *)
Lemma chain_soon1 n (s1 : st S1) (s2 : st S2) :
  inv s1 -> inv s2 -> soon n s1 -> soon (S := chain) (n + 1 + @lat _ _ _ _ O2) (s1, s2).
Proof.
  intros Hs1 Hs2 H. revert s2 Hs1 Hs2. induction H as [n s1 Hv|n s1 _ IH]; intros s2 Hs1 Hs2.
  all: destruct (contents s2) as [|c l] eqn:E; [|apply chain_soon2; eapply soon_weaken; [apply ok_live; [done|by rewrite E]|lia]].
  all: destruct (valid s2) eqn:Ev2; [by apply soon_now|].
  all: pose proof (ok_ready s2 Hs2 Ev2 E) as Hr.
  - rewrite Nat.add_1_r. simpl.
    apply (soon_later (S := chain)). intros v a. simpl. rewrite Hr. apply chain_soon2.
    eapply soon_weaken; [apply ok_live; [by apply ok_inv|]|lia].
    rewrite ok_clock by done. rewrite Hv, Ev2, Hr, E. done.
  - simpl. apply (soon_later (S := chain)). intros v a. simpl. rewrite Hr. apply IH; by apply ok_inv.
Qed.

#[local, refine] Instance chain_ok : StageOk chain (f2 ∘ f1) := {
  shape '(s1, s2) := shape s1 /\ shape s2;
  inv '(s1, s2) := inv s1 /\ inv s2;
  contents '(s1, s2) := contents s2 ++ map f2 (contents s1);
  cap := cap (StageOk := O1) + cap (StageOk := O2);
  lat := lat (StageOk := O1) + 1 + lat (StageOk := O2)
}.
Proof.
  - intros [s1 s2] [H1 H2]. apply ok_reset in H1 as [? H1], H2 as [? H2]. simpl. by rewrite H1, H2.
  - intros [s1 s2] v a r [H1 H2]. simpl. split; by apply ok_inv.
  - intros [s1 s2] [H1 H2] Hv. simpl in *. pose proof (ok_valid s2 H2 Hv) as Hh. by destruct (contents s2).
  - intros [s1 s2] v a r [H1 H2]. simpl. rewrite !ok_clock by done.
    assert (Hne : valid s2 = true -> contents s2 <> []) by (intros Hv E; apply (ok_valid s2 H2) in Hv; by rewrite E in Hv).
    assert (Ht : (if valid s2 && r then tail (contents s2) else contents s2) ++ map f2 (contents s1)
                 = if valid s2 && r then tail (contents s2 ++ map f2 (contents s1)) else contents s2 ++ map f2 (contents s1)).
    { destruct (valid s2), r; simpl; try done. specialize (Hne eq_refl). by destruct (contents s2). }
    rewrite <- Ht, map_app, <- !app_assoc. f_equal.
    assert (Hi : map f2 (if v && ready s1 (ready s2 r) then [f1 a] else []) = if v && ready s1 (ready s2 r) then [f2 (f1 a)] else [])
      by (by destruct (v && ready s1 (ready s2 r))).
    rewrite Hi, app_assoc. f_equal. destruct (valid s1) eqn:Ev; [|done]. apply (ok_valid s1 H1) in Ev.
    destruct (contents s1) as [|b l]; [done|]. injection Ev as ->. by destruct (ready s2 r).
  - intros [s1 s2] [H1 H2]. simpl. rewrite length_app, length_map. apply ok_cap in H1, H2. lia.
  - intros [s1 s2] [H1 H2] Hv Hc. simpl in *. apply app_eq_nil in Hc as [Hc2 Hc1]. apply map_eq_nil in Hc1.
    rewrite (ok_ready s2) by done. destruct (valid s1) eqn:Ev; [|by apply ok_ready].
    apply (ok_valid s1 H1) in Ev. by rewrite Hc1 in Ev.
  - intros [s1 s2] [H1 H2] Hc. simpl in Hc. destruct (decide (contents s1 = [])) as [E|E].
    + apply chain_soon2. eapply soon_weaken; [apply ok_live; [done|]|lia]. rewrite E in Hc. simpl in Hc. by rewrite app_nil_r in Hc.
    + apply chain_soon1; [done..|]. by apply ok_live.
Defined.
End Chain.

(** * From reset *)

Section Reset.
Context {A B : Type} {S : Stage A B} {f : A -> B} {SO : StageOk S f}.

Lemma reset_order s cs s' ins outs :
  shape s -> run (do_reset s) cs = (s', ins, outs) ->
  inv s' /\ outs ++ contents s' = map f ins /\ length (contents s') <= cap.
Proof.
  intros Hs Hr. apply ok_reset in Hs as [Hi Hc]. pose proof (run_inv _ cs Hi) as Hi'. rewrite Hr in Hi'. simpl in Hi'.
  pose proof (run_order _ _ _ _ _ Hi Hr) as Ho. rewrite Hc in Ho. split_and!; [done|done|by apply ok_cap].
Qed.

Lemma reset_drains s cs cs2 s' ins outs s2 ins2 outs2 :
  shape s -> run (do_reset s) cs = (s', ins, outs) ->
  Forall (fun c => snd c = true) cs2 -> (lat + 1) * cap <= length cs2 -> run s' cs2 = (s2, ins2, outs2) ->
  exists rest, outs ++ outs2 = map f ins ++ rest.
Proof.
  intros Hs Hr Hrd Hl Hr2. destruct (reset_order _ _ _ _ _ Hs Hr) as (Hi & Ho & Hc).
  assert (Hn : length (contents s') <= length outs2).
  { eapply (run_drains (length (contents s')) s' cs2); [done..| |exact Hr2].
    etrans; [|exact Hl]. by apply Nat.mul_le_mono_l. }
  pose proof (run_order _ _ _ _ _ Hi Hr2) as Ho2. exists (drop (length (contents s')) outs2).
  rewrite <- Ho, <- app_assoc. f_equal. rewrite <- (take_drop (length (contents s')) outs2) at 1. f_equal.
  rewrite <- (take_app_le outs2 (contents s2)), Ho2, take_app_le, take_ge by done. done.
Qed.
End Reset.

(** * Theorems *)

(** C21: a FIFO of any depth its index width allows, whatever its registers held
    before the reset, gives out exactly the words it accepted, in order, with
    at most [depth] words in between; it is ready exactly when it holds fewer
    than that and valid exactly when it holds any. *)
Theorem sfifo_order {T} (dflt : T) IW depth s cs s' ins outs :
  0 < depth -> depth <= MAX_DEPTH IW -> (0 <= IW)%Z -> length (data s) = MAX_DEPTH IW ->
  run (S := sfifo_stage dflt IW depth) (do_reset (Stage := sfifo_stage dflt IW depth) s) cs = (s', ins, outs) ->
  outs ++ held dflt depth s' = ins /\ length (held dflt depth s') <= depth /\
  (s_ready s' = true <-> length (held dflt depth s') < depth) /\
  (m_valid s' = true <-> held dflt depth s' <> []).
Proof.
  intros Hd Hm HI Hs Hr. pose (O := sfifo_ok dflt IW depth Hd Hm HI).
  destruct (reset_order (SO := O) s cs s' ins outs Hs Hr) as (Hi & Ho & Hc). simpl in Hi, Ho, Hc.
  rewrite map_id in Ho. pose proof (fill_le IW depth Hd Hm s' Hi) as (_ & Hlt & He).
  assert (Hl : length (held dflt depth s') = fill depth s') by (unfold held, window; by rewrite length_map, length_seq).
  split_and!; [done|done| |].
  - rewrite Hl. unfold s_ready. destruct (full_i s') eqn:Ef; [|split; [intros; by apply Hlt|done]].
    unfold fill. rewrite Ef. simpl. split; [done|lia].
  - rewrite <- Hl, length_zero_iff_nil in He. unfold m_valid. destruct (empty_i s'); simpl; split; try done.
    + intros Hh. destruct (Hh (proj1 He eq_refl)).
    + intros _ E. by apply He in E.
Qed.

Definition fifo_cycles : list (@cycle nat) :=
  [(true, 7, false); (true, 8, false); (true, 9, false); (false, 0, true); (true, 9, true); (true, 10, false)].
Definition power_up : sfifo_cc := {| data := [0; 0]; rd_idx := 1; wr_idx := 0; full_i := true; empty_i := true |}.

Lemma sfifo_order_witness :
  let S := sfifo_stage 0 1 2 in
  let '(s', ins, outs) := run (S := S) (do_reset (Stage := S) power_up) fifo_cycles in
  ins = [7; 8; 9; 10] /\ outs = [7; 8] /\ outs ++ held 0 2 s' = ins /\ length (held 0 2 s') <= 2 /\
  (s_ready s' = true <-> length (held 0 2 s') < 2) /\ (m_valid s' = true <-> held 0 2 s' <> []).
Proof.
  assert (Hm : 2 <= MAX_DEPTH 1) by (vm_compute; lia).
  split; [reflexivity|split; [reflexivity|]].
  apply (sfifo_order 0 1 2 power_up fifo_cycles); [lia|exact Hm|lia|reflexivity..].
Defined.

(** The register slices, from any registers: words come out in the order they
    came in, with at most one (FWD) or two (FWD_REV) in between. *)
Theorem slices_order {T} (dflt : T) (s : sreg.FWD) (s2 : sfifo_cc) cs s' s2' ins outs ins2 outs2 :
  length (data s2) = 2 ->
  run (S := sreg.fwd_stage dflt) (do_reset (Stage := sreg.fwd_stage dflt) s) cs = (s', ins, outs) ->
  run (S := sreg.FWD_REV dflt) (do_reset (Stage := sreg.FWD_REV dflt) s2) cs = (s2', ins2, outs2) ->
  outs ++ (if sreg.c_valid s' then [sreg.m_data s'] else []) = ins /\
  exists rest, outs2 ++ rest = ins2 /\ length rest <= 2.
Proof.
  intros H2 R1 R2. assert (HM : 2 <= MAX_DEPTH 1) by (vm_compute; lia).
  destruct (reset_order (SO := sreg.fwd_ok dflt) s cs s' ins outs I R1) as (_ & O1 & _).
  destruct (reset_order (S := sfifo_stage dflt 1 2) (SO := sfifo_ok dflt 1 2 ltac:(lia) HM ltac:(lia)) s2 cs s2' ins2 outs2 H2 R2) as (_ & O2 & C2).
  rewrite map_id in O1, O2. split; [exact O1|]. eexists. by split; [exact O2|].
Qed.

Lemma slices_order_witness :
  let S := sreg.fwd_stage 0 in
  let '(s', ins, outs) := run (S := S) (do_reset (Stage := S) {| sreg.m_data := 4; sreg.c_valid := true |}) fifo_cycles in
  ins = [7; 9] /\ outs ++ (if sreg.c_valid s' then [sreg.m_data s'] else []) = ins.
Proof.
  intros S. destruct (run _ fifo_cycles) as [[s' ins] outs] eqn:E.
  split; [by vm_compute in E; injection E as _ <- <-|].
  exact (proj1 (slices_order 0 {| sreg.m_data := 4; sreg.c_valid := true |} power_up fifo_cycles s' _ ins outs _ _ eq_refl E eq_refl)).
Defined.
