(* ===== verification/Channels.v ===== *)
(** Stream channels and their blocking calls (ip/sysc/sc_stream.h, sc_rvd.h),
    the ready/valid FIFO (fifo_cc.h, rvfifo_cc.h) and the pulse generator
    (pulse.h).

    sc_stream_imp.h builds the accelerator models in two ways: for simulation
    with [sc_stream] channels and [sfifo_cc], for synthesis with [sc_rvd]
    channels and [rvfifo_cc].  [StreamCalls] is what the blocking calls of both
    promise; a producer and a consumer thread around any handshake stage of
    [Handshake] are proved correct against it.  A clocked thread is modelled by
    what it does at a rising edge: it reads the values signals had before the
    edge, and what it writes is seen after it. *)
From S2P Require Import Prelude Handshake.
Open Scope nat_scope.

(** * Stages that behave as another *)

Section Simulated.
Context {A B : Type} {S S' : Stage A B} {f : A -> B} {SO : StageOk S f}.
Context (p : st S' -> st S) (shape' : st S' -> Prop).
Hypothesis p_shape : forall s, shape' s -> shape (p s).
Hypothesis p_reset : forall s, p (do_reset s) = do_reset (p s).
Hypothesis p_clock : forall s v a r, p (clock s v a r) = clock (p s) v a r.
Hypothesis p_ready : forall s r, ready s r = ready (p s) r.
Hypothesis p_valid : forall s, valid s = valid (p s).
Hypothesis p_dout : forall s, dout s = dout (p s).

Lemma simulated_soon n s : soon n (p s) -> soon n s.
Proof.
  intros H. remember (p s) as t eqn:E. revert s E. induction H as [n t Hv|n t _ IH]; intros s ->.
  - apply soon_now. by rewrite p_valid.
  - apply soon_later. intros v a. apply (IH v a). symmetry. apply p_clock.
Qed.

#[refine] Instance simulated : StageOk S' f := {
  shape := shape';
  inv s := inv (p s);
  contents s := contents (p s);
  cap := cap;
  lat := lat
}.
Proof.
  - intros s Hs. rewrite p_reset. by apply ok_reset, p_shape.
  - intros s v a r Hs. rewrite p_clock. by apply ok_inv.
  - intros s Hs. rewrite p_valid, p_dout. by apply ok_valid.
  - intros s v a r Hs. rewrite p_clock, p_valid, p_ready. by apply ok_clock.
  - intros s. apply ok_cap.
  - intros s. rewrite p_valid, p_ready. apply ok_ready.
  - intros s Hs Hc. by apply simulated_soon, ok_live.
Defined.

(** Both answer every cycle alike. *)
Lemma simulated_run s cs :
  let '(s', ins, outs) := run s cs in run (p s) cs = (p s', ins, outs).
Proof.
  revert s. induction cs as [|[[v a] r] cs IH]; intros s; [done|].
  cbn [run]. specialize (IH (clock s v a r)). rewrite p_clock in IH.
  destruct (run (clock s v a r) cs) as [[s' ins] outs].
  by rewrite IH, p_ready, p_valid, p_dout.
Qed.
End Simulated.

(** * The FIFO with a common clock *)

Module fifo_cc.
Section Fifo.
(** [T()], the index width, first word fall through, the levels at which the
    reset and the flags are active, and the depth. *)
Context {T : Type} (dflt : T) (IW : Z) (FWFT RLEV FLEV : bool) (depth : nat).

(** The registers; [q] is [dout] where it is one, without fall through. *)
(* @src ip/sysc/fifo_cc.h 50-61 fifo_cc *)
Record regs := { q : T; data : list T; rd_idx : Z; wr_idx : Z; full_i : bool; empty_i : bool }.

(* @src ip/sysc/fifo_cc.h 123-126 fifo_cc *)
Definition size_refused (size_ : Z) : bool := ((size_ <=? 0) || (2 ^ IW <? size_))%Z.

(* @src ip/sysc/fifo_cc.h 71-73 mc_proc *)
Definition dout (s : regs) : T := if FWFT then nth (Z.to_nat (rd_idx s)) (data s) dflt else q s.
(* @src ip/sysc/fifo_cc.h 75-75 mc_proc *)
Definition wr_en_i (s : regs) (wr_en : bool) : bool := wr_en && negb (full_i s).
(* @src ip/sysc/fifo_cc.h 76-76 mc_proc *)
Definition rd_en_i (s : regs) (rd_en : bool) : bool := rd_en && negb (empty_i s).
(* @src ip/sysc/fifo_cc.h 78-78 mc_proc *)
Definition full (s : regs) : bool := Bool.eqb (full_i s) FLEV.
(* @src ip/sysc/fifo_cc.h 79-79 mc_proc *)
Definition empty (s : regs) : bool := Bool.eqb (empty_i s) FLEV.

(** Data are read and written with the registers' values before the edge. *)
(* @src ip/sysc/fifo_cc.h 82-116 ms_proc *)
Definition ms_proc (reset : bool) (s : regs) (wr_en : bool) (din : T) (rd_en : bool) : regs :=
  let wr_inc := inc IW depth (wr_idx s) in
  let rd_inc := inc IW depth (rd_idx s) in
  if Bool.eqb reset RLEV then
    {| q := if FWFT then q s else dflt; data := replicate depth dflt ++ drop depth (data s);
       rd_idx := 0; wr_idx := 0; full_i := false; empty_i := true |}
  else
    let wr := wr_en_i s wr_en in
    let rd := rd_en_i s rd_en in
    {| q := if negb FWFT && rd then nth (Z.to_nat (rd_idx s)) (data s) dflt else q s;
       data := if wr then <[Z.to_nat (wr_idx s) := din]> (data s) else data s;
       rd_idx := if rd then rd_inc else rd_idx s;
       wr_idx := if wr then wr_inc else wr_idx s;
       full_i := if wr && negb rd && (wr_inc =? rd_idx s)%Z then true
                 else if rd && negb wr then false else full_i s;
       empty_i := if rd && negb wr && (rd_inc =? wr_idx s)%Z then true
                  else if wr && negb rd then false else empty_i s |}.

(** The registers it shares with the stream FIFO. *)
Definition core (s : regs) : sfifo_cc :=
  {| Handshake.data := data s; Handshake.rd_idx := rd_idx s; Handshake.wr_idx := wr_idx s;
     Handshake.full_i := full_i s; Handshake.empty_i := empty_i s |}.

Lemma core_ms_proc reset s v a r :
  core (ms_proc reset s v a r) = Handshake.ms_proc dflt IW depth (Bool.eqb reset RLEV) (core s) v a r.
Proof. unfold ms_proc. by destruct (Bool.eqb reset RLEV). Qed.

(** A cycle out of reset. *)
Lemma core_clock s v a r :
  core (ms_proc (negb RLEV) s v a r) = Handshake.ms_proc dflt IW depth false (core s) v a r.
Proof. rewrite core_ms_proc. by destruct RLEV. Qed.

(** The environment of the plain ports: write enable and data, read enable.
    Results: the words written, and the word on [dout] in the cycle after
    each read. *)
Fixpoint trace (s : regs) (cs : list (bool * T * bool)) : regs * list T * list T :=
  match cs with
  | [] => (s, [], [])
  | (v, a, r) :: cs =>
      let s1 := ms_proc (negb RLEV) s v a r in
      let '(s', ins, outs) := trace s1 cs in
      (s', (if v && Bool.eqb (full s) (negb FLEV) then [a] else []) ++ ins,
       (if r && Bool.eqb (empty s) (negb FLEV) then [dout s1] else []) ++ outs)
  end.
End Fifo.
End fifo_cc.

(** The ready/valid FIFO: the common clock FIFO with fall through and flags
    active low, so that the inverted flags are [ready] and [valid]. *)
Module rvfifo_cc.
Section Rvfifo.
Context {T : Type} (dflt : T) (IW : Z) (RLEV : bool) (depth : nat).

(* @src ip/sysc/rvfifo_cc.h 46-53 rvfifo_cc *)
Definition rvfifo_cc : Stage T T := {|
  st := fifo_cc.regs;
  do_reset s := fifo_cc.ms_proc dflt IW true RLEV depth RLEV s false dflt false;
  ready s _ := fifo_cc.full false s;
  valid := fifo_cc.empty false;
  dout := fifo_cc.dout dflt true;
  clock := fifo_cc.ms_proc dflt IW true RLEV depth (negb RLEV)
|}.

Context (Hd : 0 < depth) (Hm : depth <= MAX_DEPTH IW) (HI : (0 <= IW)%Z).

Lemma flag_low b : Bool.eqb b false = negb b.
Proof. by destruct b. Qed.

Definition rvfifo_ok : StageOk rvfifo_cc id.
Proof using Hd Hm HI.
  refine (simulated (S := sfifo_stage dflt IW depth) (SO := sfifo_ok dflt IW depth Hd Hm HI) (S' := rvfifo_cc)
            fifo_cc.core (fun s => length (fifo_cc.data s) = MAX_DEPTH IW) _ _ _ _ _ _).
  - done.
  - intros s. simpl. rewrite fifo_cc.core_ms_proc. by destruct RLEV.
  - intros s v a r. apply fifo_cc.core_clock.
  - intros s r. apply flag_low.
  - intros s. apply flag_low.
  - done.
Defined.
End Rvfifo.
End rvfifo_cc.

(** * Blocking calls *)

(** The signals of a channel. *)
(* @src ip/sysc/sc_stream.h 134-136 sc_stream *)
Record sc_stream (T : Type) := { data_r : T; valid_r : bool; ready_r : bool }.
Arguments data_r {T}.
Arguments valid_r {T}.
Arguments ready_r {T}.

(** The calls, in the parts a clocked thread runs in one activation: from the
    call to its [wait()], the test after each [wait()], and the return. *)
Class StreamCalls (T : Type) := {
  read_call : sc_stream T -> sc_stream T;
  read_waits : sc_stream T -> bool;
  read_return : sc_stream T -> T * sc_stream T;
  write_call : T -> sc_stream T -> sc_stream T;
  write_waits : sc_stream T -> bool;
  write_return : sc_stream T -> sc_stream T;
  reset_in : sc_stream T -> sc_stream T;
  reset_out : sc_stream T -> sc_stream T
}.

(** What they promise: each side drives its own signals, [valid] and [ready]
    are up exactly during the call, and a call ends at the first edge where
    the other side's signal is up. *)
Class StreamCallsOk {T} (C : StreamCalls T) := {
  read_call_ok c : read_call c = {| data_r := data_r c; valid_r := valid_r c; ready_r := true |};
  read_waits_ok c : read_waits c = negb (valid_r c);
  read_return_ok c : read_return c = (data_r c, {| data_r := data_r c; valid_r := valid_r c; ready_r := false |});
  write_call_ok d c : write_call d c = {| data_r := d; valid_r := true; ready_r := ready_r c |};
  write_waits_ok c : write_waits c = negb (ready_r c);
  write_return_ok c : write_return c = {| data_r := data_r c; valid_r := false; ready_r := ready_r c |};
  reset_in_ok c : reset_in c = {| data_r := data_r c; valid_r := valid_r c; ready_r := false |};
  reset_out_ok c : exists d, reset_out c = {| data_r := d; valid_r := false; ready_r := ready_r c |}
}.

(** ** In simulation *)
Module sim.
Section Sim.
Context {T : Type} (dflt : T).

(* @src ip/sysc/sc_stream.h 68-69 ready_w *)
Definition ready_w (r : bool) (c : sc_stream T) : sc_stream T := {| data_r := data_r c; valid_r := valid_r c; ready_r := r |}.
(* @src ip/sysc/sc_stream.h 88-89 data_w *)
Definition data_w (d : T) (c : sc_stream T) : sc_stream T := {| data_r := d; valid_r := valid_r c; ready_r := ready_r c |}.
(* @src ip/sysc/sc_stream.h 92-93 valid_w *)
Definition valid_w (v : bool) (c : sc_stream T) : sc_stream T := {| data_r := data_r c; valid_r := v; ready_r := ready_r c |}.

(* @src ip/sysc/sc_stream.h 184-184 read *)
Definition read_start (c : sc_stream T) : sc_stream T := ready_w true c.
(* @src ip/sysc/sc_stream.h 186-186 read *)
Definition read_again (c : sc_stream T) : bool := negb (valid_r c).
(* @src ip/sysc/sc_stream.h 187-188 read *)
Definition read_end (c : sc_stream T) : T * sc_stream T := (data_r c, ready_w false c).
(* @src ip/sysc/sc_stream.h 196-197 write *)
Definition write_start (d : T) (c : sc_stream T) : sc_stream T := data_w d (valid_w true c).
(* @src ip/sysc/sc_stream.h 199-199 write *)
Definition write_again (c : sc_stream T) : bool := negb (ready_r c).
(* @src ip/sysc/sc_stream.h 200-200 write *)
Definition write_end (c : sc_stream T) : sc_stream T := valid_w false c.

(* @src ip/sysc/sc_stream_ports.h 121-122 sc_stream_in::reset *)
Definition in_reset (c : sc_stream T) : sc_stream T := ready_w false c.
(* @src ip/sysc/sc_stream_ports.h 243-244 sc_stream_out::reset *)
Definition out_reset (c : sc_stream T) : sc_stream T := valid_w false (data_w dflt c).

(* @src ip/sysc/sc_stream.h 180-201 read, write *)
#[local] Instance calls : StreamCalls T := {
  read_call := read_start; read_waits := read_again; read_return := read_end;
  write_call := write_start; write_waits := write_again; write_return := write_end;
  reset_in := in_reset; reset_out := out_reset
}.

#[local] Instance calls_ok : StreamCallsOk calls.
Proof. split; try done. intros c. by exists dflt. Qed.
End Sim.
End sim.

(** ** In synthesis: the ports assign their signals directly *)
Module rvd.
Section Rvd.
Context {T : Type}.

(* @src ip/sysc/sc_rvd.h 96-96 sc_rvd_in::read *)
Definition read_start (c : sc_stream T) : sc_stream T := {| data_r := data_r c; valid_r := valid_r c; ready_r := true |}.
(* @src ip/sysc/sc_rvd.h 97-97 sc_rvd_in::read *)
Definition read_again (c : sc_stream T) : bool := negb (valid_r c).
(* @src ip/sysc/sc_rvd.h 98-99 sc_rvd_in::read *)
Definition read_end (c : sc_stream T) : T * sc_stream T :=
  (data_r c, {| data_r := data_r c; valid_r := valid_r c; ready_r := false |}).
(* @src ip/sysc/sc_rvd.h 157-158 sc_rvd_out::write *)
Definition write_start (d : T) (c : sc_stream T) : sc_stream T := {| data_r := d; valid_r := true; ready_r := ready_r c |}.
(* @src ip/sysc/sc_rvd.h 159-159 sc_rvd_out::write *)
Definition write_again (c : sc_stream T) : bool := negb (ready_r c).
(* @src ip/sysc/sc_rvd.h 160-160 sc_rvd_out::write *)
Definition write_end (c : sc_stream T) : sc_stream T := {| data_r := data_r c; valid_r := false; ready_r := ready_r c |}.

(* @src ip/sysc/sc_rvd.h 107-108 sc_rvd_in::reset *)
Definition in_reset (c : sc_stream T) : sc_stream T := {| data_r := data_r c; valid_r := valid_r c; ready_r := false |}.
(* @src ip/sysc/sc_rvd.h 165-166 sc_rvd_out::reset *)
Definition out_reset (c : sc_stream T) : sc_stream T := {| data_r := data_r c; valid_r := false; ready_r := ready_r c |}.

(* @src ip/sysc/sc_rvd.h 93-166 sc_rvd_in, sc_rvd_out *)
#[local] Instance calls : StreamCalls T := {
  read_call := read_start; read_waits := read_again; read_return := read_end;
  write_call := write_start; write_waits := write_again; write_return := write_end;
  reset_in := in_reset; reset_out := out_reset
}.

#[local] Instance calls_ok : StreamCallsOk calls.
Proof. split; try done. intros c. by exists (data_r c). Qed.
End Rvd.
End rvd.

(** * A producer, a stage and a consumer *)

Section Link.
Context {A B : Type} {S : Stage A B} {f : A -> B} {SO : StageOk S f}.
Context {CA : StreamCalls A} {CB : StreamCalls B} {CAok : StreamCallsOk CA} {CBok : StreamCallsOk CB}.

(** The producer's thread writes [todo], one [write] after the other; the
    consumer's thread calls [read] for ever and keeps [got].  [writing] and
    [reading]: the thread is inside a call. *)
Record link := {
  todo : list A; writing : bool; w_chan : sc_stream A;
  stage : st S;
  r_chan : sc_stream B; reading : bool; got : list B
}.

(** The producer's activation at an edge; [go]: it calls [write] again at once. *)
Definition producer (go : bool) (todo : list A) (writing : bool) (c : sc_stream A) : list A * bool * sc_stream A :=
  if writing && write_waits c then (todo, true, c)
  else let c := if writing then write_return c else c in
       match todo with
       | a :: todo' => if go then (todo', true, write_call a c) else (todo, false, c)
       | [] => ([], false, c)
       end.

Definition consumer (go : bool) (reading : bool) (got : list B) (c : sc_stream B) : bool * list B * sc_stream B :=
  if reading && read_waits c then (true, got, c)
  else let '(got, c) := if reading then let '(b, c) := read_return c in (got ++ [b], c) else (got, c) in
       if go then (true, got, read_call c) else (false, got, c).

(** The stage drives [ready] towards the producer and data and [valid]
    towards the consumer, without a clock. *)
Definition settle (l : link) : link :=
  {| todo := todo l; writing := writing l;
     w_chan := {| data_r := data_r (w_chan l); valid_r := valid_r (w_chan l); ready_r := ready (stage l) (ready_r (r_chan l)) |};
     stage := stage l;
     r_chan := {| data_r := dout (stage l); valid_r := valid (stage l); ready_r := ready_r (r_chan l) |};
     reading := reading l; got := got l |}.

(** One edge: all three read the values before it. *)
Definition edge (go_w go_r : bool) (l : link) : link :=
  let '(todo', w', cw) := producer go_w (todo l) (writing l) (w_chan l) in
  let '(r', got', cr) := consumer go_r (reading l) (got l) (r_chan l) in
  settle {| todo := todo'; writing := w'; w_chan := cw;
            stage := clock (stage l) (valid_r (w_chan l)) (data_r (w_chan l)) (ready_r (r_chan l));
            r_chan := cr; reading := r'; got := got' |}.

(** After the reset. *)
Definition start (items : list A) (s : st S) (cw : sc_stream A) (cr : sc_stream B) : link :=
  settle {| todo := items; writing := false; w_chan := reset_out cw; stage := do_reset s;
            r_chan := reset_in cr; reading := false; got := [] |}.

Definition edges (l : link) (gos : list (bool * bool)) : link :=
  fold_left (fun l go => edge (fst go) (snd go) l) gos l.

(** The data not accepted yet. *)
Definition pending (l : link) : list A := (if writing l then [data_r (w_chan l)] else []) ++ todo l.

Definition link_inv (items : list A) (l : link) : Prop :=
  inv (stage l) /\
  valid_r (w_chan l) = writing l /\ ready_r (w_chan l) = ready (stage l) (reading l) /\
  valid_r (r_chan l) = valid (stage l) /\ data_r (r_chan l) = dout (stage l) /\ ready_r (r_chan l) = reading l /\
  got l ++ contents (stage l) ++ map f (pending l) = map f items.

Lemma start_inv items s cw cr : shape s -> link_inv items (start items s cw cr).
Proof.
  intros Hs. apply ok_reset in Hs as [Hi Hc]. destruct (reset_out_ok cw) as [d Ed].
  unfold start, link_inv, pending. simpl. by rewrite Ed, reset_in_ok, Hc.
Qed.

Lemma producer_eq go items w c :
  valid_r c = w ->
  let acc := w && ready_r c in
  let '(items', w', c') := producer go items w c in
  valid_r c' = w' /\
  (if w' then [data_r c'] else []) ++ items' = (if w && negb acc then [data_r c] else []) ++ items /\
  (items' = [] \/ w' = true \/ go = false).
Proof.
  intros Hv acc. unfold producer, acc. rewrite write_waits_ok.
  destruct w, (ready_r c) eqn:Er, items as [|a items], go; simpl;
    rewrite ?write_call_ok, ?write_return_ok; simpl; auto.
Qed.

Lemma consumer_eq go r g c :
  ready_r c = r ->
  let '(r', g', c') := consumer go r g c in
  ready_r c' = r' /\ g' = g ++ (if valid_r c && r then [data_r c] else []) /\ (go = true -> r' = true).
Proof.
  intros Hr. unfold consumer. rewrite read_waits_ok.
  destruct r, (valid_r c) eqn:Ev, go; simpl; rewrite ?read_return_ok, ?read_call_ok; simpl; by rewrite ?app_nil_r.
Qed.

(** What an edge does, in terms of the stage's interface. *)
Lemma edge_eq items gw gr l :
  link_inv items l ->
  let acc := writing l && ready (stage l) (reading l) in
  let l' := edge gw gr l in
  stage l' = clock (stage l) (writing l) (data_r (w_chan l)) (reading l) /\
  pending l = (if acc then [data_r (w_chan l)] else []) ++ pending l' /\
  got l' = got l ++ (if valid (stage l) && reading l then [dout (stage l)] else []) /\
  (gr = true -> reading l' = true) /\ (todo l' = [] \/ writing l' = true \/ gw = false) /\
  valid_r (w_chan l') = writing l' /\ ready_r (w_chan l') = ready (stage l') (reading l') /\
  valid_r (r_chan l') = valid (stage l') /\ data_r (r_chan l') = dout (stage l') /\ ready_r (r_chan l') = reading l'.
Proof.
  intros (Hi & Hvw & Hrw & Hvr & Hdr & Hrr & _) acc l'. unfold l', edge.
  pose proof (producer_eq gw (todo l) (writing l) (w_chan l) Hvw) as Hp.
  pose proof (consumer_eq gr (reading l) (got l) (r_chan l) Hrr) as Hc.
  destruct (producer _ _ _ _) as [[t' w'] cw], (consumer _ _ _ _) as [[r' g'] cr].
  destruct Hp as (Hp1 & Hp2 & Hp3), Hc as (Hc1 & -> & Hc3).
  unfold pending. simpl. rewrite Hp2, Hvw, Hrr, Hvr, Hdr, Hc1, Hrw. fold acc.
  split_and!; try done. unfold acc. by destruct (writing l), (ready (stage l) (reading l)).
Qed.

Lemma edge_inv items gw gr l : link_inv items l -> link_inv items (edge gw gr l).
Proof.
  intros Hl. pose proof (edge_eq items gw gr l Hl) as (Es & Ep & Eg & _ & _ & Hrest).
  destruct Hl as (Hi & _ & _ & _ & _ & _ & Ho). unfold link_inv.
  split; [rewrite Es; by apply ok_inv|]. destruct Hrest as (?&?&?&?&?). split_and!; [done..|].
  rewrite <- Ho, Ep, Es, Eg, map_app, <- app_assoc. f_equal.
  pose proof (contents_step (stage l) (writing l) (data_r (w_chan l)) (reading l) Hi) as Hs.
  rewrite app_assoc, Hs, <- app_assoc. by destruct (writing l && _).
Qed.

Lemma edges_inv items gos l : link_inv items l -> link_inv items (edges l gos).
Proof. revert l. induction gos as [|[gw gr] gos IH]; intros l Hl; [done|]. apply IH. by apply edge_inv. Qed.

(** Whatever the threads' pauses, what was read is a prefix of what was to be
    written, and the rest is in the stage, in the call or still to do. *)
Lemma link_order items s cw cr gos :
  shape s ->
  let l := edges (start items s cw cr) gos in
  got l ++ contents (stage l) ++ map f (pending l) = map f items /\ length (contents (stage l)) <= cap.
Proof.
  intros Hs l. destruct (edges_inv items gos _ (start_inv items s cw cr Hs)) as (Hi & _ & _ & _ & _ & _ & Ho).
  split; [done|]. by apply ok_cap.
Qed.

(** ** Progress, while neither thread pauses *)

Definition busy (n : nat) (l : link) : link := edges l (replicate n (true, true)).

Lemma busy_S n l : busy (Datatypes.S n) l = busy n (edge true true l).
Proof. done. Qed.

Lemma busy_add n m l : busy (n + m) l = busy m (busy n l).
Proof. unfold busy, edges. by rewrite replicate_add, fold_left_app. Qed.

Lemma busy_inv items n l : link_inv items l -> link_inv items (busy n l).
Proof. apply edges_inv. Qed.

(** A datum still to be accepted needs two steps, one in the stage one. *)
Definition work (l : link) : nat := 2 * length (pending l) + length (contents (stage l)).

Lemma edge_work items l :
  link_inv items l ->
  work (edge true true l)
  + (if writing l && ready (stage l) (reading l) then 1 else 0) + (if valid (stage l) && reading l then 1 else 0) = work l.
Proof.
  intros Hl. pose proof (edge_eq items true true l Hl) as (Es & Ep & _). destruct Hl as (Hi & _).
  pose proof (f_equal length (contents_step (stage l) (writing l) (data_r (w_chan l)) (reading l) Hi)) as Hs.
  unfold work. rewrite Ep, Es. rewrite !length_app in *.
  destruct (writing l && _), (valid (stage l) && _); simpl in *; lia.
Qed.

Lemma busy_work items n l : link_inv items l -> work (busy n l) <= work l.
Proof.
  revert l. induction n as [|n IH]; intros l Hl; [done|]. rewrite busy_S.
  pose proof (edge_work items l Hl). pose proof (IH _ (edge_inv items true true l Hl)). lia.
Qed.

Definition engaged (l : link) : Prop := reading l = true.

Lemma edge_engaged items l : link_inv items l -> engaged (edge true true l).
Proof. intros Hl. pose proof (edge_eq items true true l Hl) as (_ & _ & _ & H & _). by apply H. Qed.

Lemma busy_engaged items n l : link_inv items l -> engaged l -> engaged (busy n l).
Proof.
  revert l. induction n as [|n IH]; intros l Hl He; [done|]. rewrite busy_S.
  eapply IH; [by apply edge_inv|by eapply edge_engaged].
Qed.

(** What the stage holds moves. *)
Lemma soon_works items n l :
  soon n (stage l) -> link_inv items l -> engaged l -> work (busy (n + 1) l) < work l.
Proof.
  intros H. remember (stage l) as s eqn:E. revert l E. induction H as [n s Hv|n s _ IH]; intros l -> Hl He.
  all: pose proof (edge_work items l Hl) as Hw; pose proof (edge_inv items true true l Hl) as Hl'; unfold engaged in He.
  - rewrite Hv, He in Hw. rewrite Nat.add_1_r, busy_S. pose proof (busy_work items n _ Hl'). simpl in *. lia.
  - simpl (Datatypes.S n + 1). rewrite busy_S.
    pose proof (edge_eq items true true l Hl) as (Es & _). rewrite He in Es.
    specialize (IH _ _ _ (eq_sym Es) Hl' (edge_engaged items l Hl)). lia.
Qed.

(** An empty stage accepts, at the latest at the second edge. *)
Lemma empty_works items l :
  link_inv items l -> engaged l -> contents (stage l) = [] -> pending l <> [] -> work (busy 2 l) < work l.
Proof.
  intros Hl He Hc Hp.
  assert (Hv : valid (stage l) = false).
  { destruct (valid (stage l)) eqn:Ev; [|done]. apply ok_valid in Ev; [by rewrite Hc in Ev|apply Hl]. }
  assert (Hr : ready (stage l) (reading l) = true) by (rewrite He; apply ok_ready; [apply Hl|done..]).
  pose proof (edge_work items l Hl) as Hw. rewrite Hr, Hv in Hw.
  pose proof (edge_inv items true true l Hl) as Hl'.
  destruct (writing l) eqn:Ew; simpl in Hw; [pose proof (busy_work items 1 _ Hl'); rewrite busy_S; lia|].
  pose proof (edge_eq items true true l Hl) as (Es & Ep & _ & _ & Ht & _).
  rewrite Ew in Ep. simpl in Ep. rewrite Ep in Hp.
  assert (Ew' : writing (edge true true l) = true).
  { destruct Ht as [Ht|[Ht|Ht]]; [|done..]. unfold pending in Hp. rewrite Ht in Hp. by destruct (writing (edge true true l)). }
  assert (Hc' : contents (stage (edge true true l)) = []).
  { rewrite Es, Ew, ok_clock, Hv by apply Hl. simpl. by rewrite Hc. }
  assert (Hv' : valid (stage (edge true true l)) = false).
  { destruct (valid (stage (edge true true l))) eqn:Ev; [|done]. apply ok_valid in Ev; [by rewrite Hc' in Ev|apply Hl']. }
  pose proof (edge_work items _ Hl') as Hw'. rewrite Ew', Hv', (edge_engaged items l Hl), (ok_ready _ (proj1 Hl') Hv' Hc') in Hw'.
  rewrite !busy_S. simpl in *. unfold busy, edges. simpl. lia.
Qed.

Lemma window_works items l : link_inv items l -> engaged l -> work l <> 0 -> work (busy (lat + 2) l) < work l.
Proof.
  intros Hl He Hw. destruct (decide (contents (stage l) = [])) as [Hc|Hc].
  - rewrite Nat.add_comm, busy_add. pose proof (busy_work items lat _ (busy_inv items 2 l Hl)).
    enough (work (busy 2 l) < work l) by lia. eapply empty_works; [done..|].
    intros Hp. apply Hw. unfold work. by rewrite Hc, Hp.
  - replace (lat + 2) with ((lat + 1) + 1) by lia. rewrite busy_add.
    pose proof (busy_work items 1 _ (busy_inv items (lat + 1) l Hl)).
    pose proof (soon_works items lat l (ok_live _ (proj1 Hl) Hc) Hl He). lia.
Qed.

Lemma work_ends items k n l : link_inv items l -> engaged l -> work l <= k -> (lat + 2) * k <= n -> work (busy n l) = 0.
Proof.
  revert n l. induction k as [|k IH]; intros n l Hl He Hk Hn.
  { pose proof (busy_work items n l Hl). lia. }
  rewrite Nat.mul_succ_r in Hn.
  replace n with ((lat + 2) + (n - (lat + 2))) by lia. rewrite busy_add.
  apply IH; [by apply busy_inv|by eapply busy_engaged| |lia].
  destruct (decide (work l = 0)) as [E|E]; [pose proof (busy_work items (lat + 2) l Hl); lia|].
  pose proof (window_works items l Hl He E). lia.
Qed.

Lemma link_delivers items s cw cr n :
  shape s -> 1 + 2 * (lat + 2) * length items <= n -> got (busy n (start items s cw cr)) = map f items.
Proof.
  intros Hs Hn. destruct n as [|n]; [lia|]. pose proof (start_inv items s cw cr Hs) as Hl.
  pose proof (edge_inv items true true _ Hl) as Hl'. rewrite busy_S.
  assert (Hw : work (start items s cw cr) = 2 * length items).
  { unfold work, pending. simpl. apply ok_reset in Hs as [_ ->]. simpl. lia. }
  pose proof (edge_work items _ Hl) as Hw1.
  assert (H0 : work (busy n (edge true true (start items s cw cr))) = 0).
  { eapply (work_ends items (2 * length items)); [done|by eapply edge_engaged|lia|lia]. }
  destruct (busy_inv items n _ Hl') as (_ & _ & _ & _ & _ & _ & Ho). rewrite <- Ho. unfold work in H0.
  destruct (contents _), (pending _); simpl in H0; try lia. by rewrite app_nil_r.
Qed.
End Link.

(** ** Links that cannot be told apart *)

Section Same.
Context {A B : Type} {S S' : Stage A B} {CA CA' : StreamCalls A} {CB CB' : StreamCalls B}.
Context {CAok : StreamCallsOk CA} {CAok' : StreamCallsOk CA'} {CBok : StreamCallsOk CB} {CBok' : StreamCallsOk CB'}.
Context (p : st S' -> st S).
Hypothesis p_reset : forall s, p (do_reset s) = do_reset (p s).
Hypothesis p_clock : forall s v a r, p (clock s v a r) = clock (p s) v a r.
Hypothesis p_ready : forall s r, ready s r = ready (p s) r.
Hypothesis p_valid : forall s, valid s = valid (p s).
Hypothesis p_dout : forall s, dout s = dout (p s).
(** Data are not looked at without [valid]. *)
Hypothesis idle : forall (s : st S) a a' r, clock s false a r = clock s false a' r.

Record same (l : link (S := S)) (l' : link (S := S')) : Prop := {
  same_todo : todo l = todo l';
  same_writing : writing l = writing l';
  same_valid : valid_r (w_chan l) = valid_r (w_chan l');
  same_data : valid_r (w_chan l') = true -> data_r (w_chan l) = data_r (w_chan l');
  same_ready : ready_r (w_chan l) = ready_r (w_chan l');
  same_stage : stage l = p (stage l');
  same_r : r_chan l = r_chan l';
  same_reading : reading l = reading l';
  same_got : got l = got l'
}.

Lemma same_producer go items w c c' :
  valid_r c = valid_r c' -> ready_r c = ready_r c' -> (valid_r c' = true -> data_r c = data_r c') ->
  let '(i1, w1, c1) := producer (CA := CA) go items w c in
  let '(i2, w2, c2) := producer (CA := CA') go items w c' in
  i1 = i2 /\ w1 = w2 /\ valid_r c1 = valid_r c2 /\ (valid_r c2 = true -> data_r c1 = data_r c2).
Proof.
  intros Hv Hr Hd. unfold producer. rewrite !write_waits_ok, Hr.
  destruct w, (ready_r c'), items as [|a items], go; simpl; rewrite ?write_return_ok, ?write_call_ok; simpl; auto; done.
Qed.

Lemma same_consumer go r g c : consumer (CB := CB) go r g c = consumer (CB := CB') go r g c.
Proof.
  unfold consumer. rewrite !read_waits_ok.
  destruct r, (valid_r c), go; simpl; rewrite ?read_return_ok; simpl; by rewrite ?read_call_ok.
Qed.

Lemma same_edge gw gr l l' :
  same l l' -> same (edge (CA := CA) (CB := CB) gw gr l) (edge (CA := CA') (CB := CB') gw gr l').
Proof using All.
  intros [Ht Hw Hv Hd Hr Hs Hc Hrd Hg]. unfold edge. rewrite Ht, Hw, Hrd, Hg, Hc, (same_consumer gr (reading l') (got l') (r_chan l')).
  pose proof (same_producer gw (todo l') (writing l') _ _ Hv Hr Hd) as Hp.
  destruct (producer _ _ _ (w_chan l)) as [[i1 w1] c1], (producer _ _ _ (w_chan l')) as [[i2 w2] c2].
  destruct Hp as (-> & -> & Hv' & Hd'). destruct (consumer _ _ _ _) as [[r' g'] cr].
  assert (Hst : clock (stage l) (valid_r (w_chan l)) (data_r (w_chan l)) (ready_r (r_chan l'))
                = p (clock (stage l') (valid_r (w_chan l')) (data_r (w_chan l')) (ready_r (r_chan l')))).
  { rewrite p_clock, Hs, Hv. destruct (valid_r (w_chan l')); [by rewrite Hd|apply idle]. }
  unfold settle. split; simpl; try done; rewrite Hst.
  - by rewrite p_ready.
  - by rewrite p_valid, p_dout.
Qed.

Lemma same_start items s cw cr :
  same (start (CA := CA) (CB := CB) items (p s) cw cr) (start (CA := CA') (CB := CB') items s cw cr).
Proof using All.
  destruct (reset_out_ok (C := CA) cw) as [d E], (reset_out_ok (C := CA') cw) as [d' E'].
  unfold start. rewrite E, E', !reset_in_ok. split; simpl; rewrite <- ?p_reset, <- ?p_ready, <- ?p_valid, <- ?p_dout; done.
Qed.

Lemma same_edges gos l l' :
  same l l' -> same (edges (CA := CA) (CB := CB) l gos) (edges (CA := CA') (CB := CB') l' gos).
Proof using All. revert l l'. induction gos as [|[gw gr] gos IH]; intros l l' Hl; [done|]. apply IH. by apply same_edge. Qed.
End Same.

(** * The pulse generator *)

Module pulse.
Section Pulse.
Context (DELAY CYCLES : Z) (PLEV : bool).

(* @src ip/sysc/pulse.h 25-25 state_e *)
Inductive state_e := INIT_S | PRE_S | PULSE_S | POST_S.

(* @src ip/sysc/pulse.h 22-28 pulse *)
Record regs := { sig : bool; st : state_e; count : Z }.

(** [count] is eight bits wide. *)
(* @src ip/sysc/pulse.h 30-65 ms_pulse *)
Definition ms_pulse (s : regs) : regs :=
  let dec := {| sig := sig s; st := st s; count := u8 (count s - 1) |} in
  match st s with
  | INIT_S =>
      if negb (DELAY =? 0)%Z && negb (CYCLES =? 0)%Z then {| sig := negb PLEV; st := PRE_S; count := u8 (DELAY - 1) |}
      else if negb (CYCLES =? 0)%Z then {| sig := PLEV; st := PULSE_S; count := u8 (CYCLES - 1) |}
      else {| sig := negb PLEV; st := POST_S; count := count s |}
  | PRE_S => if (count s =? 0)%Z then {| sig := PLEV; st := PULSE_S; count := u8 (CYCLES - 1) |} else dec
  | PULSE_S => if (count s =? 0)%Z then {| sig := negb PLEV; st := POST_S; count := count s |} else dec
  | POST_S => s
  end.

(** Signals and the counter before the first edge are the simulator's zeros. *)
(* @src ip/sysc/pulse.h 77-78 pulse *)
Definition power_on : regs := {| sig := false; st := INIT_S; count := 0 |}.

Definition after (n : nat) : regs := Nat.iter n ms_pulse power_on.

(** How long a wait of [n] cycles takes when it is counted in eight bits. *)
Definition counted (n : Z) : Z := if (n =? 0)%Z then 0%Z else (u8 (n - 1) + 1)%Z.

(** Edges, [k] of them after the one that entered the state. *)
Definition phase (n : nat) (s : regs) : Prop :=
  let k := Z.of_nat n in
  let d := (if (CYCLES =? 0)%Z then 0 else counted DELAY)%Z in
  let c := counted CYCLES in
  (0 < n)%nat /\
  if (k <=? d)%Z then s = {| sig := negb PLEV; st := PRE_S; count := (d - k)%Z |}
  else if (k <=? d + c)%Z then s = {| sig := PLEV; st := PULSE_S; count := (d + c - k)%Z |}
  else sig s = negb PLEV /\ st s = POST_S.

Lemma counted_range n : (0 <= counted n <= 256)%Z /\ (counted n = 0 <-> n = 0)%Z.
Proof.
  unfold counted. pose proof (wrap_range 8 (n - 1) ltac:(lia)) as Hr. unfold in_word in Hr.
  destruct (Z.eqb_spec n 0); split; lia.
Qed.

Lemma counted_first n : (n <> 0 -> u8 (n - 1) = counted n - 1)%Z.
Proof. unfold counted. intros Hn. rewrite (proj2 (Z.eqb_neq n 0) Hn). lia. Qed.

Lemma u8_dec x : (0 < x <= 255 -> u8 (x - 1) = x - 1)%Z.
Proof. intros Hx. apply wrap_id. split; lia. Qed.

Lemma phase_first : phase 1 (after 1).
Proof.
  unfold phase, after. simpl Nat.iter. unfold ms_pulse. simpl st.
  destruct (counted_range DELAY) as [Hd Hd0], (counted_range CYCLES) as [Hc Hc0].
  split; [lia|]. destruct (Z.eqb_spec CYCLES 0) as [EC|EC], (Z.eqb_spec DELAY 0) as [ED|ED]; simpl negb; simpl andb; cbn iota.
  1,2: repeat match goal with |- context [Z.leb ?x ?y] => destruct (Z.leb_spec x y) end; first [lia | done].
  all: rewrite counted_first by done;
    repeat match goal with |- context [Z.leb ?x ?y] => destruct (Z.leb_spec x y) end; first [lia | f_equal; lia].
Qed.

Lemma phase_next n s : phase n s -> phase (S n) (ms_pulse s).
Proof.
  destruct (counted_range DELAY) as [Hd Hd0], (counted_range CYCLES) as [Hc Hc0].
  intros [Hn H]. split; [lia|]. set (d := (if (CYCLES =? 0)%Z then 0 else counted DELAY)%Z) in *.
  assert (Hdr : (0 <= d <= 256)%Z /\ (CYCLES = 0 -> d = 0)%Z) by (unfold d; destruct (Z.eqb_spec CYCLES 0); lia).
  set (c := counted CYCLES) in *. replace (Z.of_nat (S n)) with (Z.of_nat n + 1)%Z by lia. set (k := Z.of_nat n) in *.
  assert (Hk : (1 <= k)%Z) by lia. clearbody k.
  destruct (Z.leb_spec k d) as [H1|H1]; [|destruct (Z.leb_spec k (d + c)) as [H2|H2]].
  - subst s. unfold ms_pulse. simpl. destruct (Z.eqb_spec (d - k) 0) as [E|E].
    + rewrite counted_first by lia. fold c.
      repeat match goal with |- context [Z.leb ?x ?y] => destruct (Z.leb_spec x y) end; first [lia | f_equal; lia].
    + rewrite u8_dec by lia. rewrite (proj2 (Z.leb_le (k + 1) d)) by lia. f_equal. lia.
  - subst s. unfold ms_pulse. simpl. rewrite (proj2 (Z.leb_gt (k + 1) d)) by lia. destruct (Z.eqb_spec (d + c - k) 0) as [E|E].
    + by rewrite (proj2 (Z.leb_gt (k + 1) (d + c))) by lia.
    + rewrite u8_dec by lia. rewrite (proj2 (Z.leb_le (k + 1) (d + c))) by lia. f_equal. lia.
  - destruct s as [x t m]. destruct H as [H3 H4]. simpl in *. subst. unfold ms_pulse. simpl.
    rewrite (proj2 (Z.leb_gt (k + 1) d)), (proj2 (Z.leb_gt (k + 1) (d + c))) by lia. done.
Qed.

Lemma phase_after n : phase (S n) (after (S n)).
Proof. induction n as [|n IH]; [apply phase_first|]. by apply phase_next. Qed.
End Pulse.
End pulse.

(** * Theorems *)

Module fifo_cc_order.
Section Order.
Context {T : Type} (dflt : T) (IW : Z) (FWFT RLEV FLEV : bool) (depth : nat).
Context (Hd : 0 < depth) (Hm : depth <= MAX_DEPTH IW) (HI : (0 <= IW)%Z).
Abbreviation held s := (Handshake.held dflt depth (fifo_cc.core s)).

Lemma port_flag b : Bool.eqb (Bool.eqb b FLEV) (negb FLEV) = negb b.
Proof. by destruct b, FLEV. Qed.

(** Without fall through [dout] is the word read at the last read. *)
Lemma registered_dout s v a r :
  FWFT = false -> wf_sfifo IW depth (fifo_cc.core s) ->
  (r && negb (fifo_cc.empty_i s) = true ->
   head (held s) = Some (fifo_cc.dout dflt FWFT (fifo_cc.ms_proc dflt IW FWFT RLEV depth (negb RLEV) s v a r))) /\
  (r && negb (fifo_cc.empty_i s) = false ->
   fifo_cc.dout dflt FWFT (fifo_cc.ms_proc dflt IW FWFT RLEV depth (negb RLEV) s v a r) = fifo_cc.dout dflt FWFT s).
Proof using Hd Hm HI.
  intros -> Hwf. unfold fifo_cc.ms_proc, fifo_cc.rd_en_i. replace (Bool.eqb (negb RLEV) RLEV) with false by (by destruct RLEV).
  split; intros E; simpl; rewrite E; [|done].
  apply andb_prop in E as [_ E].
  exact (ok_valid (StageOk := sfifo_ok dflt IW depth Hd Hm HI) (fifo_cc.core s) Hwf E).
Qed.

Lemma trace_order s cs s' ins outs :
  FWFT = false -> wf_sfifo IW depth (fifo_cc.core s) ->
  fifo_cc.trace dflt IW FWFT RLEV FLEV depth s cs = (s', ins, outs) ->
  wf_sfifo IW depth (fifo_cc.core s') /\ outs ++ held s' = held s ++ ins.
Proof using Hd Hm HI.
  intros HF. revert s s' ins outs. induction cs as [|[[v a] r] cs IH]; intros s s' ins outs Hwf Ht; simpl in Ht.
  { injection Ht as <- <- <-. split; [done|]. by rewrite app_nil_r. }
  destruct (fifo_cc.trace _ _ _ _ _ _ _ cs) as [[s1 ins1] outs1] eqn:E. injection Ht as <- <- <-.
  assert (Hc := fifo_cc.core_clock dflt IW FWFT RLEV depth s v a r).
  apply IH in E as [Hwf' E]; [|rewrite Hc; by apply wf_ms_proc]. split; [done|].
  rewrite Hc, held_ms_proc in E by done. rewrite <- app_assoc, E. unfold fifo_cc.full, fifo_cc.empty. rewrite !port_flag.
  destruct (registered_dout s v a r HF Hwf) as [Hh _].
  unfold Handshake.rd_en_i, Handshake.wr_en_i in *. simpl in *.
  destruct (r && _); [|by rewrite <- app_assoc]. specialize (Hh eq_refl).
  destruct (held s); [done|]. injection Hh as ->. simpl. by rewrite <- app_assoc.
Qed.
End Order.
End fifo_cc_order.

(** In its registered form, at any reset and flag level and whatever the
    registers held before the reset, the words the common clock FIFO shows
    after each read are the words written, in order; at most [depth] are in
    it, and it refuses a word exactly when it is at that. *)
Theorem fifo_cc_registered {T} (dflt : T) IW RLEV FLEV (size_ : Z) s cs s' ins outs :
  fifo_cc.size_refused IW size_ = false -> (0 <= IW)%Z -> length (fifo_cc.data s) = MAX_DEPTH IW ->
  let depth := Z.to_nat size_ in
  fifo_cc.trace dflt IW false RLEV FLEV depth (fifo_cc.ms_proc dflt IW false RLEV depth RLEV s false dflt false) cs = (s', ins, outs) ->
  let inside := held dflt depth (fifo_cc.core s') in
  outs ++ inside = ins /\ length inside <= depth /\ (fifo_cc.full FLEV s' = FLEV <-> length inside = depth).
Proof.
  intros Hsz HI Hs depth Ht inside. unfold fifo_cc.size_refused in Hsz. apply orb_false_elim in Hsz as [H1%Z.leb_gt H2%Z.ltb_ge].
  assert (Hd : 0 < depth) by (unfold depth; lia). assert (Hm : depth <= MAX_DEPTH IW) by (unfold depth, MAX_DEPTH; lia).
  destruct (ok_reset (StageOk := sfifo_ok dflt IW depth Hd Hm HI) (fifo_cc.core s) Hs) as [Hi Hc].
  assert (Er : fifo_cc.core (fifo_cc.ms_proc dflt IW false RLEV depth RLEV s false dflt false)
               = Handshake.ms_proc dflt IW depth true (fifo_cc.core s) false dflt false)
    by (rewrite fifo_cc.core_ms_proc; by destruct RLEV).
  change (do_reset ?x) with (Handshake.ms_proc dflt IW depth true x false dflt false) in Hi, Hc.
  rewrite <- Er in Hi, Hc. destruct (fifo_cc_order.trace_order dflt IW false RLEV FLEV depth Hd Hm HI _ cs s' ins outs eq_refl Hi Ht) as [Hwf Ho].
  cbn [contents sfifo_ok] in Hc. rewrite Hc in Ho. fold inside in Ho.
  pose proof (fill_le IW depth Hd Hm _ Hwf) as (Hle & Hlt & _).
  assert (Hl : length inside = fill depth (fifo_cc.core s')) by (unfold inside, held, window; by rewrite length_map, length_seq).
  rewrite Hl. split_and!; [done|done|]. unfold fifo_cc.full. change (fifo_cc.full_i s') with (Handshake.full_i (fifo_cc.core s')).
  destruct (Handshake.full_i (fifo_cc.core s')) eqn:Ef.
  - unfold fill. rewrite Ef. by destruct FLEV.
  - specialize (Hlt eq_refl). destruct FLEV; (split; [done|lia]).
Qed.

Definition fifo_power_up : fifo_cc.regs :=
  {| fifo_cc.q := 5; fifo_cc.data := [0; 0]; fifo_cc.rd_idx := 1; fifo_cc.wr_idx := 0; fifo_cc.full_i := true; fifo_cc.empty_i := true |}.

Lemma fifo_cc_registered_witness :
  let reset := fifo_cc.ms_proc 0 1 false false 2 false fifo_power_up false 0 false in
  let '(s', ins, outs) := fifo_cc.trace 0 1 false false true 2 reset fifo_cycles in
  let inside := held 0 2 (fifo_cc.core s') in
  ins = [7; 8; 9; 10] /\ outs = [7; 8] /\
  (outs ++ inside = ins /\ length inside <= 2 /\ (fifo_cc.full true s' = true <-> length inside = 2)).
Proof.
  split; [reflexivity|split; [reflexivity|]].
  apply (fifo_cc_registered 0 1 false true 2 fifo_power_up fifo_cycles); [reflexivity|lia|reflexivity..].
Defined.

(** A producer and a consumer thread around the FIFO of either build. *)
Abbreviation sim_start dflt IW depth :=
  (start (S := sfifo_stage dflt IW depth) (CA := sim.calls dflt) (CB := sim.calls dflt)).
Abbreviation sim_edges dflt IW depth :=
  (edges (S := sfifo_stage dflt IW depth) (CA := sim.calls dflt) (CB := sim.calls dflt)).
Abbreviation rvd_start dflt IW RLEV depth :=
  (start (S := rvfifo_cc.rvfifo_cc dflt IW RLEV depth) (CA := rvd.calls) (CB := rvd.calls)).
Abbreviation rvd_edges dflt IW RLEV depth :=
  (edges (S := rvfifo_cc.rvfifo_cc dflt IW RLEV depth) (CA := rvd.calls) (CB := rvd.calls)).

(** Whatever the pauses of the two threads, the words read are the first of the
    words written, at most [depth] words are in the FIFO, and no word is lost
    or written twice, in both builds. *)
Theorem blocking_calls_order {T} (dflt : T) IW RLEV (size_ : Z) items s s' cw cr gos :
  fifo_cc.size_refused IW size_ = false -> (0 <= IW)%Z ->
  length (data s) = MAX_DEPTH IW -> length (fifo_cc.data s') = MAX_DEPTH IW ->
  let depth := Z.to_nat size_ in
  let l := sim_edges dflt IW depth (sim_start dflt IW depth items s cw cr) gos in
  let l' := rvd_edges dflt IW RLEV depth (rvd_start dflt IW RLEV depth items s' cw cr) gos in
  (got l ++ held dflt depth (stage l) ++ pending l = items /\ length (held dflt depth (stage l)) <= depth) /\
  (got l' ++ held dflt depth (fifo_cc.core (stage l')) ++ pending l' = items /\
   length (held dflt depth (fifo_cc.core (stage l'))) <= depth).
Proof.
  intros Hsz HI Hs Hs' depth l l'. unfold fifo_cc.size_refused in Hsz. apply orb_false_elim in Hsz as [H1%Z.leb_gt H2%Z.ltb_ge].
  assert (Hd : 0 < depth) by (unfold depth; lia). assert (Hm : depth <= MAX_DEPTH IW) by (unfold depth, MAX_DEPTH; lia).
  pose proof (link_order (SO := sfifo_ok dflt IW depth Hd Hm HI) (CAok := sim.calls_ok dflt) (CBok := sim.calls_ok dflt) items s cw cr gos Hs) as H.
  pose proof (link_order (SO := rvfifo_cc.rvfifo_ok dflt IW RLEV depth Hd Hm HI) (CAok := rvd.calls_ok) (CBok := rvd.calls_ok) items s' cw cr gos Hs') as H'.
  cbv zeta in H, H'. rewrite !map_id in H, H'. exact (conj H H').
Qed.

Definition chan0 : sc_stream nat := {| data_r := 3; valid_r := true; ready_r := true |}.
Definition pauses : list (bool * bool) :=
  [(true, false); (true, false); (true, true); (false, true); (true, true); (true, false)].

Lemma blocking_calls_order_witness :
  let l := sim_edges 0 1 2 (sim_start 0 1 2 [4; 5; 6; 7] power_up chan0 chan0) pauses in
  let l' := rvd_edges 0 1 true 2 (rvd_start 0 1 true 2 [4; 5; 6; 7] fifo_power_up chan0 chan0) pauses in
  got l = [4; 5; 6] /\
  (got l ++ held 0 2 (stage l) ++ pending l = [4; 5; 6; 7] /\ length (held 0 2 (stage l)) <= 2) /\
  (got l' ++ held 0 2 (fifo_cc.core (stage l')) ++ pending l' = [4; 5; 6; 7] /\ length (held 0 2 (fifo_cc.core (stage l'))) <= 2).
Proof.
  split; [reflexivity|].
  apply (blocking_calls_order 0 1 true 2 [4; 5; 6; 7] power_up fifo_power_up chan0 chan0 pauses); [reflexivity|lia|reflexivity..].
Defined.

(** C38: When neither thread pauses, all words have been read within four edges a
    word and one, in both builds: every word takes two steps, into the FIFO
    and out of it, and of any two edges one makes a step. *)
Theorem blocking_calls_deliver {T} (dflt : T) IW RLEV (size_ : Z) items s s' cw cr n :
  fifo_cc.size_refused IW size_ = false -> (0 <= IW)%Z ->
  length (data s) = MAX_DEPTH IW -> length (fifo_cc.data s') = MAX_DEPTH IW -> 1 + 4 * length items <= n ->
  let depth := Z.to_nat size_ in
  got (sim_edges dflt IW depth (sim_start dflt IW depth items s cw cr) (replicate n (true, true))) = items /\
  got (rvd_edges dflt IW RLEV depth (rvd_start dflt IW RLEV depth items s' cw cr) (replicate n (true, true))) = items.
Proof.
  intros Hsz HI Hs Hs' Hn depth. unfold fifo_cc.size_refused in Hsz. apply orb_false_elim in Hsz as [H1%Z.leb_gt H2%Z.ltb_ge].
  assert (Hd : 0 < depth) by (unfold depth; lia). assert (Hm : depth <= MAX_DEPTH IW) by (unfold depth, MAX_DEPTH; lia).
  pose proof (link_delivers (SO := sfifo_ok dflt IW depth Hd Hm HI) (CAok := sim.calls_ok dflt) (CBok := sim.calls_ok dflt) items s cw cr n Hs) as H.
  pose proof (link_delivers (SO := rvfifo_cc.rvfifo_ok dflt IW RLEV depth Hd Hm HI) (CAok := rvd.calls_ok) (CBok := rvd.calls_ok) items s' cw cr n Hs') as H'.
  rewrite !map_id in H, H'. split; [apply H; simpl; lia|apply H'; simpl; lia].
Qed.

Lemma blocking_calls_deliver_witness :
  got (sim_edges 0 1 2 (sim_start 0 1 2 [4; 5; 6] power_up chan0 chan0) (replicate 13 (true, true))) = [4; 5; 6] /\
  got (rvd_edges 0 1 true 2 (rvd_start 0 1 true 2 [4; 5; 6] fifo_power_up chan0 chan0) (replicate 13 (true, true))) = [4; 5; 6].
Proof.
  apply (blocking_calls_deliver 0 1 true 2 [4; 5; 6] power_up fifo_power_up chan0 chan0 13); [reflexivity|lia|reflexivity|reflexivity|simpl; lia].
Defined.

(** C39: The build for synthesis behaves as the simulated one: from the same
    registers, at any depth, any level of the reset and any pauses, the
    consumer has read the same words after every edge, the producer has the
    same left to write and both are inside the same calls. *)
Theorem builds_agree {T} (dflt : T) IW RLEV depth items s cw cr gos :
  let l := sim_edges dflt IW depth (sim_start dflt IW depth items (fifo_cc.core s) cw cr) gos in
  let l' := rvd_edges dflt IW RLEV depth (rvd_start dflt IW RLEV depth items s cw cr) gos in
  got l = got l' /\ todo l = todo l' /\ writing l = writing l' /\ reading l = reading l' /\ stage l = fifo_cc.core (stage l').
Proof.
  pose (core := fun s : st (rvfifo_cc.rvfifo_cc dflt IW RLEV depth) => (fifo_cc.core s : st (sfifo_stage dflt IW depth))).
  assert (Hr : forall s, core (do_reset s) = do_reset (core s))
    by (intros; unfold core; simpl; rewrite fifo_cc.core_ms_proc; by destruct RLEV).
  assert (Hc : forall s v a r, core (clock s v a r) = clock (core s) v a r) by (intros; apply fifo_cc.core_clock).
  pose proof (same_edges (CAok := sim.calls_ok dflt) (CBok := sim.calls_ok dflt) (CAok' := rvd.calls_ok) (CBok' := rvd.calls_ok)
    core Hr Hc (fun _ _ => rvfifo_cc.flag_low _) (fun _ => rvfifo_cc.flag_low _) (fun _ => eq_refl) (fun _ _ _ _ => eq_refl) gos _ _
    (same_start (CAok := sim.calls_ok dflt) (CBok := sim.calls_ok dflt) (CAok' := rvd.calls_ok) (CBok' := rvd.calls_ok)
      core Hr Hc (fun _ _ => rvfifo_cc.flag_low _) (fun _ => rvfifo_cc.flag_low _) (fun _ => eq_refl) (fun _ _ _ _ => eq_refl) items s cw cr)) as H.
  destruct H as [? ? _ _ _ ? _ ? ?]. done.
Qed.

(** The signal is at its active level exactly during the cycles after the
    delay, as many as asked for, each counted in eight bits: exact for
    delays and widths up to 256; and never if the width is zero. *)
Theorem pulse_exact DELAY CYCLES PLEV n :
  (0 <= DELAY <= 256)%Z -> (0 <= CYCLES <= 256)%Z ->
  pulse.sig (pulse.after DELAY CYCLES PLEV (S n)) = PLEV <-> (DELAY < Z.of_nat (S n) <= DELAY + CYCLES)%Z.
Proof.
  intros Hd Hc. destruct (pulse.phase_after DELAY CYCLES PLEV n) as [_ H].
  assert (Ec : forall x, (0 <= x <= 256)%Z -> pulse.counted x = x).
  { intros x Hx. unfold pulse.counted. destruct (Z.eqb_spec x 0); [done|]. rewrite wrap_id by (split; lia). lia. }
  rewrite !Ec in H by done. set (k := Z.of_nat (S n)) in *.
  assert (Hk : (1 <= k)%Z) by lia. clearbody k.
  destruct (Z.eqb_spec CYCLES 0) as [E|E].
  - subst CYCLES. rewrite (proj2 (Z.leb_gt k 0)), (proj2 (Z.leb_gt k (0 + 0))) in H by lia. destruct H as [-> _].
    destruct PLEV; (split; [done|lia]).
  - destruct (Z.leb_spec k DELAY); [subst; rewrite H; destruct PLEV; (split; [done|lia])|].
    destruct (Z.leb_spec k (DELAY + CYCLES)); [rewrite H; (split; [lia|done])|].
    destruct H as [-> _]. destruct PLEV; (split; [done|lia]).
Qed.

Lemma pulse_exact_witness :
  map (fun n => pulse.sig (pulse.after 2 3 true n)) (seq 1 7) = [false; false; true; true; true; false; false] /\
  (pulse.sig (pulse.after 2 3 true 4) = true <-> (2 < Z.of_nat 4 <= 2 + 3)%Z).
Proof. split; [reflexivity|]. apply (pulse_exact 2 3 true 3); lia. Defined.

(** A delay of 257 is counted as one. *)
Example pulse_wraps : map (fun n => pulse.sig (pulse.after 257 1 true n)) (seq 1 4) = [false; true; false; false].
Proof. reflexivity. Qed.
