(* ===== verification/SimMemory.v ===== *)
(** The simulation around the accelerator (ip/sysc/kvs.cpp, cpu.h): the memory
    controller with its queue and bandwidth model, the numbers by which the
    load-store units name their memory ports, and the start of the program on
    the simulated processor after the reset pulse.

    Times are picoseconds.  The queue of timed callbacks is the library's
    [peq_with_cb_and_phase]: it calls back at the time a payload was entered
    for. *)
From S2P Require Import Prelude Device Handshake Channels.
Open Scope Z_scope.

(** * Configuration *)

(* @src ip/sysc/kvs.cpp 15-15 NSOCKETS *)
Definition NSOCKETS : nat := 4.
(** Nanoseconds. *)
(* @src ip/sysc/kvs.cpp 17-25 T_W, T_R, T_TRANS *)
Definition T_W : Z := 106.
Definition T_R : Z := 85.
Definition T_TRANS : Z := 24.
(* @src ip/sysc/kvs.cpp 26-31 T_SRAM_W, T_DRAM_W, T_DRAM_R, T_QUEUE_W, T_QUEUE_R *)
Definition T_SRAM_W : Z := 12.
Definition T_DRAM_W : Z := 45.
Definition T_DRAM_R : Z := 45.
Definition T_QUEUE_W : Z := T_W - T_DRAM_W - T_TRANS.
Definition T_QUEUE_R : Z := T_R - T_DRAM_R - T_TRANS.
(** Picoseconds per queue entry and per byte. *)
(* @src ip/sysc/kvs.cpp 33-38 _PSPE, _PSPB *)
Definition _PSPE : Z := 1900.
Definition _PSPB : Z := 30.

(** * The memory controller *)

(** A request: the streaming width carries the number of its port. *)
Record payload := { width : Z; write : bool; len : Z }.

(* @src ip/sysc/kvs.cpp 44-47 HMCController *)
Record HMCController := { reqcnt : list Z; treqcnt : Z; nextrd : Z; nextwr : Z }.

(** The constructor leaves [treqcnt] as it finds it. *)
(* @src ip/sysc/kvs.cpp 113-122 HMCController *)
Definition HMCController_new (garbage : Z) : HMCController :=
  {| reqcnt := replicate NSOCKETS 0; treqcnt := u32 garbage; nextrd := 0; nextwr := 0 |}.

Definition bump (i d : Z) (l : list Z) : list Z := alter (fun n => u32 (n + d)) (Z.to_nat i) l.

(** A time slot of a bus: it starts when the bus is free, and the bus is free
    again at its end.  Result: the additional delay, and the new end. *)
(* @src ip/sysc/kvs.cpp 60-69 nb_transport_fw *)
Definition slot_at (ttarg next tslot : Z) : Z * Z :=
  let wait := if ttarg <? next then next - ttarg else 0 in (wait, ttarg + wait + tslot).

(** A request at [now]: the annotated delay after which it is served. *)
(* @src ip/sysc/kvs.cpp 49-89 nb_transport_fw *)
Definition nb_transport_fw (now : Z) (tpay : payload) (delay : Z) (c : HMCController) : HMCController * Z :=
  let id := width tpay in
  let known := id <? Z.of_nat NSOCKETS in
  let reqcnt := if known then bump id 1 (reqcnt c) else reqcnt c in
  let treqcnt := if known then u32 (treqcnt c + 1) else treqcnt c in
  let delay := delay + u32 (treqcnt * _PSPE) in
  let '(delay, nextwr) :=
    if write tpay then
      let '(wait, next) := slot_at (now + delay) (nextwr c) (u32 (len tpay * _PSPB)) in (delay + wait, next)
    else (delay, nextwr c) in
  let delay :=
    if write tpay then delay + 1000 * (if id =? 2 then T_SRAM_W else T_DRAM_W + T_QUEUE_W)
    else delay + 1000 * (T_DRAM_R + T_QUEUE_R) in
  ({| reqcnt := reqcnt; treqcnt := treqcnt; nextrd := nextrd c; nextwr := nextwr |}, delay).

(** The callback at the time a request was entered for: the delay of the
    response; [None] when the port does not exist ([at] throws). *)
(* @src ip/sysc/kvs.cpp 91-111 peq_cb *)
Definition peq_cb (now : Z) (tpay : payload) (c : HMCController) : option (HMCController * Z) :=
  let id := width tpay in
  let known := id <? Z.of_nat NSOCKETS in
  let reqcnt := if known then bump id (-1) (reqcnt c) else reqcnt c in
  let treqcnt := if known then u32 (treqcnt c - 1) else treqcnt c in
  let '(delay, nextrd) :=
    if negb (write tpay) then slot_at now (nextrd c) (u32 (len tpay * _PSPB)) else (0, nextrd c) in
  if known then Some ({| reqcnt := reqcnt; treqcnt := treqcnt; nextrd := nextrd; nextwr := nextwr c |}, delay) else None.

(** ** Executions *)

(** [waiting]: the requests entered, with their times; [answers], [stores]:
    the responses so far and the write slots, with their times. *)
Record sim := {
  now : Z; ctl : HMCController; waiting : list (Z * payload);
  asked : list payload; answers : list (Z * payload); stores : list (Z * payload)
}.

Definition sim_start (garbage : Z) : sim :=
  {| now := 0; ctl := HMCController_new garbage; waiting := []; asked := []; answers := []; stores := [] |}.

(** A request of an existing port for less than 2^26 bytes. *)
Definition proper (p : payload) : Prop := 0 <= width p < Z.of_nat NSOCKETS /\ 0 <= len p * _PSPB < 2 ^ 32.

(** Nanoseconds in the memory itself, of a write. *)
Definition mem_time (p : payload) : Z := if width p =? 2 then T_SRAM_W else T_DRAM_W + T_QUEUE_W.

Inductive step : sim -> sim -> Prop :=
  | s_request s t p delay c d :
      now s <= t -> Forall (fun w => t <= fst w) (waiting s) -> proper p -> 0 <= delay ->
      nb_transport_fw t p delay (ctl s) = (c, d) ->
      step s {| now := t; ctl := c; waiting := waiting s ++ [(t + d, p)]; asked := asked s ++ [p]; answers := answers s;
                stores := stores s ++ if write p then [(t + d - 1000 * mem_time p, p)] else [] |}
  | s_callback s l1 t p l2 c d :
      waiting s = l1 ++ (t, p) :: l2 -> now s <= t -> Forall (fun w => t <= fst w) (l1 ++ l2) ->
      peq_cb t p (ctl s) = Some (c, d) ->
      step s {| now := t; ctl := c; waiting := l1 ++ l2; asked := asked s; answers := answers s ++ [(t + d, p)]; stores := stores s |}.

(** * Invariants *)

Lemma u32_step x y : u32 (u32 x + y) = u32 (x + y).
Proof. apply Zplus_mod_idemp_l. Qed.


(** Requests of a port that are waiting. *)
Definition of_port (i : nat) (l : list (Z * payload)) : list (Z * payload) := filter (fun w => width (snd w) = Z.of_nat i) l.

Definition counted (garbage : Z) (c : HMCController) (l : list (Z * payload)) : Prop :=
  length (reqcnt c) = NSOCKETS /\
  (forall i, (i < NSOCKETS)%nat -> reqcnt c !! i = Some (u32 (Z.of_nat (length (of_port i l))))) /\
  treqcnt c = u32 (garbage + Z.of_nat (length l)).

(** Bytes of a list of transfers. *)
Definition bytes (l : list (Z * payload)) : Z := foldr (fun w n => len (snd w) + n) 0 l.

(** From any transfer to a later one, or to the time the bus is free, there
    is time for all bytes in between. *)
Definition spaced (l : list (Z * payload)) (next : Z) : Prop :=
  (forall l1 t p l2, l = l1 ++ (t, p) :: l2 -> t + _PSPB * (len p + bytes l2) <= next) /\
  (forall l1 t p l2 t' p' l3, l = l1 ++ (t, p) :: l2 ++ (t', p') :: l3 -> t + _PSPB * (len p + bytes l2) <= t').

Definition reads (l : list (Z * payload)) : list (Z * payload) := filter (fun w => write (snd w) = false) l.

Lemma bytes_app l l' : bytes (l ++ l') = bytes l + bytes l'.
Proof. induction l as [|w l IH]; [done|]. simpl. rewrite IH. lia. Qed.

Lemma spaced_nil next : spaced [] next.
Proof. split; intros [] **; done. Qed.

(** One more slot. *)
Lemma spaced_snoc l next ttarg p wait next' :
  spaced l next -> slot_at ttarg next (_PSPB * len p) = (wait, next') -> spaced (l ++ [(ttarg + wait, p)]) next'.
Proof.
  intros [H1 H2] E. unfold slot_at in E. injection E as <- <-.
  set (t := ttarg + (if ttarg <? next then next - ttarg else 0)). assert (Ht : next <= t) by (unfold t; destruct (Z.ltb_spec ttarg next); lia).
  split.
  - intros l1 t1 p1 l2 E. destruct l2 as [|w l2 _] using rev_ind.
    + apply app_inj_tail in E as [-> [= <- <-]]. simpl. lia.
    + rewrite app_comm_cons, app_assoc in E. apply app_inj_tail in E as [-> <-]. specialize (H1 _ _ _ _ eq_refl).
      rewrite bytes_app. simpl. unfold _PSPB in *. lia.
  - intros l1 t1 p1 l2 t2 p2 l3 E. destruct l3 as [|w l3 _] using rev_ind.
    + rewrite app_comm_cons, app_assoc in E. apply app_inj_tail in E as [-> [= <- <-]]. specialize (H1 _ _ _ _ eq_refl). lia.
    + rewrite !app_comm_cons, !app_assoc in E. apply app_inj_tail in E as [-> _]. apply (H2 l1 t1 p1 l2 t2 p2 l3). by rewrite <- app_assoc.
Qed.

Lemma of_port_snoc i l t p : of_port i (l ++ [(t, p)]) = of_port i l ++ (if decide (width p = Z.of_nat i) then [(t, p)] else []).
Proof. unfold of_port. by rewrite filter_app. Qed.

Lemma bump_at id d l i n :
  0 <= id -> l !! i = Some n -> bump id d l !! i = Some (if decide (id = Z.of_nat i) then u32 (n + d) else n).
Proof.
  intros Hid Hl. unfold bump. case_decide as E.
  - rewrite E, Nat2Z.id, list_lookup_alter_eq, Hl. done.
  - by rewrite list_lookup_alter_ne by lia.
Qed.

Lemma counted_request garbage t p delay c l d :
  proper p -> counted garbage c l -> let '(c', d') := nb_transport_fw t p delay c in counted garbage c' (l ++ [(d, p)]).
Proof.
  intros [[Hp0 Hp] _] (H1 & H2 & H3). unfold nb_transport_fw. rewrite (proj2 (Z.ltb_lt _ _) Hp).
  destruct (write p); [destruct (slot_at _ _ _)|].
  all: unfold counted; simpl; split_and!; [by unfold bump; rewrite length_alter| |].
  1,3: intros i Hi; rewrite of_port_snoc, length_app; rewrite (bump_at _ _ _ _ _ Hp0 (H2 i Hi)); f_equal; case_decide; simpl;
    [rewrite u32_step; f_equal; lia|f_equal; lia].
  all: rewrite H3, length_app, u32_step; f_equal; simpl; lia.
Qed.

Lemma counted_callback garbage t p c l1 l2 c' d :
  proper p -> counted garbage c (l1 ++ (t, p) :: l2) -> peq_cb t p c = Some (c', d) -> counted garbage c' (l1 ++ l2).
Proof.
  intros [[Hp0 Hp] _] (H1 & H2 & H3) E. unfold peq_cb in E. rewrite (proj2 (Z.ltb_lt _ _) Hp) in E.
  destruct (if negb (write p) then _ else _) as [x y]. injection E as <- _.
  unfold counted; simpl; split_and!; [by unfold bump; rewrite length_alter| |].
  - intros i Hi. rewrite (bump_at _ _ _ _ _ Hp0 (H2 i Hi)). f_equal. unfold of_port. rewrite !filter_app, filter_cons, !length_app. simpl.
    case_decide; simpl; [rewrite u32_step; f_equal; lia|done].
  - rewrite H3, !length_app. unfold Z.sub. rewrite u32_step. f_equal. simpl. lia.
Qed.

Definition sim_inv (garbage : Z) (s : sim) : Prop :=
  asked s ≡ₚ map snd (waiting s) ++ map snd (answers s) /\
  Forall (fun w => proper (snd w) /\ now s <= fst w) (waiting s) /\
  counted garbage (ctl s) (waiting s) /\
  spaced (reads (answers s)) (nextrd (ctl s)) /\ spaced (stores s) (nextwr (ctl s)).

Lemma len_slot p : proper p -> u32 (len p * _PSPB) = _PSPB * len p.
Proof. intros [_ Hl]. rewrite Z.mul_comm. apply wrap_id. split; lia. Qed.

(** A write is served before the time of the memory itself. *)
Lemma write_slot t p delay c c' d :
  proper p -> nb_transport_fw t p delay c = (c', d) -> write p = true ->
  exists ttarg wait, slot_at ttarg (nextwr c) (_PSPB * len p) = (wait, nextwr c') /\
    t + d - 1000 * mem_time p = ttarg + wait.
Proof.
  intros Hp E Hw. unfold nb_transport_fw in E. rewrite Hw, len_slot in E by done.
  destruct (slot_at _ _ _) as [wait next] eqn:Es. injection E as <- <-. simpl.
  eexists _, wait. split; [exact Es|]. unfold mem_time. lia.
Qed.

Lemma slot_wait ttarg next tslot wait next' : slot_at ttarg next tslot = (wait, next') -> 0 <= wait.
Proof. unfold slot_at. intros [= <- _]. destruct (Z.ltb_spec ttarg next); lia. Qed.

Lemma u32_pos x : 0 <= u32 x.
Proof. by apply (wrap_range 32). Qed.

Lemma fw_keeps t p delay c c' d :
  nb_transport_fw t p delay c = (c', d) -> nextrd c' = nextrd c /\ (write p = false -> nextwr c' = nextwr c) /\ (0 <= delay -> 0 <= d).
Proof.
  intros E. unfold nb_transport_fw in E.
  assert (Ht : 0 <= 1000 * (if width p =? 2 then T_SRAM_W else T_DRAM_W + T_QUEUE_W) /\ 0 <= 1000 * (T_DRAM_R + T_QUEUE_R)).
  { split; [by destruct (width p =? 2)|done]. }
  match type of E with context [u32 (?x * _PSPE)] => pose proof (u32_pos (x * _PSPE)) as Hq end.
  destruct (write p).
  - destruct (slot_at _ _ _) as [wait next] eqn:Es. apply slot_wait in Es. injection E as <- <-. split_and!; [done..|]. intros. lia.
  - injection E as <- <-. split_and!; [done..|]. intros. lia.
Qed.

Lemma sim_step_inv garbage s s' : sim_inv garbage s -> step s s' -> sim_inv garbage s'.
Proof.
  intros (Ha & Hw & Hc & Hr & Hs) Hst. destruct Hst as [s t p delay c d Ht Hall Hp Hd E|s l1 t p l2 c d El Ht Hall E].
  - destruct (fw_keeps t p delay (ctl s) c d E) as (Kr & Kw & Kd). specialize (Kd Hd). unfold sim_inv. cbn [now ctl waiting asked answers stores]. split_and!.
    + rewrite Ha, map_app. simpl. rewrite <- !app_assoc. by rewrite (Permutation_app_comm _ [p]).
    + apply Forall_app. split; [|by repeat constructor; try apply Hp; simpl; lia].
      apply Forall_forall. intros w Hin. rewrite Forall_forall in Hw, Hall. split; [by apply Hw|by apply Hall].
    + pose proof (counted_request garbage t p delay (ctl s) (waiting s) (t + d) Hp Hc) as H. by rewrite E in H.
    + by rewrite Kr.
    + destruct (write p) eqn:Ew; [|by rewrite app_nil_r, Kw].
      destruct (write_slot t p delay (ctl s) c d Hp E Ew) as (ttarg & wait & Es & ->). by eapply spaced_snoc.
  - rewrite El in Ha, Hw, Hc. apply Forall_app in Hw as [Hw1 [[Hp _] Hw2]%Forall_cons].
    unfold sim_inv; simpl. split_and!.
    + rewrite Ha, !map_app. simpl. rewrite (Permutation_app_comm (map snd (answers s)) [p]). simpl. by rewrite <- !Permutation_middle.
    + apply Forall_forall. intros w Hin. rewrite Forall_forall in Hall. split; [|by apply Hall].
      apply elem_of_app in Hin as [Hin|Hin]; [rewrite Forall_forall in Hw1; by apply Hw1|rewrite Forall_forall in Hw2; by apply Hw2].
    + by eapply counted_callback.
    + unfold peq_cb in E. rewrite len_slot in E by done. unfold reads. rewrite filter_app, filter_cons. simpl.
      destruct (write p) eqn:Ew; cbn [negb] in E.
      * case_match; [|done]. injection E as <- <-. simpl. by rewrite app_nil_r.
      * destruct (slot_at t _ _) as [wait next] eqn:Es. case_match; [|done]. injection E as <- <-. simpl. by eapply spaced_snoc.
    + unfold peq_cb in E. destruct (if negb (write p) then _ else _). case_match; [|done]. by injection E as <- <-.
Qed.

Lemma sim_start_inv garbage : sim_inv garbage (sim_start garbage).
Proof.
  unfold sim_inv, sim_start. simpl. split_and!; [done|done| |apply spaced_nil..].
  unfold counted. split_and!; [done| |by rewrite Z.add_0_r]. intros i Hi. do 4 (destruct i as [|i]; [done|]). unfold NSOCKETS in Hi. lia.
Qed.

Lemma sim_steps_inv garbage s s' : sim_inv garbage s -> rtc step s s' -> sim_inv garbage s'.
Proof. intros Hs Hr. induction Hr as [|s s1 s2 H _ IH]; [done|]. apply IH. by eapply sim_step_inv. Qed.

(** A callback is always possible while something waits: the earliest. *)
Lemma earliest (l : list (Z * payload)) : l <> [] -> exists l1 t p l2, l = l1 ++ (t, p) :: l2 /\ Forall (fun w => t <= fst w) (l1 ++ l2).
Proof.
  induction l as [|[t p] l IH]; [done|]. intros _. destruct l as [|w l]; [exists [], t, p, []; by repeat constructor|].
  destruct (IH ltac:(done)) as (l1 & t' & p' & l2 & -> & Hall). destruct (decide (t <= t')) as [Hle|Hle].
  - exists [], t, p, (l1 ++ (t', p') :: l2). split; [done|]. simpl. apply Forall_app in Hall as [H1 H2].
    apply Forall_app. split; [|constructor; [done|]]; eapply Forall_impl; try eassumption; simpl; lia.
  - exists ((t, p) :: l1), t', p', l2. split; [done|]. constructor; [simpl; lia|done].
Qed.

Lemma drains garbage s : sim_inv garbage s -> exists s', rtc step s s' /\ waiting s' = [] /\ asked s' = asked s.
Proof.
  remember (length (waiting s)) as n eqn:En. revert s En. induction n as [|n IH]; intros s En Hs.
  { exists s. split; [constructor|]. by destruct (waiting s). }
  destruct (earliest (waiting s)) as (l1 & t & p & l2 & El & Hall); [by destruct (waiting s)|].
  pose proof Hs as (_ & Hw & _). rewrite El in Hw. apply Forall_app in Hw as [_ [[Hp Ht] _]%Forall_cons].
  destruct (peq_cb t p (ctl s)) as [[c d]|] eqn:E.
  - pose proof (s_callback s l1 t p l2 c d El Ht Hall E) as Hst.
    match type of Hst with step _ ?s1 => assert (Hn : n = length (waiting s1)) by (rewrite El, length_app in En; simpl; rewrite length_app; simpl in En; lia) end.
    pose proof (sim_step_inv garbage _ _ Hs Hst) as Hs1. destruct (IH _ Hn Hs1) as (s' & Hr & H1 & H2).
    exists s'. split; [by eapply rtc_l|done].
  - exfalso. unfold peq_cb in E. destruct Hp as [[_ Hp] _]. simpl in Hp. rewrite (proj2 (Z.ltb_lt _ _) Hp) in E. by destruct (if negb (write p) then _ else _).
Qed.

(** * Names of the memory ports *)

(** The first place of a substring, as the rest of the string from there. *)
Fixpoint strstr (s needle : string) : option string :=
  if String.prefix needle s then Some s else match s with String _ s => strstr s needle | EmptyString => None end.

(** The number a load-store unit gives its requests: from the digit after
    "lsu" in its hierarchical name, even for the write port. *)
(* @src ip/sysc/lsu.h 319-320 mm2s::ct_command id *)
Definition mm2s_id (name : string) : option Z :=
  match strstr name "lsu" with
  | Some unit => c ← String.get 3 unit; Some (u32 ((Z.of_N (Ascii.N_of_ascii c) - 48 - 1) * 2 + 1))
  | None => Some (u32 (-1))
  end.
(* @src ip/sysc/lsu.h 532-533 s2mm::ct_command id *)
Definition s2mm_id (name : string) : option Z :=
  match strstr name "lsu" with
  | Some unit => c ← String.get 3 unit; Some (u32 ((Z.of_N (Ascii.N_of_ascii c) - 48 - 1) * 2 + 0))
  | None => Some (u32 (-1))
  end.

(** The sockets of the controller, in order, and the engines they serve. *)
(* @src ip/sysc/kvs.cpp 209-212 sc_main *)
Definition sockets : list (string -> option Z) * list string :=
  ([s2mm_id; mm2s_id; s2mm_id; mm2s_id],
   ["u_acc.u_lsu1.u_s2mm"; "u_acc.u_lsu1.u_mm2s"; "u_acc.u_lsu2.u_s2mm"; "u_acc.u_lsu2.u_mm2s"]%string).

(** * The processor *)

Module cpu.

(* @src ip/sysc/port_axis.h 10-10 RLEVEL *)
Definition RLEVEL : bool := false.

(** The thread: edges still to wait for, or inside the program. *)
Inductive th := Wait (edges : nat) | Program.

(** [th_main] from its first line, with the level of the reset; and how often
    the program has been entered. *)
(* @src ip/sysc/cpu.h 20-22 th_main *)
Definition th_main (reset : bool) (entered : nat) : th * nat :=
  if Bool.eqb reset RLEVEL then (Wait 2, entered) else (Program, S entered).

(** A clock edge: a thread whose reset is active begins again. *)
(* @src ip/sysc/cpu.h 65-67 cpu *)
Definition edge (reset : bool) (s : th * nat) : th * nat :=
  if Bool.eqb reset RLEVEL then th_main reset (snd s)
  else match s with
       | (Wait (S (S n)), k) => (Wait (S n), k)
       | (Wait _, k) => (Program, S k)
       | (Program, k) => (Program, k)
       end.

(** The reset is the pulse of sc_main, one cycle late and two cycles long; a
    thread reads the value from before the edge. *)
(* @src ip/sysc/kvs.cpp 179-200 sc_main *)
Definition reset (n : nat) : bool := pulse.sig (pulse.after 1 2 RLEVEL n).

Fixpoint after (n : nat) : th * nat :=
  match n with
  | O => th_main (reset 0) 0
  | S n => edge (reset n) (after n)
  end.

Lemma reset_late n : reset (4 + n) = true.
Proof.
  unfold reset. destruct (pulse.phase_after 1 2 RLEVEL (3 + n)) as [_ H]. cbv zeta in H.
  replace (pulse.counted 1) with 1 in H by reflexivity. replace (pulse.counted 2) with 2 in H by reflexivity. simpl (2 =? 0) in H. cbn iota in H.
  rewrite !(proj2 (Z.leb_gt _ _)) in H by lia. destruct H as [H _]. exact H.
Qed.

Lemma after_S n : after (S n) = edge (reset n) (after n).
Proof. done. Qed.

Lemma after_late n : after (6 + n) = (Program, 1%nat).
Proof.
  induction n as [|n IH]; [done|]. rewrite Nat.add_succ_r, after_S, IH. by replace (6 + n)%nat with (4 + (2 + n))%nat by lia; rewrite reset_late.
Qed.
End cpu.

(** * Theorems *)

(** C16: The memory of the simulation, in every state that requests of its ports
    and the callbacks of its queue can reach: every request is waiting or
    answered, once; the counters of the ports are the requests that wait, while
    the total is off by whatever the constructor found in it; responses to
    reads are spaced so that the bytes between any two of them had their time
    on the bus, and so are the slots of the writes; and the requests that
    wait can all be answered. *)
Theorem memory_paced garbage s :
  rtc step (sim_start garbage) s ->
  asked s ≡ₚ map snd (waiting s) ++ map snd (answers s) /\
  (forall i, (i < NSOCKETS)%nat -> reqcnt (ctl s) !! i = Some (u32 (Z.of_nat (length (of_port i (waiting s)))))) /\
  treqcnt (ctl s) = u32 (garbage + Z.of_nat (length (waiting s))) /\
  (forall l1 t p l2 t' p' l3, reads (answers s) = l1 ++ (t, p) :: l2 ++ (t', p') :: l3 -> 30 * (len p + bytes l2) <= t' - t) /\
  (forall l1 t p l2 t' p' l3, stores s = l1 ++ (t, p) :: l2 ++ (t', p') :: l3 -> 30 * (len p + bytes l2) <= t' - t) /\
  exists s', rtc step s s' /\ waiting s' = [] /\ asked s ≡ₚ map snd (answers s').
Proof.
  intros Hr. pose proof (sim_steps_inv garbage _ _ (sim_start_inv garbage) Hr) as Hi. destruct (drains garbage s Hi) as (s' & Hr' & Hw & Ha).
  pose proof (sim_steps_inv garbage _ _ Hi Hr') as (Ha' & _). destruct Hi as (H1 & _ & (_ & H2 & H3) & [_ H4] & [_ H5]).
  split_and!; [done..| | |].
  - intros l1 t p l2 t' p' l3 E. specialize (H4 _ _ _ _ _ _ _ E). unfold _PSPB in H4. lia.
  - intros l1 t p l2 t' p' l3 E. specialize (H5 _ _ _ _ _ _ _ E). unfold _PSPB in H5. lia.
  - exists s'. split_and!; [done..|]. by rewrite <- Ha, Ha', Hw.
Qed.

(** Two reads of 64 bytes at once: the second response waits for the first. *)
Lemma memory_paced_witness :
  let p := {| width := 1; write := false; len := 64 |} in
  let s := {| now := 64800; ctl := {| reqcnt := [0; 0; 0; 0]; treqcnt := 0; nextrd := 62900 + 2 * 64 * 30; nextwr := 0 |};
              waiting := []; asked := [p; p]; answers := [(62900, p); (64820, p)]; stores := [] |} in
  rtc step (sim_start 0) s /\ reads (answers s) = answers s /\
  (forall l1 t q l2 t' q' l3, reads (answers s) = l1 ++ (t, q) :: l2 ++ (t', q') :: l3 -> 30 * (len q + bytes l2) <= t' - t).
Proof.
  intros p s. assert (Hp : proper p) by (repeat split; discriminate).
  assert (Hr : rtc step (sim_start 0) s).
  { eapply rtc_l; [exact (s_request (sim_start 0) 0 p 0 _ _ (Z.le_refl 0) (Forall_nil_2 _) Hp (Z.le_refl 0) eq_refl)|].
    vm_compute Z.add.
    eapply rtc_l; [eapply (s_request _ 0 p 0 _ _); [discriminate|by repeat constructor|exact Hp|discriminate|vm_compute; reflexivity]|].
    eapply rtc_l; [eapply (s_callback _ [] 62900 p [(64800, p)] _ _); [vm_compute; reflexivity|discriminate|by repeat constructor|vm_compute; reflexivity]|].
    eapply rtc_l; [eapply (s_callback _ [] 64800 p [] _ _); [vm_compute; reflexivity|discriminate|by repeat constructor|vm_compute; reflexivity]|].
    apply rtc_refl. }
  split; [exact Hr|split; [reflexivity|]]. by destruct (memory_paced 0 s Hr) as (_ & _ & _ & H & _).
Defined.

(** With anything but zero left in the total, the first request is already
    delayed as if so many were waiting. *)
Theorem queue_delay_garbage garbage now p c d :
  0 <= garbage -> garbage + 1 < 2 ^ 20 -> proper p -> write p = false ->
  nb_transport_fw now p 0 (HMCController_new garbage) = (c, d) -> d = 1900 * (garbage + 1) + 61000.
Proof.
  intros H0 H1 [[Hp0 Hp] _] Hw E. unfold nb_transport_fw in E. rewrite Hw, (proj2 (Z.ltb_lt _ _) Hp) in E. injection E as _ <-.
  cbn [treqcnt HMCController_new]. unfold _PSPE. rewrite u32_step, (wrap_id 32 (garbage + 1)) by (split; lia). rewrite wrap_id by (split; lia).
  unfold T_DRAM_R, T_QUEUE_R, T_R, T_DRAM_R, T_TRANS. lia.
Qed.

Lemma queue_delay_garbage_witness :
  exists c, nb_transport_fw 0 {| width := 1; write := false; len := 64 |} 0 (HMCController_new 1000) = (c, 1900 * (1000 + 1) + 61000).
Proof.
  destruct (nb_transport_fw 0 {| width := 1; write := false; len := 64 |} 0 (HMCController_new 1000)) as [c d] eqn:E. exists c. assert (Hp : proper {| width := 1; write := false; len := 64 |}) by (repeat split; discriminate).
  rewrite (queue_delay_garbage 1000 0 {| width := 1; write := false; len := 64 |} c d); [reflexivity|discriminate|reflexivity|exact Hp|reflexivity|exact E].
Defined.

(** Every socket is bound to the engine whose requests carry its number, so
    responses go back where the request came from and all four exist. *)
Theorem sockets_numbered i f name :
  sockets.1 !! i = Some f -> sockets.2 !! i = Some name -> f name = Some (Z.of_nat i) /\ (i < NSOCKETS)%nat.
Proof. intros Hf Hn. do 4 (destruct i as [|i]; [injection Hf as <-; injection Hn as <-; split; [vm_compute; reflexivity|unfold NSOCKETS; lia]|]). done. Qed.

Lemma sockets_numbered_witness : mm2s_id "u_acc.u_lsu2.u_mm2s" = Some 3 /\ (3 < NSOCKETS)%nat.
Proof. apply (sockets_numbered 3 mm2s_id "u_acc.u_lsu2.u_mm2s"%string); reflexivity. Defined.

(** With the reset pulse of the simulation the program is entered once, at the
    sixth clock edge, two edges after the reset was let go, and is never begun
    again. *)
Theorem program_starts_once n : cpu.after n = if (n <? 6)%nat then (fst (cpu.after n), 0%nat) else (cpu.Program, 1%nat).
Proof.
  do 6 (destruct n as [|n]; [done|]). exact (cpu.after_late n).
Qed.
