(* ===== verification/HashHw.v ===== *)
(** The hash unit of the accelerator (ip/sysc/shash.h, hsu.h): the clocked
    pipeline and the combinational logic around it.

    The pipeline is a stage of Handshake.v: whatever the stalls, it gives out
    the mix of every key it accepted, in order, at most eleven enabled cycles
    later, and the mix is the software hash of a key of up to 16 bytes. *)
From S2P Require Import Prelude Handshake ShortHash ShortHashProofs.
Open Scope Z_scope.

(* @src ip/sysc/shash.h 7-11 KEYLW, KEYW, TAPW, NUMW, STAGES *)
Definition KEYLW : Z := 8.
Definition KEYW : Z := 128.
Definition TAPW : Z := 256.
Definition NUMW : Z := TAPW / 4.
Definition STAGES : nat := 12.

Module short_hash.
(** The register arrays [a], [b], [c], [d], transposed: the four registers
    of each stage, and the valid bits. *)
(* @src ip/sysc/shash.h 26-31 short_hash registers *)
Record regs := { abcd : list acc; v : Z }.

(** [sc_bv<NUMW>::lrotate]. *)
Definition lrotate (x ro : Z) : Z := Z.lor (Z.shiftl (x mod 2 ^ (NUMW - ro)) ro) (x / 2 ^ (NUMW - ro)).

(** The new [y] and [x] of the next stage; [u] and [t] are copied. *)
(* @src ip/sysc/shash.h 33-47 emix *)
Definition emix (y x : Z) (ro : Z) : Z * Z :=
  let xr := lrotate x ro in
  (wrap NUMW (Z.lxor y x + xr), xr).

Definition emix_dcba ro s := let '(y, x) := emix (d s) (c s) ro in {| a := a s; b := b s; c := x; d := y |}.
Definition emix_adcb ro s := let '(y, x) := emix (a s) (d s) ro in {| a := y; b := b s; c := c s; d := x |}.
Definition emix_badc ro s := let '(y, x) := emix (b s) (a s) ro in {| a := x; b := y; c := c s; d := d s |}.
Definition emix_cbad ro s := let '(y, x) := emix (c s) (b s) ro in {| a := a s; b := x; c := y; d := d s |}.

(** From stage [i] to stage [i+1]. *)
(* @src ip/sysc/shash.h 77-89 ms_mix stages *)
Definition rounds : list (acc -> acc) :=
  [emix_dcba 15; emix_adcb 52; emix_badc 26;
   emix_cbad 51; emix_dcba 28; emix_adcb 9; emix_badc 47;
   emix_cbad 54; emix_dcba 32; emix_adcb 25; emix_badc 63].

(** Stage 0, from the key word [(len,data[1],data[0])] and the tap
    [(tapi[3],tapi[2],tapi[1],tapi[0])]. *)
(* @src ip/sysc/shash.h 69-75 ms_mix inputs *)
Definition stage0 (s_dat s_tap : Z) : acc :=
  let len := get_field 128 KEYLW s_dat in
  let data i := get_field (64 * i) 64 s_dat in
  let tapi i := get_field (64 * i) 64 s_tap in
  {| a := Z.lxor (tapi 0) len;
     b := Z.lxor (tapi 1) (not_w NUMW len);
     c := wrap NUMW (tapi 2 + data 0);
     d := wrap NUMW (tapi 3 + data 1) |}.

(** [(d[11],c[11],b[11],a[11])]. *)
Definition concat_tap (x : acc) : Z :=
  a x + 2 ^ 64 * b x + 2 ^ 128 * c x + 2 ^ 192 * d x.

Definition zero_acc : acc := {| a := 0; b := 0; c := 0; d := 0 |}.
Definition last_stage (s : regs) : acc := nth 11 (abcd s) zero_acc.

(** [s_dat.ready], [s_tap.ready], [m_tap.data] and [m_tap.valid]. *)
(* @src ip/sysc/shash.h 49-55 mc_mix *)
Definition mc_mix (s : regs) (m_ready dat_valid tap_valid : bool) : bool * bool * Z * bool :=
  (m_ready && tap_valid, m_ready && dat_valid, concat_tap (last_stage s), Z.testbit (v s) 11).

(* @src ip/sysc/shash.h 57-93 ms_mix *)
Definition ms_mix (rst : bool) (s : regs) (dat_valid tap_valid : bool) (s_dat s_tap : Z) (m_ready : bool) : regs :=
  if rst then {| abcd := repeat zero_acc STAGES; v := 0 |}
  else if m_ready then
    {| abcd := stage0 s_dat s_tap :: zip_with (fun f x => f x) rounds (abcd s);
       v := wrap 12 (Z.lor (Z.shiftl (v s) 1) (Z.b2z (dat_valid && tap_valid))) |}
  else s.

(** The pipeline as a stage whose input is a key with a tap that is always
    valid, as the hash unit drives it. *)
Definition stage : Stage (Z * Z) Z := {|
  st := regs;
  do_reset s := ms_mix true s false false 0 0 false;
  ready s r := let '(rdy, _, _, _) := mc_mix s r true true in rdy;
  valid s := let '(_, _, _, v) := mc_mix s false false false in v;
  dout s := let '(_, _, t, _) := mc_mix s false false false in t;
  clock s val dt r := ms_mix false s val true (fst dt) (snd dt) r
|}.

(** What the pipeline computes of a key and a tap. *)
Definition mixed (x : acc) : acc := foldl (fun x f => f x) x rounds.
Definition hash (dt : Z * Z) : Z := concat_tap (mixed (stage0 (fst dt) (snd dt))).

(** * The pipeline keeps its promise *)

(** The results of the valid stages, the oldest first: stage [i] still has
    the rounds from [i] on to go. *)
Definition finish (i : nat) (x : acc) : Z := concat_tap (foldl (fun x f => f x) x (drop i rounds)).
Definition result (s : regs) (i : nat) : list Z :=
  if Z.testbit (v s) (Z.of_nat i) then [finish i (nth i (abcd s) zero_acc)] else [].
Definition results (s : regs) : list Z := concat (map (result s) (rev (seq 0 12))).

Definition wf (s : regs) : Prop := length (abcd s) = STAGES /\ in_word 12 (v s).

Lemma testbit_shifted s b i :
  0 <= i -> Z.testbit (wrap 12 (Z.lor (Z.shiftl (v s) 1) (Z.b2z b))) i
  = (i <? 12) && if i =? 0 then b else Z.testbit (v s) (i - 1).
Proof.
  intros Hi. rewrite testbit_wrap, Z.lor_spec, testbit_shiftl by lia. f_equal.
  destruct (Z.eqb_spec i 0) as [->|]; [by destruct b|].
  destruct (Z.leb_spec 1 i); [|lia]. replace (Z.testbit (Z.b2z b) i) with false; [by rewrite orb_false_r|].
  destruct b; simpl; [by rewrite Z.bits_above_log2; simpl; try lia|by rewrite Z.bits_0].
Qed.

Lemma finish_step i f x : rounds !! i = Some f -> finish i x = finish (S i) (f x).
Proof. intros H. unfold finish. by rewrite (drop_S _ _ _ H). Qed.

(** A pipeline step moves the result of stage [i] to stage [i+1]. *)
Lemma result_step s val tap dt i :
  wf s -> (i < 11)%nat -> result (ms_mix false s val tap (fst dt) (snd dt) true) (S i) = result s i.
Proof.
  intros [Hl _] Hi. unfold result, ms_mix. cbn [v abcd]. rewrite testbit_shifted by lia.
  destruct (Z.ltb_spec (Z.of_nat (S i)) 12); [|lia]. destruct (Z.eqb_spec (Z.of_nat (S i)) 0); [lia|]. cbn [andb].
  replace (Z.of_nat (S i) - 1) with (Z.of_nat i) by lia. destruct (Z.testbit _ _); [|done].
  destruct (lookup_lt_is_Some_2 rounds i) as [f Hf]; [simpl; lia|].
  destruct (lookup_lt_is_Some_2 (abcd s) i) as [x Hx]; [rewrite Hl; unfold STAGES; lia|].
  rewrite (finish_step i f) by done. apply (f_equal (fun x => [finish (S i) x])).
  rewrite !nth_lookup, lookup_cons. by rewrite lookup_zip_with, Hf, Hx.
Qed.

Lemma result_0 s val dt :
  result (ms_mix false s val true (fst dt) (snd dt) true) 0 = if val then [hash dt] else [].
Proof.
  unfold result, ms_mix. cbn [v abcd]. rewrite testbit_shifted by lia. rewrite andb_true_r.
  cbn [Z.of_nat Z.eqb Z.ltb Z.compare andb]. destruct val; [|reflexivity].
  apply (f_equal (fun x => [x])). unfold hash, mixed, finish. cbn [nth]. rewrite drop_0. reflexivity.
Qed.

Lemma results_split s : results s = result s 11 ++ concat (map (result s) (rev (seq 0 11))).
Proof. unfold results. rewrite (seq_S 11 0), rev_app_distr. done. Qed.

Lemma results_step s val dt :
  wf s -> results (ms_mix false s val true (fst dt) (snd dt) true)
  = concat (map (result s) (rev (seq 0 11))) ++ (if val then [hash dt] else []).
Proof.
  intros Hs. unfold results. change (seq 0 12) with (0%nat :: seq 1 11). rewrite <- seq_shift.
  change (rev (0%nat :: map S (seq 0 11))) with (rev (map S (seq 0 11)) ++ [0%nat]).
  rewrite <- map_rev, map_app, map_map, concat_app. f_equal.
  - f_equal. apply map_ext_in. intros i Hi. apply in_rev, in_seq in Hi. apply result_step; [done|lia].
  - cbn [map concat]. by rewrite app_nil_r, result_0.
Qed.

Lemma wf_ms_mix s val tap dt r : wf s -> wf (ms_mix false s val tap (fst dt) (snd dt) r).
Proof.
  intros [Hl Hv]. unfold ms_mix. destruct r; [|done]. split; simpl; [|by apply wrap_range].
  destruct s as [l vs]. simpl in *. by do 12 (destruct l as [|? l]; [done|]); destruct l.
Qed.

(** A valid bit at stage [i] reaches the output in [11 - i] cycles. *)
Lemma bit_soon n s i :
  wf s -> Z.testbit (v s) (Z.of_nat i) = true -> (i + n = 11)%nat -> soon (S := stage) n s.
Proof.
  revert s i. induction n as [|n IH]; intros s i Hs Hb Hi.
  { apply soon_now. cbn. rewrite Nat.add_0_r in Hi. by subst i. }
  apply (soon_later (S := stage)). intros val dt. apply (IH _ (S i)); [by apply wf_ms_mix| |lia].
  change (Z.testbit (wrap 12 (Z.lor (Z.shiftl (v s) 1) (Z.b2z (val && true)))) (Z.of_nat (S i)) = true).
  rewrite testbit_shifted by lia. destruct (Z.ltb_spec (Z.of_nat (S i)) 12); [|lia].
  destruct (Z.eqb_spec (Z.of_nat (S i)) 0); [lia|]. by replace (Z.of_nat (S i) - 1) with (Z.of_nat i) by lia.
Qed.

Lemma finish_11 s : wf s -> finish 11 (nth 11 (abcd s) zero_acc) = concat_tap (last_stage s).
Proof. done. Qed.

#[local, refine] Instance stage_ok : StageOk stage hash := {
  shape _ := True;
  inv := wf;
  contents := results;
  cap := 12;
  lat := 11
}.
Proof.
  - intros s _. split; [|done]. split; [done|by vm_compute].
  - intros s val dt r Hs. by apply wf_ms_mix.
  - intros s Hs Hv. change (Z.testbit (v s) 11 = true) in Hv. rewrite results_split. unfold result at 1.
    change (Z.of_nat 11) with 11. by rewrite Hv.
  - intros s val dt r Hs.
    change (results (ms_mix false s val true (fst dt) (snd dt) r)
            = (if Z.testbit (v s) 11 && r then List.tl (results s) else results s)
              ++ (if val && (r && true) then [hash dt] else [])).
    destruct r; [|by rewrite !andb_false_r, app_nil_r].
    etrans; [by apply results_step|]. rewrite !andb_true_r. rewrite results_split.
    assert (E : result s 11 = if Z.testbit (v s) 11 then [finish 11 (nth 11 (abcd s) zero_acc)] else []) by reflexivity.
    rewrite E. by destruct (Z.testbit (v s) 11).
  - intros s Hs. unfold results.
    assert (H : forall l, (length (concat (map (result s) l)) <= length l)%nat).
    { induction l as [|i l IH]; simpl; [lia|]. rewrite length_app. unfold result at 1. destruct (Z.testbit _ _); simpl; lia. }
    exact (H (rev (seq 0 12))).
  - done.
  - intros s Hs Hc.
    assert (Hb : exists i, (i <= 11)%nat /\ Z.testbit (v s) (Z.of_nat i) = true).
    { destruct (existsb (fun i => Z.testbit (v s) (Z.of_nat i)) (seq 0 12)) eqn:E.
      - apply existsb_exists in E as (i & Hi & Hb). apply in_seq in Hi. exists i. split; [lia|done].
      - destruct Hc. unfold results. apply concat_nil_Forall, Forall_map, Forall_forall. intros i Hi.
        apply list_elem_of_In, in_rev in Hi. unfold result. destruct (Z.testbit _ _) eqn:Eb; [|done].
        enough (existsb (fun i => Z.testbit (v s) (Z.of_nat i)) (seq 0 12) = true) by congruence.
        apply existsb_exists. by exists i. }
    destruct Hb as (i & Hi & Hb). eapply (soon_weaken (11 - i) 11); [eapply (bit_soon _ _ i); [done|done|lia]|lia].
Defined.
End short_hash.

(** * The pipeline computes the software hash *)

Lemma lrotate_Rot64 x ro : 0 <= ro <= 64 -> in_word 64 x -> short_hash.lrotate x ro = Rot64 x ro.
Proof.
  intros Hr Hx. unfold short_hash.lrotate, Rot64. change NUMW with 64.
  rewrite <- Z.shiftr_div_pow2, <- Z.land_ones by lia. f_equal. Zbits.
Qed.

Section Rounds.
Context (ro : Z) (s : acc) (Hr : 0 <= ro <= 64) (Hs : wf_acc s).

Lemma emix_soft y x : in_word 64 x -> short_hash.emix y x ro = Soft.EMIX y x ro.
Proof using Hr. intros Hx. unfold short_hash.emix, Soft.EMIX. by rewrite lrotate_Rot64. Qed.

Lemma dcba_soft : short_hash.emix_dcba ro s = Soft.EMIX_dc ro s.
Proof. unfold short_hash.emix_dcba, Soft.EMIX_dc. rewrite emix_soft; [done|apply Hs]. Qed.
Lemma adcb_soft : short_hash.emix_adcb ro s = Soft.EMIX_ad ro s.
Proof. unfold short_hash.emix_adcb, Soft.EMIX_ad. rewrite emix_soft; [done|apply Hs]. Qed.
Lemma badc_soft : short_hash.emix_badc ro s = Soft.EMIX_ba ro s.
Proof. unfold short_hash.emix_badc, Soft.EMIX_ba. rewrite emix_soft; [done|apply Hs]. Qed.
Lemma cbad_soft : short_hash.emix_cbad ro s = Soft.EMIX_cb ro s.
Proof. unfold short_hash.emix_cbad, Soft.EMIX_cb. rewrite emix_soft; [done|apply Hs]. Qed.
End Rounds.

Create HintDb rounds.
#[export] Hint Resolve wf_EMIX_dc wf_EMIX_ad wf_EMIX_ba wf_EMIX_cb : rounds.
#[export] Hint Extern 1 (_ <= _ <= _) => lia : rounds.

Lemma mixed_soft s : wf_acc s -> short_hash.mixed s = Soft.mix s.
Proof.
  intros Hs. unfold short_hash.mixed, short_hash.rounds, Soft.mix. cbn [foldl].
  rewrite (dcba_soft 15), (adcb_soft 52), (badc_soft 26), (cbad_soft 51), (dcba_soft 28), (adcb_soft 9), (badc_soft 47),
    (cbad_soft 54), (dcba_soft 32), (adcb_soft 25), (badc_soft 63) by auto 15 with rounds.
  reflexivity.
Qed.

(** A key of up to 16 bytes as the hash unit receives it, and the tap of a
    seed. *)
Definition key_word (key : list Z) : Z := le_val key + 2 ^ 128 * Z.of_nat (length key).
Definition seed_tap (seed : Z) : Z := seed + 2 ^ 64 * seed + 2 ^ 128 * INIT_VAL + 2 ^ 192 * INIT_VAL.

Lemma tap_fields a b c d :
  in_word 64 a -> in_word 64 b -> in_word 64 c -> in_word 64 d ->
  let t := a + 2 ^ 64 * b + 2 ^ 128 * c + 2 ^ 192 * d in
  get_field (64 * 0) 64 t = a /\ get_field (64 * 1) 64 t = b /\ get_field (64 * 2) 64 t = c /\ get_field (64 * 3) 64 t = d.
Proof.
  intros Ha Hb Hc Hd. cbv zeta.
  assert (Hab : in_word 128 (a + 2 ^ 64 * b)) by (by apply (pack_range 64 64)).
  assert (Habc : in_word 192 (a + 2 ^ 64 * b + 2 ^ 128 * c)) by (by apply (pack_range 128 64)).
  split_and!.
  - rewrite !field_below by lia. rewrite get_field_div by lia. rewrite Z.div_1_r. by apply (wrap_id 64).
  - rewrite !field_below by lia. rewrite field_low by (done || lia). by apply (wrap_id 64).
  - rewrite !field_below by lia. rewrite (field_low (64 * 2)) by (done || lia). by apply (wrap_id 64).
  - rewrite (field_low (64 * 3)) by (done || lia). by apply (wrap_id 64).
Qed.

(** The eight-byte halves of a key, padded with zeros. *)
Definition key_half (i : nat) (key : list Z) : Z := le_val (take 8 (drop (8 * i) (key ++ repeat 0 (16 - length key)))).

Lemma key_fields key :
  (length key <= 16)%nat -> Forall (in_word 8) key ->
  get_field 128 KEYLW (key_word key) = Z.of_nat (length key) /\
  get_field (64 * 0) 64 (key_word key) = key_half 0 key /\ get_field (64 * 1) 64 (key_word key) = key_half 1 key.
Proof.
  intros Hl Hk. unfold key_word, key_half.
  set (p := key ++ repeat 0 (16 - length key)).
  assert (Hp : length p = 16%nat) by (unfold p; rewrite length_app, repeat_length; lia).
  assert (Hpb : Forall (in_word 8) p) by (apply Forall_app; split; [done|apply Forall_forall; intros x Hx%list_elem_of_In%repeat_spec; by subst x]).
  assert (Hv : le_val key = le_val p) by (unfold p; by rewrite le_val_app, le_val_zeros, Z.mul_0_r, Z.add_0_r).
  assert (Hpv : le_val p = le_val (take 8 (drop (8 * 0) p)) + 2 ^ 64 * le_val (take 8 (drop (8 * 1) p))).
  { rewrite <- (take_drop 8 p) at 1. rewrite le_val_app, length_take, Hp. f_equal. do 2 f_equal.
    symmetry. apply take_ge. rewrite length_drop, Hp. simpl; lia. }
  assert (Hr : forall i, (i <= 1)%nat -> in_word 64 (le_val (take 8 (drop (8 * i) p)))).
  { intros i Hi. assert (H8 : length (take 8 (drop (8 * i) p)) = 8%nat) by (rewrite length_take, length_drop, Hp; lia).
    pose proof (le_val_range (take 8 (drop (8 * i) p)) ltac:(by apply Forall_take, Forall_drop)) as H. by rewrite H8 in H. }
  assert (H128 : in_word 128 (le_val p)) by (rewrite Hpv; apply (pack_range 64 64); auto; lia).
  rewrite Hv. split_and!.
  - rewrite (field_low 128) by (done || lia). apply (wrap_id 8). split; lia.
  - rewrite field_below by lia. rewrite Hpv, field_below by lia. rewrite get_field_div by lia. rewrite Z.div_1_r.
    apply (wrap_id 64). by apply Hr; lia.
  - rewrite field_below by lia. rewrite Hpv. rewrite (field_low (64 * 1)) by (apply Hr; lia) || lia. apply (wrap_id 64). apply Hr. lia.
Qed.

(** One pass of the software loop, for a key of at most 16 bytes. *)
Definition soft_first (key : list Z) (seed : Z) : acc :=
  {| a := Z.lxor (u64 seed) (u64 (Z.of_nat (length key)));
     b := Z.lxor (u64 seed) (not64 (u64 (Z.of_nat (length key))));
     c := add64 INIT_VAL (key_half 0 key); d := add64 INIT_VAL (key_half 1 key) |}.

Lemma soft_one_pass key seed :
  (0 < length key <= 16)%nat ->
  Soft.short128_hash key (Z.of_nat (length key)) seed
  = Some (a (Soft.mix (soft_first key seed)), b (Soft.mix (soft_first key seed))).
Proof.
  intros Hl. unfold Soft.short128_hash. rewrite Nat2Z.id.
  assert (Hloop : Soft.loop (S (length key)) key (Z.of_nat (length key))
            {| a := u64 seed; b := u64 seed; c := INIT_VAL; d := INIT_VAL |} = Some (Soft.mix (soft_first key seed))).
  { destruct (length key) as [|n] eqn:En; [lia|]. cbn [Soft.loop]. destruct (Z.ltb_spec 0 (Z.of_nat (S n))); [|lia].
    assert (Hinit : in_word 64 INIT_VAL) by (by vm_compute). cbn [a b c d].
    unfold soft_first, key_half. rewrite En. destruct (Z.ltb_spec (Z.of_nat (S n)) 16) as [H16|H16].
    - rewrite tail_equiv by (done || lia). unfold Pipelined.tail. rewrite Nat2Z.id, decide_True by lia.
      rewrite (take_ge key) by lia. cbn [mbind option_bind]. reflexivity.
    - assert (n = 15%nat) as -> by lia. rewrite (load_spec 8 (8 * 0) key), (load_spec 8 (8 * 1) key) by lia. cbn [mbind option_bind].
      rewrite app_nil_r. reflexivity. }
  by rewrite Hloop.
Qed.

Lemma stage0_soft key seed :
  (length key <= 16)%nat -> Forall (in_word 8) key -> in_word 4 seed ->
  short_hash.stage0 (key_word key) (seed_tap seed) = soft_first key seed.
Proof.
  intros Hl Hk Hs. destruct (key_fields key Hl Hk) as (E1 & E2 & E3).
  assert (Hs64 : in_word 64 seed) by (by apply (in_word_weaken 4)).
  assert (Hi : in_word 64 INIT_VAL) by (by vm_compute).
  destruct (tap_fields seed seed INIT_VAL INIT_VAL Hs64 Hs64 Hi Hi) as (F0 & F1 & F2 & F3).
  unfold short_hash.stage0, seed_tap. rewrite E1, E2, E3, F0, F1, F2, F3. unfold soft_first.
  rewrite !(wrap_id 64 seed), (wrap_id 64 (Z.of_nat _)) by (done || (split; lia)). done.
Qed.

Lemma key_half_range i key : (i <= 1)%nat -> (length key <= 16)%nat -> Forall (in_word 8) key -> in_word 64 (key_half i key).
Proof.
  intros Hi Hl Hk. unfold key_half. set (p := key ++ repeat 0 (16 - length key)).
  assert (Hp : length p = 16%nat) by (unfold p; rewrite length_app, repeat_length; lia).
  assert (Hpb : Forall (in_word 8) p) by (apply Forall_app; split; [done|apply Forall_forall; intros x Hx%list_elem_of_In%repeat_spec; by subst x]).
  assert (H8 : length (take 8 (drop (8 * i) p)) = 8%nat) by (rewrite length_take, length_drop, Hp; lia).
  pose proof (le_val_range (take 8 (drop (8 * i) p)) ltac:(by apply Forall_take, Forall_drop)) as H. by rewrite H8 in H.
Qed.

Lemma wf_soft_first key seed : wf_acc (soft_first key seed).
Proof. unfold wf_acc, soft_first. simpl. split_and!; auto 6 using in_word_lxor, add64_range, not64_range with words. Qed.

(** The low 128 bits the pipeline gives for a key are the software hash. *)
Lemma hash_software key seed :
  (0 < length key <= 16)%nat -> Forall (in_word 8) key -> in_word 4 seed ->
  let h := short_hash.hash (key_word key, seed_tap seed) in
  Soft.short128_hash key (Z.of_nat (length key)) seed = Some (get_field 0 64 h, get_field 64 64 h).
Proof.
  intros Hl Hk Hs. cbv zeta. rewrite soft_one_pass by done. unfold short_hash.hash, short_hash.concat_tap. cbn [fst snd].
  rewrite stage0_soft by (done || lia). rewrite mixed_soft by apply wf_soft_first.
  destruct (wf_mix _ (wf_soft_first key seed)) as (Ha & Hb & Hc & Hd).
  destruct (tap_fields _ _ _ _ Ha Hb Hc Hd) as (F0 & F1 & _).
  change (64 * 0) with 0 in F0. change (64 * 1) with 64 in F1. cbv zeta in F0, F1. by rewrite F0, F1.
Qed.

(** C11: the hardware pipeline, from reset: whatever the keys of up to 16
    bytes that arrive, with any gaps and any stalls, the outputs so far are
    the software hashes of the keys accepted first, in order, at most twelve
    keys are inside, and once the consumer stays ready for 144 cycles the
    hashes of all of them have come out. *)
Theorem pipeline_software s cs s' keys outs seed cs2 s2 ins2 outs2 :
  Forall (fun k => (0 < length k <= 16)%nat /\ Forall (in_word 8) k) keys -> in_word 4 seed ->
  run (S := short_hash.stage) (do_reset (Stage := short_hash.stage) s) cs
    = (s', map (fun k => (key_word k, seed_tap seed)) keys, outs) ->
  Forall (fun c => snd c = true) cs2 -> (144 <= length cs2)%nat -> run s' cs2 = (s2, ins2, outs2) ->
  let soft o := Some (get_field 0 64 o, get_field 64 64 o) in
  map soft outs = map (fun k => Soft.short128_hash k (Z.of_nat (length k)) seed) (take (length outs) keys) /\
  (length keys <= length outs + 12)%nat /\
  map soft (take (length keys) (outs ++ outs2)) = map (fun k => Soft.short128_hash k (Z.of_nat (length k)) seed) keys.
Proof.
  intros Hk Hs Hr Hrd Hl Hr2. cbv zeta. pose (O := short_hash.stage_ok).
  destruct (reset_order (SO := O) s cs s' _ outs I Hr) as (_ & Ho & Hc). rewrite map_map in Ho.
  destruct (reset_drains (SO := O) s cs cs2 s' _ outs s2 ins2 outs2 I Hr Hrd) as [rest Hrest]; [exact Hl|exact Hr2|].
  rewrite map_map in Hrest.
  set (h := fun k => short_hash.hash (key_word k, seed_tap seed)) in *.
  assert (Hsoft : forall l, Forall (fun k => (0 < length k <= 16)%nat /\ Forall (in_word 8) k) l ->
            map (fun o => Some (get_field 0 64 o, get_field 64 64 o)) (map h l)
            = map (fun k => Soft.short128_hash k (Z.of_nat (length k)) seed) l).
  { intros l Hl'. rewrite map_map. apply map_ext_in. intros k Hin. rewrite Forall_forall in Hl'.
    destruct (Hl' k) as [Hn Hb]; [by apply list_elem_of_In|]. symmetry. by apply hash_software. }
  pose proof (f_equal length Ho) as Hn. rewrite length_app, length_map in Hn. simpl in Hc.
  split_and!.
  - rewrite <- Hsoft by (by apply Forall_take). f_equal. rewrite <- firstn_map, <- Ho. by rewrite take_app_length.
  - simpl in Hn. lia.
  - rewrite Hrest, take_app_le by (rewrite length_map; lia). rewrite take_ge by (rewrite length_map; lia). by apply Hsoft.
Qed.

Definition ex_keys : list (list Z) := [[1; 2; 3]; [9; 8; 7; 6; 5; 4; 3; 2]].
Definition ex_word (i : nat) : Z * Z := (key_word (nth i ex_keys []), seed_tap 13).
Definition ex_cycles : list (@cycle (Z * Z)) :=
  [(true, ex_word 0, false); (true, ex_word 0, true); (false, (0, 0), true); (true, ex_word 1, true); (true, (5, 5), false)].
Definition ex_power_up : short_hash.regs := {| short_hash.abcd := []; short_hash.v := 77 |}.

Lemma pipeline_software_witness :
  let soft o := Some (get_field 0 64 o, get_field 64 64 o) in
  let r := run (S := short_hash.stage) (do_reset (Stage := short_hash.stage) ex_power_up) ex_cycles in
  let r2 := run (S := short_hash.stage) (fst (fst r)) (repeat (false, (0, 0), true) 144) in
  map soft (snd r) = map (fun k => Soft.short128_hash k (Z.of_nat (length k)) 13) (take (length (snd r)) ex_keys) /\
  (length ex_keys <= length (snd r) + 12)%nat /\
  map soft (take (length ex_keys) (snd r ++ snd r2)) = map (fun k => Soft.short128_hash k (Z.of_nat (length k)) 13) ex_keys.
Proof.
  intros soft r r2.
  apply (pipeline_software ex_power_up ex_cycles (fst (fst r)) ex_keys (snd r) 13 (repeat (false, (0, 0), true) 144)
           (fst (fst r2)) (snd (fst r2)) (snd r2)).
  - repeat constructor; simpl; lia.
  - by vm_compute.
  - vm_compute. reflexivity.
  - apply Forall_forall. by intros c Hc%list_elem_of_In%repeat_spec; subst c.
  - vm_compute. lia.
  - clearbody r. unfold r2. by destruct (run _ _) as [[??]?].
Defined.
