(* ===== verification/Axis.v ===== *)
(** The control and data streams of the accelerator and the units on the
    control path (ip/sysc/port_axis.h, port_dma.h, cswitch.h, ctlreg.h), with
    the stream library the software uses in simulation
    (shared/sysc/stream.cpp).

    A clocked thread is modelled by what one turn of its loop reads from its
    input streams, writes to its output streams and does to the registers; a
    stream is the list of the flits in transit.  [None] means that the turn
    blocks on an empty stream.  [wait()] calls, which only take time, are left
    out. *)
From S2P Require Import Prelude Stream.
Open Scope Z_scope.

(* @src ip/sysc/port_axis.h 13-17 CR, CA, CD, CU, CI *)
Definition CR : Z := 8.
Definition CA : Z := 3.
Definition CD : Z := 32.
Definition CU : Z := 8.
Definition CI : Z := 4.
(* @src ip/sysc/port_axis.h 21-23 DD, DU, DI *)
Definition DD : Z := 64.

(** * Formats *)

Module RACC. (* register access command *)
(* @src ip/sysc/port_axis.h 45-52 RACC *)
Record t := { len : Z; sel : Z; wr : Z; go : Z }.
(** The concatenation [(go,wr,sel,len)], both ways. *)
(* @src ip/sysc/port_axis.h 42-68 RACC::ui_t *)
Definition ui (r : t) : Z := Z.lor (Z.lor (Z.lor (Z.shiftl (go r) 7) (Z.shiftl (wr r) 6)) (Z.shiftl (sel r) 3)) (len r).
Definition of_ui (u : Z) : t :=
  {| len := get_field 0 3 u; sel := get_field 3 3 u; wr := get_field 6 1 u; go := get_field 7 1 u |}.
Definition zero : t := of_ui 0.
End RACC.

Module AXI_TC. (* control flit *)
(* @src ip/sysc/port_axis.h 96-108 AXI_TC *)
Record t := { tdata : Z; tid : Z; tdest : Z; tuser : RACC.t; tlast : bool }.
End AXI_TC.

Module AXI_TD. (* data flit *)
(* @src ip/sysc/port_axis.h 160-172 AXI_TD *)
Record t := { tdata : Z; tid : Z; tdest : Z; tkeep : Z; tuser : Z; tlast : bool }.
End AXI_TD.

Module ACMD. (* access command *)
(* @src ip/sysc/ctlreg.h 18-25 ACMD *)
Record t := { sid : Z; did : Z; srac : RACC.t; drac : RACC.t }.
End ACMD.

Module TAG.
(* @src ip/sysc/port_dma.h 34-39 TAG *)
Record t := { did : Z; req : Z }.
End TAG.

Module DMAC. (* DMA command *)
(* @src ip/sysc/port_dma.h 79-86 DMAC *)
Record t := { size : Z; last : Z; addr : Z; tag : TAG.t }.
End DMAC.

Module DMAS. (* DMA status *)
(* @src ip/sysc/port_dma.h 130-138 DMAS *)
Record t := { tag : TAG.t; interr : Z; decerr : Z; slverr : Z; okay : Z }.
(** [(okay,slverr,decerr,interr,tag.req,tag.did)]. *)
(* @src ip/sysc/port_dma.h 127-154 DMAS::ui_t *)
Definition ui (s : t) : Z :=
  Z.lor (Z.lor (Z.lor (Z.lor (Z.lor (Z.shiftl (okay s) 8) (Z.shiftl (slverr s) 7)) (Z.shiftl (decerr s) 6))
    (Z.shiftl (interr s) 5)) (Z.shiftl (TAG.req (tag s)) 4)) (TAG.did (tag s)).
End DMAS.

(** * The simulated stream library *)

Module Sysc.
(* @src shared/stream.h 19-23 hdr_t *)
Record hdr_t := { tdest : Z; tid : Z; tuser : Z }.
(** The header as it lies in a buffer word. *)
Definition hdr_of (w : Z) : hdr_t := {| tdest := get_field 0 8 w; tid := get_field 8 8 w; tuser := get_field 16 16 w |}.
Definition hdr_word (h : hdr_t) : Z := Z.lor (Z.lor (tdest h) (Z.shiftl (tid h) 8)) (Z.shiftl (tuser h) 16).

(* @src shared/stream.h 25-28 stream_t *)
Record stream_t := { id : Z; s_hdr : hdr_t; m_hdr : hdr_t }.

(* @src ip/sysc/cpuif.h 8-8 MAX_PORTS *)
Definition MAX_PORTS : Z := 2.

(* @src shared/sysc/stream.cpp 23-28 stream_init *)
Definition stream_init (port : stream_t) (id : Z) : Z * stream_t :=
  if MAX_PORTS <=? id then (1, port) else (0, {| id := id; s_hdr := s_hdr port; m_hdr := m_hdr port |}).

(** A flit of the packet: the routing fields keep their low bits. *)
Definition flit (h : hdr_t) (data : Z) (last : bool) : AXI_TC.t :=
  {| AXI_TC.tdata := data; AXI_TC.tid := wrap CI (tid h); AXI_TC.tdest := wrap CI (tdest h);
     AXI_TC.tuser := RACC.of_ui (wrap CU (tuser h)); AXI_TC.tlast := last |}.

(* @src shared/sysc/stream.cpp 40-54 stream_send words *)
Fixpoint send_words (h : hdr_t) (endp : bool) (ws : list Z) : list AXI_TC.t :=
  match ws with
  | [] => []
  | [w] => [flit h w endp]
  | w :: ws => flit h w false :: send_words h endp ws
  end.

(** The status, the port and the flits written. *)
(* @src shared/sysc/stream.cpp 30-57 stream_send *)
Definition stream_send (port : stream_t) (buf : list Z) (size flags : Z) : Z * stream_t * list AXI_TC.t :=
  let ws := take (Z.to_nat (u32 (size / 4))) buf in
  let endp := truthy (Z.land flags F_ENDP) in
  match ws with
  | w :: ws' =>
      if truthy (Z.land flags F_BEGP) then
        let port := {| id := id port; s_hdr := s_hdr port; m_hdr := hdr_of w |} in
        (0, port, send_words (m_hdr port) endp ws')
      else (0, port, send_words (m_hdr port) endp ws)
  | [] => (0, port, [])
  end.

(** Reading [n] payload words; the status is decided by the last one. *)
(* @src shared/sysc/stream.cpp 73-81 stream_recv words *)
Fixpoint recv_words (n : nat) (endp : bool) (q : list AXI_TC.t) : option (Z * list Z * list AXI_TC.t) :=
  match n with
  | O => Some (0, [], q)
  | S n' =>
      match q with
      | [] => None
      | f :: q =>
          match n' with
          | O => Some (if Bool.eqb endp (AXI_TC.tlast f) then 0 else 1, [AXI_TC.tdata f], q)
          | S _ => '(r, ws, q) ← recv_words n' endp q; Some (r, AXI_TC.tdata f :: ws, q)
          end
      end
  end.

(** The status, the port, the words stored and the flits left. *)
(* @src shared/sysc/stream.cpp 59-84 stream_recv *)
Definition stream_recv (port : stream_t) (size flags : Z) (q : list AXI_TC.t) : option (Z * stream_t * list Z * list AXI_TC.t) :=
  let words := Z.to_nat (u32 (size / 4)) in
  let endp := truthy (Z.land flags F_ENDP) in
  if truthy (Z.land flags F_BEGP) && negb (Nat.eqb words 0) then
    match q with
    | [] => None
    | f :: q =>
        let h := {| tdest := AXI_TC.tdest f; tid := AXI_TC.tid f; tuser := RACC.ui (AXI_TC.tuser f) |} in
        let port := {| id := id port; s_hdr := h; m_hdr := m_hdr port |} in
        match (words - 1)%nat with
        | O => Some (0, port, [hdr_word h], q)
        | S n => '(r, ws, q) ← recv_words n endp q; Some (r, port, hdr_word h :: AXI_TC.tdata f :: ws, q)
        end
    end
  else '(r, ws, q) ← recv_words words endp q; Some (r, port, ws, q).
End Sysc.

(** * The control switch *)

(** Output port of a flit. *)
(* @src ip/sysc/cswitch.h 24-41 csw_demux *)
Definition csw_demux (N : Z) (f : AXI_TC.t) : Z :=
  if N =? 2 then Z.land (AXI_TC.tdest f) (N - 1) else Z.land (Z.shiftr (AXI_TC.tdest f) 1) (N - 1).

(** One turn of the multiplexer: the first input that holds a flit. *)
(* @src ip/sysc/cswitch.h 64-81 csw_mux *)
Fixpoint csw_mux (ports : list (list AXI_TC.t)) : option (AXI_TC.t * list (list AXI_TC.t)) :=
  match ports with
  | [] => None
  | (f :: q) :: ports => Some (f, q :: ports)
  | [] :: ports => '(f, ports) ← csw_mux ports; Some (f, [] :: ports)
  end.

(** * The register file of a unit *)

Module ctlreg.
(** A clock edge of the registers: the unit's own write of a register wins
    over the control port's. *)
(* @src ip/sysc/ctlreg.h 175-192 ms_reg_write *)
Definition ms_reg_write (s_we : list bool) (s_reg : list Z) (awe : bool) (asel ain : Z) (c_reg : list Z) : list Z :=
  imap (fun i r =>
    if nth i s_we false then nth i s_reg 0
    else if (Z.of_nat i =? asel) && awe then ain else r) c_reg.

Section Command.
(** The unit's write ports, which hold still during the packet. *)
Context (s_we : list bool) (s_reg : list Z).

Definition write_reg (sel data : Z) (regs : list Z) : list Z := ms_reg_write s_we s_reg true sel data regs.

(** The further flits of a write packet; [sel] counts in [CA] bits. *)
(* @src ip/sysc/ctlreg.h 116-128 ct_command write loop *)
Fixpoint write_loop (n : nat) (sel : Z) (regs : list Z) (q : list AXI_TC.t) : option (list Z * list AXI_TC.t) :=
  match n with
  | O => Some (regs, q)
  | S n' =>
      match q with
      | [] => None
      | f :: q => write_loop n' (wrap CA (sel + 1)) (write_reg sel (AXI_TC.tdata f) regs) q
      end
  end.

(** One packet: the registers after it, the command sent to the response
    process (a read), the command sent to the unit ([go]), the flits left.
    [--len] wraps, so a length of zero writes eight registers. *)
(* @src ip/sysc/ctlreg.h 98-150 ct_command *)
Definition ct_command (regs : list Z) (q : list AXI_TC.t) : option (list Z * option ACMD.t * option ACMD.t * list AXI_TC.t) :=
  match q with
  | [] => None
  | f :: q =>
      let u := AXI_TC.tuser f in
      let goc := if RACC.go u =? 1 then
                   Some {| ACMD.sid := AXI_TC.tid f; ACMD.did := AXI_TC.tdest f; ACMD.srac := RACC.zero; ACMD.drac := u |}
                 else None in
      if RACC.wr u =? 1 then
        let regs := write_reg (RACC.sel u) (AXI_TC.tdata f) regs in
        '(regs, q) ← write_loop (Z.to_nat (wrap CA (RACC.len u - 1))) (wrap CA (RACC.sel u + 1)) regs q;
        Some (regs, None, goc, q)
      else
        let rdc := {| ACMD.sid := AXI_TC.tdest f; ACMD.did := AXI_TC.tid f; ACMD.srac := u; ACMD.drac := u |} in
        Some (regs, Some rdc, goc, q)
  end.
End Command.

(** The flits of a response: [len] registers from the selected one on. *)
(* @src ip/sysc/ctlreg.h 152-173 ct_response *)
Fixpoint response_loop (n : nat) (sel : Z) (acmd : ACMD.t) (regs : list Z) : list AXI_TC.t :=
  match n with
  | O => []
  | S n' =>
      {| AXI_TC.tid := ACMD.sid acmd; AXI_TC.tdest := ACMD.did acmd; AXI_TC.tuser := ACMD.drac acmd;
         AXI_TC.tdata := nth (Z.to_nat sel) regs 0; AXI_TC.tlast := Nat.eqb n' 0 |}
      :: response_loop n' (wrap CA (sel + 1)) acmd regs
  end.
Definition ct_response (acmd : ACMD.t) (regs : list Z) : list AXI_TC.t :=
  response_loop (Z.to_nat (RACC.len (ACMD.srac acmd))) (RACC.sel (ACMD.srac acmd)) acmd regs.
End ctlreg.
