(* ===== verification/AxiFlits.v ===== *)
(** The channels of an AXI memory port as words (ip/sysc/port_axi.h): every
    flit is a class of bit fields that is assigned from and converted to the
    concatenation of its fields; and the two formats of the streams that are
    made the same way (ip/sysc/port_axis.h, port_dma.h).

    Widths of identifiers, addresses and data are those of a build. *)
From S2P Require Import Prelude Axis.
Open Scope Z_scope.

(** * Concatenation *)

Definition total (ws : list Z) : Z := foldr Z.add 0 ws.

(** [(a,b,...)], the most significant field first: as a value, and as what is
    assigned to. *)
Fixpoint join (ws vs : list Z) : Z :=
  match ws, vs with w :: ws, v :: vs => Z.lor (Z.shiftl v (total ws)) (join ws vs) | _, _ => 0 end.
Fixpoint cut (ws : list Z) (u : Z) : list Z :=
  match ws with w :: ws => get_field (total ws) w u :: cut ws u | [] => [] end.

Definition typed (ws vs : list Z) : Prop := Forall2 in_word ws vs.

Lemma total_ge0 ws : Forall (fun w => 0 <= w) ws -> 0 <= total ws.
Proof. induction 1; simpl; lia. Qed.

Lemma join_range ws vs : Forall (fun w => 0 <= w) ws -> typed ws vs -> in_word (total ws) (join ws vs).
Proof.
  intros Hw Hv. induction Hv as [|w v ws vs Hwv _ IH]; [by split|]. apply Forall_cons in Hw as [H0 Hw]. pose proof (total_ge0 ws Hw) as Ht.
  simpl. apply in_word_lor; [lia| |]; [by rewrite Z.add_comm, (Z.add_comm (total ws)); apply in_word_shiftl|].
  apply (in_word_weaken (total ws)); [lia|by apply IH].
Qed.

Lemma cut_above ws x u n : Forall (fun w => 0 <= w) ws -> total ws <= n -> cut ws (Z.lor (Z.shiftl x n) u) = cut ws u.
Proof.
  intros Hw. revert n. induction Hw as [|w ws H0 Hw IH]; intros n Hn; [done|]. simpl in *. pose proof (total_ge0 ws Hw) as Ht. f_equal; [|apply IH; lia].
  apply Z.bits_inj'. intros i Hi. unfold get_field. rewrite !Z.land_spec, !testbit_shiftr, testbit_ones, Z.lor_spec, testbit_shiftl by lia.
  destruct (Z.leb_spec n (i + total ws)), (Z.ltb_spec i w), (Z.leb_spec 0 i); simpl; rewrite ?andb_false_r; try done; lia.
Qed.

Lemma cut_join ws vs : Forall (fun w => 0 <= w) ws -> typed ws vs -> cut ws (join ws vs) = vs.
Proof.
  intros Hw Hv. induction Hv as [|w v ws vs Hwv Hv IH]; [done|]. apply Forall_cons in Hw as [H0 Hw].
  pose proof (total_ge0 ws Hw) as Ht. pose proof (join_range ws vs Hw Hv) as Hj. simpl. f_equal; [|rewrite cut_above by (done || lia); by apply IH].
  apply Z.bits_inj'. intros i Hi. unfold get_field. rewrite Z.land_spec, testbit_shiftr, testbit_ones, Z.lor_spec, testbit_shiftl by lia.
  rewrite (testbit_high (total ws) (join ws vs)) by (done || lia). rewrite orb_false_r.
  replace (i + total ws - total ws) with i by lia. rewrite (proj2 (Z.leb_le 0 i)), (proj2 (Z.leb_le (total ws) (i + total ws))) by lia. simpl.
  destruct (Z.ltb_spec i w); [by rewrite andb_true_r|]. rewrite (testbit_high w v) by (done || lia). done.
Qed.

Lemma cut_typed ws u : Forall (fun w => 0 <= w) ws -> typed ws (cut ws u).
Proof. intros Hw. induction Hw; simpl; constructor; [by apply get_field_range|done]. Qed.

Lemma join_cut ws u : Forall (fun w => 0 <= w) ws -> join ws (cut ws u) = wrap (total ws) u.
Proof.
  intros Hw. induction Hw as [|w ws H0 Hw IH]; [by unfold wrap; simpl; rewrite Z.mod_1_r|]. pose proof (total_ge0 ws Hw) as Ht.
  simpl. rewrite IH. apply Z.bits_inj'. intros i Hi. rewrite Z.lor_spec, testbit_shiftl, !testbit_wrap by lia.
  unfold get_field. rewrite Z.land_spec, testbit_shiftr, testbit_ones by lia.
  destruct (Z.leb_spec (total ws) i), (Z.ltb_spec i (total ws)), (Z.ltb_spec i (w + total ws)), (Z.leb_spec 0 (i - total ws)), (Z.ltb_spec (i - total ws) w); simpl; try lia; rewrite ?andb_false_r, ?andb_true_r, ?orb_false_r; try done.
  f_equal. lia.
Qed.

(** * Flits *)

(* @src ip/sysc/port_dma.h 9-13 MD, MA, MI *)
Definition MD : Z := 64.
Definition MA : Z := 32.
Definition MI : Z := 2.

(** A class of bit fields, with its concatenation: widths, fields and how to
    build it from them, most significant first. *)
Class Flit (T : Type) := {
  widths : list Z;
  fields : T -> list Z;
  make : list Z -> T;
  widths_nonneg : Forall (fun w => 0 <= w) widths;
  make_fields : forall f, make (fields f) = f;
  fields_make : forall l, length l = length widths -> fields (make l) = l
}.

(* @src ip/sysc/port_axi.h 55-58 operator ui_t *)
Definition ui {T} `{Flit T} (f : T) : Z := join widths (fields f).
(* @src ip/sysc/port_axi.h 44-53 operator= *)
Definition of_ui {T} `{Flit T} (u : Z) : T := make (cut widths u).
(** Every field is within its width. *)
Definition ok {T} `{Flit T} (f : T) : Prop := typed widths (fields f).

Ltac solve_flit :=
  first [by repeat constructor | by intros [] | by intros [[] ? ? ? ?]
  | intros l Hl; simpl in Hl; repeat (destruct l as [|? l]; simpl in Hl; try lia); reflexivity].

Module AXI_AW. (* write address *)
(* @src ip/sysc/port_axi.h 27-42 AXI_AW *)
Record t := { awid : Z; awaddr : Z; awlen : Z; awsize : Z; awburst : Z; awlock : Z; awcache : Z; awprot : Z }.
(* @src ip/sysc/port_axi.h 24-25 AXI_AW_CONCAT *)
Definition concat (f : t) : list Z := [awprot f; awcache f; awlock f; awburst f; awsize f; awlen f; awaddr f; awid f].
(* @src ip/sysc/port_axi.h 44-53 AXI_AW *)
Definition assign (l : list Z) : t :=
  match l with
  | [prot; cache; lock; burst; size; len; addr; id] =>
      {| awid := id; awaddr := addr; awlen := len; awsize := size; awburst := burst; awlock := lock; awcache := cache; awprot := prot |}
  | _ => Build_t 0 0 0 0 0 0 0 0
  end.
#[global] Program Instance aw_flit : Flit t := {| widths := [3; 4; 1; 2; 3; 8; MA; MI]; fields := concat; make := assign |}.
Solve All Obligations with solve_flit.
End AXI_AW.

Module AXI_W. (* write data *)
(* @src ip/sysc/port_axi.h 69-78 AXI_W *)
Record t := { wdata : Z; wstrb : Z; wlast : Z }.
(* @src ip/sysc/port_axi.h 66-67 AXI_W_CONCAT *)
Definition concat (f : t) : list Z := [wlast f; wstrb f; wdata f].
(* @src ip/sysc/port_axi.h 80-89 AXI_W *)
Definition assign (l : list Z) : t :=
  match l with [last; strb; data] => {| wdata := data; wstrb := strb; wlast := last |} | _ => Build_t 0 0 0 end.
#[global] Program Instance w_flit : Flit t := {| widths := [1; (MD + 7) / 8; MD]; fields := concat; make := assign |}.
Solve All Obligations with solve_flit.
End AXI_W.

Module AXI_B. (* write response *)
(* @src ip/sysc/port_axi.h 105-112 AXI_B *)
Record t := { bid : Z; bresp : Z }.
(* @src ip/sysc/port_axi.h 102-103 AXI_B_CONCAT *)
Definition concat (f : t) : list Z := [bresp f; bid f].
(* @src ip/sysc/port_axi.h 114-123 AXI_B *)
Definition assign (l : list Z) : t :=
  match l with [resp; id] => {| bid := id; bresp := resp |} | _ => Build_t 0 0 end.
#[global] Program Instance b_flit : Flit t := {| widths := [2; MI]; fields := concat; make := assign |}.
Solve All Obligations with solve_flit.
End AXI_B.

Module AXI_AR. (* read address *)
(* @src ip/sysc/port_axi.h 139-154 AXI_AR *)
Record t := { arid : Z; araddr : Z; arlen : Z; arsize : Z; arburst : Z; arlock : Z; arcache : Z; arprot : Z }.
(* @src ip/sysc/port_axi.h 136-137 AXI_AR_CONCAT *)
Definition concat (f : t) : list Z := [arprot f; arcache f; arlock f; arburst f; arsize f; arlen f; araddr f; arid f].
(* @src ip/sysc/port_axi.h 156-165 AXI_AR *)
Definition assign (l : list Z) : t :=
  match l with
  | [prot; cache; lock; burst; size; len; addr; id] =>
      {| arid := id; araddr := addr; arlen := len; arsize := size; arburst := burst; arlock := lock; arcache := cache; arprot := prot |}
  | _ => Build_t 0 0 0 0 0 0 0 0
  end.
#[global] Program Instance ar_flit : Flit t := {| widths := [3; 4; 1; 2; 3; 8; MA; MI]; fields := concat; make := assign |}.
Solve All Obligations with solve_flit.
End AXI_AR.

Module AXI_R. (* read data *)
(* @src ip/sysc/port_axi.h 181-190 AXI_R *)
Record t := { rid : Z; rdata : Z; rresp : Z; rlast : Z }.
(* @src ip/sysc/port_axi.h 178-179 AXI_R_CONCAT *)
Definition concat (f : t) : list Z := [rlast f; rresp f; rdata f; rid f].
(* @src ip/sysc/port_axi.h 192-201 AXI_R *)
Definition assign (l : list Z) : t :=
  match l with [last; resp; data; id] => {| rid := id; rdata := data; rresp := resp; rlast := last |} | _ => Build_t 0 0 0 0 end.
#[global] Program Instance r_flit : Flit t := {| widths := [1; 2; MD; MI]; fields := concat; make := assign |}.
Solve All Obligations with solve_flit.
End AXI_R.

(** The register access command and the DMA status of Axis.v. *)
#[export] Program Instance racc_flit : Flit RACC.t := {|
  widths := [1; 1; 3; 3];
  fields r := [RACC.go r; RACC.wr r; RACC.sel r; RACC.len r];
  make l := match l with [go; wr; sel; len] => {| RACC.len := len; RACC.sel := sel; RACC.wr := wr; RACC.go := go |} | _ => RACC.Build_t 0 0 0 0 end
|}.
Solve All Obligations with solve_flit.
#[export] Program Instance dmas_flit : Flit DMAS.t := {|
  widths := [1; 1; 1; 1; 1; 4];
  fields s := [DMAS.okay s; DMAS.slverr s; DMAS.decerr s; DMAS.interr s; TAG.req (DMAS.tag s); TAG.did (DMAS.tag s)];
  make l := match l with
            | [okay; slverr; decerr; interr; req; did] =>
                {| DMAS.tag := {| TAG.did := did; TAG.req := req |}; DMAS.interr := interr; DMAS.decerr := decerr; DMAS.slverr := slverr; DMAS.okay := okay |}
            | _ => DMAS.Build_t (TAG.Build_t 0 0) 0 0 0 0
            end
|}.
Solve All Obligations with solve_flit.

(** Conversion to a word and back. *)
Lemma flit_faithful {T} `{Flit T} :
  (forall f, ok f -> of_ui (ui f) = f /\ in_word (total widths) (ui f)) /\
  (forall u, ok (of_ui u) /\ ui (of_ui u) = wrap (total widths) u).
Proof.
  assert (E : forall u, fields (of_ui u) = cut widths u).
  { intros u. apply fields_make. induction widths; simpl; congruence. }
  pose proof widths_nonneg as Hw. split; [intros f Hf; split|intros u; split].
  - unfold of_ui, ui. rewrite cut_join by done. apply make_fields.
  - by apply join_range.
  - unfold ok. rewrite E. by apply cut_typed.
  - unfold ui. rewrite E. by apply join_cut.
Qed.

(** * Theorems *)

(** The five channels: a flit with its fields in range survives the
    conversion to a word and back and fits the word; every word gives such a
    flit, which converts to the bits of the word that the type has; and the
    words have the widths of the classes' [ui_t]. *)
Theorem axi_flits_roundtrip :
  (forall f : AXI_AW.t, ok f -> of_ui (ui f) = f /\ in_word (MI + MA + 8 + 3 + 2 + 1 + 4 + 3) (ui f)) /\
  (forall f : AXI_W.t, ok f -> of_ui (ui f) = f /\ in_word (MD + (MD + 7) / 8 + 1) (ui f)) /\
  (forall f : AXI_B.t, ok f -> of_ui (ui f) = f /\ in_word (MI + 2) (ui f)) /\
  (forall f : AXI_AR.t, ok f -> of_ui (ui f) = f /\ in_word (MI + MA + 8 + 3 + 2 + 1 + 4 + 3) (ui f)) /\
  (forall f : AXI_R.t, ok f -> of_ui (ui f) = f /\ in_word (MI + MD + 2 + 1) (ui f)) /\
  forall u,
    (ok (of_ui (T := AXI_AW.t) u) /\ ui (of_ui (T := AXI_AW.t) u) = wrap 55 u) /\
    (ok (of_ui (T := AXI_W.t) u) /\ ui (of_ui (T := AXI_W.t) u) = wrap 73 u) /\
    (ok (of_ui (T := AXI_B.t) u) /\ ui (of_ui (T := AXI_B.t) u) = wrap 4 u) /\
    (ok (of_ui (T := AXI_AR.t) u) /\ ui (of_ui (T := AXI_AR.t) u) = wrap 55 u) /\
    (ok (of_ui (T := AXI_R.t) u) /\ ui (of_ui (T := AXI_R.t) u) = wrap 69 u).
Proof.
  split_and!; [exact (proj1 flit_faithful)..|]. intros u.
  repeat (split; [exact (proj2 flit_faithful u)|]). exact (proj2 flit_faithful u).
Qed.

(** The register access command and the DMA status use the same scheme, so
    what a control packet carries comes back too. *)
Theorem stream_formats_roundtrip :
  (forall r : RACC.t, RACC.ui r = ui r /\ forall u, RACC.of_ui u = of_ui u) /\
  (forall r : RACC.t, ok r -> RACC.of_ui (RACC.ui r) = r) /\
  (forall s : DMAS.t, DMAS.ui s = ui s /\ (ok s -> of_ui (DMAS.ui s) = s)).
Proof.
  assert (Er : forall r : RACC.t, RACC.ui r = ui r).
  { intros [len sel wr go]. unfold RACC.ui, ui. simpl. by rewrite Z.shiftl_0_r, Z.lor_0_r, !Z.lor_assoc. }
  assert (Eo : forall u, RACC.of_ui u = of_ui u) by done.
  assert (Ed : forall s : DMAS.t, DMAS.ui s = ui s).
  { intros [[did req] i d sl o]. unfold DMAS.ui, ui. simpl. by rewrite Z.shiftl_0_r, Z.lor_0_r, !Z.lor_assoc. }
  split_and!; [done| |].
  - intros r Hr. rewrite Er, Eo. by apply flit_faithful.
  - intros s. split; [done|]. intros Hs. rewrite Ed. by apply flit_faithful.
Qed.

(** The strobes of a write flit of seven bytes. *)
Example write_flit : ui {| AXI_W.wdata := 0x1122334455667788; AXI_W.wstrb := 0x7F; AXI_W.wlast := 1 |} = 0x17F1122334455667788.
Proof. reflexivity. Qed.
