(* ===== verification/Switch.v ===== *)
(** The control switch of the accelerator (ip/sysc/cswitch.h) and how the
    lookup design connects its units with it (ip/sysc/kvs.h).

    A switch has a demultiplexer for every input, wires without storage from
    each to every output, and for every output a multiplexer with a queue.
    Their threads take steps in any order.  In the model every flit carries
    the number of the input it came in at, which nothing reads. *)
From S2P Require Import Prelude Axis.
Open Scope nat_scope.

(** * The threads *)

(* @src ip/sysc/cswitch.h 12-12 QDEPTH *)
Definition QDEPTH : nat := 11.

Abbreviation flit := (nat * AXI_TC.t)%type.

Definition upd {A} (i : nat) (v : A) (f : nat -> A) : nat -> A := fun k => if decide (k = i) then v else f k.

(** [s_port]: what is still to arrive; [xbar]: what a demultiplexer is
    writing; [taken]: what a multiplexer has read and is writing to its queue;
    [m_port]: what was delivered. *)
(* @src ip/sysc/cswitch.h 84-96 cswitch *)
Record cswitch := { s_port : nat -> list flit; xbar : nat -> option flit; taken : nat -> option flit; queue : nat -> list flit; m_port : nat -> list flit }.

Definition start (ins : nat -> list flit) : cswitch :=
  {| s_port := ins; xbar := fun _ => None; taken := fun _ => None; queue := fun _ => []; m_port := fun _ => [] |}.

Section Csw.
Context (N : nat).

Definition route (f : flit) : nat := Z.to_nat (csw_demux (Z.of_nat N) (snd f)).

(* @src ip/sysc/cswitch.h 24-41 ct_demux *)
Definition demux_read (i : nat) (s : cswitch) : option cswitch :=
  match xbar s i, s_port s i with
  | None, f :: q => Some {| s_port := upd i q (s_port s); xbar := upd i (Some f) (xbar s); taken := taken s; queue := queue s; m_port := m_port s |}
  | _, _ => None
  end.

(** The first input, in order, that has a flit for output [j]. *)
(* @src ip/sysc/cswitch.h 73-79 ct_mux priority encoder *)
Fixpoint encode (s : cswitch) (j : nat) (order : list nat) : option (nat * flit) :=
  match order with
  | [] => None
  | i :: order => match xbar s i with
               | Some f => if decide (route f = j) then Some (i, f) else encode s j order
               | None => encode s j order
               end
  end.

(* @src ip/sysc/cswitch.h 64-81 ct_mux *)
Definition mux_read (j : nat) (s : cswitch) : option cswitch :=
  match taken s j with
  | None =>
      '(i, f) ← encode s j (seq 0 N);
      Some {| s_port := s_port s; xbar := upd i None (xbar s); taken := upd j (Some f) (taken s); queue := queue s; m_port := m_port s |}
  | Some _ => None
  end.
(* @src ip/sysc/cswitch.h 76-76 c_queue.write *)
Definition mux_write (j : nat) (s : cswitch) : option cswitch :=
  match taken s j with
  | Some f =>
      if decide (length (queue s j) < QDEPTH) then
        Some {| s_port := s_port s; xbar := xbar s; taken := upd j None (taken s); queue := upd j (queue s j ++ [f]) (queue s); m_port := m_port s |}
      else None
  | None => None
  end.
(** The output takes a flit. *)
(* @src ip/sysc/cswitch.h 83-91 csw_mux u_queue *)
Definition deliver (j : nat) (s : cswitch) : option cswitch :=
  match queue s j with
  | f :: q => Some {| s_port := s_port s; xbar := xbar s; taken := taken s; queue := upd j q (queue s); m_port := upd j (m_port s j ++ [f]) (m_port s) |}
  | [] => None
  end.

Inductive step (s s' : cswitch) : Prop :=
  | s_demux i : i < N -> demux_read i s = Some s' -> step s s'
  | s_mux j : j < N -> mux_read j s = Some s' -> step s s'
  | s_queue j : j < N -> mux_write j s = Some s' -> step s s'
  | s_out j : j < N -> deliver j s = Some s' -> step s s'.

(** * What a state holds *)

Definition opt (o : option flit) : list flit := match o with Some f => [f] | None => [] end.
(** Flits of input [i]; flits for output [j]. *)
Definition from (i : nat) (l : list flit) : list flit := filter (fun f => fst f = i) l.
Definition to (j : nat) (l : list flit) : list flit := filter (fun f => route f = j) l.

(** Past the crossbar, in order; and before it. *)
Definition past (s : cswitch) (j : nat) : list flit := m_port s j ++ queue s j ++ opt (taken s j).
Definition ahead (s : cswitch) (i : nat) : list flit := opt (xbar s i) ++ s_port s i.

Definition inv (ins : nat -> list flit) (s : cswitch) : Prop :=
  (forall i j, i < N -> j < N -> from i (past s j) ++ to j (ahead s i) = to j (ins i)) /\
  (forall i, i < N -> Forall (fun f => fst f = i) (ahead s i)) /\
  (forall j, j < N -> Forall (fun f => route f = j /\ fst f < N) (past s j) /\ length (queue s j) <= QDEPTH).

(** Steps still to take. *)
Definition in_work (s : cswitch) (i : nat) : nat := 4 * length (s_port s i) + 3 * length (opt (xbar s i)).
Definition out_work (s : cswitch) (j : nat) : nat := 2 * length (opt (taken s j)) + length (queue s j).
Definition work (s : cswitch) : nat := sum_list_with (in_work s) (seq 0 N) + sum_list_with (out_work s) (seq 0 N).

Lemma upd_here {A} i (v : A) f : upd i v f i = v.
Proof. unfold upd. by rewrite decide_True. Qed.
Lemma upd_other {A} i k (v : A) f : k <> i -> upd i v f k = f k.
Proof. intros Hk. unfold upd. by rewrite decide_False. Qed.

Lemma encode_Some s j order i f : encode s j order = Some (i, f) -> i ∈ order /\ xbar s i = Some f /\ route f = j.
Proof.
  induction order as [|k order IH]; [done|]. simpl. destruct (xbar s k) as [g|] eqn:E.
  - case_decide as Er; [intros [= -> ->]; split_and!; [by left|done|done]|]. intros H. destruct (IH H) as (?&?&?). split_and!; [by right|done|done].
  - intros H. destruct (IH H) as (?&?&?). split_and!; [by right|done|done].
Qed.

(** The highest priority: nothing before it in the order is for [j]. *)
Lemma encode_None s j order : encode s j order = None -> forall i f, i ∈ order -> xbar s i = Some f -> route f <> j.
Proof.
  induction order as [|k order IH]; [by intros _ ? ? ?%elem_of_nil|]. simpl. intros H i f Hin Hf. apply elem_of_cons in Hin as [->|Hin].
  - rewrite Hf in H. by case_decide.
  - destruct (xbar s k) as [g|]; [case_decide; [done|]|]; by eapply IH.
Qed.


(** ** Steps *)

Lemma from_app i l l' : from i (l ++ l') = from i l ++ from i l'.
Proof. apply filter_app. Qed.
Lemma from_one i f : from i [f] = if decide (fst f = i) then [f] else [].
Proof. done. Qed.
Lemma to_cons j f l : to j (f :: l) = if decide (route f = j) then f :: to j l else to j l.
Proof. done. Qed.

Lemma demux_ahead i s s' : demux_read i s = Some s' -> (forall k, ahead s' k = ahead s k) /\ forall j, past s' j = past s j.
Proof.
  unfold demux_read. destruct (xbar s i) eqn:Ex; [done|]. destruct (s_port s i) as [|f q] eqn:Ep; [done|]. intros [= <-]. split; [|done].
  intros k. unfold ahead. simpl. destruct (decide (k = i)) as [->|Hk]; [by rewrite !upd_here, Ex, Ep|by rewrite !upd_other].
Qed.

Lemma mux_read_moves j s s' : mux_read j s = Some s' ->
  exists i f, i < N /\ xbar s i = Some f /\ route f = j /\ ahead s i = f :: ahead s' i /\ past s' j = past s j ++ [f] /\
    (forall k, k <> i -> ahead s' k = ahead s k) /\ (forall k, k <> j -> past s' k = past s k) /\ queue s' = queue s.
Proof.
  unfold mux_read. destruct (taken s j) eqn:Et; [done|]. destruct (encode s j (seq 0 N)) as [[i f]|] eqn:Ee; [|done]. intros [= <-].
  apply encode_Some in Ee as (Hi & Ex & Er). apply elem_of_seq in Hi. exists i, f. unfold ahead, past. simpl.
  rewrite !upd_here, Ex, Et. split_and!; try done; [lia|by rewrite app_nil_r, <- app_assoc| |]; intros k Hk; by rewrite upd_other.
Qed.

Lemma mux_write_past j s s' : mux_write j s = Some s' ->
  (forall k, past s' k = past s k) /\ ahead s' = ahead s /\ length (queue s' j) <= QDEPTH /\ forall k, k <> j -> queue s' k = queue s k.
Proof.
  unfold mux_write. destruct (taken s j) as [f|] eqn:Et; [|done]. case_decide as Hq; [|done]. intros [= <-]. unfold past. simpl.
  split_and!; [|done|rewrite upd_here, length_app; simpl; lia|intros k Hk; by rewrite upd_other].
  intros k. destruct (decide (k = j)) as [->|Hk]; [by rewrite !upd_here, Et, app_nil_r|by rewrite !upd_other].
Qed.

Lemma deliver_past j s s' : deliver j s = Some s' ->
  (forall k, past s' k = past s k) /\ ahead s' = ahead s /\ forall k, length (queue s' k) <= length (queue s k).
Proof.
  unfold deliver. destruct (queue s j) as [|f q] eqn:Eq; [done|]. intros [= <-]. unfold past. simpl. split_and!; [|done|].
  - intros k. destruct (decide (k = j)) as [->|Hk]; [by rewrite !upd_here, Eq, <- app_assoc|by rewrite !upd_other].
  - intros k. destruct (decide (k = j)) as [->|Hk]; [rewrite upd_here, Eq; simpl; lia|by rewrite upd_other].
Qed.

Lemma inv_start ins : (forall i, i < N -> Forall (fun f => fst f = i) (ins i)) -> inv ins (start ins).
Proof. intros Ht. split_and!; [done|exact Ht|]. intros j Hj. split; [constructor|unfold QDEPTH; simpl; lia]. Qed.

Lemma inv_step ins s s' : inv ins s -> step s s' -> inv ins s'.
Proof.
  intros (H1 & H2 & H3) [i Hi E|j Hj E|j Hj E|j Hj E].
  - assert (Hq : queue s' = queue s) by (unfold demux_read in E; repeat case_match; simplify_eq; done).
    apply demux_ahead in E as [Ea Ep]. split_and!; intros; rewrite ?Ea, ?Ep, ?Hq; auto.
  - apply mux_read_moves in E as (i & f & Hi & Ex & Er & Ea & Ep & Ha & Hp & Hq).
    assert (Hf : fst f = i) by (specialize (H2 i Hi); rewrite Ea in H2; by apply Forall_cons in H2 as [? _]).
    split_and!.
    + intros k l Hk Hl. specialize (H1 k l Hk Hl). revert H1.
      destruct (decide (l = j)) as [->|Hlj]; [rewrite Ep, from_app, from_one|rewrite (Hp l) by done];
        (destruct (decide (k = i)) as [->|Hki]; [rewrite Ea, to_cons|rewrite (Ha k) by done]); intros <-.
      * rewrite !decide_True by done. by rewrite <- app_assoc.
      * rewrite decide_False by congruence. by rewrite app_nil_r.
      * rewrite decide_False by congruence. done.
      * done.
    + intros k Hk. destruct (decide (k = i)) as [->|Hki]; [|rewrite Ha by done; auto].
      specialize (H2 i Hi). rewrite Ea in H2. by apply Forall_cons in H2 as [_ ?].
    + intros k Hk. rewrite Hq. destruct (H3 k Hk) as [H4 H5]. split; [|done].
      destruct (decide (k = j)) as [->|Hkj]; [rewrite Ep; apply Forall_app; split; [done|repeat constructor; [done|lia]]|by rewrite Hp].
  - apply mux_write_past in E as (Ep & Ea & Hq & Hk). split_and!; intros; rewrite ?Ea, ?Ep; auto.
    destruct (H3 j0) as [H4 H5]; [done|]. split; [done|]. destruct (decide (j0 = j)) as [->|?]; [done|by rewrite Hk].
  - apply deliver_past in E as (Ep & Ea & Hq). split_and!; intros; rewrite ?Ea, ?Ep; auto.
    destruct (H3 j0) as [H4 H5]; [done|]. split; [done|]. specialize (Hq j0). lia.
Qed.
(** ** Every execution ends *)

Lemma sum_ext_in (f g : nat -> nat) l : (forall k, k ∈ l -> f k = g k) -> sum_list_with f l = sum_list_with g l.
Proof. induction l as [|k l IH]; [done|]. intros H. simpl. rewrite (H k) by left. f_equal. apply IH. intros i Hi. apply H. by right. Qed.

Lemma sum_change (f g : nat -> nat) i : i < N -> (forall k, k <> i -> f k = g k) ->
  sum_list_with f (seq 0 N) + g i = sum_list_with g (seq 0 N) + f i.
Proof.
  intros Hi H. replace N with (i + S (N - i - 1)) by lia. rewrite seq_app, !sum_list_with_app. simpl.
  rewrite (sum_ext_in f g (seq 0 i)) by (intros k Hk; apply H; apply elem_of_seq in Hk; lia).
  rewrite (sum_ext_in f g (seq (S i) (N - i - 1))) by (intros k Hk; apply H; apply elem_of_seq in Hk; lia). lia.
Qed.

Lemma work_step s s' : step s s' -> S (work s') = work s.
Proof.
  unfold work. intros [i Hi E|j Hj E|j Hj E|j Hj E].
  - unfold demux_read in E. destruct (xbar s i) eqn:Ex; [done|]. destruct (s_port s i) as [|f q] eqn:Ep; [done|]. injection E as E'.
    assert (Hs : in_work s' i = 4 * length q + 3) by (subst s'; unfold in_work; simpl; rewrite !upd_here; simpl; lia).
    assert (Hi' : in_work s i = 4 * S (length q)) by (unfold in_work; rewrite Ex, Ep; simpl; lia).
    pose proof (sum_change (in_work s) (in_work s') i Hi ltac:(intros k Hk; subst s'; unfold in_work; simpl; by rewrite !upd_other)).
    replace (out_work s') with (out_work s) by (by subst s'). lia.
  - unfold mux_read in E. destruct (taken s j) eqn:Et; [done|]. destruct (encode s j (seq 0 N)) as [[i f]|] eqn:Ee; [|done]. injection E as E'.
    apply encode_Some in Ee as (Hi & Ex & _). apply elem_of_seq in Hi.
    assert (Hs : in_work s i = in_work s' i + 3) by (subst s'; unfold in_work; simpl; rewrite !upd_here, Ex; simpl; lia).
    assert (Hs' : out_work s' j = out_work s j + 2) by (subst s'; unfold out_work; simpl; rewrite !upd_here, Et; simpl; lia).
    pose proof (sum_change (in_work s) (in_work s') i ltac:(lia) ltac:(intros k Hk; subst s'; unfold in_work; simpl; by rewrite upd_other)).
    pose proof (sum_change (out_work s) (out_work s') j Hj ltac:(intros k Hk; subst s'; unfold out_work; simpl; by rewrite upd_other)). lia.
  - unfold mux_write in E. destruct (taken s j) as [f|] eqn:Et; [|done]. case_decide; [|done]. injection E as E'.
    assert (Hs : out_work s j = out_work s' j + 1) by (subst s'; unfold out_work; simpl; rewrite !upd_here, Et, length_app; simpl; lia).
    pose proof (sum_change (out_work s) (out_work s') j Hj ltac:(intros k Hk; subst s'; unfold out_work; simpl; by rewrite !upd_other)).
    replace (in_work s') with (in_work s) by (by subst s'). lia.
  - unfold deliver in E. destruct (queue s j) as [|f q] eqn:Eq; [done|]. injection E as E'.
    assert (Hs : out_work s j = out_work s' j + 1) by (subst s'; unfold out_work; simpl; rewrite !upd_here, Eq; simpl; lia).
    pose proof (sum_change (out_work s) (out_work s') j Hj ltac:(intros k Hk; subst s'; unfold out_work; simpl; by rewrite !upd_other)).
    replace (in_work s') with (in_work s) by (by subst s'). lia.
Qed.

Lemma work_steps n s s' : nsteps step n s s' -> n + work s' = work s.
Proof. induction 1 as [|n s s1 s2 H _ IH]; [done|]. apply work_step in H. lia. Qed.

Lemma inv_steps ins n s s' : inv ins s -> nsteps step n s s' -> inv ins s'.
Proof. intros Hi Hr. induction Hr as [|n s s1 s2 H _ IH]; [done|]. apply IH. by eapply inv_step. Qed.

(** ** Nothing gets stuck *)

(** The template's constraint. *)
Definition power_of_2 : Prop := exists k : nat, N = 2 ^ k.

Lemma land_last x : power_of_2 -> (Z.land x (Z.of_nat N - 1) = x mod Z.of_nat N)%Z /\ 0 < N.
Proof.
  intros [k ->]. split; [|pose proof (Nat.pow_nonzero 2 k); lia].
  rewrite Nat2Z.inj_pow. change (Z.of_nat 2) with 2%Z. rewrite <- Z.land_ones by lia. f_equal. rewrite Z.ones_equiv. lia.
Qed.

Lemma route_in f : power_of_2 -> route f < N.
Proof.
  intros HN. unfold route, csw_demux. destruct (_ =? _)%Z.
  all: match goal with |- context [Z.land ?x _] =>  destruct (land_last x HN) as [-> H0]; pose proof (Z.mod_pos_bound x (Z.of_nat N) ltac:(lia)) end; lia.
Qed.

Lemma moves s : power_of_2 -> (forall s', ~ step s s') -> forall i, i < N -> ahead s i = [] /\ queue s i = [] /\ taken s i = None.
Proof.
  intros HN Hst.
  assert (Hq : forall j, j < N -> queue s j = []).
  { intros j Hj. destruct (queue s j) as [|f q] eqn:E; [done|]. edestruct Hst. apply (s_out s _ j Hj). unfold deliver. by rewrite E. }
  assert (Ht : forall j, j < N -> taken s j = None).
  { intros j Hj. destruct (taken s j) as [f|] eqn:E; [|done]. edestruct Hst. apply (s_queue s _ j Hj). unfold mux_write.
    rewrite E, decide_True; [done|]. rewrite Hq by done. unfold QDEPTH. simpl. lia. }
  assert (Hx : forall i, i < N -> xbar s i = None).
  { intros i Hi. destruct (xbar s i) as [f|] eqn:E; [|done]. pose proof (route_in f HN) as Hr.
    destruct (encode s (route f) (seq 0 N)) as [[k g]|] eqn:Ee; [|by destruct (encode_None s (route f) (seq 0 N) Ee i f ltac:(apply elem_of_seq; lia) E)].
    edestruct Hst. apply (s_mux s _ (route f) Hr). unfold mux_read. by rewrite Ht, Ee. }
  intros i Hi. split_and!; [|auto..]. unfold ahead. rewrite Hx by done. simpl. destruct (s_port s i) as [|f q] eqn:E; [done|].
  edestruct Hst. apply (s_demux s _ i Hi). unfold demux_read. by rewrite Hx, E.
Qed.

(** What a state tells about the deliveries of one input to one output. *)
Lemma inv_order ins s i j : inv ins s -> i < N -> j < N -> exists rest, to j (ins i) = from i (m_port s j) ++ rest.
Proof.
  intros (H & _) Hi Hj. exists (from i (queue s j ++ opt (taken s j)) ++ to j (ahead s i)). rewrite <- (H i j Hi Hj). unfold past.
  by rewrite from_app, <- app_assoc.
Qed.

Lemma inv_end ins s : power_of_2 -> inv ins s -> (forall s', ~ step s s') ->
  forall i j, i < N -> j < N -> from i (m_port s j) = to j (ins i).
Proof.
  intros HN (H & _) Hst i j Hi Hj. pose proof (H i j Hi Hj) as E. destruct (moves s HN Hst i Hi) as (Ea & _ & _), (moves s HN Hst j Hj) as (_ & Eq & Et).
  unfold past in E. by rewrite Ea, Eq, Et, !app_nil_r in E.
Qed.

Lemma from_only i l : Forall (fun f => fst f = i) l -> from i l = l.
Proof. induction 1 as [|f l Hf _ IH]; [done|]. unfold from in *. rewrite filter_cons, decide_True by done. by rewrite IH. Qed.

(** If one input alone sends to [j], all that is there came from it. *)
Lemma alone ins s i j : inv ins s -> i < N -> j < N -> (forall k, k < N -> k <> i -> to j (ins k) = []) -> from i (m_port s j) = m_port s j.
Proof.
  intros (H & _ & H3) Hi Hj Ho. apply from_only. destruct (H3 j Hj) as [Hp _]. apply Forall_app in Hp as [Hp _].
  apply Forall_forall. intros f Hf. rewrite Forall_forall in Hp. destruct (Hp f Hf) as [_ Hk].
  destruct (decide (fst f = i)) as [|Hne]; [done|]. specialize (H (fst f) j Hk Hj). rewrite Ho in H by done.
  apply app_eq_nil in H as [H _]. unfold past in H. rewrite from_app in H. apply app_eq_nil in H as [H _].
  assert (Hin : f ∈ from (fst f) (m_port s j)) by (by apply list_elem_of_filter). rewrite H in Hin. by apply elem_of_nil in Hin.
Qed.
End Csw.

(** ** Schedules *)

(** A thread's turn, to run executions by computation. *)
Inductive turn := Demux (i : nat) | Mux (j : nat) | Queue (j : nat) | Out (j : nat).
Definition take_turn (N : nat) (t : turn) (s : cswitch) : option cswitch :=
  match t with
  | Demux i => if decide (i < N) then demux_read i s else None
  | Mux j => if decide (j < N) then mux_read N j s else None
  | Queue j => if decide (j < N) then mux_write j s else None
  | Out j => if decide (j < N) then deliver j s else None
  end.
Fixpoint run (N : nat) (ts : list turn) (s : cswitch) : option cswitch :=
  match ts with [] => Some s | t :: ts => s ← take_turn N t s; run N ts s end.

Lemma run_steps N ts s s' : run N ts s = Some s' -> nsteps (step N) (length ts) s s'.
Proof.
  revert s. induction ts as [|t ts IH]; intros s H; [injection H as ->; constructor|]. simpl in H.
  destruct (take_turn N t s) as [s1|] eqn:E; [|done]. apply (nsteps_l _ _ _ s1); [|by apply IH].
  destruct t; simpl in E; (case_decide; [|done]); [by eapply s_demux|by eapply s_mux|by eapply s_queue|by eapply s_out].
Qed.

Lemma all_done N s : work N s = 0 -> forall s', ~ step N s s'.
Proof. intros Hw s' H. apply work_step in H. lia. Qed.

(** * The lookup design *)

(** Streams of the design, in its order. *)
(* @src ip/sysc/kvs.h 25-75 kvs channels *)
Inductive channel :=
  | s_ctl0 | m_ctl0 | csw1_c | csw2_c | csw3_c | csw4_c | csw5_c | csw6_c | csw7_c | lsu1_c | lsu1_d | lsu2_c | lsu2_d | ssu0_c
  | ssu0_d1 | ssu0_d2 | hsu0_c | hsu0_d1 | hsu0_d2 | idu0_c | idu0_d1 | idu0_d2 | stub_d1 | stub_d2 | que0_d.
Global Instance channel_eq_dec : EqDecision channel.
Proof. solve_decision. Defined.

(** The units other than the switch. *)
(* @src ip/sysc/kvs.h 77-84 kvs modules *)
Inductive module := u_lsu1 | u_lsu2 | u_ssu0 | u_hsu0 | u_idu0 | u_que0.

(** The streams of the switch's ports, incoming and outgoing. *)
(* @src ip/sysc/kvs.h 134-151 kvs u_csw0 *)
Definition csw_ports : list (channel * channel) :=
  [(s_ctl0, m_ctl0); (csw1_c, csw1_c); (csw2_c, csw2_c); (lsu1_c, csw3_c); (hsu0_c, csw4_c); (lsu2_c, csw5_c); (idu0_c, csw6_c); (csw7_c, csw7_c)].
(** Control streams in and out of a unit; and its data streams. *)
(* @src ip/sysc/kvs.h 153-200 kvs s_ctl, m_ctl *)
Definition ctl (m : module) : list (channel * channel) :=
  match m with
  | u_lsu1 => [(csw3_c, lsu1_c)] | u_lsu2 => [(csw5_c, lsu2_c)] | u_ssu0 => [(ssu0_c, ssu0_c)] | u_hsu0 => [(csw4_c, hsu0_c)]
  | u_idu0 => [(csw6_c, idu0_c)] | u_que0 => []
  end.
(* @src ip/sysc/kvs.h 153-200 kvs s_dat, m_dat *)
Definition dat (m : module) : list (channel * channel) :=
  match m with
  | u_lsu1 => [(stub_d1, lsu1_d)] | u_lsu2 => [(idu0_d1, lsu2_d)] | u_ssu0 => [(lsu1_d, ssu0_d1); (stub_d2, ssu0_d2)]
  | u_hsu0 => [(ssu0_d2, hsu0_d1); (hsu0_d2, hsu0_d2)] | u_idu0 => [(que0_d, idu0_d1); (lsu2_d, idu0_d2)] | u_que0 => [(ssu0_d1, que0_d)]
  end.

Definition modules : list module := [u_lsu1; u_lsu2; u_ssu0; u_hsu0; u_idu0; u_que0].
Definition bindings : list (channel * channel) := csw_ports ++ concat (map (fun m => ctl m ++ dat m) modules).
Definition readers (c : channel) : nat := length (filter (fun p => fst p = c) bindings).
Definition writers (c : channel) : nat := length (filter (fun p => snd p = c) bindings).

(** Port numbers of the units. *)
(* @src ip/sysc/kvs.h 17-23 LSU1_PN, HSU0_PN, LSU2_PN, PRU0_PN *)
Definition port_number (m : module) : option nat :=
  match m with u_lsu1 => Some 3 | u_hsu0 => Some 4 | u_lsu2 => Some 5 | u_idu0 => Some 6 | _ => None end.

Lemma port_route m p f :
  port_number m = Some p -> (AXI_TC.tdest (snd f) = 2 * Z.of_nat p \/ AXI_TC.tdest (snd f) = 2 * Z.of_nat p + 1)%Z -> route 8 f = p.
Proof.
  intros Hp Hf. unfold route, csw_demux. simpl (_ =? _)%Z. cbn iota. destruct m; simplify_eq/=; by destruct Hf as [-> | ->].
Qed.

(** * Theorems *)

(** C17: A switch of any size loses, duplicates and misroutes nothing: whatever
    its inputs are to bring, every execution takes at most four steps a flit;
    the flits of one input to one output come out in their order, at any time
    the first of them; and when no step is left, all of them are out. *)
Theorem switch_delivers N ins n s :
  power_of_2 N -> (forall i, i < N -> Forall (fun f => fst f = i) (ins i)) -> nsteps (step N) n (start ins) s ->
  n <= 4 * sum_list_with (fun i => length (ins i)) (seq 0 N) /\
  (forall i j, i < N -> j < N -> exists rest, to N j (ins i) = from i (m_port s j) ++ rest) /\
  ((forall s', ~ step N s s') -> forall i j, i < N -> j < N -> from i (m_port s j) = to N j (ins i)).
Proof.
  intros HN Ht Hr. pose proof (inv_steps N ins n _ s (inv_start N ins Ht) Hr) as Hi. split_and!.
  - apply work_steps in Hr. enough (work N (start ins) = 4 * sum_list_with (fun i => length (ins i)) (seq 0 N)) by lia.
    unfold work. replace (sum_list_with (out_work _) _) with 0; [rewrite Nat.add_0_r|]; induction (seq 0 N) as [|k l IH]; simpl; try done; unfold in_work in *; simpl in *; lia.
  - intros i j. by apply inv_order.
  - by apply inv_end.
Qed.

(** Packets stay whole when a single input sends to an output: what is there
    is at any time the beginning of what that input sent to it, in order. *)
Theorem packets_whole N ins n s i j :
  power_of_2 N -> (forall i, i < N -> Forall (fun f => fst f = i) (ins i)) -> nsteps (step N) n (start ins) s ->
  i < N -> j < N -> (forall k, k < N -> k <> i -> to N j (ins k) = []) ->
  (exists rest, to N j (ins i) = m_port s j ++ rest) /\ ((forall s', ~ step N s s') -> m_port s j = to N j (ins i)).
Proof.
  intros HN Ht Hr Hi Hj Ho. pose proof (inv_steps N ins n _ s (inv_start N ins Ht) Hr) as Hv.
  rewrite <- (alone N ins s i j Hv Hi Hj Ho). split; [by apply (inv_order N)|]. intros Hst. by apply (inv_end N).
Qed.

(** The design is wired: no stream has two writers or two readers; every
    stream that is read is written, except the host's and the two stubs; and
    a unit has its requests and its responses at the port of its number,
    where the switch sends the flits for the two identifiers of that number. *)
Theorem kvs_wired :
  (forall c, writers c <= 1 /\ readers c <= 1 /\ (readers c = 1 -> writers c = 1 \/ c = s_ctl0 \/ c = stub_d1 \/ c = stub_d2)) /\
  forall m p, port_number m = Some p ->
    (exists i o, ctl m = [(i, o)] /\ csw_ports !! p = Some (o, i)) /\
    forall f, (AXI_TC.tdest (snd f) = 2 * Z.of_nat p \/ AXI_TC.tdest (snd f) = 2 * Z.of_nat p + 1)%Z -> route 8 f = p.
Proof.
  split; [intros []; vm_compute; repeat split; try lia; auto; discriminate|].
  intros m p Hp. split; [destruct m; simplify_eq/=; eauto|]. intros f Hf. by apply (port_route m).
Qed.

(** Two inputs with a packet of two flits each for output 1 of two. *)
Definition word (src : nat) (data : Z) (last : bool) : flit :=
  (src, {| AXI_TC.tdata := data; AXI_TC.tid := 0; AXI_TC.tdest := 1; AXI_TC.tuser := RACC.zero; AXI_TC.tlast := last |}).
Definition two_packets (i : nat) : list flit :=
  match i with O => [word 0 10 false; word 0 11 true] | 1 => [word 1 20 false; word 1 21 true] | _ => [] end.
(** Each multiplexer turn takes the input that is not busy reading. *)
Definition alternating : list turn :=
  [Demux 0; Demux 1; Mux 1; Queue 1; Mux 1; Queue 1; Demux 0; Mux 1; Queue 1; Demux 1; Mux 1; Queue 1; Out 1; Out 1; Out 1; Out 1].

Lemma two_packets_from i : Forall (fun f => fst f = i) (two_packets i).
Proof. destruct i as [|[|i]]; by repeat constructor. Qed.

Lemma switch_delivers_witness :
  exists s, nsteps (step 2) 16 (start two_packets) s /\ from 0 (m_port s 1) = two_packets 0 /\ from 1 (m_port s 1) = two_packets 1.
Proof.
  destruct (run 2 alternating (start two_packets)) as [s|] eqn:E; [|vm_compute in E; discriminate]. exists s.
  pose proof (run_steps 2 alternating _ s E) as Hr. split; [exact Hr|].
  assert (Hw : work 2 s = 0) by (apply work_steps in Hr; change (work 2 (start two_packets)) with 16 in Hr; change (length alternating) with 16 in Hr; lia).
  destruct (switch_delivers 2 two_packets 16 s) as (_ & _ & H); [by exists 1|intros; apply two_packets_from|exact Hr|].
  split; [apply (H (all_done 2 s Hw) 0 1)|apply (H (all_done 2 s Hw) 1 1)]; lia.
Defined.

(** A packet of port 0 alone, on its way to output 1. *)
Lemma packets_whole_witness :
  let ins := fun i => match i with O => two_packets 0 | _ => [] end in
  exists s, nsteps (step 2) 4 (start ins) s /\ exists rest, two_packets 0 = m_port s 1 ++ rest.
Proof.
  intros ins. destruct (run 2 [Demux 0; Mux 1; Queue 1; Out 1] (start ins)) as [s|] eqn:E; [|vm_compute in E; discriminate]. exists s.
  pose proof (run_steps 2 _ _ s E) as Hr. split; [exact Hr|].
  apply (packets_whole 2 ins 4 s 0 1); [by exists 1| |exact Hr|lia|lia|by intros [|k]].
  intros [|i] _; [apply two_packets_from|constructor].
Defined.

(** A multiplexer does not keep to one input until the end of a packet: there
    is an execution, with nothing left to do at its end, in which the flits of
    two packets for one output alternate. *)
Theorem packets_interleave :
  exists n s, nsteps (step 2) n (start two_packets) s /\ (forall s', ~ step 2 s s') /\
  m_port s 1 = [word 0 10 false; word 1 20 false; word 0 11 true; word 1 21 true].
Proof.
  assert (E : exists s, run 2 alternating (start two_packets) = Some s /\ m_port s 1 = [word 0 10 false; word 1 20 false; word 0 11 true; word 1 21 true])
    by (eexists; split; vm_compute; reflexivity).
  destruct E as (s & E & Em). exists (length alternating), s. pose proof (run_steps 2 alternating _ s E) as Hr. split_and!; [exact Hr| |exact Em].
  apply all_done. apply work_steps in Hr. change (work 2 (start two_packets)) with 16 in Hr. change (length alternating) with 16 in Hr. lia.
Qed.

(** What a packet to unit [u] of the lookup design becomes: every flit the
    host sends to one of the two identifiers of a unit reaches it, in order,
    when no unit sends to that unit. *)
Theorem kvs_requests_arrive ins n s m p :
  (forall i, i < 8 -> Forall (fun f => fst f = i) (ins i)) -> nsteps (step 8) n (start ins) s -> (forall s', ~ step 8 s s') ->
  port_number m = Some p -> (forall k, k < 8 -> k <> 0 -> to 8 p (ins k) = []) ->
  Forall (fun f => AXI_TC.tdest (snd f) = 2 * Z.of_nat p \/ AXI_TC.tdest (snd f) = 2 * Z.of_nat p + 1)%Z (ins 0) -> m_port s p = ins 0.
Proof.
  intros Ht Hr Hst Hm Ho Hd. assert (Hp : p < 8) by (destruct m; simplify_eq/=; lia).
  pose proof (inv_steps 8 ins n _ s (inv_start 8 ins Ht) Hr) as Hv.
  rewrite <- (alone 8 ins s 0 p Hv ltac:(lia) Hp Ho), (inv_end 8 ins s (ex_intro _ 3 eq_refl) Hv Hst 0 p ltac:(lia) Hp).
  clear -Hd Hm. induction Hd as [|f l Hf _ IH]; [done|]. rewrite to_cons, decide_True; [by rewrite IH|]. by apply (port_route m).
Qed.
