(* ===== verification/Pool.v ===== *)
(** The transaction pool of the simulated memory ports (class [tmanage] of
    ip/sysc/lsu.h): a free list threaded through the address fields of the
    payloads, which their users overwrite while they hold them. *)
From S2P Require Import Prelude.
Open Scope Z_scope.

(** * State and operations *)

Module tmanage.

(** The head of the list (zero for NULL) and the address field of every
    payload; payloads are named by their own, non-zero addresses. *)
(* @src ip/sysc/lsu.h 277-278 tmanage *)
Record pool := { list_ : Z; address : gmap Z Z }.

(** [set_address], [get_address] of a payload. *)
Definition set_address (p a : Z) (s : pool) : pool := {| list_ := list_ s; address := <[p := a]> (address s) |}.
Definition get_address (p : Z) (s : pool) : Z := default 0 (address s !! p).

(* @src ip/sysc/lsu.h 271-275 free *)
Definition free (trans : Z) (s : pool) : pool :=
  let s := set_address trans (list_ s) s in {| list_ := trans; address := address s |}.

(** [None]: the list is empty, and the caller waits. *)
(* @src ip/sysc/lsu.h 263-269 allocate *)
Definition allocate (s : pool) : option (Z * pool) :=
  if list_ s =? 0 then None
  else let trans := list_ s in Some (trans, {| list_ := get_address trans s; address := address s |}).

(** The constructor, given where [new] puts the payloads. *)
(* @src ip/sysc/lsu.h 238-248 tmanage *)
Definition tmanage (news : list Z) : pool := fold_left (fun s trans => free trans s) news {| list_ := 0; address := ∅ |}.

(** The destructor empties the list; the payloads deleted, with fuel. *)
(* @src ip/sysc/lsu.h 250-261 ~tmanage *)
Fixpoint destroy (fuel : nat) (s : pool) : option (list Z) :=
  match fuel with
  | O => None
  | S fuel =>
      if list_ s =? 0 then Some []
      else match allocate s with
           | Some (trans, s) => l ← destroy fuel s; Some (trans :: l)
           | None => None
           end
  end.

(** * Use: payloads held change their address fields *)

Inductive step : pool * list Z -> pool * list Z -> Prop :=
  | s_allocate s used p s' : allocate s = Some (p, s') -> step (s, used) (s', p :: used)
  | s_set_address s used p a : p ∈ used -> step (s, used) (set_address p a s, used)
  | s_free s used1 p used2 : step (s, used1 ++ p :: used2) (free p s, used1 ++ used2).

(** * The list *)

(** The payloads from [h] on, following the address fields. *)
Inductive chain (m : gmap Z Z) : Z -> list Z -> Prop :=
  | chain_nil : chain m 0 []
  | chain_cons p n l : p <> 0 -> m !! p = Some n -> chain m n l -> chain m p (p :: l).

Lemma chain_insert m p a h l : chain m h l -> p ∉ l -> chain (<[p := a]> m) h l.
Proof.
  intros Hc. induction Hc as [|q n l Hq Hm _ IH]; intros Hp; [constructor|]. apply not_elem_of_cons in Hp as [Hne Hp].
  econstructor; [done| |by apply IH]. by rewrite lookup_insert_ne.
Qed.

(** The free payloads are on the list once each and no payload that is held is
    on it; the two together are all there are. *)
Definition good (news : list Z) (su : pool * list Z) : Prop :=
  let '(s, used) := su in exists free, chain (address s) (list_ s) free /\ free ++ used ≡ₚ news.

Lemma free_good news s used1 p used2 :
  NoDup news -> 0 ∉ news -> good news (s, used1 ++ p :: used2) -> good news (free p s, used1 ++ used2).
Proof.
  intros Hn H0 (l & Hc & Hp). exists (p :: l). rewrite <- Permutation_middle, <- Permutation_middle in Hp. simpl.
  assert (Hnd : NoDup (p :: l ++ used1 ++ used2)) by (by rewrite Hp).
  apply NoDup_cons in Hnd as [Hnp _]. rewrite elem_of_app in Hnp. split; [|done].
  econstructor; [|apply lookup_insert_eq|].
  - intros ->. apply H0. rewrite <- Hp. apply elem_of_cons. by left.
  - apply chain_insert; [done|]. auto.
Qed.

Lemma step_good news su su' : NoDup news -> 0 ∉ news -> good news su -> step su su' -> good news su'.
Proof.
  intros Hn H0 Hg Hs. destruct Hs as [s used p s' E|s used p a Hp|s used1 p used2]; [| |by apply free_good].
  - destruct Hg as (l & Hc & Hl). unfold allocate in E. destruct (Z.eqb_spec (list_ s) 0) as [|Hne]; [done|].
    injection E as <- <-. inversion Hc as [E|q n l' Hq Hm Hc' E]; subst; [congruence|].
    exists l'. unfold get_address. simpl. rewrite Hm. split; [done|]. by rewrite <- Permutation_middle.
  - destruct Hg as (l & Hc & Hl). exists l. split; [|done]. apply chain_insert; [done|]. intros Hin.
    rewrite <- Hl in Hn. apply NoDup_app in Hn as (_ & Hd & _). by apply (Hd p).
Qed.

Lemma start_good news : NoDup news -> 0 ∉ news -> good news (tmanage news, []).
Proof.
  intros Hn H0. unfold tmanage.
  assert (H : forall done s, NoDup (done ++ news) -> 0 ∉ done ++ news -> good (done ++ news) (s, news) ->
    good (done ++ news) (fold_left (fun s trans => free trans s) news s, [])).
  { clear Hn H0. induction news as [|p news IH]; intros ds s Hn H0 Hg; [done|].
    simpl. specialize (IH (ds ++ [p]) (free p s)). rewrite <- app_assoc in IH. apply IH; [done..|].
    by apply (free_good _ s [] p news). }
  apply (H [] {| list_ := 0; address := ∅ |}); [done..|]. exists []. split; [constructor|done].
Qed.

Lemma steps_good news su su' : NoDup news -> 0 ∉ news -> good news su -> rtc step su su' -> good news su'.
Proof. intros Hn H0 Hg Hr. induction Hr as [|x y z Hxy _ IH]; [done|]. apply IH. by apply (step_good news x). Qed.

Lemma destroy_chain k s l : chain (address s) (list_ s) l -> (length l < k)%nat -> destroy k s = Some l.
Proof.
  destruct s as [h m]. simpl. intros Hc. revert k. induction Hc as [|p n l Hp Hm _ IH]; intros [|k] Hk; simpl in Hk; try lia; [done|].
  cbn [destroy]. unfold allocate. simpl list_. rewrite (proj2 (Z.eqb_neq p 0)) by done.
  unfold get_address. simpl address. rewrite Hm. cbn [default]. by rewrite IH by lia.
Qed.
End tmanage.

(** * Theorems *)

(** However payloads are taken, written to and given back, and whatever their
    users leave in the address fields: a payload taken is one that nobody
    holds, one is there to be taken exactly while not all are held, none is
    lost, and the destructor deletes exactly the free ones, each once. *)
Theorem pool_safe news s used :
  NoDup news -> 0 ∉ news -> rtc tmanage.step (tmanage.tmanage news, []) (s, used) ->
  NoDup used /\ (used ⊆ news) /\
  (tmanage.allocate s = None <-> (used ≡ₚ news)) /\
  (forall p s', tmanage.allocate s = Some (p, s') -> p ∉ used /\ p ∈ news) /\
  exists free, tmanage.destroy (S (length news)) s = Some free /\ free ++ used ≡ₚ news.
Proof.
  intros Hn H0 Hr. destruct (tmanage.steps_good news _ _ Hn H0 (tmanage.start_good news Hn H0) Hr) as (l & Hc & Hl).
  assert (Hnd : NoDup (l ++ used)) by (by rewrite Hl). apply NoDup_app in Hnd as (_ & Hd & Hu).
  pose proof (Permutation_length Hl) as Hlen. rewrite length_app in Hlen.
  split; [done|split; [|split; [|split]]].
  - intros p Hp. rewrite <- Hl. apply elem_of_app. by right.
  - unfold tmanage.allocate. remember (tmanage.list_ s) as h eqn:Eh. destruct Hc as [|p n l Hp Hm Hc]; [done|].
    rewrite (proj2 (Z.eqb_neq p 0)) by done. split; [done|]. intros Hun%Permutation_length. simpl in Hlen. lia.
  - intros p s' E. unfold tmanage.allocate in E. remember (tmanage.list_ s) as h eqn:Eh. destruct Hc as [|q n l Hq Hm Hc]; [done|].
    rewrite (proj2 (Z.eqb_neq q 0)) in E by done. injection E as <- <-. split; [apply Hd; by left|]. rewrite <- Hl. by left.
  - exists l. split; [apply tmanage.destroy_chain; [done|lia]|done].
Qed.

Lemma pool_safe_witness :
  let '(s, used) := (tmanage.set_address 30 77 {| tmanage.list_ := 20; tmanage.address := <[30 := 20]> (<[20 := 10]> (<[10 := 0]> ∅)) |}, [30]) in
  NoDup used /\ (used ⊆ [10; 20; 30]) /\
  (tmanage.allocate s = None <-> (used ≡ₚ [10; 20; 30])) /\
  (forall p s', tmanage.allocate s = Some (p, s') -> p ∉ used /\ p ∈ [10; 20; 30]) /\
  exists free, tmanage.destroy 4 s = Some free /\ free ++ used ≡ₚ [10; 20; 30].
Proof.
  apply (pool_safe [10; 20; 30]); [by apply (bool_decide_unpack _)..|].
  eapply rtc_l; [by apply (tmanage.s_allocate _ [] 30)|].
  eapply rtc_l; [apply (tmanage.s_set_address _ [30] 30 77); by left|apply rtc_refl].
Defined.
