(* ===== verification/LsuHw.v ===== *)
(** The load-store unit of the accelerator (ip/sysc/lsu.h): the control half,
    which turns the registers into DMA commands, and the two engines, which
    move memory to a data stream and a data stream to memory.

    Every clocked thread of the source is a small machine whose steps are the
    reads and writes of its streams; the FIFOs between them have the depths of
    the source.  A system is the two engines of a unit with the output stream
    wired to the input stream, as for data movement, and [step] is any thread
    making a step.  Time ([wait], the timing-only payloads) is left out. *)
From S2P Require Import Prelude Axis.
Open Scope Z_scope.

(* @src ip/sysc/lsu.h 18-25 PEQ_FAC, DMAC_DEPTH, DMAS_DEPTH, MAX_BLOCK_SIZE *)
Definition DMAC_DEPTH : nat := 4.
Definition DMAS_DEPTH : nat := 2.
Definition OUTSTANDING : nat := 16.
Definition MAX_BLOCK_SIZE : Z := 128.

(* @src ip/sysc/lsu.h 28-35 LSU_nop *)
Definition LSU_nop : Z := 0.
Definition LSU_move : Z := 1.
Definition LSU_smove : Z := 2.
Definition LSU_index : Z := 3.
Definition LSU_index2 : Z := 4.
Definition LSU_flush : Z := 7.

(** * Control *)

Module lsuctl.
Definition reg (vcmd : list Z) (i : nat) : Z := nth i vcmd 0.
(* @src ip/sysc/lsu.h 56-56 _command *)
Definition _command vcmd := get_field 0 3 (reg vcmd 1).
(* @src ip/sysc/lsu.h 57-57 _reqstat *)
Definition _reqstat vcmd := get_field 7 1 (reg vcmd 1).
(* @src ip/sysc/lsu.h 58-58 _address *)
Definition _address vcmd := reg vcmd 2.
(* @src ip/sysc/lsu.h 59-59 _size *)
Definition _size vcmd := get_field 0 30 (reg vcmd 3).
(* @src ip/sysc/lsu.h 60-60 _inc *)
Definition _inc vcmd := get_field 0 30 (reg vcmd 4).
(* @src ip/sysc/lsu.h 61-61 _rep *)
Definition _rep vcmd := get_field 0 30 (reg vcmd 5).
(* @src ip/sysc/lsu.h 62-62 _index *)
Definition _index vcmd := get_field 0 30 (reg vcmd 4).
(* @src ip/sysc/lsu.h 63-63 _trans *)
Definition _trans vcmd := get_field 0 30 (reg vcmd 5).

(** The fields of the DMA command keep 24 and 32 bits. *)
Definition dmac (size last addr did req : Z) : DMAC.t :=
  {| DMAC.size := wrap 24 size; DMAC.last := last; DMAC.addr := wrap 32 addr;
     DMAC.tag := {| TAG.did := did; TAG.req := req |} |}.

(** The strided move, one command per block. *)
(* @src ip/sysc/lsu.h 90-104 ct_command LSU_smove *)
Fixpoint smove_loop (fuel : nat) (acmd : ACMD.t) (vcmd : list Z) : list DMAC.t :=
  match fuel with
  | O => []
  | S fuel' =>
      if _rep vcmd =? 0 then []
      else
        let last := Z.b2z (_rep vcmd =? 1) in
        let d := dmac (_size vcmd) last (_address vcmd) (ACMD.sid acmd) (Z.land (_reqstat vcmd) last) in
        let vcmd := <[2%nat := wrap 32 (_address vcmd + _inc vcmd)]> vcmd in
        let vcmd := <[5%nat := put_field 0 30 (wrap 30 (_rep vcmd - 1)) (reg vcmd 5)]> vcmd in
        d :: smove_loop fuel' acmd vcmd
  end.

(** The DMA commands one access command gives rise to, from the registers
    as they are when it is read. *)
(* @src ip/sysc/lsu.h 65-126 ct_command *)
Definition ct_command (acmd : ACMD.t) (vcmd : list Z) : list DMAC.t :=
  let c := _command vcmd in
  if c =? LSU_move then [dmac (_size vcmd) 1 (_address vcmd) (ACMD.sid acmd) (_reqstat vcmd)]
  else if c =? LSU_smove then smove_loop (Z.to_nat (_rep vcmd)) acmd vcmd
  else if (c =? LSU_index) || (c =? LSU_index2) then
    [dmac (if c =? LSU_index then _size vcmd else _trans vcmd) 1 (_index vcmd * _size vcmd + _address vcmd)
       (ACMD.sid acmd) (_reqstat vcmd)]
  else [].

(** The value for the status register, and the access command that returns
    it when a response was requested. *)
(* @src ip/sysc/lsu.h 128-153 ct_response *)
Definition ct_response (vcmd0 tid : Z) (dmas : DMAS.t) : Z * option ACMD.t :=
  let status := Z.lor vcmd0 (DMAS.ui dmas) in
  if TAG.req (DMAS.tag dmas) =? 1 then
    let srac := {| RACC.len := 1; RACC.sel := 0; RACC.wr := 0; RACC.go := 1 |} in
    (status, Some {| ACMD.sid := tid; ACMD.did := TAG.did (DMAS.tag dmas); ACMD.srac := srac; ACMD.drac := srac |})
  else (status, None).
End lsuctl.

(** * Memory *)

Definition memory : Type := Z -> Z.

(** Loads and stores of [unsigned int], little-endian. *)
Definition load_word (m : memory) (a : Z) : Z := le_val [m a; m (a + 1); m (a + 2); m (a + 3)].
Definition store_word (m : memory) (a w : Z) : memory := fun x =>
  if (a <=? x) && (x <? a + 4) then get_field (8 * (x - a)) 8 w else m x.

(** * Engines *)

(** The transactions of a DMA command: pieces that do not cross a block
    boundary.  The address is kept as the [unsigned long] the engine counts
    with and as the 32 bits of the transaction. *)
(* @src ip/sysc/lsu.h 322-375 mm2s::ct_command *)
Fixpoint transactions (fuel : nat) (addr size last : Z) (tag : TAG.t) : list (Z * DMAC.t) :=
  match fuel with
  | O => []
  | S fuel' =>
      if size =? 0 then []
      else
        let bsize := MAX_BLOCK_SIZE - addr mod MAX_BLOCK_SIZE in
        let tsize := if size <? bsize then size else bsize in
        (addr, {| DMAC.addr := wrap 32 addr; DMAC.size := wrap 24 tsize;
                  DMAC.last := Z.b2z ((size =? tsize) && truthy last); DMAC.tag := tag |})
        :: transactions fuel' (u64 (addr + tsize)) (u32 (size - tsize)) last tag
  end.

(* @src ip/sysc/lsu.h 317-318 mm2s::ct_command *)
Definition split (d : DMAC.t) : list (Z * DMAC.t) :=
  transactions (Z.to_nat (DMAC.size d)) (DMAC.addr d) (DMAC.size d) (DMAC.last d) (DMAC.tag d).

(** The status of a transaction, if it is the last one of its packet. *)
(* @src ip/sysc/lsu.h 416-424 mm2s::ct_response status *)
Definition status (t : DMAC.t) : list DMAS.t :=
  if truthy (DMAC.last t) then
    [{| DMAS.tag := DMAC.tag t; DMAS.interr := 0; DMAS.decerr := 0; DMAS.slverr := 0; DMAS.okay := 1 |}]
  else [].

(** The words of a flit, [i] the byte offset in it. *)
(* @src ip/sysc/lsu.h 405-408 mm2s::ct_response flit *)
Fixpoint load_flit (n : nat) (i : Z) (m : memory) (addr data keep : Z) : Z * Z :=
  match n with
  | O => (data, keep)
  | S n' => load_flit n' (i + 4) m (addr + 4) (put_field (i * 8) 32 (load_word m addr) data) (put_field i 4 15 keep)
  end.

(** Storing the words of a flit whose bytes are all to be kept; [len] is the
    [unsigned] count of bytes left. *)
(* @src ip/sysc/lsu.h 555-560 s2mm::ct_command flit *)
Fixpoint store_flit (n : nat) (i : Z) (f : AXI_TD.t) (m : memory) (taddr len : Z) : memory * Z * Z :=
  match n with
  | O => (m, taddr, len)
  | S n' =>
      if get_field i 4 (AXI_TD.tkeep f) =? 15 then
        store_flit n' (i + 4) f (store_word m taddr (get_field (i * 8) 32 (AXI_TD.tdata f))) (taddr + 4) (u32 (len - 4))
      else store_flit n' (i + 4) f m taddr len
  end.

(** Words per flit and flits of a transaction. *)
Definition FLIT_WORDS : nat := Z.to_nat (DD / 32).
(* @src ip/sysc/lsu.h 399-399 mm2s::ct_response len *)
Definition flits (size : Z) : Z := (size + (DD + 7) / 8 - 1) / ((DD + 7) / 8).

(** What the two engines share: commands the control half has yet to send,
    [u_dmac], the transactions of the command being worked on, [u_trans],
    [u_dmas]. *)
(* @src ip/sysc/lsu.h 501-519 s2mm channels *)
Record engine := {
  cmd : list DMAC.t; dmac : list DMAC.t; issue : list (Z * DMAC.t); trans : list (Z * DMAC.t); dmas : list DMAS.t
}.

(* @src ip/sysc/lsu.h 709-736 lsu *)
Record system := {
  mem : memory;
  rd : engine;
  r_cur : option (Z * Z * DMAC.t);   (* mm2s::ct_response: addr, flits left, transaction *)
  r_out : option AXI_TD.t;           (* the flit it is writing *)
  dat : list AXI_TD.t;               (* the data stream *)
  wr : engine;
  w_cur : option (Z * Z);            (* s2mm::ct_command: taddr, len *)
  rsp : list ACMD.t                  (* responses to the control stream *)
}.

Definition set_rd e s := {| mem := mem s; rd := e; r_cur := r_cur s; r_out := r_out s; dat := dat s; wr := wr s; w_cur := w_cur s; rsp := rsp s |}.
Definition set_wr e s := {| mem := mem s; rd := rd s; r_cur := r_cur s; r_out := r_out s; dat := dat s; wr := e; w_cur := w_cur s; rsp := rsp s |}.

Section Steps.
(** Capacity of the data stream; the destination id of each control half and
    its status register. *)
Context (cap : nat) (r_tid w_tid r_vcmd0 w_vcmd0 : Z).

Definition room {A} (depth : nat) (q : list A) : bool := (length q <? depth)%nat.

(** ** Common to the engines *)

(** lsuctl::ct_command writes a command. *)
(* @src ip/sysc/lsu.h 80-89 ct_command m_dmac.write *)
Definition e_send (e : engine) : option engine :=
  match cmd e with
  | d :: ds =>
      if room DMAC_DEPTH (dmac e) then
        Some {| cmd := ds; dmac := dmac e ++ [d]; issue := issue e; trans := trans e; dmas := dmas e |}
      else None
  | [] => None
  end.

(** ct_command reads a command. *)
(* @src ip/sysc/lsu.h 312-318 ct_command c_dmac.read *)
Definition e_read (e : engine) : option engine :=
  match issue e, dmac e with
  | [], d :: ds => Some {| cmd := cmd e; dmac := ds; issue := split d; trans := trans e; dmas := dmas e |}
  | _, _ => None
  end.

(** ct_command writes a transaction. *)
(* @src ip/sysc/lsu.h 365-374 ct_command c_transi.write *)
Definition e_issue (e : engine) : option engine :=
  match issue e with
  | t :: ts =>
      if room OUTSTANDING (trans e) then
        Some {| cmd := cmd e; dmac := dmac e; issue := ts; trans := trans e ++ [t]; dmas := dmas e |}
      else None
  | [] => None
  end.

Definition pop_trans (e : engine) : engine :=
  {| cmd := cmd e; dmac := dmac e; issue := issue e; trans := tail (trans e); dmas := dmas e |}.
(* @src ip/sysc/lsu.h 416-424 mm2s::ct_response c_dmas *)
Definition push_dmas (t : DMAC.t) (e : engine) : option engine :=
  if truthy (DMAC.last t) && negb (room DMAS_DEPTH (dmas e)) then None
  else Some {| cmd := cmd e; dmac := dmac e; issue := issue e; trans := trans e; dmas := dmas e ++ status t |}.

(** lsuctl::ct_response reads a status; the response it writes. *)
(* @src ip/sysc/lsu.h 135-152 lsuctl::ct_response loop *)
Definition e_status (vcmd0 tid : Z) (e : engine) : option (engine * list ACMD.t) :=
  match dmas e with
  | d :: ds =>
      let '(_, r) := lsuctl.ct_response vcmd0 tid d in
      Some ({| cmd := cmd e; dmac := dmac e; issue := issue e; trans := trans e; dmas := ds |}, option_list r)
  | [] => None
  end.

(** ** Threads of the loading engine *)

Definition set_cur c e s := {| mem := mem s; rd := e; r_cur := c; r_out := r_out s; dat := dat s; wr := wr s; w_cur := w_cur s; rsp := rsp s |}.

(** mm2s::ct_response reads a transaction. *)
(* @src ip/sysc/lsu.h 386-399 mm2s::ct_response c_transo.read *)
Definition r_take (s : system) : option system :=
  match r_cur s, trans (rd s) with
  | None, (_, t) :: _ => Some (set_cur (Some (DMAC.addr t, flits (DMAC.size t), t)) (pop_trans (rd s)) s)
  | _, _ => None
  end.

(** It loads a flit. *)
(* @src ip/sysc/lsu.h 400-411 mm2s::ct_response load *)
Definition r_load (s : system) : option system :=
  match r_cur s, r_out s with
  | Some (a, len, t), None =>
      if 0 <? len then
        let '(data, keep) := load_flit FLIT_WORDS 0 (mem s) a 0 0 in
        let f := {| AXI_TD.tdata := data; AXI_TD.tid := 0; AXI_TD.tdest := 0; AXI_TD.tkeep := keep; AXI_TD.tuser := 0;
                    AXI_TD.tlast := (len - 1 =? 0) && truthy (DMAC.last t) |} in
        Some {| mem := mem s; rd := rd s; r_cur := Some (a + 4 * Z.of_nat FLIT_WORDS, len - 1, t); r_out := Some f;
                dat := dat s; wr := wr s; w_cur := w_cur s; rsp := rsp s |}
      else None
  | _, _ => None
  end.

(** It writes the flit. *)
(* @src ip/sysc/lsu.h 412-412 mm2s::ct_response m_dat.write *)
Definition r_write (s : system) : option system :=
  match r_out s with
  | Some f =>
      if room cap (dat s) then
        Some {| mem := mem s; rd := rd s; r_cur := r_cur s; r_out := None; dat := dat s ++ [f]; wr := wr s; w_cur := w_cur s; rsp := rsp s |}
      else None
  | None => None
  end.

(** It writes the status. *)
(* @src ip/sysc/lsu.h 416-424 mm2s::ct_response c_dmas.write *)
Definition r_done (s : system) : option system :=
  match r_cur s, r_out s with
  | Some (_, len, t), None => if 0 <? len then None else e ← push_dmas t (rd s); Some (set_cur None e s)
  | _, _ => None
  end.

(** ** Threads of the storing engine *)

Definition set_wcur c e s := {| mem := mem s; rd := rd s; r_cur := r_cur s; r_out := r_out s; dat := dat s; wr := e; w_cur := c; rsp := rsp s |}.

(** s2mm::ct_command starts a transaction. *)
(* @src ip/sysc/lsu.h 535-551 s2mm::ct_command transaction *)
Definition w_take (s : system) : option system :=
  match w_cur s, issue (wr s) with
  | None, (a, t) :: _ => Some (set_wcur (Some (a, DMAC.size t)) (wr s) s)
  | _, _ => None
  end.

(** It reads a flit and stores it. *)
(* @src ip/sysc/lsu.h 552-562 s2mm::ct_command store *)
Definition w_store (s : system) : option system :=
  match w_cur s, dat s with
  | Some (a, len), f :: q =>
      if len =? 0 then None
      else
        let '(m, a, len) := store_flit FLIT_WORDS 0 f (mem s) a len in
        Some {| mem := m; rd := rd s; r_cur := r_cur s; r_out := r_out s; dat := q; wr := wr s; w_cur := Some (a, len); rsp := rsp s |}
  | _, _ => None
  end.

(** It writes the transaction. *)
(* @src ip/sysc/lsu.h 599-609 s2mm::ct_command c_transi.write *)
Definition w_issue (s : system) : option system :=
  match w_cur s with
  | Some (_, len) => if len =? 0 then e ← e_issue (wr s); Some (set_wcur None e s) else None
  | None => None
  end.

(** s2mm::ct_response turns a transaction into a status. *)
(* @src ip/sysc/lsu.h 615-641 s2mm::ct_response *)
Definition w_done (s : system) : option system :=
  match trans (wr s) with
  | (_, t) :: _ => e ← push_dmas t (pop_trans (wr s)); Some (set_wr e s)
  | [] => None
  end.

(** ** The system *)

Definition add_rsp (l : list ACMD.t) (s : system) : system :=
  {| mem := mem s; rd := rd s; r_cur := r_cur s; r_out := r_out s; dat := dat s; wr := wr s; w_cur := w_cur s; rsp := rsp s ++ l |}.

Definition on_rd (f : engine -> option engine) (s : system) : option system := e ← f (rd s); Some (set_rd e s).
Definition on_wr (f : engine -> option engine) (s : system) : option system := e ← f (wr s); Some (set_wr e s).
Definition r_status (s : system) : option system :=
  '(e, l) ← e_status r_vcmd0 r_tid (rd s); Some (add_rsp l (set_rd e s)).
Definition w_status (s : system) : option system :=
  '(e, l) ← e_status w_vcmd0 w_tid (wr s); Some (add_rsp l (set_wr e s)).

(** Every thread's moves. *)
Definition moves : list (system -> option system) :=
  [w_status; w_done; r_status; w_issue; w_store; w_take; on_wr e_read; on_wr e_send;
   r_write; r_load; r_done; r_take; on_rd e_issue; on_rd e_read; on_rd e_send].

Definition step (s s' : system) : Prop := exists f, f ∈ moves /\ f s = Some s'.

(** One schedule: the first thread of [moves] that can move. *)
Definition first_move (s : system) : option system := foldr (fun f r => match f s with Some s' => Some s' | None => r end) None moves.
Fixpoint run (n : nat) (s : system) : system :=
  match n with
  | O => s
  | S n' => match first_move s with Some s' => run n' s' | None => s end
  end.
End Steps.

Definition idle : engine := {| cmd := []; dmac := []; issue := []; trans := []; dmas := [] |}.
Definition start (m : memory) (r w : list DMAC.t) : system :=
  {| mem := m; rd := {| cmd := r; dmac := []; issue := []; trans := []; dmas := [] |}; r_cur := None; r_out := None; dat := [];
     wr := {| cmd := w; dmac := []; issue := []; trans := []; dmas := [] |}; w_cur := None; rsp := [] |}.
