(* ===== verification/LsuHwProofs.v ===== *)
(** Correctness of the load-store unit: whatever order its threads run in, a
    copy programmed by the control half ends, with the destination equal to
    the source as it was at the start, and the response the host waits for is
    not sent before the last byte is stored. *)
From S2P Require Import Prelude Stream Axis LsuHw.
Open Scope Z_scope.

(** * Addresses of the flits *)

Fixpoint strip (a : Z) (n : nat) : list Z :=
  match n with O => [] | S n' => a :: strip (a + 8) n' end.
Definition strip_of (a size : Z) : list Z := strip a (Z.to_nat (size / 8)).

Lemma length_strip a n : length (strip a n) = n.
Proof. revert a. induction n as [|n IH]; intros a; simpl; by rewrite ?IH. Qed.

Lemma strip_app a n1 n2 : strip a (n1 + n2) = strip a n1 ++ strip (a + 8 * Z.of_nat n1) n2.
Proof.
  revert a. induction n1 as [|n1 IH]; intros a; simpl; [by rewrite Z.add_0_r|].
  rewrite IH. do 3 f_equal. lia.
Qed.

Lemma elem_of_strip a n x : x ∈ strip a n <-> exists k, 0 <= k < Z.of_nat n /\ x = a + 8 * k.
Proof.
  revert a. induction n as [|n IH]; intros a; simpl.
  { rewrite elem_of_nil. split; [done|intros (k & ? & _); lia]. }
  rewrite elem_of_cons, IH. split.
  - intros [->|(k & ? & ->)]; [exists 0; lia|exists (k + 1); lia].
  - intros (k & ? & ->). destruct (decide (k = 0)) as [->|]; [left; lia|right; exists (k - 1); lia].
Qed.

Lemma Z2Nat_strip a s1 s :
  0 <= s1 <= s -> s1 mod 8 = 0 -> s mod 8 = 0 ->
  strip a (Z.to_nat (s / 8)) = strip a (Z.to_nat (s1 / 8)) ++ strip (a + s1) (Z.to_nat ((s - s1) / 8)).
Proof.
  intros H1 H2 H3. replace (Z.to_nat (s / 8)) with (Z.to_nat (s1 / 8) + Z.to_nat ((s - s1) / 8))%nat by div_lia.
  rewrite strip_app. do 2 f_equal. div_lia.
Qed.

(** * Transactions *)

(** An aligned command, and an aligned transaction. *)
Definition aligned (d : DMAC.t) : Prop :=
  0 <= DMAC.addr d /\ DMAC.addr d mod 8 = 0 /\ 0 < DMAC.size d < 2 ^ 24 /\ DMAC.size d mod 8 = 0 /\
  DMAC.addr d + DMAC.size d <= 2 ^ 32.
Definition good (p : Z * DMAC.t) : Prop := fst p = DMAC.addr (snd p) /\ aligned (snd p) /\ DMAC.size (snd p) <= MAX_BLOCK_SIZE.

Definition d_flits (d : DMAC.t) : list Z := strip_of (DMAC.addr d) (DMAC.size d).
Definition t_flits (p : Z * DMAC.t) : list Z := strip_of (fst p) (DMAC.size (snd p)).

(** One turn of the splitting loop. *)
Definition piece (addr size : Z) : Z := Z.min size (MAX_BLOCK_SIZE - addr mod MAX_BLOCK_SIZE).

Lemma piece_spec addr size :
  addr mod 8 = 0 -> size mod 8 = 0 -> 0 < size -> 0 < piece addr size <= MAX_BLOCK_SIZE /\ piece addr size <= size /\ piece addr size mod 8 = 0.
Proof. unfold piece, MAX_BLOCK_SIZE. intros. div_lia. Qed.

Lemma transactions_step fuel addr size last tag :
  0 <= addr -> addr mod 8 = 0 -> 0 < size < 2 ^ 24 -> size mod 8 = 0 -> addr + size <= 2 ^ 32 ->
  transactions (S fuel) addr size last tag
  = (addr, {| DMAC.addr := addr; DMAC.size := piece addr size; DMAC.last := Z.b2z ((size =? piece addr size) && truthy last); DMAC.tag := tag |})
    :: transactions fuel (addr + piece addr size) (size - piece addr size) last tag.
Proof.
  intros Ha Ha8 Hs Hs8 Hb. pose proof (piece_spec addr size Ha8 Hs8 ltac:(lia)) as (Hp & Hps & _). cbn [transactions].
  destruct (Z.eqb_spec size 0); [lia|].
  assert (E : (if size <? MAX_BLOCK_SIZE - addr mod MAX_BLOCK_SIZE then size else MAX_BLOCK_SIZE - addr mod MAX_BLOCK_SIZE) = piece addr size).
  { unfold piece. destruct (Z.ltb_spec size (MAX_BLOCK_SIZE - addr mod MAX_BLOCK_SIZE)); lia. }
  rewrite !E. unfold MAX_BLOCK_SIZE in Hp.
  rewrite (wrap_id 32 addr), (wrap_id 24 (piece addr size)), (wrap_id 64), (wrap_id 32 (size - _)) by (split; lia). done.
Qed.

Lemma transactions_0 fuel addr last tag : transactions fuel addr 0 last tag = [].
Proof. by destruct fuel. Qed.

Lemma transactions_spec fuel : forall addr size last tag,
  0 <= addr -> addr mod 8 = 0 -> 0 < size < 2 ^ 24 -> size mod 8 = 0 -> addr + size <= 2 ^ 32 -> size <= Z.of_nat fuel ->
  let l := transactions fuel addr size last tag in
  concat (map t_flits l) = strip_of addr size /\ Forall good l /\ Forall (fun p => DMAC.tag (snd p) = tag) l /\
  exists n, map (fun p => status (snd p)) l
    = repeat [] n ++ [status {| DMAC.addr := addr; DMAC.size := size; DMAC.last := last; DMAC.tag := tag |}].
Proof.
  induction fuel as [|fuel IH]; intros addr size last tag Ha Ha8 Hs Hs8 Hb Hf; [lia|].
  cbv zeta. rewrite transactions_step by done.
  pose proof (piece_spec addr size Ha8 Hs8 ltac:(lia)) as (Hp & Hps & Hp8). set (p := piece addr size) in *. clearbody p.
  unfold MAX_BLOCK_SIZE in *.
  assert (Hgood : forall x, good (addr, {| DMAC.addr := addr; DMAC.size := p; DMAC.last := x; DMAC.tag := tag |})).
  { intros x. unfold good, aligned, MAX_BLOCK_SIZE. simpl. split_and!; lia. }
  destruct (decide (size = p)) as [->|Hne].
  - rewrite Z.sub_diag, transactions_0, Z.eqb_refl. cbn [map concat]. split_and!.
    + by rewrite app_nil_r.
    + by apply Forall_singleton.
    + by apply Forall_singleton.
    + exists 0%nat. cbn [repeat app]. unfold status. cbn [snd DMAC.last DMAC.tag]. by destruct (truthy last).
  - destruct (IH (addr + p) (size - p) last tag) as (H1 & H2 & H3 & n & H4); [div_lia..|].
    split_and!.
    + cbn [map concat]. rewrite H1. unfold t_flits, strip_of. cbn [fst snd DMAC.size].
      rewrite (Z2Nat_strip addr p size) by (done || lia). done.
    + by constructor.
    + by constructor.
    + exists (S n). cbn [map repeat app]. rewrite H4. destruct (Z.eqb_spec size p); [done|]. done.
Qed.

(** * Memory *)

Definition bytes_ok (m : memory) : Prop := forall x, in_word 8 (m x).

Definition ld (m : memory) (a : Z) : Z * Z := load_flit FLIT_WORDS 0 m a 0 0.

Lemma ld_eq m a : ld m a = (put_field 32 32 (load_word m (a + 4)) (put_field 0 32 (load_word m a) 0), 255).
Proof. reflexivity. Qed.

Lemma ld_ext m m' a : (forall k, 0 <= k < 8 -> m (a + k) = m' (a + k)) -> ld m a = ld m' a.
Proof.
  intros H. rewrite !ld_eq. unfold load_word. rewrite <- !Z.add_assoc.
  pose proof (H 0 ltac:(lia)) as H0. rewrite Z.add_0_r in H0.
  rewrite H0, !H by lia. done.
Qed.

Lemma load_word_range m a : bytes_ok m -> in_word 32 (load_word m a).
Proof.
  intros H. unfold load_word. apply (le_val_range [m a; m (a + 1); m (a + 2); m (a + 3)]). by repeat constructor; apply H.
Qed.

Lemma load_word_byte m a k : bytes_ok m -> 0 <= k < 4 -> get_field (8 * k) 8 (load_word m a) = m (a + k).
Proof.
  intros H Hk. unfold load_word. rewrite get_field_div by lia.
  pose proof (H a). pose proof (H (a + 1)). pose proof (H (a + 2)). pose proof (H (a + 3)). unfold in_word in *.
  change (2 ^ 8) with 256 in *. cbn [le_val foldr].
  assert (Hc : k = 0 \/ k = 1 \/ k = 2 \/ k = 3) by lia. destruct Hc as [-> |[-> |[-> | ->]]]; rewrite ?Z.add_0_r.
  all: cbn [Z.mul]; match goal with |- context [2 ^ ?e] => let v := eval vm_compute in (2 ^ e) in change (2 ^ e) with v end; div_lia.
Qed.

Lemma ld_byte m a k : bytes_ok m -> 0 <= k < 8 -> get_field (8 * k) 8 (fst (ld m a)) = m (a + k).
Proof.
  intros H Hk. rewrite ld_eq. cbn [fst]. pose proof (load_word_range m a H). pose proof (load_word_range m (a + 4) H).
  destruct (decide (k < 4)).
  - rewrite <- (load_word_byte m a k) by (done || lia). unfold get_field, put_field, clear_field. Zbits.
  - replace (m (a + k)) with (m (a + 4 + (k - 4))) by (f_equal; lia).
    rewrite <- (load_word_byte m (a + 4) (k - 4)) by (done || lia). unfold get_field, put_field, clear_field. Zbits.
Qed.

(** Storing a whole flit. *)
Definition st8 (m : memory) (a data : Z) : memory := fun x => if (a <=? x) && (x <? a + 8) then get_field (8 * (x - a)) 8 data else m x.

Lemma store_flit_full f m a len :
  AXI_TD.tkeep f = 255 -> 8 <= len < 2 ^ 32 ->
  exists m', store_flit FLIT_WORDS 0 f m a len = (m', a + 8, len - 8) /\ forall x, m' x = st8 m a (AXI_TD.tdata f) x.
Proof.
  intros Hk Hl. unfold FLIT_WORDS. change (Z.to_nat (DD / 32)) with 2%nat. cbn [store_flit]. rewrite Hk.
  change (get_field 0 4 255 =? 15) with true. change (get_field (0 + 4) 4 255 =? 15) with true. cbv iota.
  rewrite (wrap_id 32 (len - 4)), (wrap_id 32) by (split; lia). replace (a + 4 + 4) with (a + 8) by lia.
  replace (len - 4 - 4) with (len - 8) by lia. eexists. split; [done|]. intros x. unfold st8, store_word.
  set (w := AXI_TD.tdata f). clearbody w.
  destruct (Z.leb_spec (a + 4) x), (Z.ltb_spec x (a + 4 + 4)), (Z.leb_spec a x), (Z.ltb_spec x (a + 8)), (Z.ltb_spec x (a + 4));
    cbn [andb]; try lia; try done; unfold get_field; Zbits.
Qed.

(** The memory after the flits of [T] are stored with what the flits of [S]
    held at the start. *)
Definition put8 (m0 : memory) (m : memory) (p : Z * Z) : memory :=
  fun x => if (fst p <=? x) && (x <? fst p + 8) then m0 (snd p + (x - fst p)) else m x.
Definition copied (m0 : memory) (T S : list Z) : memory := foldl (put8 m0) m0 (zip T S).

Lemma foldl_put8_other m0 l : forall m x, (forall p, p ∈ l -> x < fst p \/ fst p + 8 <= x) -> foldl (put8 m0) m l x = m x.
Proof.
  induction l as [|p l IH]; intros m x H; [done|]. cbn [foldl]. rewrite IH by (intros q Hq; apply H; by constructor).
  unfold put8. destruct (H p) as [?|?]; [by constructor|..]; destruct (Z.leb_spec (fst p) x), (Z.ltb_spec x (fst p + 8)); done || lia.
Qed.

Definition apart (S T : list Z) : Prop := forall s t, s ∈ S -> t ∈ T -> s + 8 <= t \/ t + 8 <= s.

Lemma copied_other m0 T S x : (forall t, t ∈ T -> x < t \/ t + 8 <= x) -> copied m0 T S x = m0 x.
Proof. intros H. apply foldl_put8_other. intros p Hp. apply H. destruct p as [t s]. by apply elem_of_zip_l in Hp. Qed.

Lemma copied_snoc m0 T S t s : length T = length S -> copied m0 (T ++ [t]) (S ++ [s]) = put8 m0 (copied m0 T S) (t, s).
Proof. intros H. unfold copied. rewrite zip_with_app by done. by rewrite foldl_app. Qed.

(** * Invariants *)

(** Flits a unit has yet to move, in order. *)
Definition front (e : engine) : list Z :=
  concat (map t_flits (issue e)) ++ concat (map d_flits (dmac e)) ++ concat (map d_flits (cmd e)).
Definition r_todo (s : system) : list Z :=
  match r_cur s with Some (a, len, _) => strip a (Z.to_nat len) | None => [] end
  ++ concat (map t_flits (trans (rd s))) ++ front (rd s).
Definition w_todo (s : system) : list Z :=
  match w_cur s with
  | Some (a, len) => strip_of a len ++ concat (map t_flits (tail (issue (wr s))))
                     ++ concat (map d_flits (dmac (wr s))) ++ concat (map d_flits (cmd (wr s)))
  | None => front (wr s)
  end.

(** Statuses of what a unit has yet to issue, one list per command. *)
Definition d_status (d : DMAC.t) : list DMAS.t := status d.
Definition owed (e : engine) : list (list DMAS.t) := map (fun p => status (snd p)) (issue e) ++ map d_status (dmac e ++ cmd e).
(** All statuses a unit has yet to report. *)
Definition pending (e : engine) : list DMAS.t := dmas e ++ concat (map (fun p => status (snd p)) (trans e)) ++ concat (owed e).

Lemma split_spec d :
  aligned d ->
  concat (map t_flits (split d)) = d_flits d /\ Forall good (split d) /\ Forall (fun p => DMAC.tag (snd p) = DMAC.tag d) (split d) /\
  exists n, map (fun p => status (snd p)) (split d) = repeat [] n ++ [d_status d].
Proof.
  intros (Ha & Ha8 & Hs & Hs8 & Hb). unfold split.
  destruct (transactions_spec (Z.to_nat (DMAC.size d)) (DMAC.addr d) (DMAC.size d) (DMAC.last d) (DMAC.tag d)) as (H1 & H2 & H3 & n & H4);
    [done..|lia|]. split_and!; [done..|]. exists n. rewrite H4. by destruct d.
Qed.

Lemma concat_repeat_nil {A} n (l : list A) : concat (repeat [] n ++ [l]) = l.
Proof. induction n as [|n IH]; [apply app_nil_r|done]. Qed.

(** The shape of a unit: aligned commands, well-formed transactions. *)
Definition ok_engine (P : TAG.t -> Prop) (e : engine) : Prop :=
  Forall good (issue e) /\ Forall good (trans e) /\ Forall aligned (dmac e) /\ Forall aligned (cmd e) /\
  Forall (fun p => P (DMAC.tag (snd p))) (issue e) /\ Forall (fun p => P (DMAC.tag (snd p))) (trans e) /\
  Forall (fun d => P (DMAS.tag d)) (dmas e) /\
  Forall (fun d => P (DMAC.tag d)) (dmac e) /\ Forall (fun d => P (DMAC.tag d)) (cmd e).

Section Engine.
Context (P : TAG.t -> Prop) (e e' : engine) (He : ok_engine P e).

Ltac engine_tac :=
  match goal with H : ok_engine _ _ |- _ => destruct H as (Hi & Ht & Hd & Hc & Pi & Pt & Ps & Pd & Pc) end;
  destruct e as [cm dm iss tr ds]; cbn [cmd dmac issue trans dmas] in *.

Lemma e_send_spec : e_send e = Some e' ->
  ok_engine P e' /\ front e' = front e /\ owed e' = owed e /\ pending e' = pending e /\ trans e' = trans e /\ dmas e' = dmas e /\ issue e' = issue e
  /\ concat (map d_flits (dmac e')) ++ concat (map d_flits (cmd e')) = concat (map d_flits (dmac e)) ++ concat (map d_flits (cmd e)).
Proof using He.
  engine_tac. unfold e_send. cbn [cmd]. destruct cm as [|d cm]; [done|].
  apply Forall_cons in Hc as [? ?], Pc as [? ?]. destruct (room _ _); [|done]. intros [= <-].
  unfold pending, ok_engine, front, owed. cbn [cmd dmac issue trans dmas]. rewrite !Forall_app, !Forall_singleton, <- !app_assoc, !map_app, !concat_app.
  cbn [map concat app]. rewrite app_nil_r, <- !app_assoc. by split_and!.
Qed.

Lemma e_read_spec : e_read e = Some e' ->
  ok_engine P e' /\ front e' = front e /\ concat (owed e') = concat (owed e) /\ pending e' = pending e /\ trans e' = trans e /\ dmas e' = dmas e /\
  issue e = [] /\ owed e <> [] /\ (exists n, owed e' = repeat [] n ++ owed e).
Proof using He.
  engine_tac. unfold e_read. cbn [issue dmac]. destruct iss as [|]; [|done]. destruct dm as [|d dm]; [done|].
  apply Forall_cons in Hd as [Hd ?], Pd as [? ?]. intros [= <-].
  destruct (split_spec d Hd) as (E1 & E2 & E3 & n & E4).
  unfold ok_engine, front, owed, pending. cbn [cmd dmac issue trans dmas]. unfold owed. cbn [cmd dmac issue trans dmas map app concat].
  rewrite E1, E4. rewrite (concat_app (repeat [] n ++ _)), concat_repeat_nil.
  split_and!; try done.
  - eapply Forall_impl; [exact E3|]. intros p Hp. simpl in Hp. by rewrite Hp.
  - by rewrite <- app_assoc.
  - exists n. by rewrite <- app_assoc.
Qed.

Lemma e_issue_spec : e_issue e = Some e' ->
  exists t ts, issue e = t :: ts /\ issue e' = ts /\ trans e' = trans e ++ [t] /\ dmas e' = dmas e /\ dmac e' = dmac e /\ cmd e' = cmd e /\
    ok_engine P e' /\ pending e' = pending e /\ owed e = status (snd t) :: owed e' /\ front e = t_flits t ++ front e'.
Proof using He.
  engine_tac. unfold e_issue. cbn [issue]. destruct iss as [|t ts]; [done|].
  apply Forall_cons in Hi as [? ?], Pi as [? ?]. destruct (room _ _); [|done]. intros [= <-]. exists t, ts.
  unfold ok_engine, pending, owed, front. cbn [cmd dmac issue trans dmas]. rewrite !Forall_app, !Forall_singleton, !map_app, !concat_app.
  cbn [map concat app]. rewrite app_nil_r, <- !app_assoc. by split_and!.
Qed.

Lemma pop_trans_ok : ok_engine P (pop_trans e).
Proof using He.
  engine_tac. unfold pop_trans, ok_engine. cbn [cmd dmac issue trans dmas]. destruct tr as [|t tr]; [by split_and!|].
  apply Forall_cons in Ht as [? ?], Pt as [? ?]. by split_and!.
Qed.

Lemma push_dmas_spec t : P (DMAC.tag t) -> push_dmas t e = Some e' ->
  ok_engine P e' /\ dmas e' = dmas e ++ status t /\ trans e' = trans e /\ issue e' = issue e /\ dmac e' = dmac e /\ cmd e' = cmd e.
Proof using He.
  intros HP. engine_tac. unfold push_dmas. cbn [dmas]. destruct (_ && _); [done|]. intros [= <-].
  unfold ok_engine. cbn [cmd dmac issue trans dmas]. rewrite Forall_app. split_and!; try done.
  unfold status. destruct (truthy _); [by apply Forall_singleton|done].
Qed.

Lemma e_status_spec v tid l : e_status v tid e = Some (e', l) ->
  exists d, dmas e = d :: dmas e' /\ P (DMAS.tag d) /\ ok_engine P e' /\ trans e' = trans e /\ issue e' = issue e /\ dmac e' = dmac e /\ cmd e' = cmd e /\
    l = option_list (snd (lsuctl.ct_response v tid d)).
Proof using He.
  engine_tac. unfold e_status. cbn [dmas]. destruct ds as [|d ds]; [done|]. apply Forall_cons in Ps as [? ?].
  destruct (lsuctl.ct_response v tid d) as [st r] eqn:E. intros [= <- <-]. exists d. unfold ok_engine. cbn [cmd dmac issue trans dmas]. rewrite E. by split_and!.
Qed.
End Engine.

Section Copy.
Context (cap : nat) (r_tid w_tid r_vcmd0 w_vcmd0 : Z).
(** The flits to be moved, the memory at the start and the responses due. *)
Context (m0 : memory) (Src Dst : list Z) (due : list ACMD.t).

Definition silent (t : TAG.t) : Prop := TAG.req t <> 1.
Definition resp (l : list DMAS.t) : list ACMD.t := concat (map (fun d => option_list (snd (lsuctl.ct_response w_vcmd0 w_tid d))) l).

Lemma resp_app l1 l2 : resp (l1 ++ l2) = resp l1 ++ resp l2.
Proof. unfold resp. by rewrite map_app, concat_app. Qed.

(** Shape of the system, what it still owes, and that the last thing owed is
    a response. *)
Record shape (s : system) : Prop := {
  sh_rd : ok_engine silent (rd s);
  sh_wr : ok_engine (fun _ => True) (wr s);
  sh_rcur : match r_cur s with Some (_, len, t) => 0 <= len /\ silent (DMAC.tag t) | None => True end;
  sh_wcur : match w_cur s with Some (_, len) => issue (wr s) <> [] /\ 0 <= len < 2 ^ 32 /\ len mod 8 = 0 | None => True end;
  sh_due : rsp s ++ resp (pending (wr s)) = due;
  sh_last : owed (wr s) <> [] -> exists x, last (owed (wr s)) = Some x /\ resp x <> []
}.

Definition in_flight (s : system) : list AXI_TD.t := dat s ++ option_list (r_out s).
Definition same (s s' : system) : Prop :=
  r_todo s' = r_todo s /\ w_todo s' = w_todo s /\ in_flight s' = in_flight s /\ mem s' = mem s.

Lemma good_pos p : good p -> 0 <= DMAC.size (snd p) < 2 ^ 32 /\ DMAC.size (snd p) mod 8 = 0 /\ flits (DMAC.size (snd p)) = DMAC.size (snd p) / 8 /\
  fst p = DMAC.addr (snd p) /\ 0 < DMAC.size (snd p).
Proof.
  intros (H1 & (H2 & H3 & H4 & H5 & H6) & H7). unfold flits. change ((DD + 7) / 8) with 8. split_and!; [lia|lia|done| |done|lia]. div_lia.
Qed.

Lemma last_cons_ne {A} (x : A) l y : l <> [] -> last (x :: l) = Some y -> last l = Some y.
Proof. by destruct l. Qed.

Lemma last_app_repeat {A} (x : A) n l : l <> [] -> last (repeat x n ++ l) = last l.
Proof. intros. induction n as [|n IH]; [done|]. cbn [repeat app]. rewrite <- IH. destruct (repeat x n ++ l) eqn:E; [|done]. by apply app_eq_nil in E as [_ ->]. Qed.

(** The moves that change no data. *)
Ltac same_tac := unfold same, in_flight, r_todo, w_todo, front in *; cbn [mem rd r_cur r_out dat wr w_cur rsp set_rd set_wr set_cur set_wcur add_rsp cmd dmac issue trans dmas pop_trans] in *.

Lemma r_send_ok s s' : shape s -> on_rd e_send s = Some s' -> shape s' /\ same s s'.
Proof.
  intros [] H. unfold on_rd in H. destruct (e_send (rd s)) as [e|] eqn:E; [|done]. injection H as <-.
  apply e_send_spec with (P := silent) in E as (H1 & H2 & H3 & H4 & H5 & H6 & H7 & H8); [|done].
  split; [by constructor|]. same_tac. rewrite H5. by split_and!; f_equal; f_equal.
Qed.

Lemma r_read_ok s s' : shape s -> on_rd e_read s = Some s' -> shape s' /\ same s s'.
Proof.
  intros [] H. unfold on_rd in H. destruct (e_read (rd s)) as [e|] eqn:E; [|done]. injection H as <-.
  apply e_read_spec with (P := silent) in E as (H1 & H2 & H3 & H4 & H5 & H6 & _ & _); [|done].
  split; [by constructor|]. same_tac. rewrite H5. by split_and!; f_equal; f_equal.
Qed.

Lemma r_issue_ok s s' : shape s -> on_rd e_issue s = Some s' -> shape s' /\ same s s'.
Proof.
  intros [] H. unfold on_rd in H. destruct (e_issue (rd s)) as [e|] eqn:E; [|done]. injection H as <-.
  apply e_issue_spec with (P := silent) in E as (t & ts & E1 & E2 & E3 & E4 & E5 & E6 & H1 & H2 & H3 & H4); [|done].
  split; [by constructor|]. same_tac. rewrite E1, E2, E3, E5, E6, map_app, concat_app. cbn [map concat]. by rewrite app_nil_r, <- !app_assoc.
Qed.

Lemma r_take_ok s s' : shape s -> r_take s = Some s' -> shape s' /\ same s s'.
Proof.
  intros [] H. unfold r_take in H. destruct (r_cur s) eqn:Ec; [done|]. destruct (trans (rd s)) as [|[a t] q] eqn:Et; [done|]. injection H as <-.
  pose proof sh_rd0 as (_ & Hg & _ & _ & _ & Hp & _). rewrite Et in Hg, Hp. apply Forall_cons in Hg as [Hg _], Hp as [Hp _].
  pose proof (good_pos _ Hg) as (G1 & G2 & G3 & G4 & G5). cbn [fst snd] in *.
  split.
  - constructor; cbn [rd wr r_cur w_cur rsp set_cur]; try done; [by apply pop_trans_ok|]. rewrite G3. split; [div_lia|done].
  - same_tac. rewrite Ec, Et. cbn [map concat tail]. unfold t_flits at 2, strip_of. cbn [fst snd]. rewrite G3, G4. by rewrite <- !app_assoc.
Qed.

Lemma r_write_ok s s' : shape s -> r_write cap s = Some s' -> shape s' /\ same s s'.
Proof.
  intros [] H. unfold r_write in H. destruct (r_out s) as [f|] eqn:Eo; [|done]. destruct (room _ _); [|done]. injection H as <-.
  split; [by constructor|]. same_tac. rewrite Eo. cbn [option_list]. by rewrite app_nil_r.
Qed.

Lemma r_done_ok s s' : shape s -> r_done s = Some s' -> shape s' /\ same s s'.
Proof.
  intros [] H. unfold r_done in H. destruct (r_cur s) as [[[a len] t]|] eqn:Ec; [|done]. destruct (r_out s) eqn:Eo; [done|].
  destruct (Z.ltb_spec 0 len) as [|Hl]; [done|]. destruct (push_dmas t (rd s)) as [e|] eqn:E; [|done]. injection H as <-.
  destruct sh_rcur0 as [Hl0 Hs]. apply push_dmas_spec with (P := silent) in E as (H1 & H2 & H3 & H4 & H5 & H6); [|done|done].
  split; [by constructor|]. same_tac. rewrite Ec, H3, H4, H5, H6. assert (len = 0) as -> by lia. done.
Qed.

Lemma r_status_ok s s' : shape s -> r_status r_tid r_vcmd0 s = Some s' -> shape s' /\ same s s'.
Proof.
  intros [] H. unfold r_status in H. destruct (e_status r_vcmd0 r_tid (rd s)) as [[e l]|] eqn:E; [|done]. injection H as <-.
  apply e_status_spec with (P := silent) in E as (d & H1 & H2 & H3 & H4 & H5 & H6 & H7 & H8); [|done].
  assert (l = []) as ->.
  { subst l. unfold lsuctl.ct_response. destruct (Z.eqb_spec (TAG.req (DMAS.tag d)) 1); [done|done]. }
  split; [constructor; try done; cbn [rsp wr add_rsp set_rd]; by rewrite app_nil_r|]. same_tac. by rewrite H4, H5, H6, H7.
Qed.

Lemma w_send_ok s s' : shape s -> on_wr e_send s = Some s' -> shape s' /\ same s s'.
Proof.
  intros [] H. unfold on_wr in H. destruct (e_send (wr s)) as [e|] eqn:E; [|done]. injection H as <-.
  apply e_send_spec with (P := fun _ => True) in E as (H1 & H2 & H3 & H4 & H5 & H6 & H7 & H8); [|done].
  split; [constructor; cbn [rd wr r_cur w_cur rsp set_wr]; rewrite ?H3, ?H4, ?H7; done|].
  same_tac. rewrite H7, H8. by destruct (w_cur s) as [[??]|].
Qed.

Lemma w_read_ok s s' : shape s -> on_wr e_read s = Some s' -> shape s' /\ same s s'.
Proof.
  intros [] H. unfold on_wr in H. destruct (e_read (wr s)) as [e|] eqn:E; [|done]. injection H as <-.
  apply e_read_spec with (P := fun _ => True) in E as (H1 & H2 & H3 & H4 & H5 & H6 & H7 & H9 & n & H8); [|done].
  destruct (w_cur s) as [[a len]|] eqn:Ec; [by destruct sh_wcur0|].
  split.
  - constructor; cbn [rd wr r_cur w_cur rsp set_wr]; rewrite ?H4, ?Ec, ?H8; try done.
    intros _. rewrite last_app_repeat by done. by apply sh_last0.
  - same_tac. rewrite Ec. by split_and!.
Qed.

Lemma w_take_ok s s' : shape s -> w_take s = Some s' -> shape s' /\ same s s'.
Proof.
  intros [] H. unfold w_take in H. destruct (w_cur s) eqn:Ec; [done|]. destruct (issue (wr s)) as [|[a t] q] eqn:Ei; [done|]. injection H as <-.
  pose proof sh_wr0 as (Hg & _). rewrite Ei in Hg. apply Forall_cons in Hg as [Hg _].
  pose proof (good_pos _ Hg) as (G1 & G2 & G3 & G4 & G5). cbn [fst snd] in *.
  split; [constructor; cbn [rd wr r_cur w_cur rsp set_wcur]; try done; rewrite Ei; split_and!; [done|lia..]|].
  same_tac. rewrite Ec, Ei. cbn [map concat tail]. by rewrite <- !app_assoc.
Qed.

Lemma w_issue_ok s s' : shape s -> w_issue s = Some s' -> shape s' /\ same s s'.
Proof.
  intros [] H. unfold w_issue in H. destruct (w_cur s) as [[a len]|] eqn:Ec; [|done]. destruct (Z.eqb_spec len 0) as [->|]; [|done].
  destruct (e_issue (wr s)) as [e|] eqn:E; [|done]. injection H as <-.
  apply e_issue_spec with (P := fun _ => True) in E as (t & ts & E1 & E2 & E3 & E4 & E5 & E6 & H1 & H2 & H3 & H4); [|done].
  split.
  - constructor; cbn [rd wr r_cur w_cur rsp set_wcur]; try done; [by rewrite H2|].
    intros Hne. rewrite H3 in sh_last0. destruct sh_last0 as (x & Hx & Hr); [done|]. exists x. split; [|done]. by eapply last_cons_ne.
  - same_tac. rewrite Ec, E1, E2, E5, E6. done.
Qed.

Lemma w_done_ok s s' : shape s -> w_done s = Some s' -> shape s' /\ same s s'.
Proof.
  intros [] H. unfold w_done in H. destruct (trans (wr s)) as [|[a t] q] eqn:Et; [done|].
  destruct (push_dmas t (pop_trans (wr s))) as [e|] eqn:E; [|done]. injection H as <-.
  apply push_dmas_spec with (P := fun _ => True) in E as (H1 & H2 & H3 & H4 & H5 & H6); [|by apply pop_trans_ok|done].
  cbn [pop_trans dmas trans issue dmac cmd] in *.
  assert (Ho : owed e = owed (wr s)) by (unfold owed; by rewrite H4, H5, H6).
  assert (Hp : pending e = pending (wr s)).
  { unfold pending. rewrite Ho, H2, H3, Et. cbn [map concat tail snd]. by rewrite <- !app_assoc. }
  split; [constructor; cbn [rd wr r_cur w_cur rsp set_wr]; rewrite ?Ho, ?Hp, ?H4; done|].
  same_tac. by rewrite H4, H5, H6.
Qed.

Lemma w_status_ok s s' : shape s -> w_status w_tid w_vcmd0 s = Some s' -> shape s' /\ same s s'.
Proof.
  intros [] H. unfold w_status in H. destruct (e_status w_vcmd0 w_tid (wr s)) as [[e l]|] eqn:E; [|done]. injection H as <-.
  apply e_status_spec with (P := fun _ => True) in E as (d & H1 & H2 & H3 & H4 & H5 & H6 & H7 & H8); [|done].
  assert (Ho : owed e = owed (wr s)) by (unfold owed; by rewrite H5, H6, H7).
  split; [constructor; cbn [rd wr r_cur w_cur rsp set_wr add_rsp]; rewrite ?Ho, ?H5; try done|].
  - rewrite <- sh_due0, <- app_assoc. f_equal. unfold pending. rewrite H1, H4, Ho. subst l. reflexivity.
  - same_tac. by rewrite H5, H6, H7.
Qed.

(** ** The two moves that touch data *)

Definition value (f : AXI_TD.t) : Z * Z := (AXI_TD.tdata f, AXI_TD.tkeep f).

Lemma r_load_ok s s' : shape s -> r_load s = Some s' ->
  shape s' /\ w_todo s' = w_todo s /\ mem s' = mem s /\
  exists a f, r_todo s = a :: r_todo s' /\ in_flight s' = in_flight s ++ [f] /\ value f = ld (mem s) a.
Proof.
  intros [] H. unfold r_load in H. destruct (r_cur s) as [[[a len] t]|] eqn:Ec; [|done]. destruct (r_out s) eqn:Eo; [done|].
  destruct (Z.ltb_spec 0 len) as [Hl|]; [|done]. fold (ld (mem s) a) in H. destruct (ld (mem s) a) as [data keep] eqn:El. injection H as <-.
  destruct sh_rcur0 as [_ Hs].
  split; [constructor; cbn [rd wr r_cur w_cur rsp]; try done; split; [lia|done]|].
  split_and!; [done|done|]. exists a. eexists. same_tac. rewrite Ec, Eo. cbn [option_list]. rewrite app_nil_r.
  split_and!; [|reflexivity|by rewrite El].
  replace (Z.to_nat len) with (S (Z.to_nat (len - 1))) by lia. done.
Qed.

Lemma w_store_ok s s' f q : shape s -> dat s = f :: q -> AXI_TD.tkeep f = 255 -> w_store s = Some s' ->
  shape s' /\ r_todo s' = r_todo s /\ in_flight s = f :: in_flight s' /\
  exists a, w_todo s = a :: w_todo s' /\ forall x, mem s' x = st8 (mem s) a (AXI_TD.tdata f) x.
Proof.
  intros [] Hd Hk H. unfold w_store in H. rewrite Hd in H. destruct (w_cur s) as [[a len]|] eqn:Ec; [|done].
  destruct sh_wcur0 as (Hi & Hl & Hl8). destruct (Z.eqb_spec len 0) as [|Hne]; [done|].
  destruct (store_flit_full f (mem s) a len Hk) as (m' & Hst & Hm); [div_lia|].
  rewrite Hst in H. injection H as <-.
  split; [constructor; cbn [rd wr r_cur w_cur rsp]; try done; split_and!; [done|div_lia..]|].
  split; [done|]. split; [unfold in_flight; by rewrite Hd|]. exists a. split; [|exact Hm].
  unfold w_todo. cbn [w_cur wr]. rewrite Ec. unfold strip_of.
  replace (Z.to_nat (len / 8)) with (S (Z.to_nat ((len - 8) / 8))) by div_lia. done.
Qed.

(** ** The data invariant *)

Context (len_eq : length Dst = length Src) (Src_Dst : apart Src Dst) (m0_ok : bytes_ok m0).

(** [i] flits loaded and [j] stored. *)
Record moved (i j : nat) (s : system) : Prop := {
  mv_ij : (j <= i <= length Src)%nat;
  mv_r : r_todo s = drop i Src;
  mv_w : w_todo s = drop j Dst;
  mv_fl : map value (in_flight s) = map (ld m0) (take (i - j) (drop j Src));
  mv_mem : forall x, mem s x = copied m0 (take j Dst) (take j Src) x
}.

Lemma moved_same i j s s' : moved i j s -> same s s' -> moved i j s'.
Proof. intros [] (H1 & H2 & H3 & H4). constructor; by rewrite ?H1, ?H2, ?H3, ?H4. Qed.

Lemma drop_cons_inv {A} n (l : list A) x r : drop n l = x :: r -> (n < length l)%nat /\ l !! n = Some x /\ drop (S n) l = r.
Proof.
  intros H. assert (Hn : (n < length l)%nat) by (apply (f_equal length) in H; rewrite length_drop in H; simpl in H; lia).
  destruct (lookup_lt_is_Some_2 l n Hn) as [y Hy]. rewrite (drop_S _ _ _ Hy) in H. by injection H as -> <-.
Qed.

Lemma moved_load i j s s' : shape s -> moved i j s -> r_load s = Some s' -> moved (S i) j s'.
Proof.
  intros Hs [] H. destruct (r_load_ok s s' Hs H) as (_ & H1 & H2 & a & f & H3 & H4 & H5).
  rewrite mv_r0 in H3. symmetry in H3. symmetry in H3. apply drop_cons_inv in H3 as (Hi & Ha & Hd).
  constructor; rewrite ?H1, ?H2; try done; [lia|].
  - rewrite H4, map_app, mv_fl0. cbn [map]. replace (S i - j)%nat with (S (i - j)) by lia.
    rewrite (take_S_r _ _ a) by (by rewrite lookup_drop, Nat.add_sub_assoc, Nat.add_comm, Nat.add_sub by lia).
    rewrite map_app. cbn [map]. do 2 f_equal. rewrite H5. apply ld_ext. intros k Hk. rewrite mv_mem0. apply copied_other.
    intros t Ht. apply elem_of_take in Ht as (n & Ht & _). apply list_elem_of_lookup_2 in Ht, Ha. destruct (Src_Dst a t Ha Ht); lia.
Qed.

Lemma moved_store i j s s' : shape s -> moved i j s -> w_store s = Some s' -> shape s' /\ moved i (S j) s'.
Proof.
  intros Hs [] H. destruct (dat s) as [|f q] eqn:Ed; [unfold w_store in H; rewrite Ed in H; by destruct (w_cur s) as [[??]|]|].
  assert (Hf : in_flight s = f :: q ++ option_list (r_out s)) by (unfold in_flight; by rewrite Ed).
  rewrite Hf in mv_fl0. cbn [map] in mv_fl0.
  destruct (take (i - j) (drop j Src)) as [|b l] eqn:Et; [done|]. cbn [map] in mv_fl0. injection mv_fl0 as Hv1 Hv2 Hv3.
  assert (Hij : (j < i)%nat) by (destruct (i - j)%nat eqn:E; [done|lia]).
  assert (Hb : Src !! j = Some b).
  { pose proof (f_equal (lookup 0%nat) Et) as E. rewrite lookup_take_lt, lookup_drop, Nat.add_0_r in E by lia. done. }
  destruct (w_store_ok s s' f q Hs Ed) as (Hs' & H1 & H2 & a & H3 & H4); [exact Hv2|exact H|].
  split; [done|]. rewrite mv_w0 in H3. apply drop_cons_inv in H3 as (Hj & Ha & Hd).
  rewrite Hf in H2. injection H2 as H2.
  constructor; [lia|by rewrite H1|done| |].
  - rewrite <- H2, Hv3. f_equal. rewrite (drop_S _ _ _ Hb) in Et. replace (i - j)%nat with (S (i - S j)) in Et by lia.
    cbn [take] in Et. by injection Et.
  - intros x. rewrite H4. rewrite (take_S_r _ _ _ Ha), (take_S_r _ _ _ Hb), copied_snoc by (rewrite !length_take; lia).
    unfold st8, put8. cbn [fst snd]. rewrite mv_mem0. destruct (Z.leb_spec a x), (Z.ltb_spec x (a + 8)); try done.
    cbn [andb]. rewrite Hv1. apply ld_byte; [done|lia].
Qed.

Abbreviation moves' := (moves cap r_tid w_tid r_vcmd0 w_vcmd0).
Abbreviation step' := (step cap r_tid w_tid r_vcmd0 w_vcmd0).

Definition invariant (s : system) : Prop := shape s /\ exists i j, moved i j s.

(** A move leaves the data alone, or is a load or a store. *)
Lemma move_cases s s' f : shape s -> f ∈ moves' -> f s = Some s' ->
  (shape s' /\ same s s') \/ f = r_load \/ f = w_store.
Proof.
  intros Hs Hf H. unfold moves in Hf.
  repeat (apply elem_of_cons in Hf as [->|Hf]); [..|by inversion Hf].
  all: first [by right; left | by right; right | left].
  all: first [by apply w_status_ok | by apply w_done_ok | by apply r_status_ok | by apply w_issue_ok | by apply w_take_ok
    | by apply w_read_ok | by apply w_send_ok | by apply r_write_ok | by apply r_done_ok | by apply r_take_ok
    | by apply r_issue_ok | by apply r_read_ok | by apply r_send_ok].
Qed.

Lemma step_invariant s s' : invariant s -> step' s s' -> invariant s'.
Proof.
  intros [Hs (i & j & Hm)] (f & Hf & H). destruct (move_cases s s' f Hs Hf H) as [[Hs' Hsame]|[-> | ->]].
  - split; [done|]. exists i, j. by eapply moved_same.
  - split; [by apply r_load_ok in H as [? _]|]. exists (S i), j. by eapply moved_load.
  - destruct (moved_store i j s s' Hs Hm H) as [??]. split; [done|]. by exists i, (S j).
Qed.

(** ** Every step makes progress *)

Definition t_size (p : Z * DMAC.t) : nat := Z.to_nat (DMAC.size (snd p) / 8).
Definition t_work (w : nat) (p : Z * DMAC.t) : nat := (2 * t_size p + w)%nat.
Definition d_work (w : nat) (d : DMAC.t) : nat := (2 + sum_list_with (t_work w) (split d))%nat.
Definition work (w_issue w_trans : nat) (data : nat) (e : engine) : nat :=
  (sum_list_with (fun d => 1 + d_work w_issue d) (cmd e) + sum_list_with (d_work w_issue) (dmac e)
   + data + w_trans + length (dmas e))%nat.

(** Steps the loading and the storing engine may still make. *)
Definition r_work (s : system) : nat :=
  (work 4 (sum_list_with (t_work 3) (trans (rd s))) (sum_list_with (t_work 4) (issue (rd s))) (rd s)
   + match r_cur s with Some (_, len, _) => 2 * Z.to_nat len + 2 | None => 0 end + length (option_list (r_out s)))%nat.
Definition w_work (s : system) : nat :=
  (work 4 (sum_list_with (fun _ => 2) (trans (wr s)))
     (match w_cur s with
      | Some (_, len) => 2 * Z.to_nat (len / 8) + 3 + sum_list_with (t_work 4) (tail (issue (wr s)))
      | None => sum_list_with (t_work 4) (issue (wr s))
      end) (wr s))%nat.
Definition total_work (s : system) : nat := (r_work s + w_work s)%nat.

Lemma sum_list_with_snoc {A} (f : A -> nat) l y : sum_list_with f (l ++ [y]) = (sum_list_with f l + f y)%nat.
Proof. rewrite sum_list_with_app. simpl. lia. Qed.

Lemma length_status t : (length (status t) <= 1)%nat.
Proof. unfold status. destruct (truthy _); simpl; lia. Qed.

Ltac move_cases_tac H :=
  repeat match type of H with
  | context [match ?x with _ => _ end] => destruct x eqn:?; try done
  end; cbn [mbind option_bind] in H; try (injection H as <-).
Ltac work_tac :=
  unfold total_work, r_work, w_work, work, d_work; cbn [mem rd r_cur r_out dat wr w_cur rsp cmd dmac issue trans dmas tail sum_list_with fmap list_fmap
    sum_list option_list option_rect length app set_rd set_wr set_cur set_wcur add_rsp pop_trans];
  rewrite ?sum_list_with_snoc, ?length_app; cbn [length]; try lia.

Lemma dat_keep s : invariant s -> Forall (fun f => AXI_TD.tkeep f = 255) (dat s).
Proof.
  intros [_ (i & j & [])]. apply Forall_forall. intros f Hf.
  assert (Hin : value f ∈ map value (in_flight s)).
  { unfold in_flight. rewrite map_app. apply elem_of_app. left. by apply list_elem_of_In, in_map, list_elem_of_In. }
  rewrite mv_fl0 in Hin. apply list_elem_of_In, in_map_iff in Hin as (a & Ha & _). rewrite ld_eq in Ha. by injection Ha.
Qed.

Lemma step_work s s' : invariant s -> step' s s' -> (total_work s' < total_work s)%nat.
Proof.
  intros Hinv (f & Hf & H). pose proof (dat_keep s Hinv) as Hkeep. destruct Hinv as [Hs _]. destruct Hs as [Hr Hw Hrc Hwc _ _]. unfold moves in Hf.
  destruct s as [m [cm dm iss tr ds] rc ro da [cm' dm' iss' tr' ds'] wc rs].
  cbn [mem rd r_cur r_out dat wr w_cur rsp issue] in *.
  repeat (apply elem_of_cons in Hf as [->|Hf]); [..|by inversion Hf].
  - unfold w_status, e_status in H. cbn [wr dmas] in H. move_cases_tac H. simplify_eq. work_tac.
  - unfold w_done, push_dmas in H. cbn [wr trans] in H. move_cases_tac H. simplify_eq. pose proof (length_status t). work_tac.
  - unfold r_status, e_status in H. cbn [rd dmas] in H. move_cases_tac H. simplify_eq. work_tac.
  - unfold w_issue, e_issue in H. cbn [wr w_cur issue trans] in H. destruct wc as [[a len]|]; [|done].
    destruct Hwc as (Hi & Hl & Hl8). destruct (Z.eqb_spec len 0) as [->|]; [|done]. move_cases_tac H. work_tac.
  - unfold w_store in H. cbn [w_cur dat mem] in H. destruct wc as [[a len]|]; [|done]. destruct da as [|f q]; [done|].
    destruct Hwc as (Hi & Hl & Hl8). destruct (Z.eqb_spec len 0) as [|Hne]; [done|].
    apply Forall_cons in Hkeep as [Hk _]. destruct (store_flit_full f m a len Hk) as (m' & Hst & _); [div_lia|].
    rewrite Hst in H. injection H as <-. work_tac. div_lia.
  - unfold w_take in H. cbn [w_cur wr issue] in H. move_cases_tac H. simplify_eq. work_tac. unfold t_work, t_size. cbn [snd]. lia.
  - unfold on_wr, e_read in H. cbn [wr issue dmac] in H. destruct iss' as [|]; [|done]. destruct dm' as [|d dm']; [done|].
    cbn [mbind option_bind] in H. injection H as <-. destruct wc as [[a len]|]; [by destruct Hwc|]. work_tac.
  - unfold on_wr, e_send in H. cbn [wr cmd dmac] in H. destruct cm' as [|d cm']; [done|]. move_cases_tac H. simplify_eq. work_tac.
  - unfold r_write in H. cbn [r_out dat] in H. move_cases_tac H. work_tac.
  - unfold r_load in H. cbn [r_cur r_out mem] in H. destruct rc as [[[a len] t]|]; [|done]. destruct ro; [done|].
    destruct (Z.ltb_spec 0 len); [|done]. destruct (load_flit _ _ _ _ _ _). injection H as <-. work_tac.
  - unfold r_done, push_dmas in H. cbn [r_cur r_out rd dmas] in H. destruct rc as [[[a len] t]|]; [|done]. destruct ro; [done|].
    destruct Hrc as [Hl _]. move_cases_tac H. simplify_eq. pose proof (length_status t). work_tac.
  - unfold r_take in H. cbn [r_cur rd trans] in H. move_cases_tac H. simplify_eq.
    destruct Hr as (_ & Hg & _). cbn [trans] in Hg. apply Forall_cons in Hg as [Hg _].
    pose proof (good_pos _ Hg) as (G1 & G2 & G3 & G4 & G5). cbn [fst snd] in *. work_tac. rewrite G3. unfold t_work, t_size. cbn [snd]. lia.
  - unfold on_rd, e_issue in H. cbn [rd issue trans] in H. move_cases_tac H. simplify_eq. work_tac. unfold t_work. lia.
  - unfold on_rd, e_read in H. cbn [rd issue dmac] in H. move_cases_tac H. simplify_eq. work_tac.
  - unfold on_rd, e_send in H. cbn [rd cmd dmac] in H. move_cases_tac H. simplify_eq. work_tac.
Qed.

(** ** No deadlock *)

Definition quiet (s : system) : Prop :=
  rd s = idle /\ wr s = idle /\ r_cur s = None /\ r_out s = None /\ dat s = [] /\ w_cur s = None.

Lemma can_move n f s : moves' !! n = Some f -> is_Some (f s) -> exists s', step' s s'.
Proof. intros Hn [s' H]. exists s', f. split; [by eapply list_elem_of_lookup_2|done]. Qed.

Lemma room_nil {A} n : (0 < n)%nat -> room (A := A) n [] = true.
Proof. intros. by apply Nat.ltb_lt. Qed.

(** A loading engine with flits to go moves, once its statuses and the flit
    it writes are taken. *)
Lemma r_progress s :
  shape s -> dmas (rd s) = [] -> r_out s = None -> rd s <> idle \/ r_cur s <> None -> exists s', step' s s'.
Proof.
  intros [] Hds Hro Hne. destruct (rd s) as [cm dm iss tr ds] eqn:Er. cbn [dmas] in Hds. subst ds.
  destruct (r_cur s) as [[[a len] t]|] eqn:Ec.
  - destruct (Z.ltb_spec 0 len).
    + apply (can_move 9 r_load); [done|]. unfold r_load. rewrite Ec, Hro. destruct (Z.ltb_spec 0 len); [|lia].
      destruct (load_flit _ _ _ _ _ _). by eexists.
    + apply (can_move 10 r_done); [done|]. unfold r_done. rewrite Ec, Hro, Er. destruct (Z.ltb_spec 0 len); [lia|].
      unfold push_dmas. cbn [dmas]. rewrite room_nil, andb_false_r by (unfold DMAS_DEPTH; lia). by eexists.
  - destruct tr as [|[a t] tr].
    + destruct iss as [|t iss].
      * destruct dm as [|d dm].
        -- destruct cm as [|d cm]; [by destruct Hne|].
           apply (can_move 14 (on_rd e_send)); [done|]. unfold on_rd, e_send. rewrite Er. cbn [cmd dmac].
           rewrite room_nil by (unfold DMAC_DEPTH; lia). by eexists.
        -- apply (can_move 13 (on_rd e_read)); [done|]. unfold on_rd, e_read. rewrite Er. by eexists.
      * apply (can_move 12 (on_rd e_issue)); [done|]. unfold on_rd, e_issue. rewrite Er. cbn [issue trans].
        rewrite room_nil by (unfold OUTSTANDING; lia). by eexists.
    + apply (can_move 11 r_take); [done|]. unfold r_take. rewrite Ec, Er. by eexists.
Qed.

(** So does a storing engine that is not waiting for a flit. *)
Lemma w_progress s :
  shape s -> dmas (wr s) = [] -> trans (wr s) = [] ->
  match w_cur s with Some (_, len) => len = 0 \/ dat s <> [] | None => wr s <> idle end -> exists s', step' s s'.
Proof.
  intros [_ _ _ Hwc _ _] Hds Htr Hne. destruct (wr s) as [cm dm iss tr ds] eqn:Ew. cbn [dmas trans issue] in *. subst ds tr.
  destruct (w_cur s) as [[a len]|] eqn:Ec.
  - destruct Hwc as (Hi & Hl & Hl8). destruct (Z.eqb_spec len 0) as [->|Hl0].
    + apply (can_move 3 w_issue); [done|]. unfold w_issue, e_issue. rewrite Ec, Ew. cbn [issue trans].
      destruct iss; [done|]. rewrite room_nil by (unfold OUTSTANDING; lia). by eexists.
    + destruct Hne as [?|Hd]; [done|]. destruct (dat s) as [|f q] eqn:Eq; [done|].
      apply (can_move 4 w_store); [done|]. unfold w_store. rewrite Ec, Eq. destruct (Z.eqb_spec len 0); [done|].
      destruct (store_flit _ _ _ _ _ _) as [[??]?]. by eexists.
  - destruct iss as [|t iss].
    + destruct dm as [|d dm].
      * destruct cm as [|d cm]; [done|].
        apply (can_move 7 (on_wr e_send)); [done|]. unfold on_wr, e_send. rewrite Ew. cbn [cmd dmac].
        rewrite room_nil by (unfold DMAC_DEPTH; lia). by eexists.
      * apply (can_move 6 (on_wr e_read)); [done|]. unfold on_wr, e_read. rewrite Ew. by eexists.
    + apply (can_move 5 w_take); [done|]. unfold w_take. rewrite Ec, Ew. cbn [issue]. destruct t. by eexists.
Qed.

Lemma idle_dec e : {e = idle} + {e <> idle}.
Proof. destruct e as [[|] [|] [|] [|] [|]]; by (left; done) || (right; done). Qed.

(** Statuses and written transactions can always be taken. *)
Lemma status_progress s : dmas (rd s) <> [] \/ dmas (wr s) <> [] \/ (dmas (wr s) = [] /\ trans (wr s) <> []) -> exists s', step' s s'.
Proof.
  intros [H|[H|[Hd H]]].
  - apply (can_move 2 (r_status r_tid r_vcmd0)); [done|]. unfold r_status, e_status. destruct (dmas (rd s)); [done|].
    destruct (lsuctl.ct_response _ _ _). by eexists.
  - apply (can_move 0 (w_status w_tid w_vcmd0)); [done|]. unfold w_status, e_status. destruct (dmas (wr s)); [done|].
    destruct (lsuctl.ct_response _ _ _). by eexists.
  - apply (can_move 1 w_done); [done|]. unfold w_done, push_dmas. destruct (trans (wr s)) as [|[a t] tr]; [done|].
    cbn [pop_trans dmas]. rewrite Hd, room_nil, andb_false_r by (unfold DMAS_DEPTH; lia). by eexists.
Qed.

(** With nothing in flight and nothing left to load, nothing is left to
    store; with nothing left to store, nothing is in flight. *)
Lemma starved i j s : moved i j s -> r_todo s = [] -> in_flight s = [] -> w_todo s = [].
Proof.
  intros [] Hr Hf. rewrite mv_r0 in Hr. rewrite Hf in mv_fl0. symmetry in mv_fl0. apply map_eq_nil in mv_fl0.
  rewrite mv_w0. apply drop_ge. apply (f_equal length) in Hr, mv_fl0. rewrite length_take, !length_drop in *. simpl in *. lia.
Qed.

Lemma none_in_flight i j s : moved i j s -> w_todo s = [] -> in_flight s = [].
Proof.
  intros [] Hw. rewrite mv_w0 in Hw. apply (f_equal length) in Hw, mv_fl0. rewrite !length_map, length_take, !length_drop in *.
  simpl in Hw. destruct (in_flight s); [done|simpl in *; lia].
Qed.

Lemma progress s : (0 < cap)%nat -> invariant s -> quiet s \/ exists s', step' s s'.
Proof.
  intros Hcap [Hs (i & j & Hm)]. pose proof Hs as [_ _ _ Hwc _ _].
  destruct (dmas (rd s)) as [|d ds] eqn:Ed; [|right; apply status_progress; left; by rewrite Ed].
  destruct (dmas (wr s)) as [|d ds] eqn:Ew; [|right; apply status_progress; right; left; by rewrite Ew].
  destruct (trans (wr s)) as [|t tr] eqn:Et; [|right; apply status_progress; right; right; by rewrite Et].
  destruct (dat s) as [|f q] eqn:Eq.
  - destruct (r_out s) as [f|] eqn:Ero.
    { right. apply (can_move 8 (r_write cap)); [done|]. unfold r_write. rewrite Ero, Eq, room_nil by done. by eexists. }
    assert (Hfl : in_flight s = []) by (unfold in_flight; by rewrite Eq, Ero).
    destruct (idle_dec (rd s)) as [Hr1|Hn]; [|right; by apply r_progress; auto].
    destruct (r_cur s) as [c|] eqn:Hr2; [right; apply r_progress; auto; right; by rewrite Hr2|].
    assert (Hw : w_todo s = []) by (eapply starved; [done| |done]; unfold r_todo; by rewrite Hr1, Hr2).
    destruct (w_cur s) as [[a len]|] eqn:Ec.
    + right. apply w_progress; [done..|]. rewrite Ec. left. destruct Hwc as (Hi & Hl & Hl8).
      unfold w_todo in Hw. rewrite Ec in Hw. apply app_eq_nil in Hw as [Hw _]. apply (f_equal length) in Hw.
      unfold strip_of in Hw. rewrite length_strip in Hw. simpl in Hw. div_lia.
    + destruct (idle_dec (wr s)) as [Hi|Hn]; [left; unfold quiet; by split_and!|].
      right. apply w_progress; [done..|]. by rewrite Ec.
  - right. apply w_progress; [done..|]. destruct (w_cur s) as [[a len]|] eqn:Ec; [right; by rewrite Eq|].
    intros Hi. assert (Hw : w_todo s = []) by (unfold w_todo; by rewrite Ec, Hi).
    apply none_in_flight in Hm; [|done]. unfold in_flight in Hm. by rewrite Eq in Hm.
Qed.

(** ** Runs *)

Lemma moved_quiet i j s : moved i j s -> w_todo s = [] -> forall x, mem s x = copied m0 Dst Src x.
Proof.
  intros [] Hw x. rewrite mv_w0 in Hw. apply (f_equal length) in Hw. rewrite length_drop in Hw. simpl in Hw.
  rewrite mv_mem0, !take_ge by lia. done.
Qed.

Lemma owed_nil s : shape s -> owed (wr s) = [] -> w_todo s = [].
Proof.
  intros [_ _ _ Hwc _ _] Ho. unfold owed in Ho. apply app_eq_nil in Ho as [Ho1 Ho2]. apply map_eq_nil in Ho1, Ho2.
  apply app_eq_nil in Ho2 as [Hd Hc]. unfold w_todo. destruct (w_cur s) as [[a len]|]; [by destruct Hwc|].
  unfold front. by rewrite Ho1, Hd, Hc.
Qed.

Lemma rtc_invariant s s' : invariant s -> rtc step' s s' -> invariant s'.
Proof. intros Hi H. induction H; [done|]. apply IHrtc. by eapply step_invariant. Qed.

Lemma nsteps_work n s s' : invariant s -> nsteps step' n s s' -> (n + total_work s' <= total_work s)%nat.
Proof.
  intros Hi H. induction H as [s|n s1 s2 s3 H12 _ IH]; [lia|]. pose proof (step_work _ _ Hi H12).
  specialize (IH (step_invariant _ _ Hi H12)). lia.
Qed.

Lemma run_to_quiet s : (0 < cap)%nat -> invariant s -> exists s', rtc step' s s' /\ quiet s'.
Proof.
  intros Hcap. remember (total_work s) as n eqn:En. revert s En.
  induction (lt_wf n) as [n _ IH]; intros s -> Hi. destruct (progress s Hcap Hi) as [Hq|[s1 H1]]; [by exists s|].
  destruct (IH (total_work s1) (step_work _ _ Hi H1) s1 eq_refl) as (s' & Hr & Hq); [by eapply step_invariant|].
  exists s'. split; [by eapply rtc_l|done].
Qed.

(** What is known of every state a copy can reach. *)
Lemma reachable_facts s s' :
  (0 < cap)%nat -> invariant s -> rtc step' s s' ->
  (quiet s' -> rsp s' = due /\ forall x, mem s' x = copied m0 Dst Src x) /\
  (length due = 1%nat -> rsp s' <> [] -> rsp s' = due /\ forall x, mem s' x = copied m0 Dst Src x) /\
  (exists s'', rtc step' s' s'' /\ quiet s'') /\
  (forall n s'', nsteps step' n s s'' -> (n <= total_work s)%nat).
Proof.
  intros Hcap Hi Hr. pose proof (rtc_invariant _ _ Hi Hr) as Hi'. pose proof Hi' as [Hs (i & j & Hm)]. pose proof Hs as [_ _ _ _ Hd Hl].
  split_and!.
  - intros (_ & Hw & _ & _ & _ & Hc). split.
    + rewrite Hw in Hd. unfold pending, owed in Hd. cbn in Hd. by rewrite app_nil_r in Hd.
    + apply (moved_quiet i j); [done|]. unfold w_todo. by rewrite Hc, Hw.
  - intros H1 Hne. assert (Hp : resp (pending (wr s')) = []).
    { apply (f_equal length) in Hd. rewrite length_app, H1 in Hd. destruct (rsp s'); [done|].
      simpl in Hd. apply length_zero_iff_nil. lia. }
    rewrite Hp, app_nil_r in Hd. split; [done|]. apply (moved_quiet i j); [done|]. apply owed_nil; [done|].
    destruct (owed (wr s')) as [|o os] eqn:Eo; [done|]. exfalso. destruct Hl as (x & Hx & Hr'); [done|].
    unfold pending in Hp. rewrite !resp_app, Eo in Hp. apply app_eq_nil in Hp as [_ Hp]. apply app_eq_nil in Hp as [_ Hp].
    rewrite last_Some in Hx. destruct Hx as [l Hx]. rewrite Hx, concat_app, resp_app in Hp. apply app_eq_nil in Hp as [_ Hp].
    simpl in Hp. by rewrite app_nil_r in Hp.
  - by apply run_to_quiet.
  - intros n s'' Hn. pose proof (nsteps_work _ _ _ Hi Hn). lia.
Qed.
End Copy.

(** The start of a copy. *)
Lemma start_invariant w_tid w_vcmd0 m r w :
  Forall aligned r -> Forall aligned w -> Forall (fun d => silent (DMAC.tag d)) r ->
  (w <> [] -> exists d, last w = Some d /\ resp w_tid w_vcmd0 (status d) <> []) ->
  invariant w_tid w_vcmd0 m (concat (map d_flits r)) (concat (map d_flits w)) (resp w_tid w_vcmd0 (concat (map status w))) (start m r w).
Proof.
  intros Hr Hw Hs Hl. split.
  - constructor; cbn [rd wr r_cur w_cur rsp start]; try done; try by (unfold ok_engine; cbn; split_and!).
    + unfold ok_engine. cbn. split_and!; try done. by apply Forall_true.
    + unfold owed. cbn. intros Hne. destruct Hl as (d & Hd & Hd'); [intros ->; done|]. exists (status d). split; [|done].
      etrans; [apply (fmap_last status w)|]. by rewrite Hd.
  - exists 0%nat, 0%nat. constructor; cbn; try done. lia.
Qed.
