(* ===== verification/LsuSystem.v ===== *)
(** The copy commands of the host library on the simulated accelerator: the
    packets of lsu_memcpy and lsu_smemcpy (Aport.v), sent with the simulated
    stream library, switched to the two halves of a load-store unit, written
    to its registers, turned into DMA commands and run by its engines
    (LsuHw.v) move exactly the blocks the caller named. *)
From S2P Require Import Prelude Stream Aport AportProofs Axis LsuHw LsuHwProofs.
Open Scope Z_scope.

(** * From packets to DMA commands *)

(** A control half of the unit takes a packet: the registers and the access
    command from ctlreg, and the DMA commands from lsuctl, which reads the
    registers when it reads the command.  [busy] is whether the status write
    port is driven with [st], as it is from the first status on. *)
(* @src ip/sysc/lsu.h 180-197 lsuctl u_ctlreg *)
Definition take_packet (busy : bool) (st : Z) (regs : list Z) (q : list AXI_TC.t) : option (list Z * ACMD.t * list DMAC.t) :=
  '(regs, _, go, _) ← ctlreg.ct_command [busy] [st] regs q;
  acmd ← go;
  Some (regs, acmd, lsuctl.ct_command acmd regs).

(** The unit routes a packet to its loading (0) or storing (1) half. *)
(* @src ip/sysc/lsu.h 753-774 lsu u_ctree *)
Definition route (q : list AXI_TC.t) : option Z :=
  match q with
  | [] => None
  | f :: _ => if forallb (fun f' => csw_demux 2 f' =? csw_demux 2 f) q then Some (csw_demux 2 f) else None
  end.

(** The flits of a packet of the host library. *)
Definition packet_flits (port : Sysc.stream_t) (words : list Z) : list AXI_TC.t :=
  snd (Sysc.stream_send port words (4 * Z.of_nat (length words)) (Z.lor F_BEGP F_ENDP)).

(** The flits of the answers to the host: one packet a response, from the
    registers of the storing half. *)
Definition answers (regs : list Z) (l : list ACMD.t) : list AXI_TC.t := concat (map (fun a => ctlreg.ct_response a regs) l).

(** ** The header *)

Lemma hdr_of_header tdest tid tuser :
  in_word 8 tdest -> in_word 8 tid -> in_word 16 tuser ->
  Sysc.hdr_of (Lsu.header tdest tid tuser) = {| Sysc.tdest := tdest; Sysc.tid := tid; Sysc.tuser := tuser |}.
Proof. intros H1 H2 H3. unfold Sysc.hdr_of, Lsu.header, get_field. f_equal; Zbits. Qed.

Section Packet.
Context (port : Sysc.stream_t) (tdest tid len : Z) (ws : list Z).
Hypothesis tdest_ok : in_word 4 tdest.
Hypothesis tid_ok : in_word 4 tid.

Definition user : Z := Z.lor 200 len.
Definition hdr : Sysc.hdr_t := {| Sysc.tdest := tdest; Sysc.tid := tid; Sysc.tuser := user |}.

Lemma packet_flits_eq :
  in_word 3 len -> (length ws <= 7)%nat ->
  packet_flits port (Lsu.header tdest tid user :: ws) = Sysc.send_words hdr true ws.
Proof using tdest_ok tid_ok.
  intros Hl Hws. unfold packet_flits, Sysc.stream_send.
  replace (4 * Z.of_nat (length (Lsu.header tdest tid user :: ws)) / 4) with (Z.of_nat (S (length ws))) by (simpl length; div_lia).
  rewrite (wrap_id 32) by (split; lia). rewrite Nat2Z.id, take_ge by (simpl; lia).
  change (truthy (Z.land (Z.lor F_BEGP F_ENDP) F_BEGP)) with true. change (truthy (Z.land (Z.lor F_BEGP F_ENDP) F_ENDP)) with true. cbn [snd Sysc.m_hdr].
  rewrite hdr_of_header; [done|by apply (in_word_weaken 4)..|].
  apply in_word_lor; [lia|by vm_compute|by apply (in_word_weaken 3)].
Qed.
End Packet.

(** ** The registers *)

Lemma regs_8 (regs : list Z) : length regs = 8%nat ->
  exists r0 r1 r2 r3 r4 r5 r6 r7, regs = [r0; r1; r2; r3; r4; r5; r6; r7].
Proof.
  intros H. do 8 (destruct regs as [|? regs]; [done|]). destruct regs; [|done]. by repeat eexists.
Qed.

Definition reg0 (busy : bool) (st r0 : Z) : Z := if busy then st else r0.

Definition go_acmd (tdest tid : Z) (u : RACC.t) : ACMD.t :=
  {| ACMD.sid := wrap CI tid; ACMD.did := wrap CI tdest; ACMD.srac := RACC.zero; ACMD.drac := u |}.

Lemma take_move busy st tdest tid cmd addr size r0 r1 r2 r3 r4 r5 r6 r7 :
  let regs := [reg0 busy st r0; cmd; addr; size; r4; r5; r6; r7] in
  let acmd := go_acmd tdest tid (RACC.of_ui 203) in
  take_packet busy st [r0; r1; r2; r3; r4; r5; r6; r7] (Sysc.send_words (hdr tdest tid 3) true [cmd; addr; size])
  = Some (regs, acmd, lsuctl.ct_command acmd regs).
Proof. by destruct busy. Qed.

Lemma take_smove busy st tdest tid cmd addr size inc rep r0 r1 r2 r3 r4 r5 r6 r7 :
  let regs := [reg0 busy st r0; cmd; addr; size; inc; rep; r6; r7] in
  let acmd := go_acmd tdest tid (RACC.of_ui 205) in
  take_packet busy st [r0; r1; r2; r3; r4; r5; r6; r7] (Sysc.send_words (hdr tdest tid 5) true [cmd; addr; size; inc; rep])
  = Some (regs, acmd, lsuctl.ct_command acmd regs).
Proof. by destruct busy. Qed.

Lemma route_send h ws : ws <> [] -> route (Sysc.send_words h true ws) = Some (Z.land (wrap CI (Sysc.tdest h)) 1).
Proof.
  intros Hne. assert (Hall : forall b, Forall (fun f => AXI_TC.tdest f = wrap CI (Sysc.tdest h)) (Sysc.send_words h b ws)).
  { intros b. clear Hne. induction ws as [|w ws IH]; [done|]. destruct ws; [by constructor|]. by constructor. }
  specialize (Hall true). unfold route. destruct (Sysc.send_words h true ws) as [|f q] eqn:E.
  { destruct ws as [|w [|]]; done. }
  unfold csw_demux. simpl (2 =? 2). cbv iota.
  assert (Hf : AXI_TC.tdest f = wrap CI (Sysc.tdest h)) by (by apply Forall_cons in Hall as [? _]).
  replace (forallb _ _) with true; [by rewrite Hf|]. symmetry. apply forallb_forall. intros g Hg.
  rewrite Forall_forall in Hall. rewrite (Hall g) by (by apply list_elem_of_In). rewrite Hf. apply Z.eqb_refl.
Qed.

(** ** The DMA commands *)

Lemma field0_id w x : 0 <= w -> in_word w x -> get_field 0 w x = x.
Proof. intros. rewrite get_field_div by lia. rewrite Z.div_1_r. by apply wrap_id. Qed.

(** A command word and its address, for an address of 32 bits. *)
Lemma cmd_word paddr reqs cmd r0 rest :
  in_word 32 paddr -> in_word 1 reqs -> in_word 3 cmd ->
  lsuctl._command (r0 :: u32 (LSU_ACMD paddr reqs cmd) :: u32 paddr :: rest) = cmd /\
  lsuctl._reqstat (r0 :: u32 (LSU_ACMD paddr reqs cmd) :: u32 paddr :: rest) = reqs.
Proof.
  intros Hp Hr Hc. destruct (ACMD_address paddr reqs cmd) as (H1 & H2 & _); [by apply (in_word_weaken 32)|done..].
Qed.

Lemma dmac_id size last addr did req :
  in_word 24 size -> in_word 32 addr ->
  lsuctl.dmac size last addr did req
  = {| DMAC.size := size; DMAC.last := last; DMAC.addr := addr; DMAC.tag := {| TAG.did := did; TAG.req := req |} |}.
Proof. intros Hs Ha. unfold lsuctl.dmac. by rewrite (wrap_id 24), (wrap_id 32). Qed.

(** The size is 24 bits wide by the time it reaches an engine. *)
Lemma move_command_wide acmd paddr reqs n r0 rest :
  in_word 32 paddr -> in_word 1 reqs -> in_word 30 n ->
  lsuctl.ct_command acmd (r0 :: u32 (LSU_ACMD paddr reqs Aport.LSU_move) :: u32 paddr :: u32 n :: rest)
  = [{| DMAC.size := wrap 24 n; DMAC.last := 1; DMAC.addr := paddr; DMAC.tag := {| TAG.did := ACMD.sid acmd; TAG.req := reqs |} |}].
Proof.
  intros Hp Hr Hn. destruct (cmd_word paddr reqs Aport.LSU_move r0 (u32 n :: rest) Hp Hr) as [Hc Hq]; [by vm_compute|].
  unfold lsuctl.ct_command. rewrite Hc, Hq. change (Aport.LSU_move =? LSU_move) with true. cbv iota. f_equal.
  unfold lsuctl._size, lsuctl._address, lsuctl.reg. cbn [nth].
  rewrite (wrap_id 32 n), (field0_id 30), (wrap_id 32 paddr) by (done || (by apply (in_word_weaken 30)) || lia).
  by unfold lsuctl.dmac; rewrite (wrap_id 32 paddr).
Qed.

Lemma move_command acmd paddr reqs n r0 rest :
  in_word 32 paddr -> in_word 1 reqs -> in_word 24 n ->
  lsuctl.ct_command acmd (r0 :: u32 (LSU_ACMD paddr reqs Aport.LSU_move) :: u32 paddr :: u32 n :: rest)
  = [{| DMAC.size := n; DMAC.last := 1; DMAC.addr := paddr; DMAC.tag := {| TAG.did := ACMD.sid acmd; TAG.req := reqs |} |}].
Proof. intros Hp Hr Hn. rewrite move_command_wide by (done || by apply (in_word_weaken 24)). by rewrite (wrap_id 24 n). Qed.

(** The blocks of a strided move: only the last one asks for a response. *)
Fixpoint blocks (n : nat) (addr inc size did req : Z) : list DMAC.t :=
  match n with
  | O => []
  | S n' =>
      let last := Z.b2z (Nat.eqb n' 0) in
      {| DMAC.size := size; DMAC.last := last; DMAC.addr := addr; DMAC.tag := {| TAG.did := did; TAG.req := Z.land req last |} |}
      :: blocks n' (addr + inc) inc size did req
  end.

Lemma count_down rep : 0 < rep < 2 ^ 30 -> put_field 0 30 (wrap 30 (rep - 1)) rep = rep - 1.
Proof.
  intros Hr. rewrite (wrap_id 30) by (split; lia). unfold put_field, clear_field. rewrite !Z.shiftl_0_r.
  replace (Z.ldiff rep (Z.ones 30)) with 0; [apply Z.lor_0_l|].
  assert (in_word 30 rep) by (split; lia). Zbits.
Qed.

Lemma smove_loop_blocks acmd r0 c size inc r6 r7 : forall n fuel addr,
  in_word 24 size -> in_word 30 inc -> Z.of_nat n < 2 ^ 30 -> (n <= fuel)%nat -> 0 <= addr -> (n <> 0%nat -> addr + (Z.of_nat n - 1) * inc < 2 ^ 32) ->
  lsuctl.smove_loop fuel acmd [r0; c; wrap 32 addr; size; inc; Z.of_nat n; r6; r7]
  = blocks n addr inc size (ACMD.sid acmd) (get_field 7 1 c).
Proof.
  induction n as [|n IH]; intros fuel addr Hs Hi Hn Hf Ha Hb.
  { destruct fuel as [|fuel]; [done|]. cbn [lsuctl.smove_loop]. unfold lsuctl._rep, lsuctl.reg. cbn [nth]. done. }
  destruct fuel as [|fuel]; [lia|]. cbn [lsuctl.smove_loop blocks]. specialize (Hb ltac:(lia)).
  assert (Hrep : forall x, lsuctl._rep [r0; c; x; size; inc; Z.of_nat (S n); r6; r7] = Z.of_nat (S n)) by (intros; apply field0_id; [lia|split; lia]).
  assert (Hinc : lsuctl._inc [r0; c; wrap 32 addr; size; inc; Z.of_nat (S n); r6; r7] = inc) by (by apply field0_id).
  assert (Hsize : lsuctl._size [r0; c; wrap 32 addr; size; inc; Z.of_nat (S n); r6; r7] = size) by (apply field0_id; [lia|by apply (in_word_weaken 24)]).
  assert (Haddr : lsuctl._address [r0; c; wrap 32 addr; size; inc; Z.of_nat (S n); r6; r7] = wrap 32 addr) by done.
  unfold in_word in *. assert (0 <= Z.of_nat n * inc) by nia.
  assert (Hwa : wrap 32 addr = addr) by (apply wrap_id; split; lia).
  rewrite Hrep, Hinc, Hsize, Haddr, Hwa. destruct (Z.eqb_spec (Z.of_nat (S n)) 0); [lia|].
  unfold lsuctl.reg. cbn [list_insert insert nth]. rewrite Hrep, count_down by lia. replace (Z.of_nat (S n) - 1) with (Z.of_nat n) by lia.
  f_equal.
  - rewrite dmac_id by (unfold in_word; lia). replace (Z.of_nat (S n) =? 1) with (Nat.eqb n 0); [done|].
    destruct (Nat.eqb_spec n 0), (Z.eqb_spec (Z.of_nat (S n)) 1); lia || done.
  - apply IH; try done; try lia; try (unfold in_word; lia).
Qed.

Lemma smove_command acmd paddr reqs size inc n r0 r6 r7 :
  in_word 32 paddr -> in_word 1 reqs -> in_word 24 size -> in_word 30 inc -> in_word 30 n ->
  (n <> 0 -> paddr + (n - 1) * inc < 2 ^ 32) ->
  lsuctl.ct_command acmd [r0; u32 (LSU_ACMD paddr reqs Aport.LSU_smove); u32 paddr; u32 size; u32 inc; u32 n; r6; r7]
  = blocks (Z.to_nat n) paddr inc size (ACMD.sid acmd) reqs.
Proof.
  intros Hp Hr Hs Hi Hn Hb.
  destruct (cmd_word paddr reqs Aport.LSU_smove r0 [u32 size; u32 inc; u32 n; r6; r7] Hp Hr) as [Hc Hq]; [by vm_compute|].
  unfold lsuctl.ct_command. rewrite Hc. change (Aport.LSU_smove =? LSU_move) with false. change (Aport.LSU_smove =? LSU_smove) with true. cbv iota.
  unfold lsuctl._reqstat, lsuctl.reg in Hq. cbn [nth] in Hq.
  rewrite (wrap_id 32 size), (wrap_id 32 inc), (wrap_id 32 n) by ((by apply (in_word_weaken 24)) || (by apply (in_word_weaken 30))).
  unfold lsuctl._rep, lsuctl.reg. cbn [nth]. rewrite (field0_id 30) by done.
  pose proof (smove_loop_blocks acmd r0 (u32 (LSU_ACMD paddr reqs Aport.LSU_smove)) size inc r6 r7 (Z.to_nat n) (Z.to_nat n) paddr) as H.
  unfold in_word in *. rewrite Hq, Z2Nat.id in H by lia. apply H; lia.
Qed.

(** * What a copy of blocks does to memory *)

(** The block copy, and the strided one: [D] and [S] are the addresses of the
    blocks. *)
Definition copy_block (m0 : memory) (n : Z) (m : memory) (p : Z * Z) : memory :=
  fun x => if (fst p <=? x) && (x <? fst p + n) then m0 (snd p + (x - fst p)) else m x.

Lemma foldl_put8_strip m0 n : forall m d s x,
  foldl (put8 m0) m (zip (strip d n) (strip s n)) x = copy_block m0 (8 * Z.of_nat n) m (d, s) x.
Proof.
  induction n as [|n IH]; intros m d s x.
  - unfold copy_block. cbn [strip zip zip_with foldl fst snd]. destruct (Z.leb_spec d x), (Z.ltb_spec x (d + 8 * Z.of_nat 0)); done || lia.
  - cbn [strip zip zip_with foldl]. fold (zip (strip (d + 8) n) (strip (s + 8) n)). rewrite IH. unfold copy_block, put8. cbn [fst snd].
    destruct (Z.leb_spec (d + 8) x), (Z.ltb_spec x (d + 8 + 8 * Z.of_nat n)), (Z.leb_spec d x), (Z.ltb_spec x (d + 8 * Z.of_nat (S n))), (Z.ltb_spec x (d + 8));
      cbn [andb]; try lia; try done; f_equal; lia.
Qed.

Lemma foldl_ext_mem (f g : memory -> Z * Z -> memory) (m m' : memory) (l : list (Z * Z)) :
  (forall m m' p, (forall x, m x = m' x) -> forall x, f m p x = g m' p x) ->
  (forall x, m x = m' x) -> forall x, foldl f m l x = foldl g m' l x.
Proof. intros Hfg. revert m m'. induction l as [|p l IH]; intros m m' Hm x; [done|]. cbn [foldl]. apply IH. intros y. by apply Hfg. Qed.

Lemma copied_blocks m0 n D S' :
  0 <= n -> n mod 8 = 0 -> length D = length S' ->
  forall x, copied m0 (concat (map (fun a => strip_of a n) D)) (concat (map (fun a => strip_of a n) S')) x
            = foldl (copy_block m0 n) m0 (zip D S') x.
Proof.
  intros Hn Hn8. unfold copied. generalize m0 at 2 4 as m. revert S'.
  induction D as [|d D IH]; intros [|s S'] m Hl x; simpl in Hl; try lia; [done|].
  cbn [map concat]. rewrite zip_with_app by (unfold strip_of; by rewrite !length_strip).
  rewrite foldl_app, IH by lia. cbn [zip zip_with foldl]. apply foldl_ext_mem; [|].
  - intros m1 m2 p Hm y. unfold copy_block. by rewrite Hm.
  - intros y. unfold strip_of. rewrite foldl_put8_strip. unfold copy_block. by replace (8 * Z.of_nat (Z.to_nat (n / 8))) with n by div_lia.
Qed.

(** Blocks that do not overlap each other: every block is a copy. *)
Lemma foldl_copy_other m0 n l : forall m x,
  (forall p, p ∈ l -> x < fst p \/ fst p + n <= x) -> foldl (copy_block m0 n) m l x = m x.
Proof.
  induction l as [|p l IH]; intros m x H; [done|]. cbn [foldl]. rewrite IH by (intros q Hq; apply H; by constructor).
  unfold copy_block. destruct (H p) as [?|?]; [by constructor|..]; destruct (Z.leb_spec (fst p) x), (Z.ltb_spec x (fst p + n)); done || lia.
Qed.

Lemma foldl_copy_at m0 n l1 p l2 m x :
  fst p <= x < fst p + n -> (forall q, q ∈ l2 -> x < fst q \/ fst q + n <= x) ->
  foldl (copy_block m0 n) m (l1 ++ p :: l2) x = m0 (snd p + (x - fst p)).
Proof.
  intros Hx Hl. rewrite foldl_app. cbn [foldl]. rewrite foldl_copy_other by done. unfold copy_block at 1.
  destruct (Z.leb_spec (fst p) x), (Z.ltb_spec x (fst p + n)); done || lia.
Qed.

(** The addresses of strided blocks. *)
Definition ramp (a inc : Z) (n : nat) : list Z := map (fun i => a + Z.of_nat i * inc) (seq 0 n).

Lemma zip_ramp d di s si n :
  zip (ramp d di n) (ramp s si n) = map (fun i => (d + Z.of_nat i * di, s + Z.of_nat i * si)) (seq 0 n).
Proof. unfold ramp. induction (seq 0 n) as [|i l IH]; [done|]. cbn [map zip zip_with]. f_equal. exact IH. Qed.

Lemma copy_ramp_at m0 bs d di s si n i x :
  0 <= bs <= di -> (i < n)%nat -> d + Z.of_nat i * di <= x < d + Z.of_nat i * di + bs ->
  foldl (copy_block m0 bs) m0 (zip (ramp d di n) (ramp s si n)) x = m0 (s + Z.of_nat i * si + (x - (d + Z.of_nat i * di))).
Proof.
  intros Hb Hi Hx. rewrite zip_ramp. replace n with (i + S (n - S i))%nat by lia. rewrite seq_app, map_app. cbn [seq map].
  apply (foldl_copy_at m0 bs _ (d + Z.of_nat (0 + i) * di, s + Z.of_nat (0 + i) * si)); [done|].
  intros q (k & <- & Hk%in_seq)%list_elem_of_In%in_map_iff. cbn [fst]. left. nia.
Qed.

Lemma copy_ramp_other m0 bs d di s si n x :
  (forall i, (i < n)%nat -> x < d + Z.of_nat i * di \/ d + Z.of_nat i * di + bs <= x) ->
  foldl (copy_block m0 bs) m0 (zip (ramp d di n) (ramp s si n)) x = m0 x.
Proof.
  intros H. apply foldl_copy_other. rewrite zip_ramp. intros q (k & <- & Hk%in_seq)%list_elem_of_In%in_map_iff. apply H. lia.
Qed.

Lemma blocks_flits n : forall addr inc size did req,
  map d_flits (blocks n addr inc size did req) = map (fun a => strip_of a size) (ramp addr inc n).
Proof.
  induction n as [|n IH]; intros; [done|]. cbn [blocks map]. rewrite IH. unfold ramp. cbn [seq map]. rewrite Z.add_0_r. f_equal.
  rewrite <- seq_shift, !map_map. apply map_ext. intros i. f_equal. lia.
Qed.

(** * A command pair runs *)

Section Runs.
Context (cap : nat) (cap_pos : (0 < cap)%nat) (r_tid w_tid r_vcmd0 w_vcmd0 : Z).

(** The host's receive of the answer to a command succeeds. *)
Definition answered (s : system) : Prop :=
  forall port regs, exists port' ws, length ws = 2%nat /\
    Sysc.stream_recv port 8 (Z.lor F_BEGP F_ENDP) (answers regs (rsp s)) = Some (0, port', ws, []).

(** Whatever the order the threads run in: the run is finite and can always
    be finished; when it is, the host has its answer and memory is as [Q]
    says; and already when an answer was sent, memory is. *)
Definition finishes (m : memory) (r w : list DMAC.t) (Q : memory -> Prop) : Prop :=
  let step := step cap r_tid w_tid r_vcmd0 w_vcmd0 in
  (forall s, rtc step (start m r w) s ->
    (quiet s -> answered s /\ Q (mem s)) /\ (rsp s <> [] -> Q (mem s)) /\ exists s', rtc step s s' /\ quiet s') /\
  (forall n s, nsteps step n (start m r w) s -> (n <= total_work (start m r w))%nat).

Definition done_status (tag : TAG.t) : DMAS.t :=
  {| DMAS.tag := tag; DMAS.interr := 0; DMAS.decerr := 0; DMAS.slverr := 0; DMAS.okay := 1 |}.

Lemma resp_done tag : TAG.req tag = 1 -> exists a, resp w_tid w_vcmd0 [done_status tag] = [a] /\ RACC.len (ACMD.srac a) = 1.
Proof. intros Hq. unfold resp, lsuctl.ct_response. cbn [map concat DMAS.tag done_status]. rewrite Hq. by eexists. Qed.

Lemma answer_received tag s : TAG.req tag = 1 -> rsp s = resp w_tid w_vcmd0 [done_status tag] -> answered s.
Proof.
  intros Hq Hr port regs. destruct (resp_done tag Hq) as (a & Ha & Hl). rewrite Hr, Ha. unfold answers. cbn [map concat].
  unfold ctlreg.ct_response. rewrite Hl. eexists _, [_; _]. split; reflexivity.
Qed.

(** It is enough that the commands are aligned, the last one alone reports,
    and the flits stored are apart from the flits loaded. *)
Lemma finishes_intro m r w0 d tag (Q : memory -> Prop) :
  Forall aligned r -> Forall aligned (w0 ++ [d]) -> Forall (fun d => silent (DMAC.tag d)) r ->
  Forall (fun d => status d = []) w0 -> status d = [done_status tag] -> TAG.req tag = 1 ->
  length (concat (map d_flits (w0 ++ [d]))) = length (concat (map d_flits r)) ->
  apart (concat (map d_flits r)) (concat (map d_flits (w0 ++ [d]))) -> bytes_ok m ->
  (forall m', (forall x, m' x = copied m (concat (map d_flits (w0 ++ [d]))) (concat (map d_flits r)) x) -> Q m') ->
  finishes m r (w0 ++ [d]) Q.
Proof using cap_pos.
  intros Hr Hw Hs Hw0 Hd Hq Hlen Hap Hm HQ. destruct (resp_done tag Hq) as (a & Ha & _).
  assert (Hst : concat (map status (w0 ++ [d])) = [done_status tag]).
  { rewrite map_app, concat_app. cbn [map concat]. rewrite Hd, app_nil_r.
    replace (concat (map status w0)) with (@nil DMAS.t); [done|]. clear - Hw0. induction Hw0 as [|b l Hb _ IH]; [done|]. simpl. by rewrite Hb. }
  pose proof (start_invariant w_tid w_vcmd0 m r (w0 ++ [d]) Hr Hw Hs) as Hi. rewrite Hst in Hi.
  assert (Hi' := Hi ltac:(intros _; exists d; split; [apply last_snoc|by rewrite Hd, Ha])). clear Hi.
  split.
  - intros s Hreach.
    destruct (reachable_facts cap r_tid w_tid r_vcmd0 w_vcmd0 _ _ _ _ Hlen Hap Hm _ _ cap_pos Hi' Hreach) as (F1 & F2 & F3 & _).
    split_and!; [|intros Hne; apply HQ, F2; [by rewrite Ha|done]|exact F3].
    intros Hquiet. destruct (F1 Hquiet) as [G1 G2]. split; [by eapply answer_received|by apply HQ].
  - intros n s Hn. by apply (reachable_facts cap r_tid w_tid r_vcmd0 w_vcmd0 _ _ _ _ Hlen Hap Hm _ _ cap_pos Hi' (rtc_refl _ _)) in Hn.
Qed.
End Runs.

(** * The host's block copies *)

(** Ids the control switch can route: a port number doubled, and four bits. *)
Definition routable (g : Lsu.ids) : Prop :=
  0 <= Lsu.gfwd_id g /\ Lsu.gfwd_id g mod 2 = 0 /\ Lsu.gfwd_id g + 1 < 16 /\ in_word 4 (Lsu.gret_id g).

(** A whole command: both packets reach their halves, the commands they give
    are run, and [Q] holds of the memory when the host continues. *)
Definition performs (cap : nat) (port : Sysc.stream_t) (m : memory) (load store : list Z) (Q : memory -> Prop) : Prop :=
  forall br sr regs_r bw sw regs_w, length regs_r = 8%nat -> length regs_w = 8%nat ->
  route (packet_flits port load) = Some 0 /\ route (packet_flits port store) = Some 1 /\
  exists rr ar r rw aw w,
    take_packet br sr regs_r (packet_flits port load) = Some (rr, ar, r) /\
    take_packet bw sw regs_w (packet_flits port store) = Some (rw, aw, w) /\
    finishes cap (ACMD.did ar) (ACMD.did aw) (nth 0 rr 0) (nth 0 rw 0) m r w Q.

Lemma finishes_mono cap r_tid w_tid r0 w0 m r w (Q Q' : memory -> Prop) :
  (forall m, Q m -> Q' m) -> finishes cap r_tid w_tid r0 w0 m r w Q -> finishes cap r_tid w_tid r0 w0 m r w Q'.
Proof.
  intros HQ [H1 H2]. split; [|exact H2]. intros s Hs. destruct (H1 s Hs) as (A & B & C). split_and!; [|auto|done].
  intros Hq. destruct (A Hq). auto.
Qed.

Lemma performs_mono cap port m load store (Q Q' : memory -> Prop) :
  (forall m, Q m -> Q' m) -> performs cap port m load store Q -> performs cap port m load store Q'.
Proof.
  intros HQ H br sr regs_r bw sw regs_w Hr Hw. destruct (H br sr regs_r bw sw regs_w Hr Hw) as (R1 & R2 & rr & ar & r & rw & aw & w & E1 & E2 & Hf).
  split; [done|split; [done|]]. exists rr, ar, r, rw, aw, w. split; [done|split; [done|]]. by eapply finishes_mono.
Qed.

Lemma routes g :
  routable g -> Z.land (wrap CI (Lsu.gfwd_id g + READ_CH)) 1 = 0 /\ Z.land (wrap CI (Lsu.gfwd_id g + WRITE_CH)) 1 = 1 /\
  in_word 4 (Lsu.gfwd_id g + READ_CH) /\ in_word 4 (Lsu.gfwd_id g + WRITE_CH) /\ in_word 4 (Lsu.gret_id g).
Proof.
  intros (H1 & H2 & H3 & H4). unfold READ_CH, WRITE_CH, CI, in_word in *. change (2 ^ 4) with 16 in *.
  rewrite !(wrap_id 4) by (split; change (2 ^ 4) with 16; lia). assert (Hl : forall x, Z.land x 1 = x mod 2) by (intros x; apply (Z.land_ones x 1); lia). rewrite !Hl.
  split_and!; try lia; div_lia.
Qed.

Lemma strip_apart d s n k :
  d + 8 * Z.of_nat n <= s \/ s + 8 * Z.of_nat k <= d -> apart (strip s k) (strip d n).
Proof. intros H x y (i & Hi & ->)%elem_of_strip (j & Hj & ->)%elem_of_strip. lia. Qed.

Lemma move_copies cap port ATRAN g dst src n k m :
  (0 < cap)%nat -> routable g -> bytes_ok m -> in_word 30 n -> k = wrap 24 n -> 0 < k < 2 ^ 24 -> k mod 8 = 0 ->
  0 <= ATRAN src -> ATRAN src mod 8 = 0 -> ATRAN src + k <= 2 ^ 32 ->
  0 <= ATRAN dst -> ATRAN dst mod 8 = 0 -> ATRAN dst + k <= 2 ^ 32 ->
  ATRAN dst + k <= ATRAN src \/ ATRAN src + k <= ATRAN dst ->
  let '(load, store) := Lsu.move_commands ATRAN g dst src n in
  performs cap port m load store (fun m' =>
    (forall i, 0 <= i < k -> m' (ATRAN dst + i) = m (ATRAN src + i)) /\
    (forall x, x < ATRAN dst \/ ATRAN dst + k <= x -> m' x = m x)).
Proof.
  intros Hcap Hg Hm Hw Hk Hn Hn8 Hs Hs8 Hsn Hd Hd8 Hdn Hap. unfold Lsu.move_commands.
  destruct (routes g Hg) as (R1 & R2 & R3 & R4 & R5).
  intros br sr regs_r bw sw regs_w Hlr Hlw.
  destruct (regs_8 _ Hlr) as (a0 & a1 & a2 & a3 & a4 & a5 & a6 & a7 & ->).
  destruct (regs_8 _ Hlw) as (b0 & b1 & b2 & b3 & b4 & b5 & b6 & b7 & ->).
  unfold Lsu.lsu_move. rewrite !(packet_flits_eq port _ _ 3) by (done || (by vm_compute) || (simpl; lia)).
  rewrite !route_send by done. cbn [Sysc.tdest hdr]. rewrite R1, R2.
  split; [done|split; [done|]].
  rewrite (take_move br sr), (take_move bw sw).
  eexists _, _, _, _, _, _. split; [reflexivity|split; [reflexivity|]].
  rewrite (move_command_wide _ (ATRAN src) 0), (move_command_wide _ (ATRAN dst) 1), <- Hk by (done || (split; lia)).
  cbn [ACMD.did ACMD.sid go_acmd nth].
  apply (finishes_intro cap Hcap _ _ _ _ m _ [] _ {| TAG.did := wrap CI (Lsu.gret_id g); TAG.req := 1 |}); try done.
  - apply Forall_singleton. unfold aligned. cbn. split_and!; try done; lia.
  - apply Forall_singleton. unfold aligned. cbn. split_and!; try done; lia.
  - by apply Forall_singleton.
  - cbn [map concat app]. unfold d_flits, strip_of. cbn [DMAC.addr DMAC.size]. by rewrite !length_app, !length_strip.
  - cbn [map concat app]. rewrite !app_nil_r. unfold d_flits, strip_of. cbn [DMAC.addr DMAC.size]. apply strip_apart. div_lia.
  - intros m' Hm'. cbn [map concat app] in Hm'. unfold d_flits in Hm'. cbn [DMAC.addr DMAC.size] in Hm'.
    pose proof (copied_blocks m k [ATRAN dst] [ATRAN src] ltac:(lia) Hn8 eq_refl) as Hc. cbn [map concat zip zip_with foldl] in Hc.
    unfold copy_block in Hc. cbn [fst snd] in Hc.
    split.
    + intros i Hi. rewrite Hm', Hc. destruct (Z.leb_spec (ATRAN dst) (ATRAN dst + i)), (Z.ltb_spec (ATRAN dst + i) (ATRAN dst + k)); try lia.
      cbn [andb]. f_equal. lia.
    + intros x Hx. rewrite Hm', Hc. destruct (Z.leb_spec (ATRAN dst) x), (Z.ltb_spec x (ATRAN dst + k)); lia || done.
Qed.

(** C2: lsu_memcpy on the accelerator: for aligned regions that do not
    overlap, of any size the DMA commands can hold, the packets of the library
    reach the two halves of the unit, and whatever the order its threads run
    in and whatever the depth of the data stream, the copy ends, the host gets
    its answer, and not before the destination holds what the source held and
    the rest of memory is untouched. *)
Theorem lsu_memcpy_copies cap port ATRAN g dst src n m :
  (0 < cap)%nat -> routable g -> bytes_ok m -> 0 < n < 2 ^ 24 -> n mod 8 = 0 ->
  0 <= ATRAN src -> ATRAN src mod 8 = 0 -> ATRAN src + n <= 2 ^ 32 ->
  0 <= ATRAN dst -> ATRAN dst mod 8 = 0 -> ATRAN dst + n <= 2 ^ 32 ->
  ATRAN dst + n <= ATRAN src \/ ATRAN src + n <= ATRAN dst ->
  let '(load, store) := Lsu.move_commands ATRAN g dst src n in
  performs cap port m load store (fun m' =>
    (forall k, 0 <= k < n -> m' (ATRAN dst + k) = m (ATRAN src + k)) /\
    (forall x, x < ATRAN dst \/ ATRAN dst + n <= x -> m' x = m x)).
Proof. intros. apply (move_copies cap port ATRAN g dst src n n m); try done; [split; lia|by rewrite (wrap_id 24 n) by (split; lia)]. Qed.

(** A port, the identifiers of a unit and a memory to try things on. *)
Definition port0 : Sysc.stream_t := {| Sysc.id := 0; Sysc.s_hdr := Sysc.hdr_of 0; Sysc.m_hdr := Sysc.hdr_of 0 |}.
Definition lsu0 : Lsu.ids := {| Lsu.gfwd_id := 2; Lsu.gret_id := 5 |}.
Definition memory0 : memory := fun x => x mod 256.

Example lsu_memcpy_copies_witness :
  let '(load, store) := Lsu.move_commands (fun a => a) lsu0 0x2000 0x1078 24 in
  performs 2 port0 memory0 load store (fun m' =>
    (forall k, 0 <= k < 24 -> m' (0x2000 + k) = memory0 (0x1078 + k)) /\ (forall x, x < 0x2000 \/ 0x2000 + 24 <= x -> m' x = memory0 x)).
Proof.
  apply (lsu_memcpy_copies 2 port0 (fun a => a) lsu0 0x2000 0x1078 24 memory0).
  all: first [lia | by vm_compute | intros x; apply Z.mod_pos_bound; lia].
Defined.

(** A copy of 2^24 bytes or more is cut down without notice: the DMA
    command has 24 bits for a size the register documents as 30, so the host gets
    its answer after the first [n mod 2 ^ 24] bytes. *)
Theorem lsu_memcpy_truncates cap port ATRAN g dst src n m :
  (0 < cap)%nat -> routable g -> bytes_ok m -> 2 ^ 24 <= n < 2 ^ 30 -> n mod 8 = 0 -> n mod 2 ^ 24 <> 0 ->
  0 <= ATRAN src -> ATRAN src mod 8 = 0 -> ATRAN src + n <= 2 ^ 32 ->
  0 <= ATRAN dst -> ATRAN dst mod 8 = 0 -> ATRAN dst + n <= 2 ^ 32 ->
  ATRAN dst + n <= ATRAN src \/ ATRAN src + n <= ATRAN dst ->
  let '(load, store) := Lsu.move_commands ATRAN g dst src n in
  performs cap port m load store (fun m' =>
    (forall k, 0 <= k < n mod 2 ^ 24 -> m' (ATRAN dst + k) = m (ATRAN src + k)) /\
    (forall x, x < ATRAN dst \/ ATRAN dst + n mod 2 ^ 24 <= x -> m' x = m x)).
Proof.
  intros. assert (0 <= n mod 2 ^ 24 < 2 ^ 24) by (apply Z.mod_pos_bound; lia).
  apply (move_copies cap port ATRAN g dst src n (n mod 2 ^ 24) m); try done; try lia; [split; lia|].
  change (2 ^ 24) with (8 * 2 ^ 21). div_lia.
Qed.

Example lsu_memcpy_truncates_witness :
  let '(load, store) := Lsu.move_commands (fun a => a) lsu0 0x20000000 0x10000000 0x1000008 in
  performs 2 port0 memory0 load store (fun m' =>
    (forall k, 0 <= k < 0x1000008 mod 2 ^ 24 -> m' (0x20000000 + k) = memory0 (0x10000000 + k)) /\
    (forall x, x < 0x20000000 \/ 0x20000000 + 0x1000008 mod 2 ^ 24 <= x -> m' x = memory0 x)).
Proof.
  apply (lsu_memcpy_truncates 2 port0 (fun a => a) lsu0 0x20000000 0x10000000 0x1000008 memory0).
  all: first [lia | by vm_compute | intros x; apply Z.mod_pos_bound; lia].
Defined.

(** ** Strided copies *)

Lemma elem_of_ramp_flits x a inc n bs :
  0 <= bs -> bs mod 8 = 0 -> x ∈ concat (map (fun a => strip_of a bs) (ramp a inc n)) ->
  exists i k, (i < n)%nat /\ 0 <= k /\ k + 8 <= bs /\ x = a + Z.of_nat i * inc + k.
Proof.
  intros Hb Hb8 H. apply list_elem_of_In, in_concat in H as (l & (y & <- & (i & <- & Hi%in_seq)%in_map_iff)%in_map_iff & Hx%list_elem_of_In).
  unfold strip_of in Hx. apply elem_of_strip in Hx as (k & Hk & ->). exists i, (8 * k). split_and!; [lia|lia|div_lia|done].
Qed.

Lemma blocks_aligned n : forall a inc size did req,
  0 <= a -> a mod 8 = 0 -> 0 <= inc -> inc mod 8 = 0 -> 0 < size < 2 ^ 24 -> size mod 8 = 0 ->
  (n <> 0%nat -> a + (Z.of_nat n - 1) * inc + size <= 2 ^ 32) -> Forall aligned (blocks n a inc size did req).
Proof.
  induction n as [|n IH]; intros a inc size did req Ha Ha8 Hi Hi8 Hs Hs8 Hb; [done|]. specialize (Hb ltac:(done)). cbn [blocks]. constructor.
  - unfold aligned. cbn. assert (0 <= Z.of_nat n * inc) by nia. split_and!; try done; lia.
  - apply IH; try done; [lia|div_lia|intros; nia].
Qed.

Lemma blocks_silent n : forall a inc size did, Forall (fun d => silent (DMAC.tag d)) (blocks n a inc size did 0).
Proof. induction n as [|n IH]; intros; [done|]. cbn [blocks]. constructor; [|apply IH]. unfold silent. cbn. by destruct (Nat.eqb n 0). Qed.

Lemma blocks_last n : forall a inc size did, exists w0 d,
  blocks (S n) a inc size did 1 = w0 ++ [d] /\ Forall (fun d => status d = []) w0 /\
  status d = [done_status {| TAG.did := did; TAG.req := 1 |}].
Proof.
  induction n as [|n IH]; intros a inc size did.
  - by exists [], {| DMAC.size := size; DMAC.last := 1; DMAC.addr := a; DMAC.tag := {| TAG.did := did; TAG.req := 1 |} |}.
  - destruct (IH (a + inc) inc size did) as (w0 & d & E & H0 & Hd).
    exists ({| DMAC.size := size; DMAC.last := 0; DMAC.addr := a; DMAC.tag := {| TAG.did := did; TAG.req := 0 |} |} :: w0), d.
    split_and!; [|by constructor|done]. change (blocks (S (S n)) a inc size did 1) with
      ({| DMAC.size := size; DMAC.last := 0; DMAC.addr := a; DMAC.tag := {| TAG.did := did; TAG.req := 0 |} |} :: blocks (S n) (a + inc) inc size did 1).
    by rewrite E.
Qed.

Lemma length_flits l bs : length (concat (map (fun a => strip_of a bs) l)) = (length l * Z.to_nat (bs / 8))%nat.
Proof. induction l as [|a l IH]; [done|]. cbn [map concat]. rewrite length_app, IH. unfold strip_of. rewrite length_strip. done. Qed.

Lemma length_ramp a inc n : length (ramp a inc n) = n.
Proof. unfold ramp. by rewrite length_map, length_seq. Qed.

(** The memory after a strided copy. *)
Lemma copied_ramp m m' bs d di s si n :
  0 <= bs <= di -> bs mod 8 = 0 ->
  (forall x, m' x = copied m (concat (map (fun a => strip_of a bs) (ramp d di (Z.to_nat n)))) (concat (map (fun a => strip_of a bs) (ramp s si (Z.to_nat n)))) x) ->
  (forall i k, 0 <= i < n -> 0 <= k < bs -> m' (d + i * di + k) = m (s + i * si + k)) /\
  (forall x, (forall i, 0 <= i < n -> x < d + i * di \/ d + i * di + bs <= x) -> m' x = m x).
Proof.
  intros Hb Hb8 Hm'. split.
  - intros i k Hi Hk. rewrite Hm', copied_blocks by (rewrite ?length_ramp; done || lia).
    rewrite (copy_ramp_at m bs d di s si _ (Z.to_nat i)) by (rewrite ?Z2Nat.id by lia; lia). f_equal. rewrite Z2Nat.id by lia. lia.
  - intros x Hx. rewrite Hm', copied_blocks by (rewrite ?length_ramp; done || lia). apply copy_ramp_other.
    intros i Hi. apply Hx. lia.
Qed.

(** The strided copy on the two halves of the unit. *)
Lemma smove_copies cap port ATRAN g dst src bs dst_inc src_inc n m :
  (0 < cap)%nat -> routable g -> bytes_ok m -> 0 < bs < 2 ^ 24 -> bs mod 8 = 0 -> 0 < n < 2 ^ 30 ->
  0 <= ATRAN src -> ATRAN src mod 8 = 0 -> in_word 30 src_inc -> src_inc mod 8 = 0 -> ATRAN src + (n - 1) * src_inc + bs <= 2 ^ 32 ->
  0 <= ATRAN dst -> ATRAN dst mod 8 = 0 -> in_word 30 dst_inc -> dst_inc mod 8 = 0 -> ATRAN dst + (n - 1) * dst_inc + bs <= 2 ^ 32 ->
  bs <= dst_inc ->
  (forall i j, 0 <= i < n -> 0 <= j < n ->
    ATRAN dst + i * dst_inc + bs <= ATRAN src + j * src_inc \/ ATRAN src + j * src_inc + bs <= ATRAN dst + i * dst_inc) ->
  let '(load, store) := Lsu.smove_commands ATRAN g dst src bs dst_inc src_inc n in
  performs cap port m load store (fun m' =>
    (forall i k, 0 <= i < n -> 0 <= k < bs -> m' (ATRAN dst + i * dst_inc + k) = m (ATRAN src + i * src_inc + k)) /\
    (forall x, (forall i, 0 <= i < n -> x < ATRAN dst + i * dst_inc \/ ATRAN dst + i * dst_inc + bs <= x) -> m' x = m x)).
Proof.
  intros Hcap Hg Hm Hb Hb8 Hn Hs Hs8 Hsi Hsi8 Hsn Hd Hd8 Hdi Hdi8 Hdn Hbd Hap. unfold Lsu.smove_commands.
  destruct (routes g Hg) as (R1 & R2 & R3 & R4 & R5).
  intros br sr regs_r bw sw regs_w Hlr Hlw.
  destruct (regs_8 _ Hlr) as (a0 & a1 & a2 & a3 & a4 & a5 & a6 & a7 & ->).
  destruct (regs_8 _ Hlw) as (b0 & b1 & b2 & b3 & b4 & b5 & b6 & b7 & ->).
  unfold Lsu.lsu_smove. rewrite !(packet_flits_eq port _ _ 5) by (done || (by vm_compute) || (simpl; lia)).
  rewrite !route_send by done. cbn [Sysc.tdest hdr]. rewrite R1, R2.
  split; [done|split; [done|]].
  rewrite (take_smove br sr), (take_smove bw sw).
  eexists _, _, _, _, _, _. split; [reflexivity|split; [reflexivity|]].
  unfold in_word in *. assert (0 <= (n - 1) * src_inc) by nia. assert (0 <= (n - 1) * dst_inc) by nia.
  rewrite (smove_command _ (ATRAN src) 0), (smove_command _ (ATRAN dst) 1) by (unfold in_word; lia).
  cbn [ACMD.did ACMD.sid go_acmd nth].
  destruct (Z.to_nat n) as [|k] eqn:Ek; [lia|].
  destruct (blocks_last k (ATRAN dst) dst_inc bs (wrap CI (Lsu.gret_id g))) as (w0 & d & E & Hw0 & Hst).
  assert (Hal : Forall aligned (blocks (S k) (ATRAN dst) dst_inc bs (wrap CI (Lsu.gret_id g)) 1)) by (apply blocks_aligned; lia).
  pose proof (blocks_flits (S k) (ATRAN dst) dst_inc bs (wrap CI (Lsu.gret_id g)) 1) as Hfl.
  pose proof (blocks_flits (S k) (ATRAN src) src_inc bs (wrap CI (Lsu.gret_id g)) 0) as Hfs.
  rewrite E in Hal, Hfl |- *.
  apply (finishes_intro cap Hcap _ _ _ _ m _ w0 d {| TAG.did := wrap CI (Lsu.gret_id g); TAG.req := 1 |}); try done.
  - apply blocks_aligned; lia.
  - apply blocks_silent.
  - rewrite Hfl, Hfs, !length_flits, !length_ramp. done.
  - rewrite Hfl, Hfs. intros x y Hx Hy. apply elem_of_ramp_flits in Hx as (j & a & ? & ? & ? & ->), Hy as (i & b & ? & ? & ? & ->); [|lia..].
    destruct (Hap (Z.of_nat i) (Z.of_nat j)); lia.
  - rewrite Hfl, Hfs. intros m' Hm'. rewrite <- Ek in Hm'. apply (copied_ramp m m'); done || lia.
Qed.

(** C3: lsu_smemcpy on the accelerator gathers and scatters: under the same
    conditions, with blocks of the destination that do not overlap each other
    or any block of the source, every block ends up in its place and the rest
    of memory is untouched. *)
Theorem lsu_smemcpy_copies cap port ATRAN g dst src bs dst_inc src_inc n m :
  (0 < cap)%nat -> routable g -> bytes_ok m -> 0 < bs < 2 ^ 24 -> bs mod 8 = 0 -> 0 < n < 2 ^ 30 ->
  0 <= ATRAN src -> ATRAN src mod 8 = 0 -> in_word 30 src_inc -> src_inc mod 8 = 0 -> ATRAN src + (n - 1) * src_inc + bs <= 2 ^ 32 ->
  0 <= ATRAN dst -> ATRAN dst mod 8 = 0 -> in_word 30 dst_inc -> dst_inc mod 8 = 0 -> ATRAN dst + (n - 1) * dst_inc + bs <= 2 ^ 32 ->
  bs <= dst_inc ->
  (forall i j, 0 <= i < n -> 0 <= j < n ->
    ATRAN dst + i * dst_inc + bs <= ATRAN src + j * src_inc \/ ATRAN src + j * src_inc + bs <= ATRAN dst + i * dst_inc) ->
  let '(load, store) := Lsu.smove_commands ATRAN g dst src bs dst_inc src_inc n in
  performs cap port m load store (fun m' =>
    (forall i k, 0 <= i < n -> 0 <= k < bs -> m' (ATRAN dst + i * dst_inc + k) = m (ATRAN src + i * src_inc + k)) /\
    (forall x, (forall i, 0 <= i < n -> x < ATRAN dst + i * dst_inc \/ ATRAN dst + i * dst_inc + bs <= x) -> m' x = m x)).
Proof. apply smove_copies. Qed.

Example lsu_smemcpy_copies_witness :
  let '(load, store) := Lsu.smove_commands (fun a => a) lsu0 0x2000 0x1008 16 16 40 3 in
  performs 2 port0 memory0 load store (fun m' =>
    (forall i k, 0 <= i < 3 -> 0 <= k < 16 -> m' (0x2000 + i * 16 + k) = memory0 (0x1008 + i * 40 + k)) /\
    (forall x, (forall i, 0 <= i < 3 -> x < 0x2000 + i * 16 \/ 0x2000 + i * 16 + 16 <= x) -> m' x = memory0 x)).
Proof.
  apply (lsu_smemcpy_copies 2 port0 (fun a => a) lsu0 0x2000 0x1008 16 16 40 3 memory0).
  all: first [lia | by vm_compute | intros x; apply Z.mod_pos_bound; lia | unfold in_word; lia].
Defined.

(** ** Sizes that are not whole flits *)

Section Odd.
Context (cap : nat) (r_tid w_tid r_vcmd0 w_vcmd0 : Z).
Abbreviation step' := (step cap r_tid w_tid r_vcmd0 w_vcmd0).

(** No command of the engine asks for a response. *)
Definition mute (e : engine) : Prop :=
  Forall (fun d => silent (DMAC.tag d)) (cmd e ++ dmac e) /\ Forall (fun p => silent (DMAC.tag (snd p))) (issue e ++ trans e) /\
  Forall (fun d => silent (DMAS.tag d)) (dmas e).

(** A transaction that reports a status is not a whole number of flits. *)
Definition odd_trans (p : Z * DMAC.t) : Prop := status (snd p) <> [] -> DMAC.size (snd p) mod 8 <> 0.
Definition odd_cmd (d : DMAC.t) : Prop := Forall odd_trans (split d).

Lemma odd_transactions fuel : forall addr size last tag,
  0 <= addr -> addr + size <= 2 ^ 33 -> addr mod 8 = 0 -> 0 <= size < 2 ^ 24 -> size mod 8 <> 0 -> Forall odd_trans (transactions fuel addr size last tag).
Proof.
  induction fuel as [|fuel IH]; intros addr size last tag Ha Hb Ha8 Hs Hs8; [done|]. cbn [transactions].
  destruct (Z.eqb_spec size 0); [done|]. unfold MAX_BLOCK_SIZE.
  assert (Hm : 0 <= addr mod 128 < 128) by (apply Z.mod_pos_bound; lia).
  destruct (Z.ltb_spec size (128 - addr mod 128)).
  - constructor.
    + unfold odd_trans. cbn. by rewrite (wrap_id 24) by (split; lia).
    + rewrite Z.sub_diag. change (u32 0) with 0. by rewrite transactions_0.
  - constructor.
    + unfold odd_trans, status. cbn. rewrite (wrap_id 24) by (split; lia).
      destruct (Z.eqb_spec size (128 - addr mod 128)) as [<-|]; done.
    + rewrite (wrap_id 64), (wrap_id 32) by (split; lia). apply IH; lia || div_lia.
Qed.

Lemma odd_split d :
  DMAC.addr d mod 8 = 0 -> 0 <= DMAC.size d < 2 ^ 24 -> DMAC.size d mod 8 <> 0 -> 0 <= DMAC.addr d < 2 ^ 32 -> odd_cmd d.
Proof. intros. apply odd_transactions; lia. Qed.

(** Commands in the middle of a packet report nothing at all; a word is one
    transaction. *)
Lemma middle_cmd size addr tag : odd_cmd {| DMAC.size := size; DMAC.last := 0; DMAC.addr := addr; DMAC.tag := tag |}.
Proof.
  unfold odd_cmd, split. cbn [DMAC.size DMAC.last DMAC.addr DMAC.tag]. generalize (Z.to_nat size) as fuel. intros fuel. revert addr size.
  induction fuel as [|fuel IH]; intros addr size; [done|]. cbn [transactions]. destruct (size =? 0); [done|]. constructor; [|apply IH].
  unfold odd_trans, status. cbn. by rewrite andb_false_r.
Qed.

Lemma word_cmd last addr tag : addr mod 4 = 0 -> odd_cmd {| DMAC.size := 4; DMAC.last := last; DMAC.addr := addr; DMAC.tag := tag |}.
Proof.
  intros Ha. unfold odd_cmd, split. cbn [DMAC.size DMAC.last DMAC.addr DMAC.tag]. change (Z.to_nat 4) with 4%nat. cbn [transactions].
  change (4 =? 0) with false. cbv iota. unfold MAX_BLOCK_SIZE.
  assert (Ht : (if 4 <? 128 - addr mod 128 then 4 else 128 - addr mod 128) = 4) by (destruct (Z.ltb_spec 4 (128 - addr mod 128)); [done|div_lia]).
  rewrite Ht. change (u32 (4 - 4)) with 0. change (0 =? 0) with true. cbv iota. constructor; [|done]. by unfold odd_trans.
Qed.

(** Blocks none of which, from its address on, is whole flits. *)
Lemma odd_blocks n : forall a inc size did req,
  0 <= a -> 0 <= inc -> 0 < size < 2 ^ 24 -> (n <> 0%nat -> a + (Z.of_nat n - 1) * inc < 2 ^ 32) ->
  size mod 8 <> 0 -> a mod 8 = 0 /\ inc mod 8 = 0 \/ size = 4 /\ a mod 4 = 0 /\ inc mod 4 = 0 ->
  Forall odd_cmd (blocks n a inc size did req).
Proof.
  induction n as [|n IH]; intros a inc size did req Ha Hi Hs Hb Hs8 Hc; [done|]. specialize (Hb ltac:(done)). cbn [blocks]. constructor.
  - destruct (Nat.eqb_spec n 0) as [->|]; [|apply middle_cmd]. destruct Hc as [[Ha8 _]|(-> & Ha4 & _)]; [|by apply word_cmd].
    apply odd_split; cbn; lia.
  - apply IH; try done; [lia|intros; nia|]. destruct Hc as [[Ha8 Hi8]|(-> & Ha4 & Hi4)]; [left|right]; split_and!; try done; div_lia.
Qed.

Lemma split_tag fuel : forall addr size last tag, Forall (fun p => DMAC.tag (snd p) = tag) (transactions fuel addr size last tag).
Proof. induction fuel as [|fuel IH]; intros; [done|]. cbn [transactions]. destruct (size =? 0); [done|]. constructor; [done|apply IH]. Qed.

(** What holds while such a command is run: nothing it stores completes. *)
Record stuck (s : system) : Prop := {
  k_rd : mute (rd s);
  k_cur : match r_cur s with Some (_, _, t) => silent (DMAC.tag t) | None => True end;
  k_keep : Forall (fun f => AXI_TD.tkeep f = 255) (dat s ++ option_list (r_out s));
  k_cmd : Forall odd_cmd (cmd (wr s) ++ dmac (wr s));
  k_issue : Forall odd_trans (issue (wr s));
  k_wcur : match w_cur s with
           | Some (_, len) => match issue (wr s) with p :: _ => len mod 8 = DMAC.size (snd p) mod 8 | [] => False end
           | None => True
           end;
  k_trans : Forall (fun p => status (snd p) = []) (trans (wr s));
  k_dmas : dmas (wr s) = [];
  k_rsp : rsp s = []
}.

Lemma u32_mod8 x : u32 x mod 8 = x mod 8.
Proof. unfold wrap. change (2 ^ 32) with (8 * 2 ^ 29). div_lia. Qed.

Lemma store_flit_mod f m a len :
  AXI_TD.tkeep f = 255 -> exists m' a' len', store_flit FLIT_WORDS 0 f m a len = (m', a', len') /\ len' mod 8 = len mod 8.
Proof.
  intros Hk. unfold FLIT_WORDS. change (Z.to_nat (DD / 32)) with 2%nat. cbn [store_flit]. rewrite Hk.
  change (get_field 0 4 255 =? 15) with true. change (get_field (0 + 4) 4 255 =? 15) with true. cbv iota.
  eexists _, _, _. split; [reflexivity|]. rewrite u32_mod8. pose proof (u32_mod8 (len - 4)). div_lia.
Qed.

Lemma e_status_mute vcmd0 tid d q e : dmas e = d :: q -> silent (DMAS.tag d) -> e_status vcmd0 tid e =
  Some ({| cmd := cmd e; dmac := dmac e; issue := issue e; trans := trans e; dmas := q |}, []).
Proof. intros H Hd. unfold e_status. rewrite H. unfold lsuctl.ct_response. unfold silent in Hd. by destruct (Z.eqb_spec (TAG.req (DMAS.tag d)) 1). Qed.

Lemma mute_split d : silent (DMAC.tag d) -> Forall (fun p => silent (DMAC.tag (snd p))) (split d).
Proof. intros H. eapply Forall_impl; [apply split_tag|]. intros p E. cbv beta in *. by rewrite E. Qed.

Lemma mute_status t : silent (DMAC.tag t) -> Forall (fun d => silent (DMAS.tag d)) (status t).
Proof. intros H. unfold status. destruct (truthy (DMAC.last t)); [|done]. by apply Forall_singleton. Qed.

(** ** The moves *)

Lemma send_mute e e' : mute e -> e_send e = Some e' -> mute e'.
Proof.
  intros (H1 & H2 & H3) H. unfold e_send in H. destruct (cmd e) as [|d ds] eqn:E; [done|]. destruct (room _ _); [|done]. injection H as <-.
  split_and!; cbn; try done. rewrite Forall_app in H1 |- *. rewrite Forall_cons in H1. rewrite Forall_app, Forall_singleton. tauto.
Qed.

Lemma read_mute e e' : mute e -> e_read e = Some e' -> mute e'.
Proof.
  intros (H1 & H2 & H3) H. unfold e_read in H. destruct (issue e) eqn:E; [|done]. destruct (dmac e) as [|d ds] eqn:E'; [done|]. injection H as <-.
  rewrite Forall_app, Forall_cons in H1. split_and!; cbn; [rewrite Forall_app; tauto| |done].
  rewrite Forall_app. split; [apply mute_split; tauto|done].
Qed.

Lemma issue_mute e e' : mute e -> e_issue e = Some e' -> mute e'.
Proof.
  intros (H1 & H2 & H3) H. unfold e_issue in H. destruct (issue e) as [|t ts] eqn:E; [done|]. destruct (room _ _); [|done]. injection H as <-.
  split_and!; cbn; try done. rewrite Forall_app, Forall_cons in H2. rewrite !Forall_app, Forall_singleton. tauto.
Qed.

Lemma pop_mute e p q : mute e -> trans e = p :: q -> mute (pop_trans e) /\ silent (DMAC.tag (snd p)).
Proof.
  intros (H1 & H2 & H3) E. rewrite E, Forall_app, Forall_cons in H2. split; [|tauto].
  split_and!; cbn; rewrite ?E; try done. rewrite Forall_app. tauto.
Qed.

Lemma push_mute t e e' : mute e -> silent (DMAC.tag t) -> push_dmas t e = Some e' -> mute e'.
Proof.
  intros (H1 & H2 & H3) Ht H. unfold push_dmas in H. destruct (_ && _); [done|]. injection H as <-.
  split_and!; cbn; try done. rewrite Forall_app. split; [done|]. by apply mute_status.
Qed.

Ltac keep_stuck := constructor; cbn [rd wr r_cur w_cur rsp r_out dat set_rd set_wr set_cur set_wcur add_rsp]; try done.

Lemma stuck_rd s e : stuck s -> mute e -> stuck (set_rd e s).
Proof. intros [] H. by keep_stuck. Qed.

Lemma stuck_w_send s s' : stuck s -> on_wr e_send s = Some s' -> stuck s'.
Proof.
  intros [] H. unfold on_wr, e_send in H. destruct (cmd (wr s)) as [|d ds] eqn:E; [done|]. destruct (room _ _); [|done]. injection H as <-.
  keep_stuck. cbn. rewrite Forall_app, Forall_cons in k_cmd0. rewrite !Forall_app, Forall_singleton. tauto.
Qed.

Lemma stuck_w_read s s' : stuck s -> on_wr e_read s = Some s' -> stuck s'.
Proof.
  intros [] H. unfold on_wr, e_read in H. destruct (issue (wr s)) eqn:Ei; [|done]. destruct (dmac (wr s)) as [|d ds] eqn:E; [done|]. injection H as <-.
  rewrite Forall_app, Forall_cons in k_cmd0. keep_stuck; cbn.
  - rewrite Forall_app. tauto.
  - destruct k_cmd0 as [? [? ?]]. done.
  - by destruct (w_cur s) as [[??]|].
Qed.

Lemma stuck_w_take s s' : stuck s -> w_take s = Some s' -> stuck s'.
Proof.
  intros [] H. unfold w_take in H. destruct (w_cur s); [done|]. destruct (issue (wr s)) as [|[a t] q] eqn:Ei; [done|]. injection H as <-.
  keep_stuck; rewrite Ei; done.
Qed.

Lemma stuck_w_store s s' : stuck s -> w_store s = Some s' -> stuck s'.
Proof.
  intros [] H. unfold w_store in H. destruct (w_cur s) as [[a len]|] eqn:Ec; [|done]. destruct (dat s) as [|f q] eqn:Ed; [done|].
  destruct (len =? 0); [done|]. rewrite Forall_app, Forall_cons in k_keep0. destruct k_keep0 as [[Hf Hq] Ho].
  destruct (store_flit_mod f (mem s) a len Hf) as (m' & a' & len' & E & Hm). rewrite E in H. injection H as <-.
  keep_stuck; [by rewrite Forall_app|]. destruct (issue (wr s)); [done|]. by rewrite Hm.
Qed.

Lemma stuck_w_issue s s' : stuck s -> w_issue s = Some s' -> stuck s'.
Proof.
  intros [] H. unfold w_issue, e_issue in H. destruct (w_cur s) as [[a len]|] eqn:Ec; [|done]. destruct (Z.eqb_spec len 0) as [->|]; [|done].
  destruct (issue (wr s)) as [|t ts] eqn:Ei; [done|]. destruct (room _ _); [|done]. injection H as <-.
  rewrite Forall_cons in k_issue0. destruct k_issue0 as [Ht Hts]. keep_stuck. cbn. rewrite Forall_app, Forall_singleton. split; [done|].
  destruct (status (snd t)) as [|x l] eqn:Es; [done|]. exfalso. apply Ht; [by rewrite Es|]. by rewrite <- k_wcur0.
Qed.

Lemma stuck_w_done s s' : stuck s -> w_done s = Some s' -> stuck s'.
Proof.
  intros [] H. unfold w_done, push_dmas in H. destruct (trans (wr s)) as [|[a t] q] eqn:Et; [done|].
  destruct (_ && _); [done|]. injection H as <-. rewrite Forall_cons in k_trans0. destruct k_trans0 as [Ht Hq]. cbn [snd] in Ht.
  keep_stuck; cbn; [by rewrite Et|by rewrite Ht, k_dmas0].
Qed.

Lemma stuck_w_status s s' : stuck s -> w_status w_tid w_vcmd0 s = Some s' -> stuck s'.
Proof. intros [] H. unfold w_status, e_status in H. by rewrite k_dmas0 in H. Qed.

Lemma stuck_r_status s s' : stuck s -> r_status r_tid r_vcmd0 s = Some s' -> stuck s'.
Proof.
  intros Hs H. pose proof (k_rd _ Hs) as (H1 & H2 & H3). unfold r_status in H. destruct (dmas (rd s)) as [|d q] eqn:Ed.
  { unfold e_status in H. by rewrite Ed in H. }
  rewrite Forall_cons in H3. destruct H3 as [Hd Hq]. rewrite (e_status_mute _ _ _ _ _ Ed Hd) in H. injection H as <-.
  assert (Hm : mute {| cmd := cmd (rd s); dmac := dmac (rd s); issue := issue (rd s); trans := trans (rd s); dmas := q |}) by done.
  destruct (stuck_rd s _ Hs Hm). keep_stuck. by rewrite app_nil_r.
Qed.

Lemma stuck_r_take s s' : stuck s -> r_take s = Some s' -> stuck s'.
Proof.
  intros [] H. unfold r_take in H. destruct (r_cur s); [done|]. destruct (trans (rd s)) as [|[a t] q] eqn:Et; [done|]. injection H as <-.
  destruct (pop_mute _ _ _ k_rd0 Et). by keep_stuck.
Qed.

Lemma stuck_r_load s s' : stuck s -> r_load s = Some s' -> stuck s'.
Proof.
  intros [] H. unfold r_load in H. destruct (r_cur s) as [[[a len] t]|] eqn:Ec; [|done]. destruct (r_out s) eqn:Eo; [done|].
  destruct (0 <? len); [|done]. fold (ld (mem s) a) in H. rewrite ld_eq in H. injection H as <-.
  keep_stuck.
  change (option_list None) with (@nil AXI_TD.t) in k_keep0. rewrite app_nil_r in k_keep0.
  rewrite Forall_app. split; [done|]. by repeat constructor.
Qed.

Lemma stuck_r_write s s' : stuck s -> r_write cap s = Some s' -> stuck s'.
Proof.
  intros [] H. unfold r_write in H. destruct (r_out s) as [f|] eqn:Eo; [|done]. destruct (room _ _); [|done]. injection H as <-.
  keep_stuck. cbn. by rewrite app_nil_r.
Qed.

Lemma stuck_r_done s s' : stuck s -> r_done s = Some s' -> stuck s'.
Proof.
  intros [] H. unfold r_done in H. destruct (r_cur s) as [[[a len] t]|] eqn:Ec; [|done]. destruct (r_out s) eqn:Eo; [done|].
  destruct (0 <? len); [done|]. destruct (push_dmas t (rd s)) as [e|] eqn:E; [|done]. injection H as <-.
  apply push_mute in E; [|done..]. keep_stuck. by rewrite Eo.
Qed.

Lemma stuck_on_rd f s s' :
  (forall e e', mute e -> f e = Some e' -> mute e') -> stuck s -> on_rd f s = Some s' -> stuck s'.
Proof.
  intros Hf Hs H. unfold on_rd in H. destruct (f (rd s)) as [e|] eqn:E; [|done]. injection H as <-.
  apply stuck_rd; [done|]. eapply Hf; [apply (k_rd _ Hs)|done].
Qed.

Lemma stuck_step s s' : stuck s -> step' s s' -> stuck s'.
Proof.
  intros Hs (f & Hf & H). unfold moves in Hf.
  repeat (apply elem_of_cons in Hf as [->|Hf]); [..|by inversion Hf].
  all: first [by eapply stuck_w_status | by eapply stuck_w_done | by eapply stuck_r_status | by eapply stuck_w_issue | by eapply stuck_w_store
    | by eapply stuck_w_take | by eapply stuck_w_read | by eapply stuck_w_send | by eapply stuck_r_write | by eapply stuck_r_load
    | by eapply stuck_r_done | by eapply stuck_r_take
    | eapply stuck_on_rd; [| |done]; [|done]; first [apply send_mute | apply read_mute | apply issue_mute] ].
Qed.

Lemma stuck_rtc s s' : stuck s -> rtc step' s s' -> stuck s'.
Proof. intros Hs Hr. induction Hr as [|s t u Hst _ IH]; [done|]. apply IH. by eapply stuck_step. Qed.

Lemma stuck_start m r w :
  Forall (fun d => silent (DMAC.tag d)) r -> Forall odd_cmd w -> stuck (start m r w).
Proof. intros Hr Hw. unfold start. constructor; cbn; try done; rewrite ?app_nil_r; try done. by split_and!; cbn; rewrite ?app_nil_r. Qed.
End Odd.
(** C33: A copy whose size is not a multiple of eight bytes never ends: the
    storing engine counts the bytes left down by whole flits, misses zero and
    wraps, so it waits for data that never comes and no response is ever sent. *)
Theorem lsu_memcpy_hangs cap port ATRAN g dst src n m :
  routable g -> 0 < n < 2 ^ 24 -> n mod 8 <> 0 -> in_word 32 (ATRAN src) -> in_word 32 (ATRAN dst) -> ATRAN dst mod 8 = 0 ->
  let '(load, store) := Lsu.move_commands ATRAN g dst src n in
  forall br sr regs_r bw sw regs_w, length regs_r = 8%nat -> length regs_w = 8%nat ->
  exists rr ar r rw aw w,
    take_packet br sr regs_r (packet_flits port load) = Some (rr, ar, r) /\
    take_packet bw sw regs_w (packet_flits port store) = Some (rw, aw, w) /\
    forall s, rtc (step cap (ACMD.did ar) (ACMD.did aw) (nth 0 rr 0) (nth 0 rw 0)) (start m r w) s -> rsp s = [].
Proof.
  intros Hg Hn Hn8 Hs Hd Hd8. unfold Lsu.move_commands.
  destruct (routes g Hg) as (R1 & R2 & R3 & R4 & R5).
  intros br sr regs_r bw sw regs_w Hlr Hlw.
  destruct (regs_8 _ Hlr) as (a0 & a1 & a2 & a3 & a4 & a5 & a6 & a7 & ->).
  destruct (regs_8 _ Hlw) as (b0 & b1 & b2 & b3 & b4 & b5 & b6 & b7 & ->).
  unfold Lsu.lsu_move. rewrite !(packet_flits_eq port _ _ 3) by (done || (by vm_compute) || (simpl; lia)).
  rewrite (take_move br sr), (take_move bw sw).
  eexists _, _, _, _, _, _. split; [reflexivity|split; [reflexivity|]].
  rewrite (move_command _ (ATRAN src) 0), (move_command _ (ATRAN dst) 1) by (done || (split; lia)).
  intros s Hr. apply (k_rsp s). eapply stuck_rtc; [|exact Hr].
  apply stuck_start; apply Forall_singleton; [done|]. unfold in_word in *. apply odd_split; cbn; lia.
Qed.

(** A command that reaches both halves and is never answered, however they and
    the units around them are scheduled. *)
Definition never_answers (cap : nat) (port : Sysc.stream_t) (m : memory) (load store : list Z) : Prop :=
  forall br sr regs_r bw sw regs_w, length regs_r = 8%nat -> length regs_w = 8%nat ->
  route (packet_flits port load) = Some 0 /\ route (packet_flits port store) = Some 1 /\
  exists rr ar r rw aw w,
    take_packet br sr regs_r (packet_flits port load) = Some (rr, ar, r) /\
    take_packet bw sw regs_w (packet_flits port store) = Some (rw, aw, w) /\
    forall s, rtc (step cap (ACMD.did ar) (ACMD.did aw) (nth 0 rr 0) (nth 0 rw 0)) (start m r w) s -> rsp s = [].

(** A strided copy of blocks that are not whole flits never ends either: to
    places that are, or of words to places that are words. *)
Lemma smove_hangs cap port ATRAN g dst src bs dst_inc src_inc n m :
  routable g -> 0 < bs < 2 ^ 24 -> 0 < n < 2 ^ 30 ->
  0 <= ATRAN src -> in_word 30 src_inc -> ATRAN src + (n - 1) * src_inc + bs <= 2 ^ 32 ->
  0 <= ATRAN dst -> in_word 30 dst_inc -> ATRAN dst + (n - 1) * dst_inc + bs <= 2 ^ 32 ->
  bs mod 8 <> 0 -> ATRAN dst mod 8 = 0 /\ dst_inc mod 8 = 0 \/ bs = 4 /\ ATRAN dst mod 4 = 0 /\ dst_inc mod 4 = 0 ->
  let '(load, store) := Lsu.smove_commands ATRAN g dst src bs dst_inc src_inc n in never_answers cap port m load store.
Proof.
  intros Hg Hb Hn Hs Hsi Hsn Hd Hdi Hdn Hb8 Hc. unfold Lsu.smove_commands. destruct (routes g Hg) as (R1 & R2 & R3 & R4 & R5).
  intros br sr regs_r bw sw regs_w Hlr Hlw.
  destruct (regs_8 _ Hlr) as (a0 & a1 & a2 & a3 & a4 & a5 & a6 & a7 & ->).
  destruct (regs_8 _ Hlw) as (b0 & b1 & b2 & b3 & b4 & b5 & b6 & b7 & ->).
  unfold Lsu.lsu_smove. rewrite !(packet_flits_eq port _ _ 5) by (done || (by vm_compute) || (simpl; lia)).
  rewrite !route_send by done. cbn [Sysc.tdest hdr]. rewrite R1, R2.
  split; [done|split; [done|]]. rewrite (take_smove br sr), (take_smove bw sw).
  eexists _, _, _, _, _, _. split; [reflexivity|split; [reflexivity|]].
  unfold in_word in *. assert (0 <= (n - 1) * src_inc) by nia. assert (0 <= (n - 1) * dst_inc) by nia.
  rewrite (smove_command _ (ATRAN src) 0), (smove_command _ (ATRAN dst) 1) by (unfold in_word; lia).
  intros s Hr. apply (k_rsp s). eapply stuck_rtc; [|exact Hr]. apply stuck_start; [apply blocks_silent|].
  apply odd_blocks; try done; try lia.
Qed.

Example lsu_memcpy_hangs_witness :
  let '(load, store) := Lsu.move_commands (fun a => a) lsu0 0x2000 0x1000 20 in
  forall br sr regs_r bw sw regs_w, length regs_r = 8%nat -> length regs_w = 8%nat ->
  exists rr ar r rw aw w,
    take_packet br sr regs_r (packet_flits port0 load) = Some (rr, ar, r) /\
    take_packet bw sw regs_w (packet_flits port0 store) = Some (rw, aw, w) /\
    forall s, rtc (step 16 (ACMD.did ar) (ACMD.did aw) (nth 0 rr 0) (nth 0 rw 0)) (start memory0 r w) s -> rsp s = [].
Proof.
  apply (lsu_memcpy_hangs 16 port0 (fun a => a) lsu0 0x2000 0x1000 20 memory0).
  all: first [by vm_compute | lia].
Defined.
