(* ===== verification/Alloc.v ===== *)
(** Allocation on bare metal: the heap break (shared/standalone/sbrk.c and
    heap.c), the scratch pad (shared/standalone/accmem.c) and the rounding
    macros of shared/alloc.h.

    Addresses are [W]-bit words; arithmetic on them is written with its
    wrap-around, as the processors have it. *)
From S2P Require Import Prelude Device Ioctl.
Open Scope Z_scope.

Section Alloc.
Context (W : Z).

(** * Rounding *)

(* @src shared/alloc.h 15-22 ALIGN_SZ *)
Definition ALIGN_SZ (aarch64 : bool) : Z := if aarch64 then 128 else 32.
(* @src shared/alloc.h 24-24 CEIL *)
Definition CEIL (n s : Z) : Z := wrap W (wrap W (n + (s - 1)) / s * s).
(* @src shared/alloc.h 25-25 FLOOR *)
Definition FLOOR (n s : Z) : Z := n / s * s.

(** * The break *)

(** [heap_ptr], zero for NULL, and the C library's [errno]. *)
(* @src shared/standalone/heap.c 5-7 heap_ptr *)
Record heap := { heap_ptr : Z; errno : Z }.

(** Bounds of the heap: linker symbols in sbrk.c, variables in heap.c. *)
Context (heap_beg heap_end : Z).

(** [(char * )-1]. *)
Definition failed : Z := wrap W (-1).

(* @src shared/standalone/sbrk.c 16-33 _sbrk *)
Definition _sbrk (increment : Z) : io heap Z := fun s =>
  let base := if heap_ptr s =? 0 then heap_beg else heap_ptr s in
  let p := wrap W (base + increment) in
  if p <=? heap_end then (base, {| heap_ptr := p; errno := errno s |})
  else (failed, {| heap_ptr := p; errno := ENOMEM |}).

(* @src shared/standalone/sbrk.c 35-38 sbrk *)
Definition sbrk (increment : Z) : io heap Z := _sbrk increment.

(** heap.c's version, with an [int] argument. *)
(* @src shared/standalone/heap.c 9-22 sbrk *)
Definition heap_sbrk (nbytes : Z) : io heap Z := _sbrk nbytes.

(** * The scratch pad *)

(** [&_heap_start], and the placement accmem.h configures. *)
Context (heap_start SP_ADDR SP_SIZE : Z) (aarch64 : bool).

(* @src shared/standalone/accmem.c 16-16 SP_BEG *)
Definition SP_BEG : Z := wrap W (Z.land heap_start (not_w W 0x3FFFFFFF) + SP_ADDR).
(* @src shared/standalone/accmem.c 17-17 SP_END *)
Definition SP_END : Z := wrap W (Z.land heap_start (not_w W 0x3FFFFFFF) + SP_ADDR + SP_SIZE).

(** The state is [top], zero for NULL, and so is a refused request. *)
(* @src shared/standalone/accmem.c 38-48 sp_alloc *)
Definition sp_alloc (nbytes : Z) : io Z Z := fun top =>
  let top := if top =? 0 then SP_BEG else top in
  if SP_END <? wrap W (top + nbytes) then (0, top)
  else (top, wrap W (top + CEIL nbytes (ALIGN_SZ aarch64))).

(* @src shared/standalone/accmem.c 50-52 sp_free *)
Definition sp_free (ptr : Z) : io Z unit := mret tt.
End Alloc.

(** accmem.h's two placements, [SP_ADDR] and [SP_SIZE], by [USE_OCM]. *)
(* @src shared/accmem.h 14-31 SP_ADDR, SP_SIZE *)
Definition sp_place (use_ocm : bool) : Z * Z := if use_ocm then (0x080000, 0x080000) else (0x100000, 0x100000).

(** * Requests in sequence *)

Section Requests.
Context {S : Type} (alloc : Z -> io S Z).

Fixpoint requests (l : list Z) : io S (list Z) :=
  match l with
  | [] => mret []
  | n :: l' => r ← alloc n; rs ← requests l'; mret (r :: rs)
  end.

Lemma requests_cons n l s r s' :
  alloc n s = (r, s') -> requests (n :: l) s = (r :: fst (requests l s'), snd (requests l s')).
Proof. intros H. cbn [requests]. unfold mbind, io_bind. rewrite H. by destruct (requests l s'). Qed.
End Requests.

(** Blocks given out: [(address, size)] of each request [ok] accepts. *)
Definition granted (ok : Z -> bool) (l rs : list Z) : list (Z * Z) := filter (fun b => ok (fst b) = true) (zip rs l).

Lemma granted_none ok l r : ok r = false -> granted ok l (map (fun _ => r) l) = [].
Proof.
  intros H. unfold granted. induction l as [|n l IH]; [done|]. cbn [map zip zip_with]. rewrite filter_cons. cbn [fst].
  by rewrite H, decide_False.
Qed.

Lemma granted_cons ok n l r rs :
  granted ok (n :: l) (r :: rs) = if ok r then (r, n) :: granted ok l rs else granted ok l rs.
Proof. unfold granted. cbn [zip zip_with]. rewrite filter_cons. cbn [fst]. by destruct (ok r). Qed.

(** In order, apart, and between [lo] and [hi]. *)
Fixpoint packed (lo hi : Z) (bs : list (Z * Z)) : Prop :=
  match bs with
  | [] => lo <= hi
  | (a, n) :: bs' => lo <= a /\ 0 <= n /\ packed (a + n) hi bs'
  end.

Lemma packed_weaken lo lo' hi bs : lo <= lo' -> packed lo' hi bs -> packed lo hi bs.
Proof. destruct bs as [|[a n] bs]; simpl; intuition lia. Qed.

Lemma packed_le lo hi bs : packed lo hi bs -> lo <= hi.
Proof. revert lo. induction bs as [|[a n] bs IH]; intros lo H; [done|]. destruct H as (H1 & H2 & H3%IH). lia. Qed.

Lemma packed_in lo hi bs a n : packed lo hi bs -> (a, n) ∈ bs -> lo <= a /\ a + n <= hi.
Proof.
  revert lo. induction bs as [|[b m] bs IH]; intros lo H Hin; [by apply elem_of_nil in Hin|].
  destruct H as (H1 & H2 & H3). apply elem_of_cons in Hin as [[= -> ->]|Hin].
  - split; [done|]. by eapply packed_le.
  - specialize (IH _ H3 Hin). lia.
Qed.

Lemma packed_apart lo hi bs i j a n b m :
  packed lo hi bs -> (i < j)%nat -> bs !! i = Some (a, n) -> bs !! j = Some (b, m) -> a + n <= b.
Proof.
  revert lo i j. induction bs as [|[c k] bs IH]; intros lo i j H Hij Hi Hj; [destruct i; discriminate|]. destruct H as (H1 & H2 & H3).
  destruct i as [|i], j as [|j]; try lia; simpl in *.
  - injection Hi as -> ->. apply list_elem_of_lookup_2 in Hj. apply (packed_in _ _ _ _ _ H3) in Hj. lia.
  - eapply (IH _ i j); eauto; lia.
Qed.

(** * The break *)

Section Break.
Context (W : Z) (W_pos : 0 < W) (heap_beg heap_end : Z) (beg_pos : 0 < heap_beg) (beg_end : heap_beg <= heap_end) (end_word : heap_end < 2 ^ W - 1).

Lemma failed_eq : failed W = 2 ^ W - 1.
Proof using W_pos. unfold failed, wrap. assert (1 < 2 ^ W) by (apply (Z.pow_gt_1 2); lia). symmetry. apply (Z.mod_unique _ _ (-1)); lia. Qed.

(** Where the break stands; the state before the first request. *)
Definition brk (s : heap) : Z := if heap_ptr s =? 0 then heap_beg else heap_ptr s.
Definition sum (l : list Z) : Z := foldr Z.add 0 l.

Lemma sum_pos l : Forall (Z.le 0) l -> 0 <= sum l.
Proof. induction 1; simpl; [done|lia]. Qed.

Lemma sbrk_step n s :
  0 <= n -> 0 < brk s -> brk s + n < 2 ^ W ->
  exists s', _sbrk W heap_beg heap_end n s = (if brk s + n <=? heap_end then brk s else failed W, s') /\ brk s' = brk s + n /\
    errno s' = if brk s + n <=? heap_end then errno s else ENOMEM.
Proof using All.
  intros Hn Hs Hb. unfold _sbrk. cbv zeta. change (if heap_ptr s =? 0 then heap_beg else heap_ptr s) with (brk s).
  rewrite (wrap_id W (brk s + n)) by (split; lia).
  destruct (brk s + n <=? heap_end); eexists; (split; [reflexivity|]); unfold brk at 1; cbn [heap_ptr errno]; (split; [|done]);
    by destruct (Z.eqb_spec (brk s + n) 0); [lia|].
Qed.

(** Once the break is past the end it stays there. *)
Lemma past_end l s :
  Forall (Z.le 0) l -> heap_end < brk s -> brk s + sum l < 2 ^ W ->
  run (requests (_sbrk W heap_beg heap_end) l) s = map (fun _ => failed W) l.
Proof using All.
  revert s. induction l as [|n l IH]; intros s Hl Hs Hb; [done|]. apply Forall_cons in Hl as [Hn Hl].
  change (sum (n :: l)) with (n + sum l) in Hb. pose proof (sum_pos l Hl).
  destruct (sbrk_step n s Hn) as (s' & E & Hs' & _); [lia..|]. unfold run. rewrite (requests_cons _ _ _ _ _ _ E). cbn [fst map].
  destruct (Z.leb_spec (brk s + n) heap_end); [lia|]. f_equal. apply IH; [done|lia..].
Qed.

Lemma refused n l s :
  0 <= n -> Forall (Z.le 0) l -> 0 < brk s -> heap_end < brk s + n -> brk s + n + sum l < 2 ^ W ->
  run (requests (_sbrk W heap_beg heap_end) (n :: l)) s = map (fun _ => failed W) (n :: l).
Proof using All.
  intros Hn Hl Hs He Hb. pose proof (sum_pos l Hl). destruct (sbrk_step n s Hn) as (s' & E & Hs' & _); [lia..|].
  unfold run. rewrite (requests_cons _ _ _ _ _ _ E). cbn [fst map].
  destruct (Z.leb_spec (brk s + n) heap_end); [lia|]. f_equal. apply past_end; [done|lia..].
Qed.

Lemma sbrk_packed l s :
  Forall (Z.le 0) l -> 0 < brk s <= heap_end -> brk s + sum l < 2 ^ W ->
  packed (brk s) heap_end (granted (fun r => negb (r =? failed W)) l (run (requests (_sbrk W heap_beg heap_end) l) s)).
Proof using All.
  revert s. induction l as [|n l IH]; intros s Hl Hs Hb; [simpl; lia|].
  pose proof Hl as Hl0. apply Forall_cons in Hl as [Hn Hl]. change (sum (n :: l)) with (n + sum l) in Hb. pose proof (sum_pos l Hl).
  destruct (decide (brk s + n <= heap_end)) as [Hle|Hgt].
  - destruct (sbrk_step n s Hn) as (s' & E & Hs' & _); [lia..|]. unfold run. rewrite (requests_cons _ _ _ _ _ _ E).
    destruct (Z.leb_spec (brk s + n) heap_end); [|lia]. cbn [fst]. rewrite granted_cons.
    rewrite failed_eq. destruct (Z.eqb_spec (brk s) (2 ^ W - 1)); [lia|]. cbn [negb].
    rewrite <- failed_eq. split; [lia|split; [lia|]]. rewrite <- Hs'. apply IH; [done|lia..].
  - rewrite refused by (done || lia). rewrite granted_none by (by rewrite Z.eqb_refl). simpl. lia.
Qed.

(** Two requests of the largest signed size: the first is refused but moves
    the break, the second takes it round the end of the address space, finds it
    below the end of the heap and is granted where the first left it. *)
Lemma sbrk_wraps s :
  heap_ptr s = 0 -> 2 <= heap_beg < 2 ^ (W - 1) -> heap_end - heap_beg < 2 ^ (W - 1) - 1 ->
  run (requests (_sbrk W heap_beg heap_end) [2 ^ (W - 1) - 1; 2 ^ (W - 1) - 1]) s = [failed W; heap_beg + (2 ^ (W - 1) - 1)].
Proof using All.
  intros Hs Hb He. assert (E : brk s = heap_beg) by (unfold brk; by rewrite Hs).
  assert (HW : 2 ^ W = 2 * 2 ^ (W - 1)) by (rewrite <- Z.pow_succ_r by lia; f_equal; lia).
  destruct (sbrk_step (2 ^ (W - 1) - 1) s) as (s' & E1 & Hs' & _); [lia..|]. rewrite E in *.
  unfold run. rewrite (requests_cons _ _ _ _ _ _ E1). cbn [fst]. destruct (Z.leb_spec (heap_beg + (2 ^ (W - 1) - 1)) heap_end); [lia|].
  f_equal. cbn [requests]. unfold mbind, io_bind, mret, io_ret, _sbrk. cbv zeta.
  change (if heap_ptr s' =? 0 then heap_beg else heap_ptr s') with (brk s'). rewrite Hs'.
  replace (wrap W (heap_beg + (2 ^ (W - 1) - 1) + (2 ^ (W - 1) - 1))) with (heap_beg - 2).
  2:{ unfold wrap. apply (Z.mod_unique _ _ 1); lia. }
  by rewrite (proj2 (Z.leb_le (heap_beg - 2) heap_end)) by lia.
Qed.

(** C26: From a fresh heap, which lies above address 0 and below the last
    address, requests of sizes that are not negative get disjoint
    blocks, in increasing order and inside the heap, as long as the sizes asked
    for, those of refused requests included, add up to less than what is left
    of the address space; without that bound they need not: since a refused
    request still moves the break, two requests of the largest signed size
    take it round, and the second is granted at an address beyond the end of
    the heap (any heap smaller than that, in the lower half of the address
    space). *)
Theorem sbrk_blocks s :
  heap_ptr s = 0 ->
  (forall l rs, Forall (Z.le 0) l -> heap_beg + sum l < 2 ^ W -> rs = run (requests (sbrk W heap_beg heap_end) l) s ->
   packed heap_beg heap_end (granted (fun r => negb (r =? failed W)) l rs)) /\
  (2 <= heap_beg < 2 ^ (W - 1) -> heap_end - heap_beg < 2 ^ (W - 1) - 1 ->
   let n := 2 ^ (W - 1) - 1 in
   run (requests (sbrk W heap_beg heap_end) [n; n]) s = [failed W; heap_beg + n] /\ heap_end < heap_beg + n < failed W).
Proof using All.
  intros Hs. split.
  - intros l rs Hl Hb ->. assert (E : brk s = heap_beg) by (unfold brk; by rewrite Hs).
    pose proof (sbrk_packed l s Hl) as H. rewrite E in H. apply H; lia.
  - intros Hb He n. split; [by apply sbrk_wraps|]. rewrite failed_eq. subst n.
    assert (HW : 2 ^ W = 2 * 2 ^ (W - 1)) by (rewrite <- Z.pow_succ_r by lia; f_equal; lia). lia.
Qed.

(** A request that does not fit moves the break all the same, so that every
    later request fails, however small and however much of the heap is
    left. *)
Theorem sbrk_failure_sticks n l s :
  0 <= n -> Forall (Z.le 0) l -> 0 < brk s -> heap_end < brk s + n -> brk s + n + sum l < 2 ^ W ->
  run (requests (sbrk W heap_beg heap_end) (n :: l)) s = map (fun _ => failed W) (n :: l).
Proof using All. intros Hn Hl Hs He Hb. apply refused; try done; lia. Qed.
End Break.

(** * The scratch pad *)

Lemma ceil_fits a c n t e :
  a = 32 \/ a = 128 -> t mod a = 0 -> e mod a = 0 -> c mod a = 0 -> n <= c < n + a -> t + n <= e -> t + c <= e.
Proof. intros [-> | ->]; intros; div_lia. Qed.

Lemma mod_add0 a t c : a = 32 \/ a = 128 -> t mod a = 0 -> c mod a = 0 -> (t + c) mod a = 0.
Proof. intros [-> | ->]; intros; div_lia. Qed.

Section ScratchPad.
Context (W heap_start SP_ADDR SP_SIZE : Z) (aarch64 : bool) (W_big : 32 <= W) (start_word : in_word W heap_start).
Context (addr_pos : 0 < SP_ADDR) (addr_mult : SP_ADDR mod 128 = 0) (size_pos : 0 <= SP_SIZE) (size_mult : SP_SIZE mod 128 = 0).
Context (fits : Z.land heap_start (not_w W 0x3FFFFFFF) + SP_ADDR + SP_SIZE < 2 ^ W).
Abbreviation BEG := (SP_BEG W heap_start SP_ADDR).
Abbreviation END_ := (SP_END W heap_start SP_ADDR SP_SIZE).
Abbreviation A := (ALIGN_SZ aarch64).
Abbreviation alloc := (sp_alloc W heap_start SP_ADDR SP_SIZE aarch64).

Lemma A_cases : A = 32 \/ A = 128.
Proof using All. unfold ALIGN_SZ. destruct aarch64; auto. Qed.

Lemma base_eq : exists k, 0 <= k /\ Z.land heap_start (not_w W 0x3FFFFFFF) = 128 * k.
Proof using All.
  exists (Z.shiftr heap_start 30 * 2 ^ 23). split; [apply Z.mul_nonneg_nonneg; [apply Z.shiftr_nonneg; apply start_word|lia]|].
  transitivity (Z.shiftl (Z.shiftr heap_start 30) 30); [|rewrite Z.shiftl_mul_pow2 by lia; lia].
  change 0x3FFFFFFF with (Z.ones 30). Zbits.
Qed.

Lemma place : 128 <= BEG /\ BEG mod A = 0 /\ END_ mod A = 0 /\ BEG <= END_ < 2 ^ W.
Proof using All.
  destruct base_eq as (k & Hk & E). pose proof fits as F. unfold SP_BEG, SP_END. rewrite E in F |- *.
  rewrite !wrap_id by (split; lia). destruct A_cases as [-> | ->]; split_and!; try lia; clear -addr_pos addr_mult size_mult Hk; div_lia.
Qed.

(** Rounding up, in the range where it does not wrap. *)
Lemma CEIL_spec n : 0 <= n -> n + 128 <= 2 ^ W -> CEIL W n A mod A = 0 /\ n <= CEIL W n A < n + A.
Proof using All.
  intros Hn Hb. assert (Hw : in_word W (n + (A - 1))) by (destruct A_cases as [-> | ->]; split; lia).
  unfold CEIL. rewrite (wrap_id W (n + (A - 1))) by done.
  rewrite wrap_id by (destruct A_cases as [-> | ->]; split; div_lia).
  destruct A_cases as [-> | ->]; split; div_lia.
Qed.

Definition top_of (top : Z) : Z := if top =? 0 then BEG else top.
Definition good_top (top : Z) : Prop := BEG <= top <= END_ /\ top mod A = 0.

Lemma sp_alloc_step n top :
  good_top (top_of top) -> 0 <= n < 2 ^ W - END_ ->
  (top_of top + n <= END_ /\ alloc n top = (top_of top, top_of top + CEIL W n A) /\ good_top (top_of top + CEIL W n A)) \/
  (END_ < top_of top + n /\ alloc n top = (0, top_of top)).
Proof using All.
  intros [Ht Hm] Hn. destruct place as (P1 & P2 & P3 & P4). destruct (CEIL_spec n ltac:(lia) ltac:(lia)) as [C1 C2].
  unfold sp_alloc. fold (top_of top). rewrite (wrap_id W (top_of top + n)) by (split; lia).
  destruct (Z.ltb_spec END_ (top_of top + n)) as [Hlt|Hge]; [by right|left].
  assert (Hle : top_of top + CEIL W n A <= END_) by (eapply ceil_fits; eauto using A_cases).
  rewrite wrap_id by (split; lia). split; [lia|split; [done|split; [lia|]]]. by apply mod_add0; [apply A_cases| |].
Qed.

Lemma top_of_good t : good_top t -> top_of t = t.
Proof using All. intros [H _]. destruct place as (P & _). unfold top_of. destruct (Z.eqb_spec t 0); [lia|done]. Qed.

(** Blocks given out, with the room each takes. *)
Definition pads (l rs : list Z) : list (Z * Z) :=
  map (fun b => (fst b, CEIL W (snd b) A)) (granted (fun r => negb (r =? 0)) l rs).

Lemma sp_packed l top :
  good_top (top_of top) -> Forall (fun n => 0 <= n < 2 ^ W - END_) l ->
  packed (top_of top) END_ (pads l (run (requests alloc l) top)) /\
  Forall (fun b => fst b mod A = 0 /\ fst b <> 0) (pads l (run (requests alloc l) top)).
Proof using All.
  revert top. induction l as [|n l IH]; intros top Ht Hl; [split; [apply Ht|constructor]|].
  apply Forall_cons in Hl as [Hn Hl]. destruct place as (P1 & _).
  destruct (sp_alloc_step n top Ht Hn) as [(Hle & E & Hg)|(Hgt & E)]; unfold run; rewrite (requests_cons _ _ _ _ _ _ E); unfold pads; cbn [fst]; rewrite granted_cons.
  - pose proof Ht as [Hr Hm]. destruct (Z.eqb_spec (top_of top) 0); [lia|]. cbn [negb map fst snd].
    destruct (IH (top_of top + CEIL W n A)) as [I1 I2]; [by rewrite top_of_good|done|]. rewrite top_of_good in I1 by done.
    assert (0 <= CEIL W n A) by (apply wrap_range; lia).
    split; [split; [lia|split; [done|exact I1]]|]. constructor; [split; [exact Hm|simpl; lia]|exact I2].
  - rewrite Z.eqb_refl. cbn [negb]. destruct (IH (top_of top)) as [I1 I2]; [by rewrite top_of_good|done|].
    rewrite top_of_good in I1 by done. by split.
Qed.

Lemma sp_good l top :
  good_top (top_of top) -> Forall (fun n => 0 <= n < 2 ^ W - END_) l -> good_top (top_of (exec (requests alloc l) top)).
Proof using All.
  revert top. induction l as [|m l IH]; intros t Ht Hl; [done|]. apply Forall_cons in Hl as [Hm Hl].
  destruct (sp_alloc_step m t Ht Hm) as [(_ & E & Hg)|(_ & E)]; unfold exec; rewrite (requests_cons _ _ _ _ _ _ E);
    cbn [snd]; apply IH; try done; by rewrite top_of_good.
Qed.

(** Scratch-pad requests of any sizes: the blocks given out are aligned to
    the cache line, lie inside the scratch pad with the size rounded up to
    whole lines, and do not overlap; a request is refused exactly when it
    does not fit in what is left, and then changes nothing. *)
Theorem sp_alloc_correct l :
  Forall (fun n => 0 <= n < 2 ^ W - END_) l ->
  let rs := run (requests alloc l) 0 in
  packed BEG END_ (pads l rs) /\ Forall (fun b => fst b mod A = 0 /\ fst b <> 0) (pads l rs) /\
  forall n, 0 <= n < 2 ^ W - END_ -> let top := top_of (exec (requests alloc l) 0) in
    if top + n <=? END_ then run (alloc n) top = top else alloc n top = (0, top).
Proof using All.
  intros Hl. destruct place as (P1 & P2 & _ & P4). cbv zeta.
  assert (H0 : good_top (top_of 0)) by (split; [unfold top_of; simpl; lia|done]).
  destruct (sp_packed l 0 H0 Hl) as [I1 I2]. split; [exact I1|split; [exact I2|]]. intros n Hn.
  pose proof (sp_good l 0 H0 Hl) as Hg. clear I1 I2.
  generalize dependent (top_of (exec (requests alloc l) 0)). intros t Hg.
  destruct (sp_alloc_step n t) as [(Hle & E & _)|(Hgt & E)]; rewrite ?top_of_good in * by done; try done.
  - unfold run. rewrite E. by destruct (Z.leb_spec (t + n) END_); [|lia].
  - destruct (Z.leb_spec (t + n) END_); [lia|done].
Qed.

(** A size so large that the sum with the address wraps passes the check:
    the pointer is given out as if the block fitted, and the next request
    gets the same one. *)
Theorem sp_alloc_wraps k top :
  good_top top -> 0 < k < A -> alloc (2 ^ W - k) top = (top, top).
Proof using All.
  intros Ht Hk. pose proof Ht as [Hr Hm]. destruct place as (P1 & _ & _ & P4). unfold sp_alloc. fold (top_of top). rewrite top_of_good by done.
  assert (HA : 32 <= A <= 128) by (destruct A_cases as [-> | ->]; lia).
  assert (HW : 2 ^ 32 <= 2 ^ W) by (apply Z.pow_le_mono_r; lia).
  assert (E1 : wrap W (top + (2 ^ W - k)) = top - k) by (symmetry; apply (Z.mod_unique _ _ 1); lia).
  assert (E2 : CEIL W (2 ^ W - k) A = 0).
  { unfold CEIL. assert (E : wrap W (2 ^ W - k + (A - 1)) = A - 1 - k) by (symmetry; apply (Z.mod_unique _ _ 1); lia).
    rewrite E, Z.div_small by lia. done. }
  rewrite E1, E2. destruct (Z.ltb_spec END_ (top - k)); [lia|]. rewrite Z.add_0_r, wrap_id by (split; lia). done.
Qed.
End ScratchPad.

(** * Examples *)

Lemma sbrk_blocks_witness :
  packed 0x200000 0x300000 [(0x200000, 0x1000); (0x201000, 64)] /\
  run (requests (sbrk 32 0x200000 0x300000) [0x7fffffff; 0x7fffffff]) {| heap_ptr := 0; errno := 0 |} = [0xffffffff; 0x801fffff].
Proof.
  split.
  - destruct (sbrk_blocks 64 ltac:(lia) 0x200000 0x300000 ltac:(lia) ltac:(lia) ltac:(lia) {| heap_ptr := 0; errno := 0 |} eq_refl) as [H _].
    apply (H [0x1000; 64; 0x100000; 8] [0x200000; 0x201000; 2 ^ 64 - 1; 2 ^ 64 - 1]).
    all: first [reflexivity | repeat constructor; lia | simpl; lia].
  - destruct (sbrk_blocks 32 ltac:(lia) 0x200000 0x300000 ltac:(lia) ltac:(lia) ltac:(lia) {| heap_ptr := 0; errno := 0 |} eq_refl) as [_ H].
    exact (proj1 (H ltac:(lia) ltac:(lia))).
Defined.

Lemma sbrk_failure_sticks_witness :
  run (requests (sbrk 64 0x200000 0x300000) [0x100001; 8]) {| heap_ptr := 0x200000; errno := 0 |} = [2 ^ 64 - 1; 2 ^ 64 - 1].
Proof.
  apply (sbrk_failure_sticks 64 ltac:(lia) 0x200000 0x300000 ltac:(lia) ltac:(lia) ltac:(lia) 0x100001 [8] {| heap_ptr := 0x200000; errno := 0 |}).
  all: first [reflexivity | repeat constructor; lia | unfold brk; simpl; lia].
Defined.

Lemma sp_alloc_correct_witness :
  run (requests (sp_alloc 64 0x12345678 0x100000 0x100000 true) [100; 0x200000; 200]) 0 = [0x100000; 0; 0x100080] /\
  packed 0x100000 0x200000 [(0x100000, 128); (0x100080, 256)].
Proof.
  split; [by vm_compute|].
  destruct (sp_alloc_correct 64 0x12345678 0x100000 0x100000 true ltac:(lia) ltac:(split; lia) ltac:(lia) ltac:(done) ltac:(lia) ltac:(done) ltac:(done)
           [100; 0x200000; 200]) as (H & _); [repeat constructor; done|exact H].
Defined.

Lemma sp_alloc_wraps_witness : sp_alloc 64 0x12345678 0x100000 0x100000 true (2 ^ 64 - 8) 0x100080 = (0x100080, 0x100080).
Proof.
  apply (sp_alloc_wraps 64 0x12345678 0x100000 0x100000 true); first [lia | done | split; lia | idtac].
  all: first [done | split; [by vm_compute|done] | split; done].
Defined.
