(* ===== verification/Allocator.v ===== *)
(** The C++ allocator of accelerator memory (shared/allocator.h): a standard
    allocator and the global [new] and [delete] over the library allocator
    dlmalloc, which is the interface [Dl]. *)
From S2P Require Import Prelude.
Open Scope Z_scope.

(** * The library allocator *)

(** Null pointers are zero. *)
Class Dl (H : Type) := {
  dlmalloc : Z -> H -> Z * H;
  dlfree : Z -> H -> H
}.

(** Bytes [p, p + n). *)
Abbreviation block := (Z * Z)%type.
Definition apart (a b : block) : Prop := fst a <> fst b /\ (fst a + snd a <= fst b \/ fst b + snd b <= fst a).

(** Its documentation: null or a new chunk of at least the bytes asked for,
    apart from every chunk in use; a chunk in use can be given back. *)
Class DlOk (W : Z) {H} (D : Dl H) := {
  ok : H -> Prop;
  live : H -> list block;
  malloc_ok n h : ok h -> in_word W n ->
    let '(p, h') := dlmalloc n h in
    ok h' /\ ((p = 0 /\ live h' = live h) \/
              (0 < p /\ p + n <= 2 ^ W /\ live h' ≡ₚ (p, n) :: live h /\ Forall (apart (p, n)) (live h)));
  free_ok p n h : ok h -> (p, n) ∈ live h -> ok (dlfree p h) /\ live h ≡ₚ (p, n) :: live (dlfree p h)
}.

Section Operators.
Context (W : Z) {H : Type} {D : Dl H}.

(** * Operations; an exception is [None] *)

Definition bad_alloc_if_null (r : Z * H) : option Z * H :=
  let '(p, h) := r in (if p =? 0 then None else Some p, h).

(* @src shared/allocator.h 77-84 allocator::allocate *)
Definition allocate (sizeof n : Z) (h : H) : option Z * H := bad_alloc_if_null (dlmalloc (wrap W (n * sizeof)) h).
(* @src shared/allocator.h 86-88 allocator::deallocate *)
Definition deallocate (p : Z) (h : H) : H := dlfree p h.
(* @src shared/allocator.h 90-92 allocator::max_size *)
Definition max_size (sizeof : Z) : Z := wrap W (-1) / sizeof.
(* @src shared/allocator.h 117-123 operator new *)
Definition operator_new (size : Z) (h : H) : option Z * H := bad_alloc_if_null (dlmalloc size h).
(* @src shared/allocator.h 125-128 operator delete *)
Definition operator_delete (p : Z) (h : H) : H := dlfree p h.
(* @src shared/allocator.h 130-136 operator new[] *)
Definition operator_new_array (size : Z) (h : H) : option Z * H := bad_alloc_if_null (dlmalloc size h).
(* @src shared/allocator.h 138-141 operator delete[] *)
Definition operator_delete_array (p : Z) (h : H) : H := dlfree p h.

(** * A program that uses them *)

(** What it holds: the address, the size of an element and the number of
    elements. *)
Record object := { addr : Z; sizeof : Z; count : Z }.
Definition room (o : object) : block := (addr o, sizeof o * count o).

(** Its steps: containers ask for arrays no longer than [max_size], and give
    them back through any allocator; objects and arrays are made and deleted. *)
Inductive step : list object * H -> list object * H -> Prop :=
  | s_allocate os h s n p h' :
      0 < s -> 0 <= n <= max_size s -> allocate s n h = (Some p, h') ->
      step (os, h) ({| addr := p; sizeof := s; count := n |} :: os, h')
  | s_throw os h s n h' :
      0 < s -> 0 <= n <= max_size s -> allocate s n h = (None, h') -> step (os, h) (os, h')
  | s_deallocate os1 o os2 h : step (os1 ++ o :: os2, h) (os1 ++ os2, deallocate (addr o) h)
  | s_new os h s p h' :
      in_word W s -> operator_new s h = (Some p, h') -> step (os, h) ({| addr := p; sizeof := s; count := 1 |} :: os, h')
  | s_new_throw os h s h' : in_word W s -> operator_new s h = (None, h') -> step (os, h) (os, h')
  | s_new_array os h s n p h' :
      in_word W (s * n) -> operator_new_array (s * n) h = (Some p, h') ->
      step (os, h) ({| addr := p; sizeof := s; count := n |} :: os, h')
  | s_new_array_throw os h s h' : in_word W s -> operator_new_array s h = (None, h') -> step (os, h) (os, h')
  | s_delete os1 o os2 h : step (os1 ++ o :: os2, h) (os1 ++ os2, operator_delete (addr o) h)
  | s_delete_array os1 o os2 h : step (os1 ++ o :: os2, h) (os1 ++ os2, operator_delete_array (addr o) h).

Context {DO : DlOk W D} (W_pos : 0 < W).

(** The objects are what is in use, beyond what was in use before. *)
Definition held (before : list block) (s : list object * H) : Prop :=
  let '(os, h) := s in
  ok h /\ live h ≡ₚ map room os ++ before /\
  ForallOrdPairs apart (map room os) /\ Forall (fun o => Forall (apart (room o)) before) os /\
  Forall (fun o => 0 < addr o /\ addr o + sizeof o * count o <= 2 ^ W) os.

Lemma apart_sym a b : apart a b -> apart b a.
Proof. unfold apart. intuition. Qed.

Lemma max_size_fits s n : 0 < s -> 0 <= n <= max_size s -> wrap W (n * s) = s * n /\ in_word W (s * n).
Proof.
  intros Hs [Hn Hm]. unfold max_size in Hm.
  assert (E : wrap W (-1) = 2 ^ W - 1) by (symmetry; apply (Z.mod_unique _ _ (-1)); lia). rewrite E in Hm.
  pose proof (Z.mul_div_le (2 ^ W - 1) s Hs). assert (Hle : s * n <= s * ((2 ^ W - 1) / s)) by nia.
  assert (Hw : in_word W (s * n)) by (split; nia). split; [|done]. rewrite Z.mul_comm. by apply wrap_id.
Qed.

Lemma take_block before os h o p h' :
  held before (os, h) -> in_word W (sizeof o * count o) -> addr o = p ->
  bad_alloc_if_null (dlmalloc (sizeof o * count o) h) = (Some p, h') -> held before (o :: os, h').
Proof.
  intros (Hok & Hl & Ha & Hb & Hw) Hn Hp E. pose proof (malloc_ok (sizeof o * count o) h Hok Hn) as Hm.
  unfold bad_alloc_if_null in E. destruct (dlmalloc _ h) as [q h1]. destruct (Z.eqb_spec q 0) as [|Hq]; [done|].
  injection E as <- <-. destruct Hm as [Hok' [[? _]|(Hq0 & Hq1 & Hl' & Hap)]]; [congruence|].
  rewrite Hl in Hl', Hap. apply Forall_app in Hap as [Hap1 Hap2]. 
  assert (Er : room o = (q, sizeof o * count o)) by (unfold room; by rewrite Hp). rewrite <- Er in *.
  simpl. split_and!; [done|done|by constructor|by constructor|]. constructor; [|done]. rewrite Hp. done.
Qed.

Lemma throw_block before os h n h' :
  held before (os, h) -> in_word W n -> bad_alloc_if_null (dlmalloc n h) = (None, h') -> held before (os, h').
Proof.
  intros (Hok & Hl & Hrest) Hn E. pose proof (malloc_ok n h Hok Hn) as Hm.
  unfold bad_alloc_if_null in E. destruct (dlmalloc n h) as [q h1]. destruct (Z.eqb_spec q 0) as [->|Hq]; [|done].
  injection E as <-. destruct Hm as [Hok' [[_ Hl']|[? _]]]; [|lia]. simpl. by rewrite Hl'.
Qed.

Lemma pairs_remove {A} (R : A -> A -> Prop) l1 x l2 : ForallOrdPairs R (l1 ++ x :: l2) -> ForallOrdPairs R (l1 ++ l2).
Proof.
  induction l1 as [|y l1 IH]; simpl; intros Hp; inversion Hp as [|? ? H1 H2]; subst; [done|].
  constructor; [|by apply IH]. apply Forall_app in H1 as [H1 H3]. apply Forall_cons in H3 as [_ H3]. by apply Forall_app.
Qed.

Lemma drop_block before os1 o os2 h : held before (os1 ++ o :: os2, h) -> held before (os1 ++ os2, dlfree (addr o) h).
Proof.
  intros (Hok & Hl & Ha & Hb & Hw). rewrite map_app in Hl, Ha. simpl in Hl, Ha.
  destruct (free_ok (addr o) (sizeof o * count o) h Hok) as [Hok' Hl'].
  { rewrite Hl, !elem_of_app, elem_of_cons. auto. }
  apply Forall_app in Hb as [Hb1 [_ Hb2]%Forall_cons], Hw as [Hw1 [_ Hw2]%Forall_cons].
  simpl. rewrite map_app. split_and!; [done| |by eapply pairs_remove|by apply Forall_app|by apply Forall_app].
  apply (Permutation_cons_inv (a := room o)). unfold room at 1. by rewrite <- Hl', Hl, <- Permutation_middle.
Qed.

Lemma held_step before s s' : held before s -> step s s' -> held before s'.
Proof.
  intros Hs Hst. destruct Hst as [os h s n p h' Hp Hn E|os h s n h' Hp Hn E|os1 o os2 h|os h s p h' Hn E|os h s h' Hn E|
      os h s n p h' Hn E|os h s h' Hn E|os1 o os2 h|os1 o os2 h]; unfold allocate in *.
  1: destruct (max_size_fits s n Hp Hn) as [Ew Hw]; rewrite Ew in E; by eapply take_block.
  1: destruct (max_size_fits s n Hp Hn) as [Ew Hw]; rewrite Ew in E; by eapply throw_block.
  all: try by apply drop_block.
  all: try by eapply throw_block.
  - eapply (take_block before os h {| addr := p; sizeof := s; count := 1 |} p); simpl; rewrite ?Z.mul_1_r; done.
  - by eapply take_block.
Qed.

Lemma held_steps before s s' : held before s -> rtc step s s' -> held before s'.
Proof. intros Hs Hr. induction Hr as [|s s1 s2 Hst _ IH]; [done|]. apply IH. by eapply held_step. Qed.
End Operators.

(** * An allocator that meets the interface *)

(** It takes chunks from the bottom of memory up and does not use them twice. *)
Module bump.
Section Bump.
Context (W limit : Z) (Hl : 0 <= limit <= 2 ^ W).

Definition heap : Type := Z * list block.
Definition malloc (n : Z) (h : heap) : Z * heap :=
  let '(t, l) := h in
  if t + Z.max n 1 <=? limit then (t, (t + Z.max n 1, (t, n) :: l)) else (0, h).
Definition release (p : Z) (h : heap) : heap := (fst h, filter (fun b => fst b <> p) (snd h)).

#[local] Instance bump_dl : Dl heap := { dlmalloc := malloc; dlfree := release }.

Definition bump_inv (h : heap) : Prop := 0 < fst h /\ Forall (fun b => fst b < fst h /\ fst b + snd b <= fst h) (snd h) /\ NoDup (fst <$> snd h).

Lemma take_out (p n : Z) (l : list block) : NoDup (fst <$> l) -> (p, n) ∈ l -> l ≡ₚ (p, n) :: filter (fun b : block => fst b <> p) l.
Proof.
  induction l as [|[q m] l IH]; intros Hn Hin; [by apply elem_of_nil in Hin|].
  apply NoDup_cons in Hn as [Hq Hn]. rewrite filter_cons. simpl. destruct (decide (q <> p)) as [Hqp|Hqp].
  - apply elem_of_cons in Hin as [[= -> ->]|Hin]; [done|]. rewrite (IH Hn Hin) at 1. apply Permutation_swap.
  - assert (q = p) as -> by lia. apply elem_of_cons in Hin as [[= ->]|Hin].
    + f_equiv. assert (Hall : Forall (fun b => fst b <> p) l).
      { apply Forall_forall. intros b Hb E. apply Hq. simpl. rewrite <- E. apply list_elem_of_fmap. by exists b. }
      clear -Hall. induction Hall as [|b l Hb _ IH]; [done|]. rewrite filter_cons_True by done. by f_equiv.
    + destruct Hq. apply list_elem_of_fmap. by exists (p, n).
Qed.

#[local, refine] Instance bump_ok : DlOk W bump_dl := { ok := bump_inv; live := snd }.
Proof using Hl.
  - intros n [t l] (Ht & Hf & Hn) [Hn0 _]. simpl. unfold malloc. simpl in Ht, Hf, Hn. destruct (Z.leb_spec (t + Z.max n 1) limit) as [Hle|]; [|by repeat split; auto].
    split; [|right; split_and!; [done|lia|done|]].
    + unfold bump_inv. simpl. split_and!; [lia| |].
      * constructor; [simpl; lia|]. eapply Forall_impl; [exact Hf|]. simpl. lia.
      * apply NoDup_cons. split; [|done]. intros Hin. apply list_elem_of_fmap in Hin as (b & -> & Hin).
        rewrite Forall_forall in Hf. apply Hf in Hin. lia.
    + eapply Forall_impl; [exact Hf|]. intros [q m] Hb. unfold apart. simpl in *. lia.
  - intros p n [t l] (Ht & Hf & Hn) Hin. simpl in *. pose proof (take_out p n l Hn Hin) as Hp. split; [|done].
    unfold bump_inv. simpl. rewrite Hp in Hf, Hn. apply Forall_cons in Hf as [_ Hf]. apply NoDup_cons in Hn as [_ Hn]. done.
Defined.
End Bump.
End bump.

(** * Theorems *)

(** In every state a program reaches from a heap, with arrays no longer than
    [max_size], the objects it holds are apart from each other and from what
    was in use before, none is at null, each has room for all its elements
    below the end of memory, and what is in use is exactly these: nothing is
    lost when all are given back. *)
Theorem objects_apart W {H} (D : Dl H) (DO : DlOk W D) before h os h' :
  0 < W -> ok h -> live h = before -> rtc (step W) ([], h) (os, h') ->
  ForallOrdPairs apart (map room os) /\ Forall (fun o => Forall (apart (room o)) before) os /\
  Forall (fun o => 0 < addr o /\ addr o + sizeof o * count o <= 2 ^ W) os /\
  live h' ≡ₚ map room os ++ before.
Proof.
  intros HW Hok Hl Hr. assert (H0 : held W before ([], h)).
  { split_and!; [done|by rewrite Hl|constructor..]. }
  by destruct (held_steps W HW before _ _ H0 Hr) as (_ & H1 & H2 & H3 & H4).
Qed.

Lemma objects_apart_witness :
  let D := bump.bump_dl 4096 in
  exists os h', rtc (step 32) ([], (64, [(16, 8)])) (os, h') /\
    map room os = [(104, 1); (64, 40)] /\
    (ForallOrdPairs apart (map room os) /\ Forall (fun o => Forall (apart (room o)) [(16, 8)]) os /\
     Forall (fun o => 0 < addr o /\ addr o + sizeof o * count o <= 2 ^ 32) os /\
     live (DlOk := bump.bump_ok 32 4096 ltac:(lia)) h' ≡ₚ map room os ++ [(16, 8)]).
Proof.
  intros D.
  pose (a := {| addr := 64; sizeof := 8; count := 5 |}). pose (b := {| addr := 104; sizeof := 1; count := 1 |}).
  assert (Hr : rtc (step 32) ([], (64, [(16, 8)])) ([b; a], (105, [(104, 1); (64, 40); (16, 8)]))).
  { eapply rtc_l; [|eapply rtc_l; [|apply rtc_refl]].
    - apply (s_allocate 32 [] _ 8 5 64); [lia|vm_compute; split; congruence|reflexivity].
    - apply (s_new 32 [a] _ 1 104); [split; lia|reflexivity]. }
  exists [b; a], (105, [(104, 1); (64, 40); (16, 8)]). split; [exact Hr|split; [reflexivity|]].
  apply (objects_apart 32 D (bump.bump_ok 32 4096 ltac:(lia)) [(16, 8)] (64, [(16, 8)])); [lia| |reflexivity|exact Hr].
  split; [simpl; lia|split; [|apply NoDup_singleton]]. constructor; [simpl; lia|constructor].
Defined.

(** Above [max_size] the size asked for wraps around, so that a request the
    Standard has answered with [bad_alloc] is answered with a block too small
    for its array. *)
Theorem allocate_wraps W {H} (D : Dl H) (DO : DlOk W D) sizeof n h p h' :
  0 < W -> 1 < sizeof -> (2 ^ W) mod sizeof = 0 -> n = 2 ^ W / sizeof -> ok h -> allocate W sizeof n h = (Some p, h') ->
  n = max_size W sizeof + 1 /\ exists old, live h' ≡ₚ (p, 0) :: old.
Proof.
  intros HW Hs Hd -> Hok E. assert (E1 : 2 ^ W = sizeof * (2 ^ W / sizeof)) by (apply Z.div_exact; lia). split.
  - unfold max_size. assert (Ew : wrap W (-1) = 2 ^ W - 1) by (symmetry; apply (Z.mod_unique _ _ (-1)); lia). rewrite Ew.
    symmetry. rewrite E1 at 1. replace (sizeof * (2 ^ W / sizeof) - 1) with (sizeof - 1 + (2 ^ W / sizeof - 1) * sizeof) by lia.
    rewrite Z.div_add, Z.div_small by lia. lia.
  - unfold allocate in E. rewrite (Z.mul_comm _ sizeof), <- E1 in E.
    replace (wrap W (2 ^ W)) with 0 in E by (symmetry; apply Z.mod_same; lia).
    pose proof (malloc_ok 0 h Hok ltac:(split; lia)) as Hm. unfold bad_alloc_if_null in E.
    destruct (dlmalloc 0 h) as [q h1]. destruct (Z.eqb_spec q 0); [done|]. injection E as <- <-.
    destruct Hm as [_ [[? _]|(_ & _ & Hl & _)]]; [congruence|]. by exists (live h).
Qed.

Lemma allocate_wraps_witness :
  let D := bump.bump_dl 4096 in
  allocate 32 8 (2 ^ 29) (64, []) = (Some 64, (65, [(64, 0)])) /\
  (2 ^ 29 = max_size 32 8 + 1 /\ exists old, live (DlOk := bump.bump_ok 32 4096 ltac:(lia)) (65, [(64, 0)]) ≡ₚ (64, 0) :: old).
Proof.
  intros D. split; [reflexivity|].
  apply (allocate_wraps 32 D (bump.bump_ok 32 4096 ltac:(lia)) 8 (2 ^ 29) (64, [])); [lia..|reflexivity|reflexivity| |reflexivity].
  split; [simpl; lia|split; constructor].
Defined.
