(* ===== verification/Accmem.v ===== *)
(** Memory shared with the accelerator under Linux (shared/linux/accmem.c):
    allocation and address translation through the allocation driver, and a
    copy between two such buffers from the program's addresses down to the
    simulated load-store unit.

    The process is the driver's state (LmAlloc), the file-scope [fd] and the
    table of open descriptors.  What the system decides, the descriptor and
    file an [open] gives, the place of a mapping and the kernel allocations
    behind it, are answers the calls take. *)
From S2P Require Import Prelude Device Ioctl LmAlloc Aport Axis LsuHw LsuHwProofs LsuSystem.
Open Scope Z_scope.

(** * State *)

(* @src shared/linux/accmem.c 17-17 fd *)
Record process := { drv : LmAlloc.state; fd : Z; files : gmap Z Z }.

Definition set_drv (d : LmAlloc.state) (s : process) : process := {| drv := d; fd := fd s; files := files s |}.
Definition set_fd (v : Z) (s : process) : process := {| drv := drv s; fd := v; files := files s |}.

(** A call of the driver. *)
Definition call {A} (m : io LmAlloc.state A) : io process A := fun s => let '(r, d) := m (drv s) in (r, set_drv d s).

(** What [open("/dev/lmalloc")] meets: nothing, when the device is missing;
    else the free descriptor and the new file, and whether its list can be
    allocated. *)
Abbreviation open_answer := (option (Z * Z * bool)).
(** What a mapping meets: the place the kernel finds, the record, the DMA
    buffer, the result of mapping it. *)
Record map_answer := { place : option Z; kz : option Z; da : option (Z * Z); mm : Z }.

Section Calls.
Context `{Kernel} `{Ioc}.

(** The descriptor the caller has now. *)
Definition open_ (o : open_answer) : io process Z := fun s =>
  match o with
  | None => (-1, s)
  | Some (d, f, ok) =>
      let '(r, drv') := lma_open f ok (drv s) in
      if r =? 0 then (d, {| drv := drv'; fd := fd s; files := <[d := f]> (files s) |}) else (-1, set_drv drv' s)
  end.

(** [if (!fd) fd = open("/dev/lmalloc", O_RDWR)], at the head of each call. *)
(* @src shared/linux/accmem.c 29-29 fd *)
Definition ensure_open (o : open_answer) : io process unit :=
  v ← gets fd;
  if v =? 0 then v ← open_ o; modify (set_fd v) else mret tt.

(** The file behind [fd]; without one, the system refuses the call. *)
Definition the_file : io process (option Z) := gets (fun s => files s !! fd s).

(** [None] is a crash in the driver. *)
(* @src shared/linux/accmem.c 24-37 addr_tran *)
Definition addr_tran (o : open_answer) (x : context) (addr : Z) : io process (option Z) :=
  _ ← ensure_open o;
  f ← the_file;
  match f with
  | None => mret (Some addr)   (* lma.paddr still holds the argument *)
  | Some _ => r ← call (lma_tran addr x); mret (snd <$> r)
  end.

(** The pointer, zero for NULL. *)
(* @src shared/linux/accmem.c 39-49 cm_alloc *)
Definition cm_alloc (o : open_answer) (q : map_answer) (nbytes : Z) : io process Z :=
  _ ← ensure_open o;
  f ← the_file;
  match f, place q with
  | Some f, Some a =>
      if nbytes =? 0 then mret 0
      else
        r ← call (lma_alloc f a (a + page_align nbytes) (kz q) (da q) (mm q));
        mret (if fst r <? 0 then 0 else default 0 (snd r))
  | _, _ => mret 0
  end.

(** [None] is a crash in the driver; else whether the message is printed. *)
(* @src shared/linux/accmem.c 51-57 cm_free *)
Definition cm_free (o : open_answer) (x : context) (ptr : Z) : io process (option bool) :=
  _ ← ensure_open o;
  f ← the_file;
  match f with
  | None => mret (Some true)
  | Some _ => r ← call (lma_free ptr x); mret ((fun r => r <? 0) <$> r)
  end.

(** There is no scratch pad. *)
(* @src shared/linux/accmem.c 112-115 sp_alloc *)
Definition sp_alloc (nbytes : Z) : io process Z := mret 0.
(* @src shared/linux/accmem.c 117-119 sp_free *)
Definition sp_free (ptr : Z) : io process unit := mret tt.

(** * A process that has the driver open *)

Definition opened (f : Z) (s : process) : Prop := fd s <> 0 /\ files s !! fd s = Some f.

Lemma ensure_opened o s : fd s <> 0 -> ensure_open o s = (tt, s).
Proof using Type. intros Hf. unfold ensure_open, mbind, io_bind, gets. by destruct (Z.eqb_spec (fd s) 0). Qed.

Lemma addr_tran_open o x addr f s : opened f s ->
  addr_tran o x addr s = (snd <$> Device.run (lma_tran addr x) (drv s), set_drv (exec (lma_tran addr x) (drv s)) s).
Proof using Type.
  intros [Hf Hd]. unfold addr_tran. rewrite (bind_run _ _ _ _ _ (ensure_opened o s Hf)).
  unfold the_file, call, Device.run, exec, mbind, io_bind, gets. rewrite Hd. by destruct (lma_tran addr x (drv s)).
Qed.

Lemma cm_alloc_open o q n f a s : opened f s -> place q = Some a -> n <> 0 ->
  cm_alloc o q n s = (let r := Device.run (lma_alloc f a (a + page_align n) (kz q) (da q) (mm q)) (drv s) in
                      if fst r <? 0 then 0 else default 0 (snd r),
                      set_drv (exec (lma_alloc f a (a + page_align n) (kz q) (da q) (mm q)) (drv s)) s).
Proof using Type.
  intros [Hf Hd] Hq Hn. unfold cm_alloc. rewrite (bind_run _ _ _ _ _ (ensure_opened o s Hf)).
  unfold the_file, call, Device.run, exec, mbind, io_bind, gets. rewrite Hd, Hq. destruct (Z.eqb_spec n 0); [done|].
  by destruct (lma_alloc _ _ _ _ _ _ (drv s)).
Qed.

Lemma cm_free_open o x p f s : opened f s ->
  cm_free o x p s = ((fun r => r <? 0) <$> Device.run (lma_free p x) (drv s), set_drv (exec (lma_free p x) (drv s)) s).
Proof using Type.
  intros [Hf Hd]. unfold cm_free. rewrite (bind_run _ _ _ _ _ (ensure_opened o s Hf)).
  unfold the_file, call, Device.run, exec, mbind, io_bind, gets. rewrite Hd. by destruct (lma_free p x (drv s)).
Qed.

(** * What the calls promise *)

(** The [open] that fails is the only one: [fd] is then -1, which is not
    zero, so no later call tries again; allocations return NULL for ever, and
    the translation of an address is the address itself. *)
Theorem open_failure_sticks o q n s :
  fd s = 0 -> files s !! (-1) = None -> (forall d f, o <> Some (d, f, true)) ->
  exists s', cm_alloc o q n s = (0, s') /\
  forall o' q' x n' a, cm_alloc o' q' n' s' = (0, s') /\ addr_tran o' x a s' = (Some a, s') /\ cm_free o' x a s' = (Some true, s').
Proof using Type.
  intros Hf Hm Ho.
  assert (Ho' : open_ o s = (-1, s)).
  { destruct o as [[[d f] []]|]; [by destruct (Ho d f)| |done]. destruct s. reflexivity. }
  exists (set_fd (-1) s).
  assert (E : ensure_open o s = (tt, set_fd (-1) s)).
  { unfold ensure_open, mbind, io_bind, gets. rewrite Hf. cbn [Z.eqb]. by rewrite Ho'. }
  assert (Hnone : files (set_fd (-1) s) !! fd (set_fd (-1) s) = None) by done.
  split.
  - unfold cm_alloc. rewrite (bind_run _ _ _ _ _ E). unfold the_file, mbind, io_bind, gets. by rewrite Hnone.
  - intros o' q' x n' a.
    assert (E' : ensure_open o' (set_fd (-1) s) = (tt, set_fd (-1) s)) by (by apply ensure_opened).
    unfold cm_alloc, addr_tran, cm_free. rewrite !(bind_run _ _ _ _ _ E'). unfold the_file, mbind, io_bind, gets.
    by rewrite Hnone.
Qed.

(** The state after a mapping that succeeds. *)
Definition mapped_state (f p a b x d : Z) (s : LmAlloc.state) : LmAlloc.state :=
  {| infs := <[p := {| cpu_addr := x; dma_addr := d; size := page_align (u64 (b - a)) |}]> (infs s);
     heads := alter (cons p) f (heads s); dma := {[x]} ∪ dma s;
     vmas := {| vm_start := a; vm_end := b; priv := p |} :: vmas s |}.

Lemma lma_mmap_ok f a b p x d mm s : 0 <= mm -> lma_mmap f a b (Some p) (Some (x, d)) mm s = (0, mapped_state f p a b x d s).
Proof using Type.
  intros Hm. unfold lma_mmap, mbind, io_bind. destruct (Z.ltb_spec mm 0); [lia|].
  unfold mapped_state. cbn. by rewrite insert_insert_eq.
Qed.

(** Freeing the record of a mapping undoes it. *)
Lemma freed_mapped f p a b x d s :
  inv s -> infs s !! p = None -> x ∉ dma s ->
  freed p {| cpu_addr := x; dma_addr := d; size := page_align (u64 (b - a)) |}
    (Device.exec (set_vmas (fun _ => vmas s)) (mapped_state f p a b x d s)) = s.
Proof using Type.
  intros Hs Hp Hx. unfold freed, mapped_state, set_vmas, Device.exec, modify. cbn. destruct s as [I H' D V]. cbn in *. f_equal.
  - by rewrite delete_insert_id.
  - apply map_eq. intros g. rewrite lookup_fmap.
    assert (Hno : forall g l, H' !! g = Some l -> p ∉ l).
    { intros g' l Hl Hin. destruct (proj2 (inv_listed _ Hs p)) as [i Hi]; [by exists g', l|]. cbn in Hi. congruence. }
    destruct (decide (g = f)) as [->|Hne].
    + rewrite lookup_alter_eq. destruct (H' !! f) as [l|] eqn:E; [|done]. cbn. f_equal. apply filter_first. by eapply Hno.
    + rewrite lookup_alter_ne by done. destruct (H' !! g) as [l|] eqn:E; [|done]. cbn. f_equal. apply filter_absent. by eapply Hno.
  - apply set_eq. intros y. rewrite elem_of_difference, elem_of_union, elem_of_singleton. destruct (decide (y = x)) as [->|]; tauto.
Qed.

(** C27: An allocation given back leaves the process and the driver exactly as
    they were: its record, its DMA buffer, its place on the file's list and
    its area all go. *)
Theorem cm_alloc_free o q n f a p c d s x :
  opened f s -> inv (drv s) -> page_start a = a -> in_word 64 a -> 0 < a -> n <> 0 -> a + page_align n < 2 ^ 64 ->
  place q = Some a -> kz q = Some p -> da q = Some (c, d) -> 0 <= mm q -> infs (drv s) !! p = None -> c ∉ dma (drv s) ->
  let v := {| vm_start := a; vm_end := a + page_align n; priv := p |} in
  find_vma (v :: vmas (drv s)) a = Some v -> do_munmap v (v :: vmas (drv s)) = vmas (drv s) ->
  length (local x) = 8%nat -> killed x = false -> 0 <= munmap_ret x ->
  exists s', cm_alloc o q n s = (a, s') /\ dma (drv s') = {[c]} ∪ dma (drv s) /\ cm_free o x a s' = (Some false, s).
Proof using Type.
  intros Ho Hs Hpg Ha Ha0 Hn Hb Hq Hk Hda Hm Hp Hc v Hf Hu Hx1 Hx2 Hx3.
  set (d1 := mapped_state f p a (a + page_align n) c d (drv s)).
  assert (Ho' : opened f (set_drv d1 s)) by exact Ho.
  exists (set_drv d1 s). split; [|split; [done|]].
  - rewrite (cm_alloc_open o q n f a s Ho Hq Hn). unfold lma_alloc. rewrite Hk, Hda.
    unfold Device.run, Device.exec, mbind, io_bind. by rewrite lma_mmap_ok.
  - rewrite (cm_free_open o x a f _ Ho').
    assert (E : lma_free a x d1 = (Some 0, drv s)).
    { rewrite (lma_free_run a x v {| cpu_addr := c; dma_addr := d; size := page_align (u64 (a + page_align n - a)) |} d1 Ha Hx1 Hx2 Hx3).
      - f_equal. etransitivity; [|exact (freed_mapped f p a (a + page_align n) c d (drv s) Hs Hp Hc)].
        unfold set_vmas, Device.exec, modify. cbn [snd]. change (vmas d1) with (v :: vmas (drv s)). rewrite Hu. done.
      - by rewrite Hpg.
      - cbn. lia.
      - unfold d1. cbn. by rewrite lookup_insert_eq. }
    unfold Device.run, Device.exec. change (drv (set_drv d1 s)) with d1. rewrite E. by destruct s.
Qed.

(** * Translation over an area *)

(** The kernel maps the frames of the area [v] in order from [pfn]. *)
Definition contiguous (s : process) (v : vma) (pfn : Z) : Prop :=
  forall a, vm_start v <= a < vm_end v ->
    find_vma (vmas (drv s)) (page_start a) = Some v /\
    follow_pfn v (page_start a) = inr (pfn + (page_start a - vm_start v) / 2 ^ PAGE_SHIFT).

Lemma page_start_eq a : in_word 64 a -> page_start a = a - a mod 2 ^ PAGE_SHIFT.
Proof using Type.
  intros Ha. pose proof page_shift_range as Hp. unfold page_start.
  transitivity (Z.shiftl (Z.shiftr a PAGE_SHIFT) PAGE_SHIFT).
  - replace (2 ^ PAGE_SHIFT - 1) with (Z.ones PAGE_SHIFT) by (rewrite Z.ones_equiv; lia). Zbits.
  - rewrite Z.shiftl_mul_pow2, Z.shiftr_div_pow2 by lia. pose proof (Z.div_mod a (2 ^ PAGE_SHIFT)). lia.
Qed.

(** Addresses of the area are translated one for one. *)
Lemma addr_tran_area o x f s v pfn a :
  opened f s -> contiguous s v pfn -> writable x = true -> length (local x) = 8%nat ->
  0 <= vm_start v -> vm_start v mod 2 ^ PAGE_SHIFT = 0 -> vm_end v <= 2 ^ 64 -> 0 <= pfn ->
  pfn * 2 ^ PAGE_SHIFT + (vm_end v - vm_start v) <= 2 ^ 64 -> vm_start v <= a < vm_end v ->
  addr_tran o x a s = (Some (pfn * 2 ^ PAGE_SHIFT + (a - vm_start v)), s).
Proof using Type.
  intros Ho Hc Hw Hx Hv Hv0 He Hp Hb Ha. pose proof page_shift_range as HP.
  destruct (Hc a Ha) as [Hf Hpf]. assert (Hw64 : in_word 64 a) by (split; lia).
  rewrite (addr_tran_open o x a f s Ho). unfold Device.run, Device.exec. rewrite lma_tran_run by done. rewrite Hf, Hpf, Hw.
  cbn [fst snd fmap option_fmap option_map]. f_equal; [|by destruct s]. f_equal.
  rewrite page_start_eq by done. set (P := 2 ^ PAGE_SHIFT) in *. assert (0 < P) by (apply Z.pow_pos_nonneg; lia).
  rewrite Z.shiftl_mul_pow2 by lia. fold P.
  assert (Hq : P * ((a - a mod P - vm_start v) / P) = a - a mod P - vm_start v).
  { pose proof (Z.div_mod (vm_start v) P). pose proof (Z.div_mod a P).
    replace (a - a mod P - vm_start v) with ((a / P - vm_start v / P) * P) by lia. rewrite Z.div_mul by lia. lia. }
  pose proof (Z.mod_pos_bound a P).
  assert (Hm : a mod P <= a - vm_start v).
  { pose proof (Z.div_mod (vm_start v) P). pose proof (Z.div_mod a P). pose proof (Z.div_le_mono (vm_start v) a P). nia. }
  assert (Hsum : (pfn + (a - a mod P - vm_start v) / P) * P = pfn * P + (a - a mod P - vm_start v)) by lia.
  assert (0 <= pfn * P) by nia.
  rewrite Hsum, !(wrap_id 64) by (rewrite ?(wrap_id 64) by (split; lia); split; lia). lia.
Qed.

(** * A copy between allocated buffers *)

Record area_ok (v : vma) (pfn : Z) : Prop := {
  ao_start : 0 <= vm_start v; ao_page : vm_start v mod 2 ^ PAGE_SHIFT = 0; ao_end : vm_end v <= 2 ^ 64;
  ao_pfn : 0 <= pfn; ao_phys : pfn * 2 ^ PAGE_SHIFT + (vm_end v - vm_start v) <= 2 ^ 32
}.

Definition phys (v : vma) (pfn a : Z) : Z := pfn * 2 ^ PAGE_SHIFT + (a - vm_start v).

(** [ATRAN] of aport.h in a given state of the process. *)
(* @src shared/aport.h 49-51 ATRAN *)
Definition ATRAN (o : open_answer) (x : context) (s : process) (a : Z) : Z := default 0 (Device.run (addr_tran o x a) s).

Lemma ATRAN_phys o x f s v pfn a :
  opened f s -> contiguous s v pfn -> writable x = true -> length (local x) = 8%nat -> area_ok v pfn ->
  vm_start v <= a < vm_end v -> ATRAN o x s a = phys v pfn a.
Proof using Type.
  intros Ho Hc Hw Hx [H1 H2 H3 H4 H5] Ha. unfold ATRAN, Device.run. rewrite (addr_tran_area o x f s v pfn) by (done || lia). done.
Qed.

Lemma phys_mod8 v pfn a : 3 <= PAGE_SHIFT -> area_ok v pfn -> a mod 8 = 0 -> phys v pfn a mod 8 = 0.
Proof using Type.
  intros HP [H1 H2 H3 H4 H5] Ha. unfold phys. replace (2 ^ PAGE_SHIFT) with (8 * 2 ^ (PAGE_SHIFT - 3)) in *
    by (change 8 with (2 ^ 3); rewrite <- Z.pow_add_r by lia; f_equal; lia).
  assert (Hv : vm_start v mod 8 = 0).
  { apply Z.mod_divide in H2; [|lia]. destruct H2 as [q ->]. replace (q * (8 * 2 ^ (PAGE_SHIFT - 3))) with ((q * 2 ^ (PAGE_SHIFT - 3)) * 8) by lia.
    apply Z.mod_mul. lia. }
  replace (pfn * (8 * 2 ^ (PAGE_SHIFT - 3)) + (a - vm_start v)) with (a - vm_start v + pfn * 2 ^ (PAGE_SHIFT - 3) * 8) by lia.
  rewrite Z.mod_add by lia. div_lia.
Qed.
End Calls.


(** * Examples *)

#[local] Existing Instance kernel0.

Definition process0 (d : LmAlloc.state) : process := {| drv := d; fd := 3; files := {[3 := 1]} |}.
Definition map0 : map_answer := {| place := Some 0x10000; kz := Some 77; da := Some (5, 6); mm := 0 |}.

Lemma open_failure_sticks_witness :
  exists s', cm_alloc None map0 100 {| drv := initial; fd := 0; files := ∅ |} = (0, s') /\
  addr_tran (Some (3, 1, true)) context0 0x1234 s' = (Some 0x1234, s').
Proof.
  destruct (open_failure_sticks None map0 100 {| drv := initial; fd := 0; files := ∅ |}) as (s' & E & Hs); [done..|].
  exists s'. split; [exact E|]. apply (Hs (Some (3, 1, true)) map0 context0 100 0x1234).
Defined.

Lemma cm_alloc_free_witness :
  exists s', cm_alloc None map0 5000 (process0 opened1) = (0x10000, s') /\ dma (drv s') = {[5]} ∪ ∅ /\
  cm_free None context0 0x10000 s' = (Some false, process0 opened1).
Proof.
  apply (cm_alloc_free None map0 5000 1 0x10000 77 5 6 (process0 opened1) context0).
  all: first [reflexivity | lia | (split; done) | idtac].
  - apply reachable_accounted. apply (reach_step initial); [constructor|]. by apply step_open.
  - apply not_elem_of_empty.
Defined.

(** Two buffers, mapped where they are. *)
Definition buffer_d : vma := {| vm_start := 0x10000; vm_end := 0x12000; priv := 77 |}.
Definition buffer_s : vma := {| vm_start := 0x14000; vm_end := 0x16000; priv := 78 |}.
Definition two_buffers : LmAlloc.state := {| infs := ∅; heads := ∅; dma := ∅; vmas := [buffer_d; buffer_s] |}.

Lemma two_contiguous v : v = buffer_d \/ v = buffer_s -> contiguous (process0 two_buffers) v (vm_start v / 4096) /\ area_ok v (vm_start v / 4096).
Proof.
  intros Hv. split.
  - intros a Ha. assert (Hw : in_word 64 a) by (destruct Hv as [-> | ->]; simpl in Ha; split; lia).
    rewrite page_start_eq by done. change (2 ^ PAGE_SHIFT) with 4096.
    change (follow_pfn v ?b) with (@inr Z Z (Z.shiftr b 12)). rewrite Z.shiftr_div_pow2 by lia. change (2 ^ 12) with 4096.
    destruct Hv as [-> | ->]; unfold buffer_d, buffer_s in *; simpl in Ha |- *.
    + destruct (Z.ltb_spec (a - a mod 4096) 73728); [|div_lia]. split; [done|]. f_equal. div_lia.
    + destruct (Z.ltb_spec (a - a mod 4096) 73728); [div_lia|]. destruct (Z.ltb_spec (a - a mod 4096) 90112); [|div_lia].
      split; [done|]. f_equal. div_lia.
  - destruct Hv as [-> | ->]; by constructor.
Qed.

