(* ===== verification/Kvs.v ===== *)
(** The key-value lookup accelerator (ip/sysc/kvs.h): the split unit
    (spsel.h), the hash unit (hsu.h), the compare unit (indel.h) and the path
    of a hash from the hash unit's registers through the control switch to a
    load command of the second load-store unit.

    Keys stream from memory into the split unit; one copy waits in a queue for
    the compare unit, the other is hashed; the hash unit writes each index into
    the load-store unit's register 4 with [go], which loads a bucket of the
    table; the compare unit looks the key up in it and streams the value out.

    The path is modelled as its threads, one step per stream access, in any
    order; the queues named "must be 1" in ctlreg.h have one place.  The data
    between is streams: what a unit reads and writes, in order. *)
From S2P Require Import Prelude Axis LsuHw HashHw.
Open Scope Z_scope.

(** * The hash unit *)

Module hsu.
(* @src ip/sysc/hsu.h 13-13 C_INIT *)
Definition C_INIT : Z := 0xDEADBEEFDEADBEEF.
Abbreviation reg vcmd n := (nth n vcmd 0).
(* @src ip/sysc/hsu.h 55-55 _tlen *)
Definition _tlen (vcmd : list Z) : Z := reg vcmd 1%nat + 2 ^ 32 * reg vcmd 2%nat.
(* @src ip/sysc/hsu.h 56-56 _keylen *)
Definition _keylen (vcmd : list Z) : Z := get_field 0 8 (reg vcmd 3%nat).
(* @src ip/sysc/hsu.h 57-57 _hashlen *)
Definition _hashlen (vcmd : list Z) : Z := get_field 8 8 (reg vcmd 3%nat).
(* @src ip/sysc/hsu.h 58-58 _tid *)
Definition _tid (vcmd : list Z) : Z := get_field 16 4 (reg vcmd 3%nat).
(* @src ip/sysc/hsu.h 59-59 _tdest *)
Definition _tdest (vcmd : list Z) : Z := get_field 20 4 (reg vcmd 3%nat).
(* @src ip/sysc/hsu.h 60-60 _seed *)
Definition _seed (vcmd : list Z) : Z := get_field 24 4 (reg vcmd 3%nat).
(* @src ip/sysc/hsu.h 61-61 _seldo *)
Definition _seldo (vcmd : list Z) : bool := Z.testbit (reg vcmd 3%nat) 28.
(* @src ip/sysc/hsu.h 62-62 _seldi *)
Definition _seldi (vcmd : list Z) : bool := Z.testbit (reg vcmd 3%nat) 29.
(* @src ip/sysc/hsu.h 63-63 _data *)
Definition _data (vcmd : list Z) : Z := reg vcmd 4%nat + 2 ^ 32 * reg vcmd 5%nat.
(* @src ip/sysc/hsu.h 64-64 hreg *)
Definition hreg : nat := 6.

(** Key to the pipeline and its valid, ready to the data stream and to the
    command stream, and the tap. *)
(* @src ip/sysc/hsu.h 77-93 mc_key_tap_in *)
Definition mc_key_tap_in (vcmd : list Z) (dat1_valid : bool) (dat1 : AXI_TD.t) (acmd_valid key_ready : bool)
    : Z * bool * bool * bool * Z :=
  let key := if _seldi vcmd then AXI_TD.tdata dat1 else _data vcmd in
  let valid := if _seldi vcmd then dat1_valid else acmd_valid in
  (key + 2 ^ KEYW * _keylen vcmd, valid, key_ready && _seldi vcmd, key_ready && negb (_seldi vcmd),
   _seed vcmd + 2 ^ 64 * _seed vcmd + 2 ^ 128 * C_INIT + 2 ^ 192 * C_INIT).

(** [_hashlen + 3] is at least 9 bits wide; [len] has three. *)
(* @src ip/sysc/hsu.h 102-103 mc_hash_out index *)
Definition index (vcmd : list Z) (tapo : Z) : Z := Z.land (get_field 0 64 tapo) (_tlen vcmd).
(* @src ip/sysc/hsu.h 105-110 mc_hash_out dat1 *)
Definition dat1 (vcmd : list Z) (tapo : Z) : AXI_TD.t :=
  {| AXI_TD.tdata := index vcmd tapo; AXI_TD.tid := _tid vcmd; AXI_TD.tdest := _tdest vcmd; AXI_TD.tkeep := 255;
     AXI_TD.tuser := 0; AXI_TD.tlast := true |}.
(* @src ip/sysc/hsu.h 115-125 mc_hash_out arsp *)
Definition arsp (vcmd : list Z) : ACMD.t :=
  let len := wrap CA (Z.shiftr (_hashlen vcmd + 3) 2) in
  {| ACMD.sid := _tid vcmd; ACMD.did := _tdest vcmd;
     ACMD.srac := {| RACC.len := len; RACC.sel := Z.of_nat hreg; RACC.wr := 0; RACC.go := 0 |};
     ACMD.drac := {| RACC.len := len; RACC.sel := 4; RACC.wr := 1; RACC.go := 1 |} |}.

(** Outputs of [mc_hash_out]: the data flit and its valid, the response and
    its valid, the values and the write enable of registers 6 and 7, and the
    ready to the pipeline. *)
(* @src ip/sysc/hsu.h 95-142 mc_hash_out *)
Definition mc_hash_out (vcmd : list Z) (tapo : Z) (tapo_valid dat1_ready arsp_ready : bool)
    : AXI_TD.t * bool * ACMD.t * bool * (Z * Z * bool) * bool :=
  (dat1 vcmd tapo, _seldo vcmd && tapo_valid, arsp vcmd, negb (_seldo vcmd) && tapo_valid,
   (get_field 0 32 (index vcmd tapo), get_field 32 32 (index vcmd tapo), negb (_seldo vcmd) && tapo_valid && arsp_ready),
   if _seldo vcmd then dat1_ready else arsp_ready).
End hsu.

(** * The compare unit *)

Module indel.
(* @src ip/sysc/indel.h 18-22 slot_s *)
Record slot_s := { key : Z; value : Z; probes : Z }.
(* @src ip/sysc/indel.h 64-64 _plen *)
Definition _plen (vcmd : list Z) : Z := get_field 0 10 (nth 1 vcmd 0).

(* @src ip/sysc/indel.h 90-98 ct_indel_in flit *)
Definition out_flit (v : Z) : AXI_TD.t :=
  {| AXI_TD.tdata := v; AXI_TD.tid := 0; AXI_TD.tdest := 0; AXI_TD.tkeep := 15; AXI_TD.tuser := 0; AXI_TD.tlast := true |}.

(** The slots of one key: what is written and the flits left; [None] while
    the probe stream is short. *)
(* @src ip/sysc/indel.h 82-101 ct_indel_in probe loop *)
Fixpoint probe_loop (n : nat) (key0 : Z) (found : bool) (dat2 : list AXI_TD.t) : option (bool * list AXI_TD.t * list AXI_TD.t) :=
  match n with
  | O => Some (found, [], dat2)
  | S n' =>
      match dat2 with
      | d0 :: d1 :: dat2 =>
          let slot := {| key := u64 (AXI_TD.tdata d0); value := get_field 0 32 (AXI_TD.tdata d1); probes := get_field 32 32 (AXI_TD.tdata d1) |} in
          let hit := negb found && negb (probes slot =? 0) && (key slot =? key0) in
          '(found, out, rest) ← probe_loop n' key0 (found || hit) dat2;
          Some (found, (if hit then [out_flit (value slot)] else []) ++ out, rest)
      | _ => None
      end
  end.

(** One key, with the registers as they are then. *)
(* @src ip/sysc/indel.h 77-112 ct_indel_in loop *)
Definition ct_indel_in (vcmd : list Z) (dat1 : AXI_TD.t) (dat2 : list AXI_TD.t) : option (list AXI_TD.t * list AXI_TD.t) :=
  let key0 := u64 (AXI_TD.tdata dat1) in
  '(found, out, rest) ← probe_loop (S (Z.to_nat (_plen vcmd))) key0 false dat2;
  Some (out ++ (if (found : bool) then [] else [out_flit 0]), rest).

(** The unit on whole streams. *)
(* @src ip/sysc/indel.h 74-113 ct_indel_in *)
Fixpoint indel_run (vcmd : list Z) (keys dat2 : list AXI_TD.t) : option (list AXI_TD.t * list AXI_TD.t) :=
  match keys with
  | [] => Some ([], dat2)
  | k :: keys => '(out, dat2) ← ct_indel_in vcmd k dat2; '(outs, rest) ← indel_run vcmd keys dat2; Some (out ++ outs, rest)
  end.
End indel.

(** * The split unit *)

Module spsel.
(** Valid to the two slices and ready to the input. *)
(* @src ip/sysc/spsel.h 35-42 mc_dat *)
Definition mc_dat (s_valid ready1 ready2 : bool) : bool * bool * bool :=
  (s_valid && ready2, s_valid && ready1, ready1 && ready2).
End spsel.

(** * From hash to load command *)

Module path.
(** A response the response thread is in: the flit it is writing, and the
    access command with the words still to come. *)
(* @src ip/sysc/kvs.h 134-151 kvs control switch *)
Record state := {
  hashes : list Z;                     (* taps still to come out of the pipeline *)
  hregs : list Z;                      (* registers of the hash unit *)
  arsp : list ACMD.t;                  (* its response queue, one place *)
  rsp : option (AXI_TC.t * nat * Z * ACMD.t);  (* flit being written, words and register to follow *)
  link : list AXI_TC.t;                (* through the control switch *)
  lregs : list Z;                      (* registers of the load-store unit *)
  wr : option (nat * Z * option ACMD.t); (* its packet: words to come, register, command at the end *)
  acmd : list ACMD.t;                  (* its command queue, one place *)
  cmds : list DMAC.t                   (* load commands *)
}.

Section Steps.
(** Room in the switch. *)
Context (cap : nat).

Definition vwe (on : bool) : list bool := [false; false; false; false; false; false; on; on].

(** A hash leaves the pipeline: the registers and the response queue. *)
(* @src ip/sysc/hsu.h 126-142 mc_hash_out response *)
Definition h_push (s : state) : option state :=
  match hashes s, arsp s with
  | tapo :: hs, [] =>
      let '(_, _, a, v, (lo, hi, we), r) := hsu.mc_hash_out (hregs s) tapo true false true in
      if v && r then
        Some {| hashes := hs; hregs := ctlreg.ms_reg_write (vwe we) [0; 0; 0; 0; 0; 0; lo; hi] false 0 0 (hregs s);
                arsp := [a]; rsp := rsp s; link := link s; lregs := lregs s; wr := wr s; acmd := acmd s; cmds := cmds s |}
      else None
  | _, _ => None
  end.

Definition set_rsp (a : list ACMD.t) (r : option (AXI_TC.t * nat * Z * ACMD.t)) (l : list AXI_TC.t) (s : state) : state :=
  {| hashes := hashes s; hregs := hregs s; arsp := a; rsp := r; link := l; lregs := lregs s; wr := wr s; acmd := acmd s; cmds := cmds s |}.

(** The response thread forms its next flit from the registers as they are. *)
(* @src ip/sysc/ctlreg.h 161-167 ct_response flit *)
Definition form (n : nat) (sel : Z) (a : ACMD.t) (regs : list Z) : option (AXI_TC.t * nat * Z * ACMD.t) :=
  match n with
  | O => None
  | S n' =>
      Some ({| AXI_TC.tid := ACMD.sid a; AXI_TC.tdest := ACMD.did a; AXI_TC.tuser := ACMD.drac a;
               AXI_TC.tdata := nth (Z.to_nat sel) regs 0; AXI_TC.tlast := Nat.eqb n' 0 |}, n', wrap CA (sel + 1), a)
  end.

(* @src ip/sysc/ctlreg.h 156-167 ct_response read *)
Definition h_pop (s : state) : option state :=
  match rsp s, arsp s with
  | None, a :: q =>
      Some (set_rsp q (form (Z.to_nat (RACC.len (ACMD.srac a))) (RACC.sel (ACMD.srac a)) a (hregs s)) (link s) s)
  | _, _ => None
  end.

(* @src ip/sysc/ctlreg.h 161-171 ct_response write *)
Definition h_flit (s : state) : option state :=
  match rsp s with
  | Some (f, n, sel, a) => if (length (link s) <? cap)%nat then Some (set_rsp (arsp s) (form n sel a (hregs s)) (link s ++ [f]) s) else None
  | None => None
  end.

Definition set_wr (l : list AXI_TC.t) (regs : list Z) (w : option (nat * Z * option ACMD.t)) (a : list ACMD.t) (s : state) : state :=
  {| hashes := hashes s; hregs := hregs s; arsp := arsp s; rsp := rsp s; link := l; lregs := regs; wr := w; acmd := a; cmds := cmds s |}.

(** The registers that the unit itself writes are left alone here: its
    status is written when a bucket is loaded. *)
Definition write (sel data : Z) (regs : list Z) : list Z := ctlreg.ms_reg_write (repeat false 8) (repeat 0 8) true sel data regs.

(** The load-store unit's register thread takes a flit of a write packet,
    once its command queue is empty. *)
(* @src ip/sysc/ctlreg.h 103-129 ct_command write *)
Definition l_take (s : state) : option state :=
  match link s, acmd s with
  | f :: q, [] =>
      match wr s with
      | None =>
          let u := AXI_TC.tuser f in
          if RACC.wr u =? 1 then
            let go := if RACC.go u =? 1 then
                        Some {| ACMD.sid := AXI_TC.tid f; ACMD.did := AXI_TC.tdest f; ACMD.srac := RACC.zero; ACMD.drac := u |}
                      else None in
            Some (set_wr q (write (RACC.sel u) (AXI_TC.tdata f) (lregs s))
                    (Some (Z.to_nat (wrap CA (RACC.len u - 1)), wrap CA (RACC.sel u + 1), go)) [] s)
          else None
      | Some (S n, sel, go) => Some (set_wr q (write sel (AXI_TC.tdata f) (lregs s)) (Some (n, wrap CA (sel + 1), go)) [] s)
      | Some (O, _, _) => None
      end
  | _, _ => None
  end.

(** At the end of the packet it sends the command, if the packet asks for
    one. *)
(* @src ip/sysc/ctlreg.h 129-149 ct_command go *)
Definition l_go (s : state) : option state :=
  match wr s, acmd s with
  | Some (O, _, go), [] => Some (set_wr (link s) (lregs s) None (option_list go) s)
  | _, _ => None
  end.

(** The unit takes the command and copies the registers. *)
(* @src ip/sysc/lsu.h 70-80 ct_command read *)
Definition l_cmd (s : state) : option state :=
  match acmd s with
  | a :: q =>
      Some {| hashes := hashes s; hregs := hregs s; arsp := arsp s; rsp := rsp s; link := link s; lregs := lregs s; wr := wr s;
              acmd := q; cmds := cmds s ++ LsuHw.lsuctl.ct_command a (lregs s) |}
  | [] => None
  end.

Definition moves : list (state -> option state) := [h_push; h_pop; h_flit; l_take; l_go; l_cmd].
Definition step (s s' : state) : Prop := exists f, f ∈ moves /\ f s = Some s'.

(** One schedule: the first move of [moves] that is possible. *)
Definition first_move (s : state) : option state := foldr (fun f r => match f s with Some s' => Some s' | None => r end) None moves.
Fixpoint run (n : nat) (s : state) : state :=
  match n with O => s | S n' => match first_move s with Some s' => run n' s' | None => s end end.
End Steps.

(** Both units programmed, nothing on the way. *)
Definition start (taps hregs lregs : list Z) : state :=
  {| hashes := taps; hregs := hregs; arsp := []; rsp := None; link := []; lregs := lregs; wr := None; acmd := []; cmds := [] |}.
End path.
