(* ===== verification/KvsProofs.v ===== *)
(** Correctness of the lookup accelerator: every hash becomes one load
    command, in order, whatever the interleaving of the threads; with the
    buckets that are loaded, the values streamed out are those of a table
    lookup by the software hash. *)
From S2P Require Import Prelude ShortHash Handshake HashHw Axis LsuHw LsuHwProofs LsuSystem Kvs.
Open Scope Z_scope.

(** * One index, one command *)

Ltac in_moves := unfold path.moves; rewrite !elem_of_cons; tauto.

Section Path.
Context (cap : nat) (h0 h1 h2 h3 h4 h5 : Z) (l0 l1 l2 l3 l5 l6 l7 : Z).

Definition H (x y : Z) : list Z := [h0; h1; h2; h3; h4; h5; x; y].
Definition L (w : Z) : list Z := [l0; l1; l2; l3; w; l5; l6; l7].

(** The low word of the index of a hash, and the command it gives. *)
Definition word (tapo : Z) : Z := get_field 0 32 (hsu.index (H 0 0) tapo).
Definition go_cmd : ACMD.t :=
  {| ACMD.sid := hsu._tid (H 0 0); ACMD.did := hsu._tdest (H 0 0); ACMD.srac := RACC.zero; ACMD.drac := ACMD.drac (hsu.arsp (H 0 0)) |}.
Definition command (w : Z) : list DMAC.t := LsuHw.lsuctl.ct_command go_cmd (L w).

(** Responses go to the control port, and are of one word. *)
Context (to_ctl : hsu._seldo (H 0 0) = false) (short : 1 <= hsu._hashlen (H 0 0) <= 4).

Definition flit (w : Z) : AXI_TC.t :=
  {| AXI_TC.tid := hsu._tid (H 0 0); AXI_TC.tdest := hsu._tdest (H 0 0); AXI_TC.tuser := ACMD.drac (hsu.arsp (H 0 0));
     AXI_TC.tdata := w; AXI_TC.tlast := true |}.

Lemma one_word : RACC.len (ACMD.srac (hsu.arsp (H 0 0))) = 1 /\ RACC.len (ACMD.drac (hsu.arsp (H 0 0))) = 1.
Proof using short.
  unfold hsu.arsp. cbn [ACMD.srac ACMD.drac RACC.len]. rewrite Z.shiftr_div_pow2 by lia. change (2 ^ 2) with 4.
  assert (E : (hsu._hashlen (H 0 0) + 3) / 4 = 1) by div_lia. by rewrite E.
Qed.

Record shape (s : path.state) : Prop := {
  sh_h : exists x y, path.hregs s = H x y;
  sh_l : exists w, path.lregs s = L w;
  sh_arsp : path.arsp s = [] \/ path.arsp s = [hsu.arsp (H 0 0)];
  sh_rsp : path.rsp s = None \/ exists w sel, path.rsp s = Some (flit w, 0%nat, sel, hsu.arsp (H 0 0));
  sh_link : path.link s = map flit (map AXI_TC.tdata (path.link s));
  sh_cmd : (path.acmd s = [] /\ (path.wr s = None \/ exists sel, path.wr s = Some (0%nat, sel, Some go_cmd)))
           \/ (path.acmd s = [go_cmd] /\ path.wr s = None)
}.

(** Indices on the way, oldest first. *)
Definition held (s : path.state) : list Z :=
  (match path.acmd s with [] => [] | _ => [nth 4 (path.lregs s) 0] end)
  ++ (match path.wr s with Some _ => [nth 4 (path.lregs s) 0] | None => [] end)
  ++ map AXI_TC.tdata (path.link s)
  ++ (match path.rsp s with Some (f, _, _, _) => [AXI_TC.tdata f] | None => [] end)
  ++ (match path.arsp s with [] => [] | _ => [nth 6 (path.hregs s) 0] end)
  ++ map word (path.hashes s).

Definition path_work (s : path.state) : nat :=
  (6 * length (path.hashes s) + 5 * length (path.arsp s) + (match path.rsp s with Some _ => 4 | None => 0 end)
   + 3 * length (path.link s) + (match path.wr s with Some _ => 2 | None => 0 end) + length (path.acmd s))%nat.

(** A step moves the indices along. *)
Definition moves_on (s s' : path.state) : Prop :=
  shape s' /\ path.cmds s' ++ concat (map command (held s')) = path.cmds s ++ concat (map command (held s)) /\ (path_work s' < path_work s)%nat.

Ltac path_ok Eh El := constructor; cbn; rewrite ?Eh, ?El; eauto.

Lemma push_ok s s' : shape s -> path.h_push s = Some s' -> moves_on s s'.
Proof using All.
  intros Hs E. destruct Hs as [(x & y & Eh) (w & El) Ea Er Ek Ec]. unfold path.h_push in E. rewrite Eh in E.
  destruct (path.hashes s) as [|tapo hs] eqn:Et; [done|]. destruct Ea as [Ea|Ea]; rewrite Ea in E; [|done].
  unfold hsu.mc_hash_out in E. change (hsu._seldo (H x y)) with (hsu._seldo (H 0 0)) in E. rewrite to_ctl in E. cbn [negb andb] in E.
  injection E as <-. split; [|split].
  - path_ok Eh El.
  - cbn [path.cmds]. unfold held. cbn [path.acmd path.wr path.link path.rsp path.arsp path.hashes path.lregs path.hregs]. rewrite Ea, Et. reflexivity.
  - unfold path_work. cbn. rewrite Ea, Et. simpl. lia.
Qed.

Lemma form_eq x y : path.form (Z.to_nat (RACC.len (ACMD.srac (hsu.arsp (H 0 0))))) (RACC.sel (ACMD.srac (hsu.arsp (H 0 0)))) (hsu.arsp (H 0 0)) (H x y)
  = Some (flit x, 0%nat, 7, hsu.arsp (H 0 0)).
Proof using short. destruct one_word as [E _]. rewrite E. reflexivity. Qed.

Lemma pop_ok s s' : shape s -> path.h_pop s = Some s' -> moves_on s s'.
Proof using All.
  intros Hs E. destruct Hs as [(x & y & Eh) (w & El) Ea Er Ek Ec]. unfold path.h_pop in E. destruct (path.rsp s) eqn:Ers; [done|].
  destruct Ea as [Ea|Ea]; rewrite Ea in E; [done|]. rewrite Eh, form_eq in E. injection E as <-. split; [|split].
  - path_ok Eh El.
  - unfold held. cbn. rewrite Ers, Ea, Eh. reflexivity.
  - unfold path_work. cbn. rewrite Ers, Ea. simpl. lia.
Qed.

Lemma flit_ok s s' : shape s -> path.h_flit cap s = Some s' -> moves_on s s'.
Proof using All.
  intros Hs E. destruct Hs as [(x & y & Eh) (w & El) Ea Er Ek Ec]. unfold path.h_flit in E. destruct Er as [Er|(v & sel & Er)]; rewrite Er in E; [done|].
  destruct (_ <? _)%nat; [|done]. injection E as <-. split; [|split].
  - path_ok Eh El. rewrite !map_app, <- Ek. reflexivity.
  - cbn [path.cmds path.set_rsp]. do 3 f_equal. unfold held. cbn [path.set_rsp path.acmd path.wr path.link path.rsp path.arsp path.lregs path.hregs path.hashes].
    rewrite Er, map_app. do 2 f_equal. rewrite <- app_assoc. reflexivity.
  - unfold path_work. cbn. rewrite Er, length_app. simpl. lia.
Qed.

Lemma write_4 v w : path.write 4 v (L w) = L v.
Proof using Type. reflexivity. Qed.

Lemma take_ok s s' : shape s -> path.l_take s = Some s' -> moves_on s s'.
Proof using All.
  intros Hs E. destruct Hs as [(x & y & Eh) (w & El) Ea Er Ek Ec]. unfold path.l_take in E. destruct (path.link s) as [|f q] eqn:El'; [done|].
  destruct Ec as [[Ec Ew]|[Ec Ew]]; rewrite Ec in E; [|done]. destruct Ew as [Ew|(sel & Ew)]; rewrite Ew in E; [|done].
  cbn [map] in Ek. injection Ek as Hf Hq.
  assert (Hu : AXI_TC.tuser f = ACMD.drac (hsu.arsp (H 0 0))) by (by rewrite Hf).
  rewrite Hu in E. change (RACC.wr (ACMD.drac (hsu.arsp (H 0 0))) =? 1) with true in E.
  change (RACC.go (ACMD.drac (hsu.arsp (H 0 0))) =? 1) with true in E. change (RACC.sel (ACMD.drac (hsu.arsp (H 0 0)))) with 4 in E.
  rewrite (proj2 one_word) in E. cbv iota in E. rewrite Hf in E at 2 3. injection E as <-. split; [|split].
  - constructor; cbn; rewrite ?Eh, ?El, ?write_4; eauto.
  - unfold held. cbn. rewrite Ec, Ew, El, El', write_4. reflexivity.
  - unfold path_work. cbn. rewrite Ec, Ew, El'. simpl. lia.
Qed.

Lemma go_ok s s' : shape s -> path.l_go s = Some s' -> moves_on s s'.
Proof using All.
  intros Hs E. destruct Hs as [(x & y & Eh) (w & El) Ea Er Ek Ec]. unfold path.l_go in E. destruct Ec as [[Ec Ew]|[Ec Ew]]; [|by rewrite Ew in E].
  destruct Ew as [Ew|(sel & Ew)]; [by rewrite Ew in E|]. rewrite Ew, Ec in E. injection E as <-. split; [|split].
  - path_ok Eh El.
  - unfold held. cbn. rewrite Ec, Ew. reflexivity.
  - unfold path_work. cbn. rewrite Ec, Ew. simpl. lia.
Qed.

Lemma cmd_ok s s' : shape s -> path.l_cmd s = Some s' -> moves_on s s'.
Proof using All.
  intros Hs E. destruct Hs as [(x & y & Eh) (w & El) Ea Er Ek Ec]. unfold path.l_cmd in E. destruct Ec as [[Ec Ew]|[Ec Ew]]; rewrite Ec in E; [done|]. injection E as <-.
  split; [|split].
  - path_ok Eh El.
  - unfold held. cbn. rewrite Ec, El, <- app_assoc. reflexivity.
  - unfold path_work. cbn. rewrite Ec. simpl. lia.
Qed.

Lemma path_step_ok s s' : shape s -> path.step cap s s' -> moves_on s s'.
Proof using All.
  intros Hs (f & Hf & E). unfold path.moves in Hf. repeat (apply elem_of_cons in Hf as [->|Hf]); [..|by inversion Hf].
  all: first [by eapply push_ok | by eapply pop_ok | by eapply flit_ok | by eapply take_ok | by eapply go_ok | by eapply cmd_ok].
Qed.

Context (cap_pos : (0 < cap)%nat).

(** Some thread can move while an index is on the way. *)
Lemma path_progress s : shape s -> path_work s <> 0%nat -> exists s', path.step cap s s'.
Proof using All.
  intros Hs Hw. destruct Hs as [(x & y & Eh) (w & El) Ea Er Ek Ec].
  assert (Hstep : forall f s', f ∈ path.moves cap -> f s = Some s' -> exists s', path.step cap s s') by (intros f s' Hf E; by exists s', f).
  destruct Ec as [[Ec Ew]|[Ec Ew]].
  2: { eapply (Hstep path.l_cmd); [in_moves|]. unfold path.l_cmd. by rewrite Ec. }
  destruct Ew as [Ew|(sel & Ew)].
  2: { eapply (Hstep path.l_go); [in_moves|]. unfold path.l_go. by rewrite Ew, Ec. }
  destruct (path.link s) as [|f q] eqn:El'.
  2: { eapply (Hstep path.l_take); [in_moves|]. unfold path.l_take. rewrite El', Ec, Ew.
       cbn [map] in Ek. injection Ek as Hf _. assert (Hu : RACC.wr (AXI_TC.tuser f) = 1) by (by rewrite Hf). by rewrite Hu. }
  destruct Er as [Er|(v & sel & Er)].
  2: { eapply (Hstep (path.h_flit cap)); [in_moves|]. unfold path.h_flit. rewrite Er, El'.
       destruct (Nat.ltb_spec (length (@nil AXI_TC.t)) cap); [done|simpl in *; lia]. }
  destruct Ea as [Ea|Ea].
  2: { eapply (Hstep path.h_pop); [in_moves|]. unfold path.h_pop. by rewrite Er, Ea. }
  destruct (path.hashes s) as [|t hs] eqn:Et.
  { exfalso. apply Hw. unfold path_work. by rewrite Et, Ea, Er, El', Ew, Ec. }
  eapply (Hstep path.h_push); [in_moves|]. unfold path.h_push. rewrite Et, Ea, Eh.
  unfold hsu.mc_hash_out. change (hsu._seldo (H x y)) with (hsu._seldo (H 0 0)). rewrite to_ctl. reflexivity.
Qed.

Lemma path_start taps x y w : shape (path.start taps (H x y) (L w)).
Proof using Type. constructor; cbn; eauto. Qed.

Lemma path_reached s s' :
  shape s -> rtc (path.step cap) s s' ->
  shape s' /\ path.cmds s' ++ concat (map command (held s')) = path.cmds s ++ concat (map command (held s)).
Proof using All.
  intros Hs Hr. induction Hr as [s|s t u Hst _ IH]; [done|]. destruct (path_step_ok s t Hs Hst) as (Ht & E & _).
  destruct (IH Ht) as [Hu E']. split; [done|]. by rewrite E'.
Qed.

Lemma path_steps n s s' : shape s -> nsteps (path.step cap) n s s' -> (n + path_work s' <= path_work s)%nat.
Proof using All.
  intros Hs Hr. induction Hr as [s|n s t u Hst _ IH]; [lia|]. destruct (path_step_ok s t Hs Hst) as (Ht & _ & Hw). specialize (IH Ht). lia.
Qed.

Lemma no_work s : path_work s = 0%nat -> held s = [].
Proof using All.
  unfold path_work, held. intros Hw. destruct (path.acmd s); [|simpl in Hw; lia]. destruct (path.wr s); [lia|].
  destruct (path.link s); [|simpl in Hw; lia]. destruct (path.rsp s); [lia|]. destruct (path.arsp s); [|simpl in Hw; lia].
  destruct (path.hashes s); [done|simpl in Hw; lia].
Qed.
End Path.

(** What the load-store unit is told for a hash, with both units programmed. *)
Definition index_command (hregs lregs : list Z) (tapo : Z) : list DMAC.t :=
  LsuHw.lsuctl.ct_command
    {| ACMD.sid := hsu._tid hregs; ACMD.did := hsu._tdest hregs; ACMD.srac := RACC.zero; ACMD.drac := ACMD.drac (hsu.arsp hregs) |}
    (<[4%nat := get_field 0 32 (hsu.index hregs tapo)]> lregs).

Lemma path_result cap hregs lregs taps s :
  (0 < cap)%nat -> length hregs = 8%nat -> length lregs = 8%nat -> hsu._seldo hregs = false -> 1 <= hsu._hashlen hregs <= 4 ->
  rtc (path.step cap) (path.start taps hregs lregs) s ->
  let all := concat (map (index_command hregs lregs) taps) in
  (exists rest, path.cmds s ++ rest = all) /\
  (forall n, nsteps (path.step cap) n (path.start taps hregs lregs) s -> (n <= 6 * length taps)%nat) /\
  (~ (exists s', path.step cap s s') -> path.cmds s = all).
Proof.
  intros Hcap Hh Hl Hsel Hlen Hr. cbv zeta. destruct (regs_8 _ Hh) as (h0 & h1 & h2 & h3 & h4 & h5 & h6 & h7 & ->).
  destruct (regs_8 _ Hl) as (l0 & l1 & l2 & l3 & l4 & l5 & l6 & l7 & ->).
  pose proof (path_start h0 h1 h2 h3 h4 h5 l0 l1 l2 l3 l5 l6 l7 taps h6 h7 l4) as Hs0.
  assert (Hsel' : hsu._seldo (H h0 h1 h2 h3 h4 h5 0 0) = false) by exact Hsel.
  assert (Hlen' : 1 <= hsu._hashlen (H h0 h1 h2 h3 h4 h5 0 0) <= 4) by exact Hlen.
  destruct (path_reached cap h0 h1 h2 h3 h4 h5 l0 l1 l2 l3 l5 l6 l7 Hsel' Hlen' Hcap _ s Hs0 Hr) as [Hs E].
  assert (Hall : concat (map (command h0 h1 h2 h3 h4 h5 l0 l1 l2 l3 l5 l6 l7) (held h0 h1 h2 h3 h4 h5
      (path.start taps [h0; h1; h2; h3; h4; h5; h6; h7] [l0; l1; l2; l3; l4; l5; l6; l7])))
    = concat (map (index_command [h0; h1; h2; h3; h4; h5; h6; h7] [l0; l1; l2; l3; l4; l5; l6; l7]) taps)).
  { unfold held. cbn [path.start path.acmd path.wr path.link path.rsp path.arsp path.hashes app map]. by rewrite map_map. }
  unfold H, L in E. rewrite Hall in E. cbn [path.start path.cmds app] in E. split_and!.
  - eauto.
  - intros n Hn. apply (path_steps cap h0 h1 h2 h3 h4 h5 l0 l1 l2 l3 l5 l6 l7 Hsel' Hlen' Hcap _ _ _ Hs0) in Hn.
    unfold path_work at 2 in Hn. simpl in Hn. lia.
  - intros Hstop. rewrite <- E. destruct (decide (path_work s = 0%nat)) as [H0|Hne].
    + rewrite (no_work cap h0 h1 h2 h3 h4 h5 l0 l1 l2 l3 l5 l6 l7 Hsel' Hlen' Hcap s H0). cbn [map concat]. by rewrite app_nil_r.
    + by destruct Hstop; apply (path_progress cap h0 h1 h2 h3 h4 h5 l0 l1 l2 l3 l5 l6 l7 Hsel' Hlen' Hcap s Hs Hne).
Qed.

(** ** The table in memory *)

(** A slot: key, value and probe count. *)
Definition slot_at (m : memory) (a : Z) : indel.slot_s :=
  {| indel.key := load_word m a + 2 ^ 32 * load_word m (a + 4); indel.value := load_word m (a + 8); indel.probes := load_word m (a + 12) |}.
Definition bucket (m : memory) (a : Z) (n : nat) : list indel.slot_s := map (fun i => slot_at m (a + 16 * Z.of_nat i)) (seq 0 n).

(** The value under [k], zero when there is none: the first slot in use
    that holds the key. *)
Definition is_key (k : Z) (s : indel.slot_s) : bool := negb (indel.probes s =? 0) && (indel.key s =? k).
Definition lookup (l : list indel.slot_s) (k : Z) : Z := from_option indel.value 0 (List.find (is_key k) l).

Lemma bucket_S m a n : bucket m a (S n) = slot_at m a :: bucket m (a + 16) n.
Proof.
  unfold bucket. cbn [seq map]. rewrite Z.mul_0_r, Z.add_0_r. f_equal. rewrite <- seq_shift, map_map.
  apply map_ext. intros i. f_equal. lia.
Qed.

Lemma ld_halves m a : bytes_ok m ->
  get_field 0 32 (fst (ld m a)) = load_word m a /\ get_field 32 32 (fst (ld m a)) = load_word m (a + 4) /\
  u64 (fst (ld m a)) = load_word m a + 2 ^ 32 * load_word m (a + 4).
Proof.
  intros Hm. pose proof (load_word_range m a Hm) as H1. pose proof (load_word_range m (a + 4) Hm) as H2. rewrite ld_eq. cbn [fst].
  set (p := put_field 32 32 (load_word m (a + 4)) (put_field 0 32 (load_word m a) 0)).
  assert (E0 : get_field 0 32 p = load_word m a).
  { unfold p. rewrite get_put_field_other by (done || lia). by apply get_put_field. }
  assert (E1 : get_field 32 32 p = load_word m (a + 4)) by (by apply get_put_field).
  assert (Hp : in_word 64 p) by (unfold p; repeat apply put_field_range; try lia; done).
  split_and!; [done|done|]. rewrite (wrap_id 64) by done. rewrite <- E0, <- E1. rewrite !get_field_div by lia.
  unfold in_word in Hp. clear E0 E1. clearbody p. change (2 ^ 0) with 1. div_lia.
Qed.

Lemma load_pair_range m a : bytes_ok m -> in_word 64 (load_word m a + 2 ^ 32 * load_word m (a + 4)).
Proof. intros Hm. apply (pack_range 32 32); [lia|lia|by apply load_word_range..]. Qed.

(** ** The compare unit *)

(** The words of consecutive slots. *)
Lemma strip_pair a n : strip a (2 * S n) = a :: (a + 8) :: strip (a + 16) (2 * n).
Proof. replace (2 * S n)%nat with (S (S (2 * n))) by lia. cbn [strip]. do 3 f_equal. lia. Qed.

Lemma cons_eq_inv {A} (x y : A) l k : x :: l = y :: k -> x = y /\ l = k.
Proof. by intros [= -> ->]. Qed.

Lemma probe_bucket m n : bytes_ok m -> forall a k found dat rest,
  map AXI_TD.tdata dat = map (fun a => fst (ld m a)) (strip a (2 * n)) ->
  exists out, indel.probe_loop n k found (dat ++ rest) = Some (found || existsb (is_key k) (bucket m a n), out, rest) /\
    map AXI_TD.tdata out = if found then [] else match List.find (is_key k) (bucket m a n) with Some s => [indel.value s] | None => [] end.
Proof.
  intros Hm. induction n as [|n IH]; intros a k found dat rest Hd.
  { destruct dat; [|done]. exists []. rewrite orb_false_r. by destruct found. }
  rewrite strip_pair in Hd. destruct dat as [|d0 [|d1 dat]]; [done|done|]. cbn [map] in Hd.
  apply cons_eq_inv in Hd as [E0 [E1 Hd]%cons_eq_inv].
  destruct (ld_halves m a Hm) as (_ & _ & K). destruct (ld_halves m (a + 8) Hm) as (V & P & _).
  cbn [indel.probe_loop app]. rewrite E0, E1. cbn [indel.key indel.value indel.probes]. rewrite K, V, P.
  replace (a + 8 + 4) with (a + 12) by lia.
  change ({| indel.key := load_word m a + 2 ^ 32 * load_word m (a + 4); indel.value := load_word m (a + 8); indel.probes := load_word m (a + 12) |}) with (slot_at m a).
  rewrite bucket_S. cbn [existsb List.find].
  replace (negb found && negb (load_word m (a + 12) =? 0) && (load_word m a + 2 ^ 32 * load_word m (a + 4) =? k))
    with (negb found && is_key k (slot_at m a)) by (unfold is_key; cbn; by rewrite andb_assoc).
  destruct (IH (a + 16) k (found || (negb found && is_key k (slot_at m a))) dat rest Hd) as (out & E & Ho).
  rewrite E. cbn [mbind option_bind]. eexists. split; [f_equal; f_equal; f_equal; by destruct found, (is_key k (slot_at m a))|].
  rewrite map_app, Ho. by destruct found, (is_key k (slot_at m a)).
Qed.

Lemma find_existsb {A} (f : A -> bool) l : existsb f l = if List.find f l is Some _ then true else false.
Proof. induction l as [|x l IH]; [done|]. cbn. by destruct (f x). Qed.

Lemma indel_key m a k vcmd key0 dat rest :
  bytes_ok m -> AXI_TD.tdata key0 = k -> in_word 64 k ->
  map AXI_TD.tdata dat = map (fun a => fst (ld m a)) (strip a (2 * S (Z.to_nat (indel._plen vcmd)))) ->
  exists out, indel.ct_indel_in vcmd key0 (dat ++ rest) = Some (out, rest) /\
    map AXI_TD.tdata out = [lookup (bucket m a (S (Z.to_nat (indel._plen vcmd)))) k].
Proof.
  intros Hm Hk Hw Hd. unfold indel.ct_indel_in. rewrite Hk, (wrap_id 64) by done.
  destruct (probe_bucket m _ Hm a k false dat rest Hd) as (out & E & Ho). rewrite E. cbn [mbind option_bind].
  eexists. split; [reflexivity|]. rewrite map_app, Ho, find_existsb. unfold lookup.
  by destruct (List.find _ _).
Qed.

Lemma indel_all m vcmd : bytes_ok m -> forall keys addrs dat,
  Forall (fun f => in_word 64 (AXI_TD.tdata f)) keys -> length addrs = length keys ->
  map AXI_TD.tdata dat = map (fun a => fst (ld m a)) (concat (map (fun a => strip a (2 * S (Z.to_nat (indel._plen vcmd)))) addrs)) ->
  exists outs, indel.indel_run vcmd keys dat = Some (outs, []) /\
    map AXI_TD.tdata outs = zip_with (fun a f => lookup (bucket m a (S (Z.to_nat (indel._plen vcmd)))) (AXI_TD.tdata f)) addrs keys.
Proof.
  intros Hm. induction keys as [|f keys IH]; intros [|a addrs] dat Hk Hl Hd; try done.
  { destruct dat; [|done]. by exists []. }
  apply Forall_cons in Hk as [Hf Hk]. injection Hl as Hl. cbn [map concat] in Hd. rewrite map_app in Hd.
  set (n := (2 * S (Z.to_nat (indel._plen vcmd)))%nat) in *.
  assert (Hn : length (map (fun a => fst (ld m a)) (strip a n)) = n) by (by rewrite length_map, length_strip).
  assert (Ed : dat = take n dat ++ drop n dat) by (by rewrite take_drop).
  assert (Hd1 : map AXI_TD.tdata (take n dat) = map (fun a => fst (ld m a)) (strip a n)).
  { rewrite <- firstn_map, Hd, take_app_le by lia. by rewrite take_ge by lia. }
  assert (Hd2 : map AXI_TD.tdata (drop n dat) = map (fun a => fst (ld m a)) (concat (map (fun a => strip a n) addrs))).
  { rewrite <- skipn_map, Hd, drop_app_ge by lia. by rewrite Hn, Nat.sub_diag, drop_0. }
  destruct (indel_key m a (AXI_TD.tdata f) vcmd f (take n dat) (drop n dat) Hm eq_refl Hf Hd1) as (out & E & Ho).
  destruct (IH addrs (drop n dat) Hk Hl Hd2) as (outs & E' & Ho').
  exists (out ++ outs). rewrite Ed at 1. cbn [indel.indel_run]. rewrite E. cbn [mbind option_bind]. rewrite E'. cbn [mbind option_bind].
  split; [done|]. cbn [zip_with]. by rewrite map_app, Ho, Ho'.
Qed.

(** * The accelerator *)

(** The tap the pipeline gives for a key flit, as the hash unit feeds it. *)
Definition tap_of (hregs : list Z) (f : AXI_TD.t) : Z :=
  let '(key, _, _, _, tap) := hsu.mc_key_tap_in hregs true f false true in short_hash.hash (key, tap).

(** The slot of a key: the software hash of its eight bytes, masked. *)
Definition slot_index (hregs : list Z) (k : Z) : Z :=
  match Soft.short128_hash (le_bytes 8 k) 8 (hsu._seed hregs) with Some (h, _) => Z.land h (hsu._tlen hregs) | None => 0 end.

(** Programmed for lookups of 8-byte keys in a table of 16-byte slots at
    [table], probing [n] slots. *)
Record programmed (hregs lregs pregs : list Z) (table : Z) (n : nat) : Prop := {
  pg_h : length hregs = 8%nat; pg_l : length lregs = 8%nat;
  pg_seldi : hsu._seldi hregs = true; pg_seldo : hsu._seldo hregs = false;
  pg_keylen : hsu._keylen hregs = 8; pg_hashlen : hsu._hashlen hregs = 4;
  pg_tlen : 0 <= hsu._tlen hregs < 2 ^ 28;
  pg_cmd : LsuHw.lsuctl._command lregs = LSU_index2;
  pg_size : LsuHw.lsuctl._size lregs = 16; pg_trans : LsuHw.lsuctl._trans lregs = 16 * Z.of_nat n;
  pg_addr : LsuHw.lsuctl._address lregs = table;
  pg_plen : indel._plen pregs = Z.of_nat n - 1;
  pg_n : (0 < n)%nat; pg_table : 0 <= table; pg_fit : table + 16 * (hsu._tlen hregs + Z.of_nat n) <= 2 ^ 32
}.

Lemma key_word_8 hregs f :
  hsu._seldi hregs = true -> hsu._keylen hregs = 8 -> in_word 64 (AXI_TD.tdata f) ->
  tap_of hregs f = short_hash.hash (key_word (le_bytes 8 (AXI_TD.tdata f)), seed_tap (hsu._seed hregs)).
Proof.
  intros Hs Hk Hf. unfold tap_of, hsu.mc_key_tap_in. rewrite Hs, Hk. unfold key_word. rewrite length_le_bytes, le_val_le_bytes.
  rewrite wrap_id by done. reflexivity.
Qed.

Lemma hash_8 k seed :
  in_word 4 seed ->
  let h := short_hash.hash (key_word (le_bytes 8 k), seed_tap seed) in
  Soft.short128_hash (le_bytes 8 k) 8 seed = Some (get_field 0 64 h, get_field 64 64 h).
Proof.
  intros Hs. pose proof (hash_software (le_bytes 8 k) seed) as E. rewrite length_le_bytes in E.
  apply E; [lia|apply le_bytes_range|done].
Qed.

Lemma index_software hregs f :
  hsu._seldi hregs = true -> hsu._keylen hregs = 8 -> in_word 64 (AXI_TD.tdata f) ->
  hsu.index hregs (tap_of hregs f) = slot_index hregs (AXI_TD.tdata f).
Proof.
  intros Hs Hk Hf. rewrite key_word_8 by done. unfold hsu.index, slot_index.
  by rewrite hash_8 by (apply get_field_range; lia).
Qed.

Lemma land_le x y : 0 <= x -> 0 <= y -> 0 <= Z.land x y <= y.
Proof.
  intros Hx Hy. split; [apply Z.land_nonneg; lia|].
  assert (E : Z.land x y + Z.ldiff y x = y).
  { rewrite Z.add_nocarry_lxor.
    - apply Z.bits_inj'. intros i Hi. rewrite Z.lxor_spec, Z.land_spec, Z.ldiff_spec. by destruct (Z.testbit x i), (Z.testbit y i).
    - apply Z.bits_inj'. intros i Hi. rewrite !Z.land_spec, Z.ldiff_spec, Z.bits_0. by destruct (Z.testbit x i), (Z.testbit y i). }
  assert (0 <= Z.ldiff y x) by (apply Z.ldiff_nonneg; lia). lia.
Qed.

Lemma slot_index_range hregs k : 0 <= hsu._tlen hregs -> 0 <= slot_index hregs k <= hsu._tlen hregs.
Proof.
  intros Ht. unfold slot_index. destruct (Soft.short128_hash _ _ _) as [[h h']|] eqn:E; [|lia].
  rewrite hash_8 in E by (apply get_field_range; lia).
  injection E as <- _. apply land_le; [|done]. apply get_field_range. lia.
Qed.

(** The command of a key loads its bucket. *)
Lemma bucket_command hregs lregs pregs table n f :
  programmed hregs lregs pregs table n -> in_word 64 (AXI_TD.tdata f) ->
  map d_flits (index_command hregs lregs (tap_of hregs f)) = [strip (table + 16 * slot_index hregs (AXI_TD.tdata f)) (2 * n)].
Proof.
  intros [] Hf. unfold index_command. rewrite index_software by done.
  pose proof (slot_index_range hregs (AXI_TD.tdata f) ltac:(lia)) as Hi. set (i := slot_index hregs (AXI_TD.tdata f)) in *. clearbody i.
  assert (Hw : get_field 0 32 i = i) by (unfold get_field; rewrite Z.shiftr_0_r, Z.land_ones by lia; apply Z.mod_small; lia).
  rewrite Hw. destruct (regs_8 _ pg_l0) as (l0 & l1 & l2 & l3 & l4 & l5 & l6 & l7 & ->). cbn [insert list_insert].
  assert (Hidx : LsuHw.lsuctl._index [l0; l1; l2; l3; i; l5; l6; l7] = i).
  { unfold LsuHw.lsuctl._index, LsuHw.lsuctl.reg. cbn [nth]. unfold get_field. rewrite Z.shiftr_0_r, Z.land_ones by lia. apply Z.mod_small. lia. }
  unfold LsuHw.lsuctl.ct_command. rewrite Hidx.
  change (LsuHw.lsuctl._command [l0; l1; l2; l3; i; l5; l6; l7]) with (LsuHw.lsuctl._command [l0; l1; l2; l3; l4; l5; l6; l7]).
  change (LsuHw.lsuctl._size [l0; l1; l2; l3; i; l5; l6; l7]) with (LsuHw.lsuctl._size [l0; l1; l2; l3; l4; l5; l6; l7]).
  change (LsuHw.lsuctl._trans [l0; l1; l2; l3; i; l5; l6; l7]) with (LsuHw.lsuctl._trans [l0; l1; l2; l3; l4; l5; l6; l7]).
  change (LsuHw.lsuctl._address [l0; l1; l2; l3; i; l5; l6; l7]) with (LsuHw.lsuctl._address [l0; l1; l2; l3; l4; l5; l6; l7]).
  rewrite pg_cmd0, pg_size0, pg_trans0, pg_addr0. change (LSU_index2 =? LSU_move) with false. change (LSU_index2 =? LSU_smove) with false.
  change ((LSU_index2 =? LSU_index) || (LSU_index2 =? LSU_index2)) with true. change (LSU_index2 =? LSU_index) with false. cbv iota.
  cbn [map]. unfold d_flits, strip_of, LsuHw.lsuctl.dmac. cbn [DMAC.addr DMAC.size].
  assert (Hn : Z.of_nat n <= 1024).
  { pose proof (get_field_range 0 10 (nth 1 pregs 0) ltac:(lia)) as Hp. unfold indel._plen in pg_plen0. rewrite pg_plen0 in Hp. unfold in_word in Hp. lia. }
  rewrite (wrap_id 24 (16 * Z.of_nat n)), (wrap_id 32 (i * 16 + table)) by (split; lia). f_equal. f_equal; [lia|].
  replace (16 * Z.of_nat n / 8) with (2 * Z.of_nat n) by div_lia. lia.
Qed.

(** C8: The lookup accelerator: whatever the interleaving of the threads between
    the hash unit and the load-store unit, when the hashes of a stream of keys
    have all become commands, the buckets those load make the compare unit
    write, for every key in order, the value a search of the table from the
    slot of the software hash finds, and zero for a key that is not there. *)
Theorem lookups_correct cap hregs lregs pregs table n m keys s dat2 :
  (0 < cap)%nat -> programmed hregs lregs pregs table n -> bytes_ok m ->
  Forall (fun f => in_word 64 (AXI_TD.tdata f)) keys ->
  rtc (path.step cap) (path.start (map (tap_of hregs) keys) hregs lregs) s -> ~ (exists s', path.step cap s s') ->
  map AXI_TD.tdata dat2 = map (fun a => fst (ld m a)) (concat (map d_flits (path.cmds s))) ->
  exists outs, indel.indel_run pregs keys dat2 = Some (outs, []) /\
    map AXI_TD.tdata outs = map (fun f => let k := AXI_TD.tdata f in lookup (bucket m (table + 16 * slot_index hregs k) n) k) keys.
Proof.
  intros Hcap Hp Hm Hk Hr Hstop Hd. pose proof Hp as [].
  destruct (path_result cap hregs lregs (map (tap_of hregs) keys) s Hcap pg_h0 pg_l0 pg_seldo0 ltac:(lia) Hr) as (_ & _ & Hc).
  rewrite (Hc Hstop) in Hd. set (addrs := map (fun f => table + 16 * slot_index hregs (AXI_TD.tdata f)) keys).
  assert (Ha : concat (map d_flits (concat (map (index_command hregs lregs) (map (tap_of hregs) keys))))
    = concat (map (fun a => strip a (2 * S (Z.to_nat (indel._plen pregs)))) addrs)).
  { rewrite pg_plen0. replace (S (Z.to_nat (Z.of_nat n - 1))) with n by lia. unfold addrs. clear Hr Hd Hc addrs. induction Hk as [|f keys Hf _ IH]; [done|].
    cbn [map concat]. rewrite map_app, concat_app, IH. f_equal. rewrite (bucket_command _ _ _ _ _ _ Hp Hf). cbn [concat]. by rewrite app_nil_r. }
  rewrite Ha in Hd. destruct (indel_all m pregs Hm keys addrs dat2 Hk) as (outs & E & Ho); [unfold addrs; by rewrite length_map|done|].
  exists outs. split; [done|]. rewrite Ho, pg_plen0. replace (S (Z.to_nat (Z.of_nat n - 1))) with n by lia. unfold addrs.
  clear. induction keys as [|f keys IH]; [done|]. cbn [map zip_with]. by rewrite IH.
Qed.

(** C12: The path on its own: for one-word hashes, under every interleaving of
    the response thread, the switch and the load-store unit's threads, the
    commands given so far are those of the first hashes, none lost, doubled
    or mixed; every run is finite, and one that has stopped has given them
    all. *)
Theorem hashes_to_commands cap hregs lregs taps s :
  (0 < cap)%nat -> length hregs = 8%nat -> length lregs = 8%nat -> hsu._seldo hregs = false -> 1 <= hsu._hashlen hregs <= 4 ->
  rtc (path.step cap) (path.start taps hregs lregs) s ->
  let all := concat (map (index_command hregs lregs) taps) in
  (exists rest, path.cmds s ++ rest = all) /\
  (forall n, nsteps (path.step cap) n (path.start taps hregs lregs) s -> (n <= 6 * length taps)%nat) /\
  (~ (exists s', path.step cap s s') -> path.cmds s = all).
Proof. apply path_result. Qed.

(** Explicit forms of the hash unit's moves. *)
Section Explicit.
Context (h0 h1 h2 h3 h4 h5 x y : Z) (l r : list Z) (k : list AXI_TC.t) (w : option (nat * Z * option ACMD.t)) (c : list ACMD.t) (ds : list DMAC.t).
Abbreviation st_of hashes hregs arsp rsp link :=
  {| path.hashes := hashes; path.hregs := hregs; path.arsp := arsp; path.rsp := rsp; path.link := link; path.lregs := l;
     path.wr := w; path.acmd := c; path.cmds := ds |}.
Abbreviation regs := [h0; h1; h2; h3; h4; h5; x; y].

Lemma h_push_eq t hs q :
  hsu._seldo regs = false ->
  path.h_push (st_of (t :: hs) regs [] q k)
  = Some (st_of hs [h0; h1; h2; h3; h4; h5; get_field 0 32 (hsu.index regs t); get_field 32 32 (hsu.index regs t)] [hsu.arsp regs] q k).
Proof. intros H. unfold path.h_push. cbn [path.hashes path.arsp path.hregs]. unfold hsu.mc_hash_out. rewrite H. reflexivity. Qed.

Lemma h_pop_eq hs a :
  RACC.len (ACMD.srac a) = 2 -> RACC.sel (ACMD.srac a) = 6 ->
  path.h_pop (st_of hs regs [a] None k)
  = Some (st_of hs regs [] (Some ({| AXI_TC.tid := ACMD.sid a; AXI_TC.tdest := ACMD.did a; AXI_TC.tuser := ACMD.drac a;
                                     AXI_TC.tdata := x; AXI_TC.tlast := false |}, 1%nat, 7, a)) k).
Proof. intros H1 H2. unfold path.h_pop. cbn [path.rsp path.arsp path.hregs]. rewrite H1, H2. reflexivity. Qed.
End Explicit.

(** Two-word hashes can be torn: once the response thread has taken a
    response from its one-place queue the next hash may be written to the
    registers, and if the switch holds the first word back for that long the
    second word is the next key's. *)
Theorem long_hash_torn cap hregs lregs t1 t2 taps :
  (1 < cap)%nat -> length hregs = 8%nat -> hsu._seldo hregs = false -> 5 <= hsu._hashlen hregs <= 8 ->
  exists s, rtc (path.step cap) (path.start (t1 :: t2 :: taps) hregs lregs) s /\
  map AXI_TC.tdata (path.link s) = [get_field 0 32 (hsu.index hregs t1); get_field 32 32 (hsu.index hregs t2)] /\
  Forall (fun f => AXI_TC.tdest f = hsu._tdest hregs /\ AXI_TC.tuser f = ACMD.drac (hsu.arsp hregs)) (path.link s).
Proof.
  intros Hcap Hh Hsel Hlen. destruct (regs_8 _ Hh) as (h0 & h1 & h2 & h3 & h4 & h5 & h6 & h7 & ->).
  assert (Hsel' : forall x y, hsu._seldo [h0; h1; h2; h3; h4; h5; x; y] = false) by (intros; exact Hsel).
  assert (E2 : wrap CA (Z.shiftr (hsu._hashlen [h0; h1; h2; h3; h4; h5; h6; h7] + 3) 2) = 2).
  { rewrite Z.shiftr_div_pow2 by lia. change (2 ^ 2) with 4.
    assert (E : (hsu._hashlen [h0; h1; h2; h3; h4; h5; h6; h7] + 3) / 4 = 2) by div_lia. by rewrite E. }
  assert (Hc0 : (0 <? cap)%nat = true) by (apply Nat.ltb_lt; lia). assert (Hc1 : (1 <? cap)%nat = true) by (apply Nat.ltb_lt; lia).
  assert (E6 : forall x y, RACC.len (ACMD.srac (hsu.arsp [h0; h1; h2; h3; h4; h5; x; y])) = 2) by (intros; exact E2).
  eexists. split; [|split].
  - eapply rtc_l; [exists path.h_push; split; [in_moves|by apply h_push_eq]|].
    eapply rtc_l; [exists path.h_pop; split; [in_moves|by apply h_pop_eq]|].
    eapply rtc_l; [exists path.h_push; split; [in_moves|by apply h_push_eq]|].
    eapply rtc_l; [exists (path.h_flit cap); split; [in_moves|unfold path.h_flit; cbn [path.rsp path.link length]; rewrite Hc0; reflexivity]|].
    eapply rtc_l; [exists (path.h_flit cap); split; [in_moves|unfold path.h_flit; cbn [path.set_rsp path.rsp path.link length app path.form]; rewrite Hc1; reflexivity]|].
    apply rtc_refl.
  - reflexivity.
  - repeat constructor.
Qed.

(** ** The split unit *)

Section Split.
Context {A : Type} {S1 S2 : Stage A A}.

(** Two stages behind the split unit, over the cycles of the producer and
    of the two consumers: the states, the words taken and the words each gave
    out. *)
(* @src ip/sysc/spsel.h 44-60 SC_CTOR(spsel) *)
Fixpoint split_run (s1 : st S1) (s2 : st S2) (cs : list (bool * A * bool * bool)) : st S1 * st S2 * list A * list A * list A :=
  match cs with
  | [] => (s1, s2, [], [], [])
  | (v, a, r1, r2) :: cs =>
      let '(v1, v2, rdy) := spsel.mc_dat v (ready s1 r1) (ready s2 r2) in
      let '(s1', s2', ins, o1, o2) := split_run (clock s1 v1 a r1) (clock s2 v2 a r2) cs in
      (s1', s2', (if v && rdy then [a] else []) ++ ins, (if valid s1 && r1 then [dout s1] else []) ++ o1,
       (if valid s2 && r2 then [dout s2] else []) ++ o2)
  end.

(** Each side is a run of its stage that takes the words the unit takes,
    with a producer held back by the other side. *)
Lemma split_sides cs : forall s1 s2 s1' s2' ins o1 o2,
  split_run s1 s2 cs = (s1', s2', ins, o1, o2) ->
  exists cs1 cs2, Handshake.run s1 cs1 = (s1', ins, o1) /\ Handshake.run s2 cs2 = (s2', ins, o2) /\
    map snd cs1 = map (fun c => snd (fst c)) cs /\ map snd cs2 = map snd cs.
Proof using Type.
  induction cs as [|[[[v a] r1] r2] cs IH]; intros s1 s2 s1' s2' ins o1 o2 E; cbn [split_run] in E.
  { injection E as <- <- <- <- <-. by exists [], []. }
  unfold spsel.mc_dat in E. destruct (split_run (clock s1 _ a r1) _ cs) as [[[[t1 t2] i] p1] p2] eqn:Er. injection E as <- <- <- <- <-.
  destruct (IH _ _ _ _ _ _ _ Er) as (cs1 & cs2 & R1 & R2 & M1 & M2).
  exists ((v && ready s2 r2, a, r1) :: cs1), ((v && ready s1 r1, a, r2) :: cs2).
  cbn [Handshake.run map fst snd]. rewrite R1, R2, M1, M2. split_and!; [| |done|done]; do 2 f_equal;
    by destruct v, (ready s1 r1), (ready s2 r2).
Qed.
End Split.

(** A consumer that is ready throughout. *)
Lemma always_ready {X} (f : X -> bool) {Y} (g : Y -> bool) l l' :
  map f l = map g l' -> Forall (fun c => g c = true) l' -> Forall (fun c => f c = true) l /\ length l = length l'.
Proof.
  intros E H. split; [|by rewrite <- (length_map f), <- (length_map g), E].
  apply Forall_forall. intros x Hx. assert (Hin : f x ∈ map g l') by (rewrite <- E; apply list_elem_of_fmap; by exists x).
  apply list_elem_of_fmap in Hin as (y & -> & Hy). rewrite Forall_forall in H. by apply H.
Qed.

(** A two-word slice of the split unit, and the slice that feeds the queue
    of keys. *)
(* @src ip/sysc/spsel.h 25-26 u_slice_d1, u_slice_d2 *)
Definition u_slice {T} (dflt : T) : Stage T T := sfifo_stage dflt 1 2.
(* @src ip/sysc/kvs.h 198-201 u_que0 *)
Definition u_que0 {T} (dflt : T) : Stage T T := chain (S1 := u_slice dflt) (S2 := sfifo_stage dflt 8 256).

Section Keys.
Context {T : Type} (dflt : T).

#[local] Instance u_slice_ok : StageOk (u_slice dflt) id := sfifo_ok dflt 1 2 ltac:(lia) ltac:(vm_compute; lia) ltac:(lia).
#[local] Instance u_que0_ok : StageOk (u_que0 dflt) (id ∘ id) :=
  chain_ok (S1 := u_slice dflt) (S2 := sfifo_stage dflt 8 256) (O1 := u_slice_ok) (O2 := sfifo_ok dflt 8 256 ltac:(lia) ltac:(vm_compute; lia) ltac:(lia)).

(** With less than two words in it a slice takes one. *)
Lemma slice_room (s : st (u_slice dflt)) r : inv s -> (length (contents s) < 2)%nat -> ready s r = true.
Proof.
  intros _ Hc. change (length (Handshake.held dflt 2 s) < 2)%nat in Hc. change (s_ready s = true). unfold s_ready. destruct (full_i s) eqn:Ef; [|done].
  unfold Handshake.held, window, Handshake.fill in Hc. rewrite Ef, length_map, length_seq in Hc. lia.
Qed.

(** C22: The keys of the lookup accelerator (the split unit of spsel.h with its
    two slices, one of which feeds the 256-word queue for the compare unit, the
    other the hash unit), whatever the registers held before the reset and
    however the producer and the two consumers stall: both sides give out the
    keys taken, in order, the compare unit at most 258 and the hash unit at
    most two behind; a key is taken whenever both are less than two behind;
    and once a side's consumer stays ready, all keys taken so far have come
    out of that side within 516 cycles at the compare unit and two at the hash
    unit, whatever the other side and the producer do meanwhile. *)
Theorem queue_drains s1 s2 cs s1' s2' ins o1 o2 :
  length (data (fst s1)) = 2%nat -> length (data (snd s1)) = 256%nat -> length (data s2) = 2%nat ->
  split_run (S1 := u_que0 dflt) (S2 := u_slice dflt)
    (do_reset (Stage := u_que0 dflt) s1) (do_reset (Stage := u_slice dflt) s2) cs = (s1', s2', ins, o1, o2) ->
  (exists c1 c2, o1 ++ c1 = ins /\ o2 ++ c2 = ins /\ (length c1 <= 258)%nat /\ (length c2 <= 2)%nat /\
   ((length c1 < 2)%nat -> (length c2 < 2)%nat -> forall r1 r2,
     snd (spsel.mc_dat true (ready (Stage := u_que0 dflt) s1' r1) (ready (Stage := u_slice dflt) s2' r2)) = true)) /\
  forall cs' t1 t2 ins' p1 p2,
  split_run (S1 := u_que0 dflt) (S2 := u_slice dflt) s1' s2' cs' = (t1, t2, ins', p1, p2) ->
  (Forall (fun c => snd (fst c) = true) cs' -> (516 <= length cs')%nat -> exists rest, o1 ++ p1 = ins ++ rest) /\
  (Forall (fun c => snd c = true) cs' -> (2 <= length cs')%nat -> exists rest, o2 ++ p2 = ins ++ rest).
Proof.
  intros H1 H1' H2 E. destruct (split_sides cs _ _ _ _ _ _ _ E) as (cs1 & cs2 & R1 & R2 & _ & _).
  assert (Hs1 : Handshake.shape (StageOk := u_que0_ok) s1) by (by destruct s1).
  destruct (reset_order (SO := u_que0_ok) _ _ _ _ _ Hs1 R1) as (I1 & O1 & C1).
  destruct (reset_order (SO := u_slice_ok) s2 _ _ _ _ H2 R2) as (I2 & O2 & C2).
  rewrite map_id in O1, O2. split.
  - exists (contents (StageOk := u_que0_ok) s1'), (contents (StageOk := u_slice_ok) s2').
    split; [exact O1|]. split; [exact O2|]. split; [exact C1|]. split; [exact C2|]. intros L1 L2 r1 r2.
    rewrite (slice_room s2' r2 I2 L2). destruct s1' as [k q]. destruct I1 as [I1 _]. simpl in L1. rewrite length_app, length_map in L1.
    assert (Hk : ready k (ready q r1) = true) by (apply slice_room; [done|change (length (Handshake.held dflt 2 k) < 2)%nat; lia]).
    change (ready k (ready q r1) && true = true). by rewrite Hk.
  - intros cs' t1 t2 ins' p1 p2 E'. destruct (split_sides cs' _ _ _ _ _ _ _ E') as (cs1' & cs2' & R1' & R2' & M1 & M2).
    split; intros Hr Hl.
    + destruct (always_ready _ _ _ _ M1 Hr) as [Hr' Hl'].
      destruct (reset_drains (SO := u_que0_ok) _ _ _ _ _ _ _ _ _ Hs1 R1 Hr' ltac:(simpl; lia) R1') as [rest Hrest].
      exists rest. by rewrite Hrest, map_id.
    + destruct (always_ready _ _ _ _ M2 Hr) as [Hr' Hl'].
      destruct (reset_drains (SO := u_slice_ok) s2 _ _ _ _ _ _ _ _ H2 R2 Hr' ltac:(simpl; lia) R2') as [rest Hrest].
      exists rest. by rewrite Hrest, map_id.
Qed.
End Keys.

(** * Examples *)

Definition hregs0 : list Z := [0; 7; 0; 0x25430408; 0; 0; 0; 0].
Definition lregs0 : list Z := [0; 4; 0x1000; 16; 0; 32; 0; 0].
Definition pregs0 : list Z := [0; 1; 0; 0; 0; 0; 0; 0].
Definition key_flit (k : Z) : AXI_TD.t :=
  {| AXI_TD.tdata := k; AXI_TD.tid := 0; AXI_TD.tdest := 0; AXI_TD.tkeep := 255; AXI_TD.tuser := 0; AXI_TD.tlast := false |}.
Definition keys0 : list AXI_TD.t := [key_flit 0x0706050403020100; key_flit 0xfedcba9876543210].
Definition path0 : path.state := path.run 4 20 (path.start (map (tap_of hregs0) keys0) hregs0 lregs0).

Lemma path_run_steps cap n s : rtc (path.step cap) s (path.run cap n s).
Proof.
  revert s. induction n as [|n IH]; intros s; [apply rtc_refl|]. cbn [path.run].
  destruct (path.first_move cap s) as [s'|] eqn:E; [|apply rtc_refl]. eapply rtc_l; [|apply IH].
  unfold path.first_move, path.moves in E. cbn [foldr] in E.
  repeat match type of E with
  | match ?m with Some _ => _ | None => _ end = _ => let Em := fresh in destruct m eqn:Em; [injection E as <-; eexists; split; [|exact Em]; in_moves|]
  end. done.
Qed.

Lemma path0_stopped : ~ (exists s', path.step 4 path0 s').
Proof.
  intros (s' & f & Hf & E). unfold path.moves in Hf. repeat (apply elem_of_cons in Hf as [->|Hf]); [..|by inversion Hf].
  all: vm_compute in E; discriminate.
Qed.

Lemma hashes_to_commands_witness :
  path.cmds path0 = concat (map (index_command hregs0 lregs0) (map (tap_of hregs0) keys0)).
Proof.
  apply (hashes_to_commands 4 hregs0 lregs0 (map (tap_of hregs0) keys0) path0).
  all: first [exact path0_stopped | apply path_run_steps | lia | vm_compute; reflexivity | vm_compute; split; discriminate].
Defined.

Lemma long_hash_torn_witness :
  exists s, rtc (path.step 2) (path.start [5 + 2 ^ 32 * 6; 7 + 2 ^ 32 * 9] [0; 2 ^ 32 - 1; 2 ^ 32 - 1; 0x25430808; 0; 0; 0; 0] lregs0) s /\
  map AXI_TC.tdata (path.link s) = [5; 9].
Proof.
  destruct (long_hash_torn 2 [0; 2 ^ 32 - 1; 2 ^ 32 - 1; 0x25430808; 0; 0; 0; 0] lregs0 (5 + 2 ^ 32 * 6) (7 + 2 ^ 32 * 9) []) as (s & Hr & E & _).
  1-4: first [lia | vm_compute; reflexivity | vm_compute; split; discriminate].
  exists s. split; [exact Hr|]. rewrite E. vm_compute. reflexivity.
Defined.

Lemma lookups_correct_witness :
  let dat2 := map (fun a => key_flit (fst (ld memory0 a))) (concat (map d_flits (path.cmds path0))) in
  exists outs, indel.indel_run pregs0 keys0 dat2 = Some (outs, []) /\
    map AXI_TD.tdata outs = [0x0b0a0908; 0].
Proof.
  intros dat2.
  replace [0x0b0a0908; 0] with (map (fun f => let k := AXI_TD.tdata f in lookup (bucket memory0 (0x1000 + 16 * slot_index hregs0 k) 2) k) keys0)
    by (vm_compute; reflexivity).
  apply (lookups_correct 4 hregs0 lregs0 pregs0 0x1000 2 memory0 keys0 path0 dat2).
  - lia.
  - constructor; first [vm_compute; reflexivity | lia | vm_compute; split; [discriminate|reflexivity] | vm_compute; discriminate].
  - intros y. apply Z.mod_pos_bound. lia.
  - repeat constructor; simpl; lia.
  - apply path_run_steps.
  - exact path0_stopped.
  - unfold dat2. rewrite map_map. reflexivity.
Defined.

Definition power_up_que0 : sfifo_cc * sfifo_cc := (power_up, {| data := replicate 256 4%nat; rd_idx := 9; wr_idx := 3; full_i := true; empty_i := true |}).
Definition key_cycles : list (bool * nat * bool * bool) :=
  [(true, 1%nat, true, false); (true, 2%nat, true, true); (true, 3%nat, false, false); (true, 4%nat, false, false)].

(** Three keys are taken; the fourth is not, the hash unit being two behind. *)
Lemma queue_drains_witness :
  exists s1' s2', split_run (S1 := u_que0 0%nat) (S2 := u_slice 0%nat) (do_reset (Stage := u_que0 0%nat) power_up_que0)
    (do_reset (Stage := u_slice 0%nat) power_up) key_cycles = (s1', s2', [1; 2; 3]%nat, [], [1]%nat) /\
  forall t1 t2 ins' p1 p2,
  split_run (S1 := u_que0 0%nat) (S2 := u_slice 0%nat) s1' s2' (replicate 516 (false, 0%nat, true, true)) = (t1, t2, ins', p1, p2) ->
  exists rest rest', p1 = [1; 2; 3]%nat ++ rest /\ p2 = [2; 3]%nat ++ rest'.
Proof.
  eexists _, _. split; [vm_compute; reflexivity|]. intros t1 t2 ins' p1 p2 E'.
  destruct (queue_drains 0%nat power_up_que0 power_up key_cycles _ _ [1; 2; 3]%nat [] [1]%nat eq_refl eq_refl eq_refl
    ltac:(vm_compute; reflexivity)) as [_ H].
  destruct (H _ _ _ _ _ _ E') as [G1 G2].
  destruct G1 as [rest H1]; [by apply Forall_replicate|rewrite length_replicate; lia|].
  destruct G2 as [rest' H2]; [by apply Forall_replicate|rewrite length_replicate; lia|].
  exists rest, rest'. injection H2 as H2. by split.
Defined.
