(* ===== verification/Compress.v ===== *)
(** The trace compressor (ip/hls/compress): the performance monitor's wide
    records become a stream of 128-bit packets, one for each channel that was
    active, through a queue of packs of four.

    The two stages are functions on one state; the hardware runs them side by
    side, so the theorems take any interleaving of them with arriving records
    and with a consumer that stalls.  The streams of the synthesis library are
    lists, its [ap_uint] integers the numbers below their width, as they are
    documented. *)
From S2P Require Import Prelude.
Open Scope Z_scope.

(** * Bit vectors *)

(** Bits [hi] to [lo]. *)
Definition range (hi lo i : Z) : Z := get_field lo (hi - lo + 1) i.
(** Concatenation of values of the given widths, the top one first. *)
Definition cat (l : list (Z * Z)) : Z := foldl (fun acc '(w, v) => v + 2 ^ w * acc) 0 l.
(** Each value fits its width. *)
Definition typed (l : list (Z * Z)) : Prop := Forall (fun '(w, v) => in_word w v) l.

(** * Records *)

Module in_packet.
(* @src ip/hls/compress/compress.hpp 54-91 in_packet *)
Record t := {
  logID : Z; timestamp : Z; loop : Z; a0_ext_event : Z; a0_wr_addr_latch : Z; a0_first_wr : Z;
  a0_last_wr : Z; a0_response : Z; a0_rd_addr_latch : Z; a0_first_rd : Z; a0_last_rd : Z; a0_arlen : Z;
  a0_awlen : Z; a0_rid : Z; a0_arid : Z; a0_bid : Z; a0_awid : Z; a0_araddr : Z; a0_awaddr : Z;
  a1_ext_event : Z; a1_wr_addr_latch : Z; a1_first_wr : Z; a1_last_wr : Z; a1_response : Z;
  a1_rd_addr_latch : Z; a1_first_rd : Z; a1_last_rd : Z; a1_arlen : Z; a1_awlen : Z; a1_rid : Z;
  a1_arid : Z; a1_bid : Z; a1_awid : Z; a1_araddr : Z; a1_awaddr : Z
}.

(* @src ip/hls/compress/compress.hpp 97-136 in_packet(const ap_uint<320>&) *)
Definition of_bits (i : Z) : t := {|
  logID := range 0 0 i; timestamp := range 30 1 i; loop := range 31 31 i; a0_ext_event := range 34 32 i;
  a0_wr_addr_latch := range 35 35 i; a0_first_wr := range 36 36 i; a0_last_wr := range 37 37 i;
  a0_response := range 38 38 i; a0_rd_addr_latch := range 39 39 i; a0_first_rd := range 40 40 i;
  a0_last_rd := range 41 41 i; a0_arlen := range 49 42 i; a0_awlen := range 57 50 i;
  a0_rid := range 73 58 i; a0_arid := range 89 74 i; a0_bid := range 105 90 i; a0_awid := range 121 106 i;
  a0_araddr := range 161 122 i; a0_awaddr := range 201 162 i; a1_ext_event := range 204 202 i;
  a1_wr_addr_latch := range 205 205 i; a1_first_wr := range 206 206 i; a1_last_wr := range 207 207 i;
  a1_response := range 208 208 i; a1_rd_addr_latch := range 209 209 i; a1_first_rd := range 210 210 i;
  a1_last_rd := range 211 211 i; a1_arlen := range 219 212 i; a1_awlen := range 227 220 i;
  a1_rid := range 230 228 i; a1_arid := range 233 231 i; a1_bid := range 236 234 i;
  a1_awid := range 239 237 i; a1_araddr := range 279 240 i; a1_awaddr := range 319 280 i
|}.

(** The fields with their widths, from the top. *)
Definition fields (p : t) : list (Z * Z) :=
  [(40, a1_awaddr p); (40, a1_araddr p); (3, a1_awid p); (3, a1_bid p); (3, a1_arid p); (3, a1_rid p);
   (8, a1_awlen p); (8, a1_arlen p); (1, a1_last_rd p); (1, a1_first_rd p); (1, a1_rd_addr_latch p);
   (1, a1_response p); (1, a1_last_wr p); (1, a1_first_wr p); (1, a1_wr_addr_latch p); (3, a1_ext_event p);
   (40, a0_awaddr p); (40, a0_araddr p); (16, a0_awid p); (16, a0_bid p); (16, a0_arid p); (16, a0_rid p);
   (8, a0_awlen p); (8, a0_arlen p); (1, a0_last_rd p); (1, a0_first_rd p); (1, a0_rd_addr_latch p);
   (1, a0_response p); (1, a0_last_wr p); (1, a0_first_wr p); (1, a0_wr_addr_latch p); (3, a0_ext_event p);
   (1, loop p); (30, timestamp p); (1, logID p)].

(* @src ip/hls/compress/compress.hpp 138-147 operator ap_uint<320> *)
Definition to_bits (p : t) : Z := cat (fields p).
End in_packet.

Module out_packet.
(* @src ip/hls/compress/compress.hpp 152-169 out_packet *)
Record t := {
  logID : Z; timestamp : Z; loop : Z; slot : Z; write : Z; ext_event : Z; addr_latch : Z; first : Z;
  last : Z; response : Z; a_len : Z; _id : Z; a_id : Z; a_addr : Z; padding : Z
}.

(* @src ip/hls/compress/compress.hpp 173-189 out_packet(const ap_uint<128>&) *)
Definition of_bits (i : Z) : t := {|
  logID := range 0 0 i; timestamp := range 30 1 i; loop := range 31 31 i; slot := range 32 32 i;
  write := range 33 33 i; ext_event := range 36 34 i; addr_latch := range 37 37 i; first := range 38 38 i;
  last := range 39 39 i; response := range 40 40 i; a_len := range 48 41 i; _id := range 64 49 i;
  a_id := range 80 65 i; a_addr := range 120 81 i; padding := range 127 121 i
|}.

(** The fields with their widths, from the top. *)
Definition fields (p : t) : list (Z * Z) :=
  [(7, padding p); (40, a_addr p); (16, a_id p); (16, _id p); (8, a_len p); (1, response p); (1, last p);
   (1, first p); (1, addr_latch p); (3, ext_event p); (1, write p); (1, slot p); (1, loop p);
   (30, timestamp p); (1, logID p)].

(* @src ip/hls/compress/compress.hpp 191-194 operator ap_uint<128> *)
Definition to_bits (p : t) : Z := cat (fields p).
End out_packet.

Module pack_packet.
(* @src ip/hls/compress/compress.hpp 203-205 pack_packet_t *)
Record t := { data0 : Z; data1 : Z; data2 : Z; data3 : Z; valid0 : bool; valid1 : bool; valid2 : bool; valid3 : bool }.

(* @src ip/hls/compress/compress.hpp 214-223 pack_packet_t(const ap_uint<516>&) *)
Definition of_bits (i : Z) : t := {|
  data0 := range 127 0 i; data1 := range 255 128 i; data2 := range 383 256 i; data3 := range 511 384 i;
  valid0 := truthy (range 512 512 i); valid1 := truthy (range 513 513 i);
  valid2 := truthy (range 514 514 i); valid3 := truthy (range 515 515 i)
|}.

Definition fields (p : t) : list (Z * Z) :=
  [(1, Z.b2z (valid3 p)); (1, Z.b2z (valid2 p)); (1, Z.b2z (valid1 p)); (1, Z.b2z (valid0 p));
   (128, data3 p); (128, data2 p); (128, data1 p); (128, data0 p)].

(* @src ip/hls/compress/compress.hpp 225-228 operator ap_uint<516> *)
Definition to_bits (p : t) : Z := cat (fields p).

(** [num_left] of the output stage. *)
(* @src ip/hls/compress/compress.cpp 163-164 num_left *)
Definition num_left (p : t) : Z := Z.b2z (valid0 p) + Z.b2z (valid1 p) + Z.b2z (valid2 p) + Z.b2z (valid3 p).
End pack_packet.

(** * From a record to a pack *)

(** The four packets of a record, without time. *)
(* @src ip/hls/compress/compress.cpp 47-60 output0 *)
Definition output0 (input : in_packet.t) : out_packet.t := {|
  out_packet.logID := in_packet.logID input; out_packet.timestamp := 0; out_packet.loop := 0;
  out_packet.slot := 0; out_packet.write := 1; out_packet.ext_event := in_packet.a0_ext_event input;
  out_packet.addr_latch := in_packet.a0_wr_addr_latch input; out_packet.first := in_packet.a0_first_wr input;
  out_packet.last := in_packet.a0_last_wr input; out_packet.response := in_packet.a0_response input;
  out_packet.a_len := in_packet.a0_awlen input; out_packet._id := in_packet.a0_bid input;
  out_packet.a_id := in_packet.a0_awid input; out_packet.a_addr := in_packet.a0_awaddr input; out_packet.padding := 0
|}.
(* @src ip/hls/compress/compress.cpp 66-79 output1 *)
Definition output1 (input : in_packet.t) : out_packet.t := {|
  out_packet.logID := in_packet.logID input; out_packet.timestamp := 0; out_packet.loop := 0;
  out_packet.slot := 0; out_packet.write := 0; out_packet.ext_event := in_packet.a0_ext_event input;
  out_packet.addr_latch := in_packet.a0_rd_addr_latch input; out_packet.first := in_packet.a0_first_rd input;
  out_packet.last := in_packet.a0_last_rd input; out_packet.response := 0;
  out_packet.a_len := in_packet.a0_arlen input; out_packet._id := in_packet.a0_rid input;
  out_packet.a_id := in_packet.a0_arid input; out_packet.a_addr := in_packet.a0_araddr input; out_packet.padding := 0
|}.
(* @src ip/hls/compress/compress.cpp 85-98 output2 *)
Definition output2 (input : in_packet.t) : out_packet.t := {|
  out_packet.logID := in_packet.logID input; out_packet.timestamp := 0; out_packet.loop := 0;
  out_packet.slot := 1; out_packet.write := 1; out_packet.ext_event := in_packet.a1_ext_event input;
  out_packet.addr_latch := in_packet.a1_wr_addr_latch input; out_packet.first := in_packet.a1_first_wr input;
  out_packet.last := in_packet.a1_last_wr input; out_packet.response := in_packet.a1_response input;
  out_packet.a_len := in_packet.a1_awlen input; out_packet._id := in_packet.a1_bid input;
  out_packet.a_id := in_packet.a1_awid input; out_packet.a_addr := in_packet.a1_awaddr input; out_packet.padding := 0
|}.
(* @src ip/hls/compress/compress.cpp 104-117 output3 *)
Definition output3 (input : in_packet.t) : out_packet.t := {|
  out_packet.logID := in_packet.logID input; out_packet.timestamp := 0; out_packet.loop := 0;
  out_packet.slot := 1; out_packet.write := 0; out_packet.ext_event := in_packet.a1_ext_event input;
  out_packet.addr_latch := in_packet.a1_rd_addr_latch input; out_packet.first := in_packet.a1_first_rd input;
  out_packet.last := in_packet.a1_last_rd input; out_packet.response := 0;
  out_packet.a_len := in_packet.a1_arlen input; out_packet._id := in_packet.a1_rid input;
  out_packet.a_id := in_packet.a1_arid input; out_packet.a_addr := in_packet.a1_araddr input; out_packet.padding := 0
|}.

(** [output.timestamp = time_acc; output.loop = input.loop]. *)
Definition set_time (time loop : Z) (o : out_packet.t) : out_packet.t := {|
  out_packet.logID := out_packet.logID o; out_packet.timestamp := time; out_packet.loop := loop;
  out_packet.slot := out_packet.slot o; out_packet.write := out_packet.write o;
  out_packet.ext_event := out_packet.ext_event o; out_packet.addr_latch := out_packet.addr_latch o;
  out_packet.first := out_packet.first o; out_packet.last := out_packet.last o;
  out_packet.response := out_packet.response o; out_packet.a_len := out_packet.a_len o;
  out_packet._id := out_packet._id o; out_packet.a_id := out_packet.a_id o;
  out_packet.a_addr := out_packet.a_addr o; out_packet.padding := out_packet.padding o
|}.

(** The accumulated time and the pack. *)
(* @src ip/hls/compress/compress.cpp 18-142 convert_inputs body *)
Definition convert (time_acc packed_input : Z) : Z * pack_packet.t :=
  let input := in_packet.of_bits packed_input in
  if truthy (in_packet.logID input) then
    (time_acc,
     {| pack_packet.data0 := range 63 0 packed_input; pack_packet.data1 := 0; pack_packet.data2 := 0; pack_packet.data3 := 0;
        pack_packet.valid0 := true; pack_packet.valid1 := false; pack_packet.valid2 := false; pack_packet.valid3 := false |})
  else
    let time_acc := wrap 30 (time_acc + in_packet.timestamp input) in
    let valid0 := truthy (in_packet.a0_wr_addr_latch input) || truthy (in_packet.a0_first_wr input)
                  || truthy (in_packet.a0_last_wr input) || truthy (in_packet.a0_response input) in
    let valid1 := truthy (in_packet.a0_rd_addr_latch input) || truthy (in_packet.a0_first_rd input)
                  || truthy (in_packet.a0_last_rd input) in
    let valid2 := truthy (in_packet.a1_wr_addr_latch input) || truthy (in_packet.a1_first_wr input)
                  || truthy (in_packet.a1_last_wr input) || truthy (in_packet.a1_response input) in
    let valid3 := truthy (in_packet.a1_rd_addr_latch input) || truthy (in_packet.a1_first_rd input)
                  || truthy (in_packet.a1_last_rd input) in
    let stamp := set_time time_acc (in_packet.loop input) in
    let '(o0, o1, o2, o3) :=
      (output0 input, output1 input, output2 input, output3 input) in
    let '(o0, o1, o2, o3) :=
      if valid0 then (stamp o0, o1, o2, o3)
      else if valid1 then (o0, stamp o1, o2, o3)
      else if valid2 then (o0, o1, stamp o2, o3)
      else if valid3 then (o0, o1, o2, stamp o3)
      else (o0, o1, o2, o3) in
    (time_acc,
     {| pack_packet.data0 := out_packet.to_bits o0; pack_packet.data1 := out_packet.to_bits o1;
        pack_packet.data2 := out_packet.to_bits o2; pack_packet.data3 := out_packet.to_bits o3;
        pack_packet.valid0 := valid0; pack_packet.valid1 := valid1; pack_packet.valid2 := valid2; pack_packet.valid3 := valid3 |}).

(** * The stages *)

(* @src ip/hls/compress/compress.cpp 151-152 current_state *)
Inductive state := S_IDLE | S_ONE_LEFT | S_TWO_LEFT | S_THREE_LEFT | S_FOUR_LEFT.
(** [(state)num_left]. *)
(* @src ip/hls/compress/compress.cpp 167-167 current_state *)
Definition to_state (n : Z) : state :=
  if n =? 0 then S_IDLE else if n =? 1 then S_ONE_LEFT else if n =? 2 then S_TWO_LEFT
  else if n =? 3 then S_THREE_LEFT else S_FOUR_LEFT.

(** The streams at both ends, the queue between the stages and their static
    variables. *)
(* @src ip/hls/compress/compress.cpp 261-262 pack_buffer *)
Record system := {
  inp : list Z; time_acc : Z; pack_buffer : list Z; current_state : state; current_input : pack_packet.t; outp : list Z
}.

(* @src ip/hls/compress/compress.cpp 6-12 buffer_inputs *)
Definition buffer_inputs (out_full : bool) (s_in out : list Z) : list Z * list Z :=
  match s_in with
  | input :: s_in' => if out_full then (s_in, out) else (s_in', out ++ [input])
  | [] => (s_in, out)
  end.

Section Stages.
(** Depth of the queue. *)
Context (depth : nat).

(* @src ip/hls/compress/compress.cpp 17-145 convert_inputs *)
Definition convert_inputs (s : system) : system :=
  match inp s with
  | i :: rest =>
      if (length (pack_buffer s) <? depth)%nat then
        let '(t, p) := convert (time_acc s) i in
        {| inp := rest; time_acc := t; pack_buffer := pack_buffer s ++ [pack_packet.to_bits p];
           current_state := current_state s; current_input := current_input s; outp := outp s |}
      else s
  | [] => s
  end.

(** A pack is taken if there is one; otherwise the state is [otherwise]. *)
(* @src ip/hls/compress/compress.cpp 160-169 write_out next input *)
Definition load (otherwise : state) (s : system) : system :=
  match pack_buffer s with
  | b :: q =>
      let next_input := pack_packet.of_bits b in
      {| inp := inp s; time_acc := time_acc s; pack_buffer := q; current_state := to_state (pack_packet.num_left next_input);
         current_input := next_input; outp := outp s |}
  | [] => {| inp := inp s; time_acc := time_acc s; pack_buffer := []; current_state := otherwise;
             current_input := current_input s; outp := outp s |}
  end.

(** The packet written, and the pack with its flag cleared. *)
(* @src ip/hls/compress/compress.cpp 198-210 write_out packet *)
Definition pop (c : pack_packet.t) : Z * pack_packet.t :=
  let keep v0 v1 v2 v3 :=
    {| pack_packet.data0 := pack_packet.data0 c; pack_packet.data1 := pack_packet.data1 c; pack_packet.data2 := pack_packet.data2 c;
       pack_packet.data3 := pack_packet.data3 c; pack_packet.valid0 := v0; pack_packet.valid1 := v1; pack_packet.valid2 := v2;
       pack_packet.valid3 := v3 |} in
  if pack_packet.valid0 c then (pack_packet.data0 c, keep false (pack_packet.valid1 c) (pack_packet.valid2 c) (pack_packet.valid3 c))
  else if pack_packet.valid1 c then (pack_packet.data1 c, keep false false (pack_packet.valid2 c) (pack_packet.valid3 c))
  else if pack_packet.valid2 c then (pack_packet.data2 c, keep false false false (pack_packet.valid3 c))
  else (pack_packet.data3 c, keep false false false false).

Definition emit (next : state) (s : system) : system :=
  let '(d, c) := pop (current_input s) in
  {| inp := inp s; time_acc := time_acc s; pack_buffer := pack_buffer s; current_state := next; current_input := c; outp := outp s ++ [d] |}.

(** The last packet of a pack leaves its flag set. *)
(* @src ip/hls/compress/compress.cpp 172-183 write_out last packet *)
Definition emit_last (s : system) : system :=
  {| inp := inp s; time_acc := time_acc s; pack_buffer := pack_buffer s; current_state := S_IDLE; current_input := current_input s;
     outp := outp s ++ [fst (pop (current_input s))] |}.

(* @src ip/hls/compress/compress.cpp 150-251 write_out *)
Definition write_out (out_full : bool) (s : system) : system :=
  match current_state s with
  | S_IDLE => load S_IDLE s
  | S_ONE_LEFT => if out_full then s else load S_IDLE (emit_last s)
  | S_TWO_LEFT => if out_full then s else emit S_ONE_LEFT s
  | S_THREE_LEFT => if out_full then s else emit S_TWO_LEFT s
  | S_FOUR_LEFT => if out_full then s else emit S_THREE_LEFT s
  end.

(* @src ip/hls/compress/compress.cpp 256-266 compress *)
Definition compress (out_full : bool) (s : system) : system := write_out out_full (convert_inputs s).
End Stages.

(** Before the first call. *)
(* @src ip/hls/compress/compress.hpp 207-212 pack_packet_t() *)
Definition initial : system := {|
  inp := []; time_acc := 0; pack_buffer := []; current_state := S_IDLE;
  current_input := {| pack_packet.data0 := 0; pack_packet.data1 := 0; pack_packet.data2 := 0; pack_packet.data3 := 0;
                      pack_packet.valid0 := false; pack_packet.valid1 := false; pack_packet.valid2 := false; pack_packet.valid3 := false |};
  outp := []
|}.

(** A record arrives. *)
Definition arrive (i : Z) (s : system) : system :=
  {| inp := inp s ++ [i]; time_acc := time_acc s; pack_buffer := pack_buffer s; current_state := current_state s;
     current_input := current_input s; outp := outp s |}.

(** * The test bench (compress_tb.cpp) *)

Module tb.
(** A record with the given time and latched addresses, all else zero. *)
Definition input (ts : Z) (w0 r0 w1 r1 : option Z) : in_packet.t :=
  let latch (a : option Z) := match a with Some _ => 1 | None => 0 end in {|
  in_packet.logID := 0; in_packet.timestamp := wrap 30 ts; in_packet.loop := 0; in_packet.a0_ext_event := 0;
  in_packet.a0_wr_addr_latch := latch w0; in_packet.a0_first_wr := 0; in_packet.a0_last_wr := 0; in_packet.a0_response := 0;
  in_packet.a0_rd_addr_latch := latch r0; in_packet.a0_first_rd := 0; in_packet.a0_last_rd := 0; in_packet.a0_arlen := 0;
  in_packet.a0_awlen := 0; in_packet.a0_rid := 0; in_packet.a0_arid := 0; in_packet.a0_bid := 0; in_packet.a0_awid := 0;
  in_packet.a0_araddr := wrap 40 (default 0 r0); in_packet.a0_awaddr := wrap 40 (default 0 w0); in_packet.a1_ext_event := 0;
  in_packet.a1_wr_addr_latch := latch w1; in_packet.a1_first_wr := 0; in_packet.a1_last_wr := 0; in_packet.a1_response := 0;
  in_packet.a1_rd_addr_latch := latch r1; in_packet.a1_first_rd := 0; in_packet.a1_last_rd := 0; in_packet.a1_arlen := 0;
  in_packet.a1_awlen := 0; in_packet.a1_rid := 0; in_packet.a1_arid := 0; in_packet.a1_bid := 0; in_packet.a1_awid := 0;
  in_packet.a1_araddr := wrap 40 (default 0 r1); in_packet.a1_awaddr := wrap 40 (default 0 w1)
|}.
Definition expected_output (ts slot write addr : Z) : out_packet.t := {|
  out_packet.logID := 0; out_packet.timestamp := wrap 30 ts; out_packet.loop := 0; out_packet.slot := slot; out_packet.write := write;
  out_packet.ext_event := 0; out_packet.addr_latch := 1; out_packet.first := 0; out_packet.last := 0; out_packet.response := 0;
  out_packet.a_len := 0; out_packet._id := 0; out_packet.a_id := 0; out_packet.a_addr := wrap 40 addr; out_packet.padding := 0
|}.

(** One record of the first loop: the options above 4 are never taken. *)
(* @src ip/hls/compress/compress_tb.cpp 42-89 main option *)
Definition single (i time_acc : Z) : Z * Z :=
  let option := i mod 5 in
  let out slot write := out_packet.to_bits (expected_output time_acc slot write i) in
  if option =? 0 then (in_packet.to_bits (input i (Some i) None None None), out 0 1)
  else if option =? 1 then (in_packet.to_bits (input i None (Some i) None None), out 0 0)
  else if option =? 2 then (in_packet.to_bits (input i None None (Some i) None), out 1 1)
  else if option =? 3 then (in_packet.to_bits (input i None None None (Some i)), out 1 0)
  else
    let packed := put_field 32 32 42 (put_field 0 1 1 (in_packet.to_bits (input i None None None None))) in
    (packed, range 63 0 packed).

(* @src ip/hls/compress/compress_tb.cpp 41-48 main first loop *)
Fixpoint singles (n : nat) (i time_acc : Z) : list (Z * Z) :=
  match n with
  | O => []
  | S n => let time_acc := wrap 30 (time_acc + i) in single i time_acc :: singles n (i + 1) time_acc
  end.

(** One record of the second loop and the packets expected for it. *)
(* @src ip/hls/compress/compress_tb.cpp 263-308 main several outputs *)
Definition several (i j : Z) : Z * list Z :=
  let at_ option := if option <? i then Some (option + i + j) else None in
  let out option slot write :=
    if option <? i then [out_packet.to_bits (expected_output (if option =? 0 then i + j else 0) slot write (option + i + j))] else [] in
  (in_packet.to_bits (input (i + j) (at_ 0) (at_ 1) (at_ 2) (at_ 3)), out 0 0 1 ++ out 1 0 0 ++ out 2 1 1 ++ out 3 1 0).

(* @src ip/hls/compress/compress_tb.cpp 261-312 main second loop *)
Definition severals : list (Z * list Z) :=
  concat (map (fun j => map (fun i => several i j) [2; 3; 4]) [0; 1; 2; 3; 4]).

(* @src ip/hls/compress/compress_tb.cpp 308-308 inputs.write *)
Definition inputs : list Z := map fst (singles 54 0 0) ++ map fst severals.
(* @src ip/hls/compress/compress_tb.cpp 303-303 expected_outputs.write *)
Definition expected_outputs : list Z := map snd (singles 54 0 0) ++ concat (map snd severals).

(** The outputs after the calls; the simulated streams are never full. *)
(* @src ip/hls/compress/compress_tb.cpp 315-318 main run tests *)
Definition outputs : list Z :=
  outp (Nat.iter (2 * length expected_outputs) (compress (S (length inputs)) false) (foldl (fun s i => arrive i s) initial inputs)).

(** The exit code: bits are compared one for one, and the lengths. *)
(* @src ip/hls/compress/compress_tb.cpp 321-358 main check *)
Definition main : Z := if decide (outputs = expected_outputs) then 0 else 1.
End tb.
