(* ===== verification/CompressProofs.v ===== *)
(** The trace compressor: what its output stream holds.

    The bit layouts are inverses; each pack that leaves the first stage holds
    the packets of its record's active channels; the second stage sends the
    packs' packets in order, whatever the schedule of the stages, the arrival
    of records and the stalls of the consumer; and everything comes out once
    the consumer is ready.  The test bench's own expectations disagree. *)
From S2P Require Import Prelude Compress.
Open Scope Z_scope.

(** * Bit layouts *)

Lemma field_skip pos len w v y :
  0 <= w -> w <= pos -> 0 <= len -> in_word w v -> get_field pos len (v + 2 ^ w * y) = get_field (pos - w) len y.
Proof.
  intros Hw Hp Hl Hv. unfold in_word in Hv. rewrite !get_field_div by lia. f_equal.
  replace (2 ^ pos) with (2 ^ w * 2 ^ (pos - w)) by (rewrite <- Z.pow_add_r by lia; f_equal; lia).
  rewrite <- Z.div_div by (try apply Z.pow_nonzero; try apply Z.pow_pos_nonneg; lia).
  assert (0 < 2 ^ w) by (apply Z.pow_pos_nonneg; lia). rewrite (Z.mul_comm _ y), Z.div_add, (Z.div_small v) by lia. done.
Qed.

Lemma field_hit w v y : 0 <= w -> in_word w v -> get_field 0 w (v + 2 ^ w * y) = v.
Proof.
  intros ? Hv. rewrite field_below by lia. rewrite get_field_div by lia. rewrite Z.div_1_r. by apply Z.mod_small.
Qed.

Lemma field_join pos w pos' len n i :
  0 <= pos -> 0 <= w -> 0 <= len -> pos' = pos + w -> n = w + len ->
  get_field pos w i + 2 ^ w * get_field pos' len i = get_field pos n i.
Proof.
  intros ??? -> ->. rewrite !get_field_div by lia. rewrite !Z.pow_add_r by lia.
  rewrite <- Z.div_div by (try apply Z.pow_nonzero; try apply Z.pow_pos_nonneg; lia).
  rewrite Z.rem_mul_r by (try apply Z.pow_nonzero; try apply Z.pow_pos_nonneg; lia). done.
Qed.

Lemma cat_range l : typed l -> Forall (fun '(w, _) => 0 <= w) l -> in_word (foldr (fun '(w, _) n => n + w) 0 l) (cat l).
Proof.
  unfold cat. enough (G : forall n acc, 0 <= n -> in_word n acc -> typed l -> Forall (fun '(w, _) => 0 <= w) l ->
    in_word (n + foldr (fun '(w, _) n => n + w) 0 l) (foldl (fun acc '(w, v) => v + 2 ^ w * acc) acc l)).
  { intros H1 H2. apply (G 0 0); [done|by vm_compute|done|done]. }
  induction l as [|[w v] l IH]; intros n acc Hn Ha H1 H2; simpl; [by rewrite Z.add_0_r|].
  apply Forall_cons in H1 as [H1 H1'], H2 as [H2 H2'].
  replace (n + (foldr _ 0 l + w)) with ((w + n) + foldr (fun '(w, _) n => n + w) 0 l) by lia.
  apply IH; [lia| |done|done]. by apply pack_range.
Qed.

(** Fields with their positions and lengths as numerals. *)
Ltac norm_fields :=
  unfold range;
  repeat match goal with
  | |- context [get_field ?p (?a - ?b + 1) ?i] => let n := eval vm_compute in (a - b + 1) in change (a - b + 1) with n
  end.

(** Read every field of a concatenation back. *)
Ltac read_fields :=
  norm_fields;
  repeat match goal with
  | |- context [get_field 0 ?w (?v + 2 ^ ?w * ?y)] => rewrite (field_hit w v y) by (lia || assumption)
  | |- context [get_field ?p ?len (?v + 2 ^ ?w * ?y)] =>
      rewrite (field_skip p len w v y) by (lia || assumption);
      let q := eval vm_compute in (p - w) in change (p - w) with q
  end.

(** Put the fields of a number side by side again. *)
Ltac join_fields :=
  norm_fields; rewrite ?Z.mul_0_r, ?Z.add_0_r;
  repeat match goal with
  | |- context [get_field ?p ?w ?i + 2 ^ ?w * get_field ?q ?l ?i] =>
      let n := eval vm_compute in (w + l) in rewrite (field_join p w q l n i) by lia
  end.

Ltac split_typed H :=
  unfold typed in H; repeat (apply Forall_cons in H; let H1 := fresh "F" in destruct H as [H1 H]).
Ltac open_bits := cbn -[Z.pow get_field Z.mul Z.add Z.sub in_word].

Lemma whole_field n i : in_word n i -> 0 <= n -> get_field 0 n i = i.
Proof. intros Hi Hn. rewrite get_field_div by lia. rewrite Z.div_1_r. by apply Z.mod_small. Qed.

Lemma in_packet_bits i : in_word 320 i -> in_packet.to_bits (in_packet.of_bits i) = i.
Proof.
  intros Hi. unfold in_packet.to_bits, in_packet.fields, in_packet.of_bits, cat, range. open_bits.
  join_fields. by apply whole_field.
Qed.

Lemma out_packet_bits i : in_word 128 i -> out_packet.to_bits (out_packet.of_bits i) = i.
Proof.
  intros Hi. unfold out_packet.to_bits, out_packet.fields, out_packet.of_bits, cat, range. open_bits.
  join_fields. by apply whole_field.
Qed.

Lemma in_packet_fields p : typed (in_packet.fields p) -> in_packet.of_bits (in_packet.to_bits p) = p.
Proof.
  intros H. unfold in_packet.to_bits, in_packet.of_bits, cat. destruct p. cbn in H. split_typed H. cbn [in_packet.fields foldl].
  open_bits. read_fields. done.
Qed.

Lemma out_packet_fields p : typed (out_packet.fields p) -> out_packet.of_bits (out_packet.to_bits p) = p.
Proof.
  intros H. unfold out_packet.to_bits, out_packet.of_bits, cat. destruct p. cbn in H. split_typed H. cbn [out_packet.fields foldl].
  open_bits. read_fields. done.
Qed.

Definition pack_typed (p : pack_packet.t) : Prop := typed (pack_packet.fields p).

Lemma truthy_b2z b : truthy (Z.b2z b) = b.
Proof. by destruct b. Qed.

Lemma pack_packet_fields p : pack_typed p -> pack_packet.of_bits (pack_packet.to_bits p) = p.
Proof.
  intros H. unfold pack_packet.to_bits, pack_packet.of_bits, cat. destruct p. unfold pack_typed in H. cbn in H. split_typed H. cbn [pack_packet.fields foldl].
  open_bits. read_fields. by rewrite !truthy_b2z.
Qed.

(** Reading a record out of any number gives fields of their widths. *)
Ltac typed_of_bits := repeat (apply Forall_cons; split; [by apply get_field_range|]); by apply Forall_nil.

Lemma in_packet_typed i : typed (in_packet.fields (in_packet.of_bits i)).
Proof. unfold typed, in_packet.fields, in_packet.of_bits, range. open_bits. typed_of_bits. Qed.

Lemma pack_packet_typed i : pack_typed (pack_packet.of_bits i).
Proof.
  unfold pack_typed, typed, pack_packet.fields, pack_packet.of_bits, range. open_bits.
  repeat (apply Forall_cons; split; [first [by apply get_field_range|by destruct (truthy _)]|]). by apply Forall_nil.
Qed.

Lemma out_to_bits_range o : typed (out_packet.fields o) -> in_word 128 (out_packet.to_bits o).
Proof. intros H. apply (cat_range _ H). by repeat (apply Forall_cons; split; [lia|]); apply Forall_nil. Qed.

Lemma pack_to_bits_range p : pack_typed p -> in_word 516 (pack_packet.to_bits p).
Proof. intros H. apply (cat_range _ H). by repeat (apply Forall_cons; split; [lia|]); apply Forall_nil. Qed.

(** The packets of a record's channels fit their widths, since the narrow
    identifiers of the second port are widened. *)
Definition out_typed (o : out_packet.t) : Prop := typed (out_packet.fields o).

Lemma outputs_typed i : let p := in_packet.of_bits i in
  out_typed (output0 p) /\ out_typed (output1 p) /\ out_typed (output2 p) /\ out_typed (output3 p).
Proof.
  pose proof (in_packet_typed i) as H. set (p := in_packet.of_bits i) in *. clearbody p. unfold in_packet.fields in H. split_typed H. clear H.
  split_and!; unfold out_typed, typed, out_packet.fields, output0, output1, output2, output3;
  cbn [out_packet.padding out_packet.a_addr out_packet.a_id out_packet._id out_packet.a_len out_packet.response out_packet.last
       out_packet.first out_packet.addr_latch out_packet.ext_event out_packet.write out_packet.slot out_packet.loop
       out_packet.timestamp out_packet.logID];
  repeat (apply Forall_cons; split; [first [assumption | by apply (in_word_weaken 3) | by vm_compute] |]); by apply Forall_nil.
Qed.

Lemma set_time_typed t l o : in_word 30 t -> in_word 1 l -> out_typed o -> out_typed (set_time t l o).
Proof.
  intros Ht Hl H. unfold out_typed, out_packet.fields in H |- *. split_typed H. clear H. unfold set_time, typed.
  repeat (apply Forall_cons; split; [assumption|]); by apply Forall_nil.
Qed.

(** * What a record becomes *)

(** The packets a pack holds. *)
Definition selected (p : pack_packet.t) : list Z :=
  (if pack_packet.valid0 p then [pack_packet.data0 p] else []) ++ (if pack_packet.valid1 p then [pack_packet.data1 p] else [])
  ++ (if pack_packet.valid2 p then [pack_packet.data2 p] else []) ++ (if pack_packet.valid3 p then [pack_packet.data3 p] else []).

(** ** What a record reports

    A record is about two ports of the monitor, each with a write and a read
    channel: whether an address was latched, the first or the last beat moved
    or a response came, the port's external events, and the burst length, the
    identifiers of the data and of the address, and the address of the
    channel. *)
Record channel := {
  c_latch : Z; c_first : Z; c_last : Z; c_response : Z; c_ext : Z; c_len : Z; c_id : Z; c_aid : Z; c_addr : Z
}.

Definition port0_write (p : in_packet.t) : channel := {|
  c_latch := in_packet.a0_wr_addr_latch p; c_first := in_packet.a0_first_wr p; c_last := in_packet.a0_last_wr p;
  c_response := in_packet.a0_response p; c_ext := in_packet.a0_ext_event p; c_len := in_packet.a0_awlen p;
  c_id := in_packet.a0_bid p; c_aid := in_packet.a0_awid p; c_addr := in_packet.a0_awaddr p |}.
Definition port0_read (p : in_packet.t) : channel := {|
  c_latch := in_packet.a0_rd_addr_latch p; c_first := in_packet.a0_first_rd p; c_last := in_packet.a0_last_rd p;
  c_response := 0; c_ext := in_packet.a0_ext_event p; c_len := in_packet.a0_arlen p;
  c_id := in_packet.a0_rid p; c_aid := in_packet.a0_arid p; c_addr := in_packet.a0_araddr p |}.
Definition port1_write (p : in_packet.t) : channel := {|
  c_latch := in_packet.a1_wr_addr_latch p; c_first := in_packet.a1_first_wr p; c_last := in_packet.a1_last_wr p;
  c_response := in_packet.a1_response p; c_ext := in_packet.a1_ext_event p; c_len := in_packet.a1_awlen p;
  c_id := in_packet.a1_bid p; c_aid := in_packet.a1_awid p; c_addr := in_packet.a1_awaddr p |}.
Definition port1_read (p : in_packet.t) : channel := {|
  c_latch := in_packet.a1_rd_addr_latch p; c_first := in_packet.a1_first_rd p; c_last := in_packet.a1_last_rd p;
  c_response := 0; c_ext := in_packet.a1_ext_event p; c_len := in_packet.a1_arlen p;
  c_id := in_packet.a1_rid p; c_aid := in_packet.a1_arid p; c_addr := in_packet.a1_araddr p |}.

(** Port, write or read, channel; and something happened on it. *)
Definition channels (p : in_packet.t) : list (Z * Z * channel) :=
  [(0, 1, port0_write p); (0, 0, port0_read p); (1, 1, port1_write p); (1, 0, port1_read p)].
Definition happened (x : Z * Z * channel) : bool :=
  let c := snd x in truthy (c_latch c) || truthy (c_first c) || truthy (c_last c) || truthy (c_response c).

(** The packet that reports a channel, with a time and an overflow bit, and
    the channel it reports. *)
Definition packet (time loop : Z) (x : Z * Z * channel) : out_packet.t :=
  let '(slot, write, c) := x in {|
  out_packet.logID := 0; out_packet.timestamp := time; out_packet.loop := loop; out_packet.slot := slot; out_packet.write := write;
  out_packet.ext_event := c_ext c; out_packet.addr_latch := c_latch c; out_packet.first := c_first c; out_packet.last := c_last c;
  out_packet.response := c_response c; out_packet.a_len := c_len c; out_packet._id := c_id c; out_packet.a_id := c_aid c;
  out_packet.a_addr := c_addr c; out_packet.padding := 0 |}.
Definition reported (o : out_packet.t) : channel := {|
  c_latch := out_packet.addr_latch o; c_first := out_packet.first o; c_last := out_packet.last o;
  c_response := out_packet.response o; c_ext := out_packet.ext_event o; c_len := out_packet.a_len o;
  c_id := out_packet._id o; c_aid := out_packet.a_id o; c_addr := out_packet.a_addr o |}.

(** The first packet of a record has the time; the others none. *)
Definition stamped (t l : Z) (xs : list (Z * Z * channel)) : list out_packet.t :=
  match xs with x :: xs => packet t l x :: map (packet 0 0) xs | [] => [] end.

(** What a reader of the packets finds about a channel. *)
Definition read_back (slot write : Z) (os : list out_packet.t) : option channel :=
  head (omap (fun o => if (out_packet.slot o =? slot) && (out_packet.write o =? write) then Some (reported o) else None) os).

(** The time so far and the packets of one record: a software record is its
    low half. *)
Definition event (acc i : Z) : Z * list Z :=
  let p := in_packet.of_bits i in
  if truthy (in_packet.logID p) then (acc, [range 63 0 i])
  else let t := wrap 30 (acc + in_packet.timestamp p) in
       (t, map out_packet.to_bits (stamped t (in_packet.loop p) (filter (fun x => happened x = true) (channels p)))).

Fixpoint events (acc : Z) (ins : list Z) : list Z :=
  match ins with [] => [] | i :: ins => snd (event acc i) ++ events (fst (event acc i)) ins end.
Definition time_after (acc : Z) (ins : list Z) : Z := foldl (fun acc i => fst (event acc i)) acc ins.

Lemma events_snoc acc ins i : events acc (ins ++ [i]) = events acc ins ++ snd (event (time_after acc ins) i).
Proof. revert acc. induction ins as [|j ins IH]; intros acc; simpl; [by rewrite app_nil_r|]. by rewrite IH, app_assoc. Qed.

Lemma time_after_snoc acc ins i : time_after acc (ins ++ [i]) = fst (event (time_after acc ins) i).
Proof. unfold time_after. by rewrite foldl_app. Qed.

(** The model's packets are those of the channels. *)
Lemma outputs_packets p : in_packet.logID p = 0 ->
  output0 p = packet 0 0 (0, 1, port0_write p) /\ output1 p = packet 0 0 (0, 0, port0_read p) /\
  output2 p = packet 0 0 (1, 1, port1_write p) /\ output3 p = packet 0 0 (1, 0, port1_read p).
Proof. intros H. unfold output0, output1, output2, output3. by rewrite !H. Qed.

Lemma set_time_packet t l x : set_time t l (packet 0 0 x) = packet t l x.
Proof. by destruct x as [[??] ?]. Qed.

Lemma not_truthy v : truthy v = false -> v = 0.
Proof. unfold truthy. intros H%negb_false_iff. by apply Z.eqb_eq. Qed.

Lemma happened_read s w (c : channel) : c_response c = 0 ->
  happened (s, w, c) = truthy (c_latch c) || truthy (c_first c) || truthy (c_last c).
Proof. intros H. unfold happened. simpl. rewrite H. apply orb_false_r. Qed.

(** The first stage packs the packets of the event. *)
Lemma convert_event acc i : (fst (convert acc i), selected (snd (convert acc i))) = event acc i.
Proof.
  unfold convert, event. set (p := in_packet.of_bits i). destruct (truthy (in_packet.logID p)) eqn:El; [done|]. apply not_truthy in El.
  destruct (outputs_packets p El) as (-> & -> & -> & ->). unfold channels. rewrite !filter_cons, filter_nil.
  change (truthy (in_packet.a0_wr_addr_latch p) || _ || _ || _) with (happened (0, 1, port0_write p)).
  change (truthy (in_packet.a1_wr_addr_latch p) || _ || _ || _) with (happened (1, 1, port1_write p)).
  pose proof (happened_read 0 0 (port0_read p) eq_refl) as E1. pose proof (happened_read 1 0 (port1_read p) eq_refl) as E3.
  unfold port0_read at 2 3 4 in E1. unfold port1_read at 2 3 4 in E3. cbn [c_latch c_first c_last] in E1, E3. rewrite <- E1, <- E3.
  destruct (happened (0, 1, _)), (happened (0, 0, _)), (happened (1, 1, _)), (happened (1, 0, _)); by rewrite ?set_time_packet.
Qed.

Lemma convert_typed acc i : in_word 30 acc -> in_word 30 (fst (convert acc i)) /\ pack_typed (snd (convert acc i)).
Proof.
  intros Ha. unfold convert. destruct (outputs_typed i) as (T0 & T1 & T2 & T3).
  assert (Hl : in_word 1 (in_packet.loop (in_packet.of_bits i))) by (by apply get_field_range).
  set (p := in_packet.of_bits i) in *.
  assert (Ht : in_word 30 (wrap 30 (acc + in_packet.timestamp p))) by (by apply wrap_range).
  pose proof (fun o => set_time_typed _ _ o Ht Hl) as HT.
  assert (Hb : forall b, in_word 1 (Z.b2z b)) by (by intros []).
  destruct (truthy (in_packet.logID p)).
  - split; [done|]. unfold pack_typed, pack_packet.fields, typed. cbn [fst snd pack_packet.valid0 pack_packet.valid1 pack_packet.valid2
      pack_packet.valid3 pack_packet.data0 pack_packet.data1 pack_packet.data2 pack_packet.data3].
    repeat (apply Forall_cons; split; [first [apply Hb | split; lia | apply (in_word_weaken 64); [lia|by apply get_field_range]]|]). by apply Forall_nil.
  - set (v0 := _ || _ || _ || truthy (in_packet.a0_response p)). set (v1 := _ || truthy (in_packet.a0_last_rd p)).
    set (v2 := _ || _ || _ || truthy (in_packet.a1_response p)). set (v3 := _ || truthy (in_packet.a1_last_rd p)).
    destruct v0, v1, v2, v3; (split; [exact Ht|]); unfold pack_typed, pack_packet.fields, typed; cbn [fst snd pack_packet.valid0 pack_packet.valid1 pack_packet.valid2
      pack_packet.valid3 pack_packet.data0 pack_packet.data1 pack_packet.data2 pack_packet.data3];
    (repeat (apply Forall_cons; split; [first [apply Hb | apply out_to_bits_range; first [assumption | by apply HT]]|])); by apply Forall_nil.
Qed.

(** * The stream of the second stage *)

(** Packets of the pack being sent. *)
Definition remaining (s : system) : list Z :=
  match current_state s with S_IDLE => [] | _ => selected (current_input s) end.

(** The state counts the packets left. *)
Definition state_typed (st : state) (c : pack_packet.t) : Prop :=
  st = S_IDLE \/ 0 < pack_packet.num_left c /\ st = to_state (pack_packet.num_left c).

(** What every reachable state satisfies, [ins] the records so far. *)
Record good (ins : list Z) (s : system) : Prop := {
  good_stream : outp s ++ remaining s ++ concat (map (fun b => selected (pack_packet.of_bits b)) (pack_buffer s))
                ++ events (time_acc s) (inp s) = events 0 ins;
  good_time : time_after (time_acc s) (inp s) = time_after 0 ins;
  good_acc : in_word 30 (time_acc s);
  good_packs : Forall (in_word 516) (pack_buffer s);
  good_state : state_typed (current_state s) (current_input s);
  good_current : pack_typed (current_input s)
}.

Inductive reach (depth : nat) : list Z -> system -> Prop :=
  | reach_initial : reach depth [] initial
  | reach_arrive ins s i : reach depth ins s -> reach depth (ins ++ [i]) (arrive i s)
  | reach_convert ins s : reach depth ins s -> reach depth ins (convert_inputs depth s)
  | reach_write ins s full : reach depth ins s -> reach depth ins (write_out full s).

Lemma num_left_range p : 0 <= pack_packet.num_left p <= 4.
Proof. unfold pack_packet.num_left. destruct p as [???? [] [] [] []]; cbn; lia. Qed.

Lemma length_selected p : Z.of_nat (length (selected p)) = pack_packet.num_left p.
Proof. by destruct p as [???? [] [] [] []]. Qed.

(** Sending takes the first packet of the pack. *)
Lemma pop_selected c : 0 < pack_packet.num_left c ->
  selected c = fst (pop c) :: selected (snd (pop c)) /\ pack_packet.num_left (snd (pop c)) = pack_packet.num_left c - 1.
Proof. destruct c as [???? [] [] [] []]; cbn; try lia; by split. Qed.

Lemma pop_typed c : pack_typed c -> pack_typed (snd (pop c)).
Proof.
  unfold pack_typed, pack_packet.fields. intros H. split_typed H. clear H. unfold pop.
  destruct c as [???? [] [] [] []]; unfold typed; cbn in *;
  (repeat (apply Forall_cons; split; [first [assumption | by vm_compute]|])); by apply Forall_nil.
Qed.

Ltac small_state := unfold to_state; repeat match goal with |- context [?a =? ?b] => destruct (Z.eqb_spec a b) end.

Lemma to_state_busy n : 0 < n <= 4 -> to_state n <> S_IDLE.
Proof. intros Hn. small_state; (lia || done). Qed.

Lemma to_state_inj n m : 0 <= n <= 4 -> 0 <= m <= 4 -> to_state n = to_state m -> n = m.
Proof. intros Hn Hm. small_state; intros E; (lia || done). Qed.

Lemma left_state s n : state_typed (current_state s) (current_input s) -> 0 < n <= 4 -> current_state s = to_state n ->
  pack_packet.num_left (current_input s) = n.
Proof.
  intros [H|[Hn H]] Hr Hs; [by destruct (to_state_busy n Hr); congruence|].
  apply to_state_inj; [apply num_left_range|lia|congruence].
Qed.

Lemma compress_good_initial : good [] initial.
Proof. constructor; try done; [by left|]. repeat (apply Forall_cons; split; [by vm_compute|]). by apply Forall_nil. Qed.

Lemma compress_good_arrive ins s i : good ins s -> good (ins ++ [i]) (arrive i s).
Proof.
  intros [H1 H2 H3 H4 H5 H6]. constructor; try done; cbn [arrive inp time_acc pack_buffer outp current_state current_input].
  - rewrite !events_snoc, <- H1, H2. unfold remaining. cbn [arrive current_state current_input]. by rewrite !app_assoc.
  - by rewrite !time_after_snoc, H2.
Qed.

Lemma good_convert depth ins s : good ins s -> good ins (convert_inputs depth s).
Proof.
  intros [H1 H2 H3 H4 H5 H6]. unfold convert_inputs. destruct (inp s) as [|i rest] eqn:Ei; [by constructor; rewrite ?Ei|].
  destruct (length (pack_buffer s) <? depth)%nat; [|by constructor; rewrite ?Ei].
  pose proof (convert_event (time_acc s) i) as Hc. destruct (convert_typed (time_acc s) i H3) as [Ht Hp].
  destruct (convert (time_acc s) i) as [t p]. cbn [fst snd] in *.
  constructor; cbn [inp time_acc pack_buffer outp current_state current_input]; try done.
  - rewrite <- H1. unfold remaining. cbn [current_state current_input events]. rewrite <- Hc. cbn [fst snd].
    rewrite map_app, concat_app. cbn [map concat]. rewrite pack_packet_fields by done. by rewrite app_nil_r, <- !app_assoc.
  - rewrite <- H2. unfold time_after. cbn [foldl]. by rewrite <- Hc.
  - apply Forall_app. split; [done|]. apply Forall_singleton. by apply pack_to_bits_range.
Qed.

(** Taking the next pack when nothing of the last one is left. *)
Lemma good_load ins s :
  good ins s -> current_state s = S_IDLE -> good ins (load S_IDLE s).
Proof.
  intros [H1 H2 H3 H4 H5 H6] Hs. unfold load. destruct (pack_buffer s) as [|b q] eqn:Eb.
  - constructor; cbn [inp time_acc pack_buffer outp current_state current_input]; try done; [|by left].
    rewrite <- H1. unfold remaining. by rewrite Hs.
  - apply Forall_cons in H4 as [_ H4].
    constructor; cbn [inp time_acc pack_buffer outp current_state current_input]; try done.
    + rewrite <- H1. unfold remaining. cbn [current_state current_input]. rewrite Hs. cbn [map concat app].
      pose proof (length_selected (pack_packet.of_bits b)) as Hl. pose proof (num_left_range (pack_packet.of_bits b)) as Hr.
      destruct (decide (pack_packet.num_left (pack_packet.of_bits b) = 0)) as [E|E].
      * rewrite E in Hl |- *. destruct (selected (pack_packet.of_bits b)); [done|simpl in Hl; lia].
      * pose proof (to_state_busy (pack_packet.num_left (pack_packet.of_bits b))) as Hb.
        destruct (to_state _); [by destruct Hb; [lia|]|by rewrite <- ?app_assoc..].
    + unfold state_typed. pose proof (num_left_range (pack_packet.of_bits b)) as Hr.
      destruct (decide (pack_packet.num_left (pack_packet.of_bits b) = 0)) as [E|E]; [left; by rewrite E|right; by split; [lia|]].
    + apply pack_packet_typed.
Qed.

Lemma good_emit ins s n : good ins s -> 1 < n <= 4 -> current_state s = to_state n -> good ins (emit (to_state (n - 1)) s).
Proof.
  intros [H1 H2 H3 H4 H5 H6] Hn Hs. pose proof (left_state s n H5 ltac:(lia) Hs) as En.
  destruct (pop_selected (current_input s)) as [P1 P2]; [lia|]. pose proof (pop_typed _ H6) as P3.
  unfold emit. destruct (pop (current_input s)) as [d c].
  cbn [fst snd] in *. constructor; cbn [inp time_acc pack_buffer outp current_state current_input]; try done.
  - rewrite <- H1. unfold remaining. cbn [current_state current_input]. rewrite Hs, P1. rewrite <- !app_assoc. f_equal.
    pose proof (to_state_busy n ltac:(lia)). pose proof (to_state_busy (n - 1) ltac:(lia)).
    by destruct (to_state n), (to_state (n - 1)).
  - right. rewrite P2, En. split; [lia|done].
Qed.

Lemma good_emit_last ins s : good ins s -> current_state s = S_ONE_LEFT -> good ins (emit_last s).
Proof.
  intros [H1 H2 H3 H4 H5 H6] Hs. pose proof (left_state s 1 H5 ltac:(lia) Hs) as En.
  destruct (pop_selected (current_input s)) as [P1 P2]; [lia|].
  assert (E2 : selected (snd (pop (current_input s))) = []).
  { pose proof (length_selected (snd (pop (current_input s)))). destruct (selected (snd (pop (current_input s)))); [done|]. cbn [length] in *. lia. }
  constructor; cbn [emit_last inp time_acc pack_buffer outp current_state current_input]; try done; [|by left].
  rewrite <- H1. unfold remaining. cbn [emit_last current_state]. rewrite Hs, P1, E2. by rewrite <- !app_assoc.
Qed.

Lemma good_write full ins s : good ins s -> good ins (write_out full s).
Proof.
  intros Hg. unfold write_out. destruct (current_state s) eqn:Es; [by apply good_load| |..]; (destruct full; [done|]).
  - by apply good_load; [apply good_emit_last|].
  - by apply (good_emit ins s 2).
  - by apply (good_emit ins s 3).
  - by apply (good_emit ins s 4).
Qed.

Lemma compress_reach_good depth ins s : reach depth ins s -> good ins s.
Proof. induction 1; eauto using compress_good_initial, compress_good_arrive, good_convert, good_write. Qed.

(** * Properties *)

Definition idle (s : system) : Prop := inp s = [] /\ pack_buffer s = [] /\ current_state s = S_IDLE.

Lemma good_idle ins s : good ins s -> idle s -> outp s = events 0 ins.
Proof.
  intros [H1 _ _ _ _ _] (H2 & H3 & H4). rewrite <- H1. unfold remaining. rewrite H2, H3, H4. cbn [map concat events]. by rewrite !app_nil_r.
Qed.

(** C6: Whatever the schedule of the stages, of arrivals and of stalls, what the
    compressor has sent is a prefix of the packets of the records so far, one
    for each active channel, in order; once nothing is on the way it is all
    of them. *)
Theorem compress_in_order depth ins s :
  reach depth ins s -> outp s `prefix_of` events 0 ins /\ (idle s -> outp s = events 0 ins).
Proof.
  intros Hr%compress_reach_good. split; [|by apply good_idle]. destruct Hr as [H1 _ _ _ _ _]. rewrite <- H1. by apply prefix_app_r.
Qed.

(** Calls that are enough to empty the compressor. *)
Definition work_left (s : system) : nat := (5 * length (inp s) + 5 * length (pack_buffer s) + match current_state s with S_IDLE => 0 | S_ONE_LEFT => 1 | S_TWO_LEFT => 2 | S_THREE_LEFT => 3 | S_FOUR_LEFT => 4 end)%nat.

Lemma load_left s : current_state s = S_IDLE -> pack_buffer s <> [] -> (work_left (load S_IDLE s) < work_left s)%nat /\ inp (load S_IDLE s) = inp s.
Proof.
  intros Hs Hb. unfold work_left, load. destruct (pack_buffer s) as [|b q]; [done|]. cbn [inp pack_buffer current_state length]. split; [|done].
  rewrite Hs. destruct (to_state _); lia.
Qed.

Lemma load_left_le s : (work_left (load S_IDLE s) <= work_left s)%nat.
Proof.
  unfold work_left, load. destruct (pack_buffer s) as [|b q]; cbn [inp pack_buffer current_state length]; [destruct (current_state s); lia|].
  destruct (to_state _); lia.
Qed.

Lemma convert_left depth s : (work_left (convert_inputs depth s) <= work_left s)%nat /\
  ((0 < depth)%nat -> inp s <> [] -> pack_buffer (convert_inputs depth s) <> []) /\ (inp s = [] -> convert_inputs depth s = s) /\
  current_state (convert_inputs depth s) = current_state s /\ (pack_buffer s <> [] -> pack_buffer (convert_inputs depth s) <> []).
Proof.
  unfold convert_inputs. destruct (inp s) as [|i rest] eqn:Ei; [done|].
  destruct (Nat.ltb_spec (length (pack_buffer s)) depth) as [Hl|Hl].
  - destruct (convert _ i) as [t p]. unfold work_left. cbn [inp pack_buffer current_state]. rewrite Ei, length_app. cbn [length].
    split_and!; [lia|by destruct (pack_buffer s)|done|done|by destruct (pack_buffer s)].
  - split_and!; try done. intros ? _. destruct (pack_buffer s); [simpl in Hl; lia|done].
Qed.

(** A call with a ready consumer moves on. *)
Lemma compress_left depth s : (0 < depth)%nat -> ~ idle s -> (work_left (compress depth false s) < work_left s)%nat.
Proof.
  intros Hd Hi. unfold compress. destruct (convert_left depth s) as (H1 & H2 & H3 & H4 & H5). set (s' := convert_inputs depth s) in *.
  unfold write_out. destruct (current_state s') eqn:Es.
  - assert (Hb : pack_buffer s' <> []).
    { destruct (pack_buffer s) as [|b q] eqn:Eb; [|by apply H5]. destruct (inp s) as [|i l] eqn:Ei; [|by apply H2].
      exfalso. apply Hi. split_and!; [done|done|congruence]. }
    pose proof (load_left s' Es Hb). lia.
  - pose proof (load_left_le (emit_last s')). unfold work_left in H |- *; cbn [emit_last inp pack_buffer current_state] in H. unfold work_left in H1. rewrite Es in H1. lia.
  - unfold emit. destruct (pop _). unfold work_left in *. cbn [inp pack_buffer current_state]. rewrite Es in H1. lia.
  - unfold emit. destruct (pop _). unfold work_left in *. cbn [inp pack_buffer current_state]. rewrite Es in H1. lia.
  - unfold emit. destruct (pop _). unfold work_left in *. cbn [inp pack_buffer current_state]. rewrite Es in H1. lia.
Qed.

Lemma idle_left s : work_left s = 0%nat -> idle s.
Proof. unfold work_left, idle. destruct (inp s), (pack_buffer s), (current_state s); cbn; intros; try lia; done. Qed.

Lemma idle_compress depth s : idle s -> outp (compress depth false s) = outp s /\ idle (compress depth false s).
Proof.
  intros (H1 & H2 & H3). unfold compress, convert_inputs. rewrite H1. unfold write_out. rewrite H3. unfold load. rewrite H2. done.
Qed.

Lemma compress_idle_dec s : idle s \/ ~ idle s.
Proof. unfold idle. destruct (inp s), (pack_buffer s), (current_state s); try (by left); right; by intros (? & ? & ?). Qed.

(** C23: With a consumer that is ready, enough calls of the compressor send every
    packet of every record. *)
Theorem compress_drains depth ins s n :
  reach depth ins s -> (0 < depth)%nat -> (5 * length (inp s) + 5 * length (pack_buffer s) + 4 <= n)%nat ->
  outp (Nat.iter n (compress depth false) s) = events 0 ins.
Proof.
  intros Hr%compress_reach_good Hd Hn. assert (Hl : (work_left s <= n)%nat) by (etrans; [|exact Hn]; unfold work_left; destruct (current_state s); lia). clear Hn.
  enough (G : forall n s, (work_left s <= n)%nat -> good ins s -> good ins (Nat.iter n (compress depth false) s) /\ idle (Nat.iter n (compress depth false) s)).
  { destruct (G n s Hl Hr). by apply good_idle. }
  clear n s Hr Hl. induction n as [|n IH]; intros s Hl Hg; [split; [done|]; change (idle s); apply idle_left; lia|].
  rewrite Nat.iter_succ_r. apply IH; [|by apply good_write, good_convert].
  destruct (compress_idle_dec s) as [Hi|Hi]; [|pose proof (compress_left depth s Hd Hi); lia].
  destruct (idle_compress depth s Hi) as [_ (H1 & H2 & H3)]. unfold work_left. rewrite H1, H2, H3. cbn [length]. lia.
Qed.

Lemma event_typed acc i : in_word 30 acc -> in_word 30 (fst (event acc i)) /\ Forall (in_word 128) (snd (event acc i)).
Proof.
  intros Ha. rewrite <- convert_event. cbn [fst snd]. destruct (convert_typed acc i Ha) as [H1 H]. split; [done|].
  unfold pack_typed, pack_packet.fields in H. split_typed H. clear H. unfold selected.
  repeat (apply Forall_app; split); (match goal with |- Forall _ (if ?b then _ else _) => destruct b end); first [by apply Forall_singleton|by apply Forall_nil].
Qed.

Lemma events_typed acc ins : in_word 30 acc -> Forall (in_word 128) (events acc ins).
Proof.
  revert acc. induction ins as [|i ins IH]; intros acc Ha; [by apply Forall_nil|]. cbn [events].
  destruct (event_typed acc i Ha). apply Forall_app. auto.
Qed.

(** C30: Every reachable state is well typed: the time has 30 bits, what is queued
    516 and what is sent 128, and the state of the second stage is the count
    of valid packets in its pack, so it never sends a packet that is not
    there. *)
Theorem compress_typed depth ins s :
  reach depth ins s ->
  in_word 30 (time_acc s) /\ Forall (in_word 516) (pack_buffer s) /\ Forall (in_word 128) (outp s) /\
  state_typed (current_state s) (current_input s).
Proof.
  intros Hr%compress_reach_good. destruct Hr as [H1 _ H3 H4 H5 _]. split_and!; try done.
  assert (Hp : Forall (in_word 128) (events 0 ins)) by (apply events_typed; by vm_compute). rewrite <- H1 in Hp. by apply Forall_app in Hp as [].
Qed.

(** Every packet of a record fits its layout. *)
Lemma stamped_typed p t l (xs : list (Z * Z * channel)) :
  typed (in_packet.fields p) -> in_packet.logID p = 0 -> in_word 30 t -> in_word 1 l ->
  (forall x, x ∈ xs -> x ∈ channels p) -> Forall out_typed (stamped t l xs).
Proof.
  intros Hp Hid Ht Hl Hx. pose proof (outputs_typed (in_packet.to_bits p)) as HT. cbv zeta in HT. rewrite in_packet_fields in HT by done.
  destruct (outputs_packets p Hid) as (E0 & E1 & E2 & E3). rewrite E0, E1, E2, E3 in HT. destruct HT as (T0 & T1 & T2 & T3).
  assert (Hc : forall x, x ∈ channels p -> out_typed (packet 0 0 x)).
  { intros x Hxc. unfold channels in Hxc. rewrite !elem_of_cons, elem_of_nil in Hxc. by destruct Hxc as [->|[->|[->|[->|[]]]]]. }
  destruct xs as [|x xs]; [by apply Forall_nil|]. cbn [stamped]. apply Forall_cons. split.
  - rewrite <- set_time_packet. apply set_time_typed; [done..|]. apply Hc, Hx. by left.
  - apply Forall_fmap, Forall_forall. intros y Hy. apply Hc, Hx. by right.
Qed.

(** A channel is found in the packets of those that something happened on. *)
Lemma read_back_stamped p t l x : x ∈ channels p ->
  read_back (fst (fst x)) (snd (fst x)) (stamped t l (filter (fun x => happened x = true) (channels p))) =
  if happened x then Some (snd x) else None.
Proof.
  unfold channels. rewrite !filter_cons, filter_nil. intros Hx. rewrite !elem_of_cons, elem_of_nil in Hx.
  destruct Hx as [->|[->|[->|[->|[]]]]]; cbn [fst snd];
  destruct (happened (0, 1, _)), (happened (0, 0, _)), (happened (1, 1, _)), (happened (1, 0, _)); reflexivity.
Qed.

(** C14: Nothing of an active channel is lost: a bus record, of fields that
    fit their widths, becomes one packet for each channel something happened on, write then read of either
    port, with that channel's flags, external events, length, identifiers and
    address, the first with the record's overflow bit and the time
    accumulated so far and the others with neither; so a reader of the
    packets finds every such channel as it was in the record, and no other.  A
    software record is kept in its low half. *)
Theorem convert_lossless acc p :
  in_word 30 acc -> typed (in_packet.fields p) ->
  let os := map out_packet.of_bits (selected (snd (convert acc (in_packet.to_bits p)))) in
  if truthy (in_packet.logID p) then os = [out_packet.of_bits (range 63 0 (in_packet.to_bits p))]
  else
    os = stamped (wrap 30 (acc + in_packet.timestamp p)) (in_packet.loop p) (filter (fun x => happened x = true) (channels p)) /\
    forall slot write c, (slot, write, c) ∈ channels p -> read_back slot write os = if happened (slot, write, c) then Some c else None.
Proof.
  intros Ha Hp os. pose proof (f_equal snd (convert_event acc (in_packet.to_bits p))) as E. cbn [snd] in E.
  subst os. rewrite E. unfold event. rewrite in_packet_fields by done. destruct (truthy (in_packet.logID p)) eqn:El; [done|].
  apply not_truthy in El. cbn [snd].
  assert (Hl : in_word 1 (in_packet.loop p)) by (unfold in_packet.fields in Hp; split_typed Hp; done).
  set (xs := stamped _ _ _). assert (Hxs : map out_packet.of_bits (map out_packet.to_bits xs) = xs).
  { rewrite map_map. transitivity (map id xs); [|apply map_id]. apply map_ext_Forall.
    eapply Forall_impl; [|intros o; apply out_packet_fields].
    apply (stamped_typed p); [done..|by apply wrap_range|done|]. intros x [_ Hx]%list_elem_of_filter. done. }
  rewrite Hxs. split; [done|]. intros slot write c Hc. exact (read_back_stamped p _ _ (slot, write, c) Hc).
Qed.

(** The test bench fails: it adds a software record's time and expects the
    time of the later records not to be accumulated, while the compressor
    does neither. *)
Theorem testbench_fails :
  tb.main = 1 /\ length tb.outputs = length tb.expected_outputs /\
  map (fun o => out_packet.timestamp (out_packet.of_bits o)) (take 6 tb.outputs) = [0; 1; 3; 6; 4; 11] /\
  map (fun o => out_packet.timestamp (out_packet.of_bits o)) (take 6 tb.expected_outputs) = [0; 1; 3; 6; 4; 15].
Proof. by vm_compute. Qed.

(** A record with a write and a read on the first port, through the stages. *)
Definition record0 : Z := in_packet.to_bits (tb.input 7 (Some 64) (Some 128) None None).
Definition state0 : system := write_out false (write_out true (write_out false (convert_inputs 2 (arrive record0 initial)))).

Lemma compress_reach0 : reach 2 [record0] state0.
Proof. unfold state0. repeat apply reach_write. apply reach_convert. apply (reach_arrive 2 [] initial). apply reach_initial. Qed.

Lemma compress_in_order_witness : outp state0 `prefix_of` events 0 [record0] /\ (idle state0 -> outp state0 = events 0 [record0]).
Proof. apply (compress_in_order 2). exact compress_reach0. Defined.

Lemma compress_drains_witness : outp (Nat.iter 4 (compress 2 false) state0) = events 0 [record0].
Proof. apply (compress_drains 2 [record0] state0 4); [exact compress_reach0|lia|vm_compute; lia]. Defined.

Lemma compress_typed_witness : in_word 30 (time_acc state0) /\ Forall (in_word 516) (pack_buffer state0) /\ Forall (in_word 128) (outp state0) /\
  state_typed (current_state state0) (current_input state0).
Proof. apply (compress_typed 2 [record0]). exact compress_reach0. Defined.

Lemma convert_lossless_witness : let p := tb.input 7 (Some 64) (Some 128) None None in
  let os := map out_packet.of_bits (selected (snd (convert 3 (in_packet.to_bits p)))) in
  os = [tb.expected_output 10 0 1 64; tb.expected_output 0 0 0 128] /\ read_back 1 1 os = None.
Proof.
  intros p. assert (Hp : typed (in_packet.fields p)).
  { unfold typed, in_packet.fields. repeat (apply Forall_cons; split; [by vm_compute|]). by apply Forall_nil. }
  destruct (convert_lossless 3 p ltac:(by vm_compute) Hp) as [H1 H2].
  split; [rewrite H1; by vm_compute|]. rewrite (H2 1 1 (port1_write p)); [by vm_compute|]. unfold channels. rewrite !elem_of_cons. auto.
Defined.
