(* ===== verification/EthFifo.v ===== *)
(** The Ethernet interface of the trace (ip/hls/eth_fifo_interface): 128-bit
    words are split into bytes, buffered, and sent as Ethernet frames through
    the transmit FIFO of the processor system, when a frame's worth is
    buffered or after a time without data.

    One call of the top function is one clock cycle.  Its static variables are
    the state; the streams of the synthesis library are lists.  Reading bits
    of an [ap_uint] with the bounds in ascending order, [x(0,7)], is the
    library's business (it is documented to reverse them): [ApUp] has what the
    code relies on. *)
From S2P Require Import Prelude.
Open Scope Z_scope.

(** [up a b x] is [x(a,b)] and [set_up a b x v] is [x] after [x(a,b) = v],
    for [a <= b]: they concern the bits [a] to [b], and an assignment from the
    same range copies them. *)
Class ApUp := {
  up : Z -> Z -> Z -> Z;
  set_up : Z -> Z -> Z -> Z -> Z;
  up_eq a b x y : 0 <= a <= b -> up a b x = up a b y <-> get_field a (b - a + 1) x = get_field a (b - a + 1) y;
  up_range a b x : 0 <= a <= b -> in_word (b - a + 1) (up a b x);
  set_up_copy a b x y : 0 <= a <= b -> set_up a b x (up a b y) = put_field a (b - a + 1) (get_field a (b - a + 1) y) x
}.

Section Eth.
Context `{ApUp}.

(* @src ip/hls/eth_fifo_interface/eth_fifo_interface.hpp 28-28 PACKET_SIZE *)
Definition PACKET_SIZE : Z := 1488.
(* @src ip/hls/eth_fifo_interface/eth_fifo_interface.cpp 43-43 src_mac *)
Definition src_mac : list Z := [0x00; 0x0A; 0x35; 0x03; 0x59; 0xF5].
(* @src ip/hls/eth_fifo_interface/eth_fifo_interface.cpp 45-45 dst_mac *)
Definition dst_mac : list Z := [0xFF; 0xFF; 0xFF; 0xFF; 0xFF; 0xFF].
(* @src ip/hls/eth_fifo_interface/eth_fifo_interface.cpp 47-47 idle_count *)
Definition idle_count : Z := 16000.
(* @src ip/hls/eth_fifo_interface/eth_fifo_interface.cpp 47-47 mac_count *)
Definition mac_count : Z := 6.
(* @src ip/hls/eth_fifo_interface/eth_fifo_interface.cpp 47-47 type_count *)
Definition type_count : Z := 2.
(* @src ip/hls/eth_fifo_interface/eth_fifo_interface.cpp 52-52 depth *)
Definition depth : nat := Z.to_nat 16384.

(* @src ip/hls/eth_fifo_interface/eth_fifo_interface.cpp 42-42 state *)
Inductive state := IDLE | MAC_DST | MAC_SRC | TYPE | PAYLOAD | ZEROS | ID.

(** The sending side: the state machine with its counters and the output
    registers. *)
(* @src ip/hls/eth_fifo_interface/eth_fifo_interface.cpp 83-87 data_ready, tx_valid, sop, eop, tx_data *)
Record tx := {
  current_state : state; count : Z; length_ : Z; ID_num : Z; buffer_data : Z;
  data_ready : Z; tx_valid : bool; sop : bool; eop : bool; tx_data : Z
}.

(** The receiving side: the word being split. *)
(* @src ip/hls/eth_fifo_interface/eth_fifo_interface.cpp 53-55 data_word, data_word_valid, word_byte *)
Record rx := { data_word : Z; data_word_valid : bool; word_byte : Z; buffer_added : bool }.

(* @src ip/hls/eth_fifo_interface/eth_fifo_interface.cpp 51-51 data_buffer *)
Record eth := { data_in : list Z; fsm : tx; split : rx; data_buffer : list Z; buffer_count : Z; last_tx_status_valid : Z }.

(** Before the first call; what has no initial value is zero. *)
(* @src ip/hls/eth_fifo_interface/eth_fifo_interface.cpp 42-87 static variables *)
Definition initial : eth := {|
  data_in := [];
  fsm := {| current_state := IDLE; count := idle_count; length_ := 0; ID_num := 0; buffer_data := 0;
            data_ready := 0; tx_valid := false; sop := false; eop := false; tx_data := 0 |};
  split := {| data_word := 0; data_word_valid := false; word_byte := 0; buffer_added := false |};
  data_buffer := []; buffer_count := 0; last_tx_status_valid := 0
|}.

(** The length field of a frame sent for want of data: whole words, at least
    the shortest frame. *)
(* @src ip/hls/eth_fifo_interface/eth_fifo_interface.cpp 112-114 length *)
Definition timeout_length (buffer_count : Z) : Z :=
  let temp_buffer_count := set_up 4 13 0 (up 4 13 buffer_count) in
  if temp_buffer_count <? 48 then 49 else wrap 16 (temp_buffer_count + 1).

(** The transmit state machine in one cycle: its new state, what is left of
    the buffer and whether a byte was taken.  [None]: a read of an empty
    buffer. *)
(* @src ip/hls/eth_fifo_interface/eth_fifo_interface.cpp 98-220 state machine *)
Definition tx_step (tx_read : bool) (buffer_count : Z) (added : bool) (buf : list Z) (t : tx) : option (tx * list Z * bool) :=
  let packet_buffered := PACKET_SIZE <=? buffer_count in
  let buffer_empty := match buf with [] => true | _ => false end in
  let out st cnt len id bd rdy data s e :=
    {| current_state := st; count := cnt; length_ := len; ID_num := id; buffer_data := bd;
       data_ready := rdy; tx_valid := tx_read; sop := s; eop := e; tx_data := data |} in
  let stay st cnt rdy data s e := out st cnt (length_ t) (ID_num t) (buffer_data t) rdy data s e in
  match current_state t with
  | IDLE =>
      if packet_buffered then
        Some (out MAC_DST mac_count (PACKET_SIZE + 1) (ID_num t) (buffer_data t) (data_ready t) (tx_data t) false false, buf, false)
      else if (count t =? 0) && negb buffer_empty then
        Some (out MAC_DST mac_count (timeout_length buffer_count) (ID_num t) (buffer_data t) (data_ready t) (tx_data t) false false, buf, false)
      else if added then Some (stay IDLE idle_count (data_ready t) (tx_data t) false false, buf, false)
      else if negb (count t =? 0) then Some (stay IDLE (wrap 14 (count t - 1)) (data_ready t) (tx_data t) false false, buf, false)
      else Some (stay IDLE (count t) (data_ready t) (tx_data t) false false, buf, false)
  | MAC_DST =>
      let data := nth (Z.to_nat (6 - count t)) dst_mac 0 in
      let s := up 0 3 (count t) =? up 0 3 mac_count in
      let '(st, cnt) :=
        if tx_read then if count t =? 1 then (MAC_SRC, mac_count) else (MAC_DST, wrap 14 (count t - 1)) else (MAC_DST, count t) in
      Some (stay st cnt 1 data s false, buf, false)
  | MAC_SRC =>
      let data := nth (Z.to_nat (6 - count t)) src_mac 0 in
      let '(st, cnt) :=
        if tx_read then if count t =? 1 then (TYPE, type_count) else (MAC_SRC, wrap 14 (count t - 1)) else (MAC_SRC, count t) in
      Some (stay st cnt 0 data false false, buf, false)
  | TYPE =>
      let data := if count t =? type_count then get_field 8 8 (length_ t) else get_field 0 8 (length_ t) in
      if tx_read then
        if count t =? 1 then
          match buf with
          | b :: buf =>
              Some (out PAYLOAD (wrap 14 (length_ t - 1)) (length_ t) (ID_num t) b (data_ready t) data false false, buf, true)
          | [] => None
          end
        else Some (stay TYPE (wrap 14 (count t - 1)) (data_ready t) data false false, buf, false)
      else Some (stay TYPE (count t) (data_ready t) data false false, buf, false)
  | PAYLOAD =>
      let data := buffer_data t in
      if tx_read then
        if count t =? 1 then Some (stay ID (count t) (data_ready t) data false false, buf, false)
        else
          match buf with
          | b :: buf => Some (out PAYLOAD (wrap 14 (count t - 1)) (length_ t) (ID_num t) b (data_ready t) data false false, buf, true)
          | [] => Some (stay ZEROS (wrap 14 (count t - 1)) (data_ready t) data false false, buf, false)
          end
      else Some (stay PAYLOAD (count t) (data_ready t) data false false, buf, false)
  | ZEROS =>
      if tx_read then
        if count t =? 1 then Some (stay ID (count t) (data_ready t) 0 false false, buf, false)
        else Some (stay ZEROS (wrap 14 (count t - 1)) (data_ready t) 0 false false, buf, false)
      else Some (stay ZEROS (count t) (data_ready t) 0 false false, buf, false)
  | ID =>
      if tx_read then
        Some (out IDLE idle_count (length_ t) (u8 (ID_num t + 1)) (buffer_data t) (data_ready t) (ID_num t) false true, buf, false)
      else Some (stay ID (count t) (data_ready t) (ID_num t) false true, buf, false)
  end.

(** One byte of the word goes to the buffer unless that is full, and a new
    word is taken when there is none. *)
(* @src ip/hls/eth_fifo_interface/eth_fifo_interface.cpp 222-290 convert and read in *)
Definition rx_step (buffer_full : bool) (buf d_in : list Z) (r : rx) : list Z * list Z * rx :=
  let '(buf, r) :=
    if data_word_valid r && negb buffer_full then
      (buf ++ [up (8 * word_byte r) (8 * word_byte r + 7) (data_word r)],
       {| data_word := data_word r; data_word_valid := negb (word_byte r =? 15);
          word_byte := if word_byte r =? 15 then word_byte r else wrap 4 (word_byte r + 1); buffer_added := true |})
    else (buf, {| data_word := data_word r; data_word_valid := data_word_valid r; word_byte := word_byte r; buffer_added := false |}) in
  match d_in with
  | w :: d_in' =>
      if data_word_valid r then (buf, d_in, r)
      else (buf, d_in', {| data_word := w; data_word_valid := true; word_byte := 0; buffer_added := buffer_added r |})
  | [] => (buf, d_in, r)
  end.

(* @src ip/hls/eth_fifo_interface/eth_fifo_interface.cpp 6-21 outputs *)
Record outputs := {
  dma_tx_status_tog : Z; tx_r_control : Z; tx_r_data : Z; tx_r_data_rdy : Z; tx_r_eop : bool; tx_r_err : Z; tx_r_flushed : Z;
  tx_r_sop : bool; tx_r_underflow : Z; tx_r_valid : bool
}.

(** One cycle: the outputs are the registers of the last one. *)
(* @src ip/hls/eth_fifo_interface/eth_fifo_interface.cpp 6-299 eth_fifo_interface *)
Definition eth_fifo_interface (dma_tx_end_tog : Z) (tx_r_rd : bool) (s : eth) : option (outputs * eth) :=
  let t := fsm s in
  let o := {| dma_tx_status_tog := last_tx_status_valid s; tx_r_control := 0; tx_r_data := tx_data t; tx_r_data_rdy := data_ready t;
              tx_r_eop := eop t; tx_r_err := 0; tx_r_flushed := 0; tx_r_sop := sop t; tx_r_underflow := 0; tx_r_valid := tx_valid t |} in
  let buffer_full := (depth <=? length (data_buffer s))%nat in
  '(t, buf, removed) ← tx_step tx_r_rd (buffer_count s) (buffer_added (split s)) (data_buffer s) t;
  let '(buf, d_in, r) := rx_step buffer_full buf (data_in s) (split s) in
  let n := if buffer_added r && negb removed then wrap 14 (buffer_count s + 1)
           else if (removed : bool) && negb (buffer_added r) then wrap 14 (buffer_count s - 1) else buffer_count s in
  Some (o, {| data_in := d_in; fsm := t; split := r; data_buffer := buf; buffer_count := n; last_tx_status_valid := dma_tx_end_tog |}).

(** A word arrives. *)
Definition arrive (w : Z) (s : eth) : eth :=
  {| data_in := data_in s ++ [w]; fsm := fsm s; split := split s; data_buffer := data_buffer s; buffer_count := buffer_count s;
     last_tx_status_valid := last_tx_status_valid s |}.
End Eth.
