(* ===== verification/EthFifoProofs.v ===== *)
(** The Ethernet interface of the trace: what it sends.

    Whatever the arrivals and the pauses of the reader, the bytes delivered
    are whole frames and the beginning of one more; their payloads, with what
    is still buffered, are the bytes of the words that arrived, in order. *)
From S2P Require Import Prelude EthFifo.
Open Scope Z_scope.

Section Eth.
Context `{ApUp}.

(** * Frames *)

(** A delivered byte with its start and end marks. *)
Abbreviation mark := (Z * bool * bool)%type.

Definition header (L : Z) : list Z := dst_mac ++ src_mac ++ [get_field 8 8 L; get_field 0 8 L].
(** A frame up to its number: header, payload and padding. *)
Definition body (L : Z) (p : list Z) : list Z := header L ++ p ++ repeat 0 (Z.to_nat (L - 1 - Z.of_nat (length p))).
Definition started (l : list Z) : list mark :=
  match l with [] => [] | b :: l => (b, true, false) :: map (fun b => (b, false, false)) l end.
Definition frame (L : Z) (p : list Z) (id : Z) : list mark := started (body L p) ++ [(id, false, true)].

(** Successive frames, numbered from [k] in eight bits. *)
Fixpoint frames (k : Z) (l : list (Z * list Z)) : list mark :=
  match l with [] => [] | (L, p) :: l => frame L p (u8 k) ++ frames (k + 1) l end.

(** The length field counts the payload, the padding and the number; only
    the shortest frames are padded. *)
Definition frame_ok (f : Z * list Z) : Prop :=
  let '(L, p) := f in
  49 <= L <= PACKET_SIZE + 1 /\ L mod 16 = 1 /\ 1 <= Z.of_nat (length p) <= L - 1 /\ (49 < L -> Z.of_nat (length p) = L - 1).

(** The bytes of a word, in the order they are sent. *)
Definition bytes (w : Z) : list Z := map (fun k => up (8 * k) (8 * k + 7) w) (seqZ 0 16).

Lemma started_snoc l b : l <> [] -> started (l ++ [b]) = started l ++ [(b, false, false)].
Proof. destruct l as [|c l]; [done|]. intros _. cbn [app started]. by rewrite map_app. Qed.

Lemma frames_app k l l' : frames k (l ++ l') = frames k l ++ frames (k + Z.of_nat (length l)) l'.
Proof.
  revert k. induction l as [|[L p] l IH]; intros k; cbn [app frames length]; [by rewrite Z.add_0_r|].
  rewrite IH, app_assoc. replace (k + 1 + Z.of_nat (length l)) with (k + Z.of_nat (S (length l))) by lia. done.
Qed.

(** * The state machine *)

(** A frame can start: its length suits what is buffered. *)
Definition starting (L : Z) (n : Z) : Prop :=
  49 <= L <= PACKET_SIZE + 1 /\ L mod 16 = 1 /\ 0 < n /\ (49 < L -> L - 1 <= n).
Definition sending (L : Z) (cur : list Z) : Prop := 49 <= L <= PACKET_SIZE + 1 /\ L mod 16 = 1 /\ cur <> [].

(** [cur] is the payload taken from the buffer so far and [n] the number of
    bytes in it. *)
Definition tx_ok (t : tx) (cur : list Z) (n : Z) : Prop :=
  let c := count t in let L := length_ t in let m := Z.of_nat (length cur) in
  match current_state t with
  | IDLE => cur = [] /\ 0 <= c <= idle_count
  | MAC_DST | MAC_SRC => cur = [] /\ 1 <= c <= 6 /\ starting L n
  | TYPE => cur = [] /\ 1 <= c <= 2 /\ starting L n
  | PAYLOAD => sending L cur /\ last cur = Some (buffer_data t) /\ m + c = L /\ 1 <= c /\ (49 < L -> c - 1 <= n)
  | ZEROS => sending L cur /\ L = 49 /\ 1 <= c /\ m + c <= L - 1
  | ID => sending L cur /\ m <= L - 1 /\ (49 < L -> m = L - 1)
  end.

(** The bytes of the frame sent so far. *)
Definition partial (t : tx) (cur : list Z) : list Z :=
  let c := count t in let L := length_ t in
  match current_state t with
  | IDLE => []
  | MAC_DST => take (Z.to_nat (6 - c)) (header L)
  | MAC_SRC => take (Z.to_nat (12 - c)) (header L)
  | TYPE => take (Z.to_nat (14 - c)) (header L)
  | PAYLOAD => header L ++ removelast cur
  | ZEROS => header L ++ cur ++ repeat 0 (Z.to_nat (L - 1 - Z.of_nat (length cur) - c))
  | ID => body L cur
  end.

(** What one cycle does: [t'], [buf'] and [removed] come out, the payload
    becomes [cur'] and a frame may have been finished. *)
Record tx_did (rd : bool) (buf : list Z) (t : tx) (cur buf' : list Z) (removed : bool) (t' : tx) (cur' : list Z) (fin : list (Z * list Z)) : Prop := {
  did_ok : tx_ok t' cur' (Z.of_nat (length buf'));
  did_sent : started (partial t cur) ++ (if rd then [(tx_data t', sop t', eop t')] else []) =
             concat (map (fun f => frame f.1 f.2 (ID_num t)) fin) ++ started (partial t' cur');
  did_fin : Forall frame_ok fin /\ (length fin <= 1)%nat;
  did_id : ID_num t' = u8 (ID_num t + Z.of_nat (length fin));
  did_bytes : concat (map snd fin) ++ cur' ++ buf' = cur ++ buf;
  did_removed : length buf = (length buf' + Nat.b2n removed)%nat;
  did_valid : tx_valid t' = rd
}.

Lemma timeout_length_ok n bc : 0 < n -> 0 <= bc <= n -> bc < PACKET_SIZE -> starting (timeout_length bc) n.
Proof.
  intros Hn Hb Hp. unfold PACKET_SIZE in Hp. unfold timeout_length. rewrite set_up_copy by lia.
  assert (E : put_field 4 (13 - 4 + 1) (get_field 4 (13 - 4 + 1) bc) 0 = bc / 16 * 16).
  { unfold put_field, clear_field. rewrite Z.ldiff_0_l, Z.lor_0_l, Z.shiftl_mul_pow2, get_field_div by lia. change (2 ^ 4) with 16.
    change (2 ^ (13 - 4 + 1)) with 1024. rewrite Z.mod_small; [done|]. div_lia. }
  rewrite E. unfold starting, PACKET_SIZE. destruct (Z.ltb_spec (bc / 16 * 16) 48); [split_and!; [lia|lia|done|lia|lia]|].
  rewrite wrap_id by (split; [div_lia|change (2 ^ 16) with 65536; div_lia]). split_and!; div_lia.
Qed.
Lemma removelast_snoc {A} (l : list A) b : removelast (l ++ [b]) = l.
Proof. by rewrite List.removelast_last. Qed.

Lemma cur_snoc (cur : list Z) b : last cur = Some b -> cur = removelast cur ++ [b].
Proof. intros (l & ->)%last_Some. by rewrite removelast_snoc. Qed.

(** The header goes out byte by byte. *)
Lemma dst_sent L c : 1 <= c <= 6 ->
  started (take (Z.to_nat (6 - c)) (header L)) ++ [(nth (Z.to_nat (6 - c)) dst_mac 0, up 0 3 c =? up 0 3 mac_count, false)] =
  started (take (Z.to_nat (7 - c)) (header L)).
Proof.
  intros Hc. assert (E : (up 0 3 c =? up 0 3 mac_count) = (c =? 6)).
  { destruct (Z.eqb_spec (up 0 3 c) (up 0 3 mac_count)) as [E|E]; rewrite up_eq in E by lia; destruct (Z.eqb_spec c 6) as [E'|E']; try done.
    - exfalso. apply E'. revert E. unfold mac_count. assert (Hd : c = 1 \/ c = 2 \/ c = 3 \/ c = 4 \/ c = 5) by lia.
      destruct Hd as [->|[->|[->|[-> | ->]]]]; by vm_compute.
    - by subst c. }
  rewrite E. assert (Hd : c = 1 \/ c = 2 \/ c = 3 \/ c = 4 \/ c = 5 \/ c = 6) by lia.
  destruct Hd as [->|[->|[->|[->|[-> | ->]]]]]; reflexivity.
Qed.

Lemma src_sent L c : 1 <= c <= 6 ->
  started (take (Z.to_nat (12 - c)) (header L)) ++ [(nth (Z.to_nat (6 - c)) src_mac 0, false, false)] =
  started (take (Z.to_nat (13 - c)) (header L)).
Proof.
  intros Hc. assert (Hd : c = 1 \/ c = 2 \/ c = 3 \/ c = 4 \/ c = 5 \/ c = 6) by lia.
  destruct Hd as [->|[->|[->|[->|[-> | ->]]]]]; reflexivity.
Qed.

Lemma type_sent L c : 1 <= c <= 2 ->
  started (take (Z.to_nat (14 - c)) (header L)) ++ [(if c =? type_count then get_field 8 8 L else get_field 0 8 L, false, false)] =
  started (take (Z.to_nat (15 - c)) (header L)).
Proof. intros Hc. assert (Hd : c = 1 \/ c = 2) by lia. destruct Hd as [-> | ->]; reflexivity. Qed.

Lemma started_header L l b : started (header L ++ l ++ [b]) = started (header L ++ l) ++ [(b, false, false)].
Proof. rewrite app_assoc. by apply started_snoc. Qed.

Lemma wrap14 c : 0 <= c < 16384 -> wrap 14 c = c.
Proof. intros. by apply wrap_id. Qed.

(** The obligations of a cycle that finishes no frame: the state, the bytes
    sent and the bytes taken are left. *)
Ltac did Es :=
  constructor; cbn [current_state count length_ ID_num buffer_data data_ready tx_valid sop eop tx_data map concat length app];
  [unfold tx_ok; cbn [current_state count length_ buffer_data]
  |unfold partial; rewrite Es; cbn [current_state count length_ buffer_data]; rewrite ?app_nil_r
  |by split; [apply Forall_nil|lia] | by rewrite Z.add_0_r | | cbn [Nat.b2n]; rewrite ?Nat.add_0_r; try lia | done].

Lemma tx_step_header rd bc added buf t cur :
  tx_ok t cur (Z.of_nat (length buf)) -> in_word 8 (ID_num t) -> current_state t = MAC_DST \/ current_state t = MAC_SRC ->
  exists buf' removed t' cur', tx_step rd bc added buf t = Some (t', buf', removed) /\ tx_did rd buf t cur buf' removed t' cur' [].
Proof.
  intros Hok Hid Hst. unfold tx_step, tx_ok, mac_count, type_count in *.
  assert (Hu : u8 (ID_num t) = ID_num t) by (by apply wrap_id).
  destruct Hst as [Es|Es]; rewrite Es in *; destruct Hok as (-> & Hc & HL).
  - destruct rd; [destruct (Z.eqb_spec (count t) 1) as [E|E]|]; eexists _, false, _, []; (split; [reflexivity|]); did Es; try done.
    + rewrite dst_sent by done. by rewrite E.
    + rewrite wrap14 by lia. split_and!; (done || lia).
    + rewrite dst_sent by done. rewrite wrap14 by lia. by replace (6 - (count t - 1)) with (7 - count t) by lia.
  - destruct rd; [destruct (Z.eqb_spec (count t) 1) as [E|E]|]; eexists _, false, _, []; (split; [reflexivity|]); did Es; try done.
    + rewrite src_sent by done. by rewrite E.
    + rewrite wrap14 by lia. split_and!; (done || lia).
    + rewrite src_sent by done. rewrite wrap14 by lia. by replace (12 - (count t - 1)) with (13 - count t) by lia.
Qed.

Lemma zeros_sent L l k : 0 <= k ->
  started (header L ++ l ++ repeat 0 (Z.to_nat k)) ++ [(0, false, false)] = started (header L ++ l ++ repeat 0 (Z.to_nat (k + 1))).
Proof.
  intros Hk. rewrite Z2Nat.inj_add by lia. rewrite repeat_app. change (repeat 0 (Z.to_nat 1)) with [0]. rewrite (app_assoc l), started_header. done.
Qed.

Lemma last_length (l : list Z) b : last l = Some b -> 1 <= Z.of_nat (length l).
Proof. destruct l; [done|]. cbn [length]. lia. Qed.

Lemma tx_step_type rd bc added buf t cur :
  tx_ok t cur (Z.of_nat (length buf)) -> in_word 8 (ID_num t) -> current_state t = TYPE ->
  exists buf' removed t' cur', tx_step rd bc added buf t = Some (t', buf', removed) /\ tx_did rd buf t cur buf' removed t' cur' [].
Proof.
  intros Hok Hid Es. unfold tx_step, tx_ok in *. assert (Hu : u8 (ID_num t) = ID_num t) by (by apply wrap_id).
  rewrite Es in *. destruct Hok as (-> & Hc & HL). pose proof HL as (HL1 & HL2 & HL3 & HL4). unfold PACKET_SIZE in *.
  destruct rd; [destruct (Z.eqb_spec (count t) 1) as [E|E]|].
  - destruct buf as [|b buf]; [cbn in HL3; lia|]. cbn [length] in *. eexists buf, true, _, [b]. split; [reflexivity|]. did Es; try done.
    + rewrite wrap14 by lia. unfold sending, PACKET_SIZE. cbn [length]. split_and!; (done || lia).
    + rewrite E. by apply (type_sent _ 1).
  - eexists _, false, _, []. split; [reflexivity|]. did Es; try done.
    + rewrite wrap14 by lia. split_and!; (done || lia).
    + rewrite wrap14 by lia. rewrite type_sent by done. by replace (14 - (count t - 1)) with (15 - count t) by lia.
  - eexists _, false, _, []. split; [reflexivity|]. did Es; done.
Qed.

Lemma tx_step_payload rd bc added buf t cur :
  tx_ok t cur (Z.of_nat (length buf)) -> in_word 8 (ID_num t) -> current_state t = PAYLOAD ->
  exists buf' removed t' cur', tx_step rd bc added buf t = Some (t', buf', removed) /\ tx_did rd buf t cur buf' removed t' cur' [].
Proof.
  intros Hok Hid Es. unfold tx_step, tx_ok in *. assert (Hu : u8 (ID_num t) = ID_num t) by (by apply wrap_id).
  rewrite Es in *. destruct Hok as ((HL1 & HL2 & HL3) & Hl & Hm & Hc & HL). unfold PACKET_SIZE in *. pose proof (last_length _ _ Hl).
  pose proof (cur_snoc _ _ Hl) as Hcur.
  destruct rd; [destruct (Z.eqb_spec (count t) 1) as [E|E]; [|destruct buf as [|b buf]; cbn [length] in *]|].
  - eexists _, false, _, cur. split; [reflexivity|]. did Es; try done.
    + unfold sending, PACKET_SIZE. split_and!; (done || lia).
    + rewrite <- started_header, <- Hcur. unfold body. replace (length_ t - 1 - Z.of_nat (length cur)) with 0 by lia. by rewrite app_nil_r.
  - eexists _, false, _, cur. split; [reflexivity|]. did Es; try done.
    + rewrite wrap14 by lia. unfold sending, PACKET_SIZE. split_and!; (done || (div_lia)).
    + rewrite wrap14 by lia. rewrite <- started_header, <- Hcur.
      replace (length_ t - 1 - Z.of_nat (length cur) - (count t - 1)) with 0 by lia. by rewrite app_nil_r.
  - eexists _, true, _, (cur ++ [b]). split; [reflexivity|]. did Es.
    + rewrite wrap14, last_snoc, length_app by lia. unfold sending, PACKET_SIZE. cbn [length]. split_and!; try done; try lia. by destruct cur.
    + rewrite removelast_snoc, <- started_header, <- Hcur. done.
    + by rewrite <- app_assoc.
  - eexists _, false, _, cur. split; [reflexivity|]. did Es; done.
Qed.

Lemma tx_step_zeros rd bc added buf t cur :
  tx_ok t cur (Z.of_nat (length buf)) -> in_word 8 (ID_num t) -> current_state t = ZEROS ->
  exists buf' removed t' cur', tx_step rd bc added buf t = Some (t', buf', removed) /\ tx_did rd buf t cur buf' removed t' cur' [].
Proof.
  intros Hok Hid Es. unfold tx_step, tx_ok in *. assert (Hu : u8 (ID_num t) = ID_num t) by (by apply wrap_id).
  rewrite Es in *. destruct Hok as (HS & HL & Hc & Hm). pose proof HS as (HL1 & HL2 & HL3).
  destruct rd; [destruct (Z.eqb_spec (count t) 1) as [E|E]|].
  - eexists _, false, _, cur. split; [reflexivity|]. did Es; try done.
    + split_and!; (done || lia).
    + rewrite zeros_sent by lia. unfold body. by rewrite E, Z.sub_add.
  - eexists _, false, _, cur. split; [reflexivity|]. did Es; try done.
    + rewrite wrap14 by lia. split_and!; (done || lia).
    + rewrite wrap14 by lia. rewrite zeros_sent by lia. repeat f_equal. lia.
  - eexists _, false, _, cur. split; [reflexivity|]. did Es; done.
Qed.

Lemma tx_step_id rd bc added buf t cur :
  tx_ok t cur (Z.of_nat (length buf)) -> in_word 8 (ID_num t) -> current_state t = ID ->
  exists buf' removed t' cur' fin, tx_step rd bc added buf t = Some (t', buf', removed) /\ tx_did rd buf t cur buf' removed t' cur' fin.
Proof.
  intros Hok Hid Es. unfold tx_step, tx_ok in *. assert (Hu : u8 (ID_num t) = ID_num t) by (by apply wrap_id).
  rewrite Es in *. destruct Hok as ((HL1 & HL2 & HL3) & Hm & HL). destruct rd.
  - eexists _, false, _, [], [(length_ t, cur)]. split; [reflexivity|].
    constructor; cbn [current_state count length_ ID_num buffer_data data_ready tx_valid sop eop tx_data map concat length app fst snd]; try done.
    + unfold partial. rewrite Es. cbn [current_state started]. by rewrite !app_nil_r.
    + split; [|lia]. apply Forall_singleton. unfold frame_ok. split_and!; try done; try lia. destruct cur; [done|]. cbn [length]. lia.
    + by rewrite app_nil_r.
  - eexists _, false, _, cur, []. split; [reflexivity|]. did Es; done.
Qed.

Lemma tx_step_idle bc added buf t cur :
  tx_ok t cur (Z.of_nat (length buf)) -> in_word 8 (ID_num t) -> current_state t = IDLE ->
  0 <= bc <= Z.of_nat (length buf) ->
  exists buf' removed t' cur', tx_step false bc added buf t = Some (t', buf', removed) /\ tx_did false buf t cur buf' removed t' cur' [].
Proof.
  intros Hok Hid Es Hbc. unfold tx_step, tx_ok in *. assert (Hu : u8 (ID_num t) = ID_num t) by (by apply wrap_id).
  rewrite Es in *. destruct Hok as (-> & Hc).
  destruct (Z.leb_spec PACKET_SIZE bc) as [Hp|Hp].
  { eexists _, false, _, []. split; [reflexivity|]. did Es; try done. unfold starting, mac_count, PACKET_SIZE in *. split_and!; (done || lia). }
  destruct (Z.eqb_spec (count t) 0) as [E|E]; cbn [andb negb].
  - destruct buf as [|b buf]; cbn [negb].
    + destruct added; (eexists _, false, _, []; split; [reflexivity|]; did Es; try done; unfold idle_count; split_and!; (done || lia)).
    + eexists _, false, _, []. split; [reflexivity|]. did Es; try done. unfold mac_count. split_and!; [done|lia|lia|].
      apply timeout_length_ok; [cbn [length]; lia|done|done].
  - destruct added; (eexists _, false, _, []; split; [reflexivity|]; did Es; try done; unfold idle_count in *; rewrite ?wrap14 by lia; split_and!; (done || lia)).
Qed.

(** A cycle of the state machine never waits for a byte that is not there. *)
Lemma tx_step_good rd bc added buf t cur :
  tx_ok t cur (Z.of_nat (length buf)) -> in_word 8 (ID_num t) -> 0 <= bc <= Z.of_nat (length buf) ->
  (rd = true -> current_state t <> IDLE) ->
  exists buf' removed t' cur' fin, tx_step rd bc added buf t = Some (t', buf', removed) /\ tx_did rd buf t cur buf' removed t' cur' fin.
Proof.
  intros Hok Hid Hbc Hrd. destruct (current_state t) eqn:Es.
  - destruct rd; [by destruct Hrd|]. destruct (tx_step_idle bc added buf t cur) as (?&?&?&?&?&?); eauto 10.
  - destruct (tx_step_header rd bc added buf t cur) as (?&?&?&?&?&?); eauto 10.
  - destruct (tx_step_header rd bc added buf t cur) as (?&?&?&?&?&?); eauto 10.
  - destruct (tx_step_type rd bc added buf t cur) as (?&?&?&?&?&?); eauto 10.
  - destruct (tx_step_payload rd bc added buf t cur) as (?&?&?&?&?&?); eauto 10.
  - destruct (tx_step_zeros rd bc added buf t cur) as (?&?&?&?&?&?); eauto 10.
  - apply tx_step_id; done.
Qed.

(** * The receiving side *)

(** Bytes of the word being split that are still to go. *)
Definition rest (r : rx) : list Z := if data_word_valid r then drop (Z.to_nat (word_byte r)) (bytes (data_word r)) else [].

Lemma bytes_drop w k : 0 <= k <= 15 ->
  drop (Z.to_nat k) (bytes w) = up (8 * k) (8 * k + 7) w :: drop (Z.to_nat (k + 1)) (bytes w).
Proof.
  intros Hk. unfold bytes. rewrite <- !fmap_drop, !fmap_drop.
  replace (Z.to_nat (k + 1)) with (S (Z.to_nat k)) by lia. apply drop_S.
  rewrite list_lookup_fmap, lookup_seqZ_lt by lia. cbn. repeat f_equal; lia.
Qed.

Lemma rx_step_good full buf d_in r : 0 <= word_byte r <= 15 ->
  let '(buf', d_in', r') := rx_step full buf d_in r in
  buf' ++ rest r' ++ concat (map bytes d_in') = buf ++ rest r ++ concat (map bytes d_in) /\
  length buf' = (length buf + Nat.b2n (buffer_added r'))%nat /\ (buffer_added r' = true -> full = false) /\ 0 <= word_byte r' <= 15.
Proof.
  intros Hw. unfold rx_step, rest.
  destruct (data_word_valid r) eqn:Ev; [destruct full|]; cbn [andb negb].
  - destruct d_in as [|w d]; cbn [data_word_valid data_word word_byte buffer_added Nat.b2n]; rewrite ?Nat.add_0_r; split_and!; (done || lia).
  - rewrite (bytes_drop (data_word r) (word_byte r) Hw). destruct (Z.eqb_spec (word_byte r) 15) as [E|E].
    + replace (drop (Z.to_nat (word_byte r + 1)) (bytes (data_word r))) with (@nil Z) by (by rewrite E).
      destruct d_in as [|w d]; cbn [data_word_valid data_word word_byte buffer_added Nat.b2n negb]; rewrite ?length_app; cbn [length];
      split_and!; try done; try lia; rewrite <- ?app_assoc; cbn [app map concat]; try done.
    + rewrite wrap_id by (split; lia).
      destruct d_in as [|w d]; cbn [data_word_valid data_word word_byte buffer_added Nat.b2n negb]; rewrite ?length_app; cbn [length];
      split_and!; try done; try lia; rewrite <- ?app_assoc; cbn [app map concat]; try done.
  - destruct d_in as [|w d]; cbn [data_word_valid data_word word_byte buffer_added Nat.b2n negb]; rewrite ?Nat.add_0_r;
      split_and!; try done; try lia.
Qed.

(** * Reachable states *)

(** [ws] are the words that arrived and [D] the bytes delivered, with their
    marks: an output is a byte when [tx_r_valid] is set.  The reader reads
    only while a frame is being sent, as it is told by [tx_r_data_rdy] and the
    end mark. *)
Definition delivered (o : outputs) : list mark := if tx_r_valid o then [(tx_r_data o, tx_r_sop o, tx_r_eop o)] else [].
Definition pending (t : tx) : list mark := if tx_valid t then [(tx_data t, sop t, eop t)] else [].

Inductive reach : list Z -> list mark -> eth -> Prop :=
  | reach_initial : reach [] [] initial
  | reach_arrive ws D s w : reach ws D s -> reach (ws ++ [w]) D (arrive w s)
  | reach_cycle ws D s tog rd o s' :
      reach ws D s -> (rd = true -> current_state (fsm s) <> IDLE) -> eth_fifo_interface tog rd s = Some (o, s') ->
      reach ws (D ++ delivered o) s'.

(** Bytes inside. *)
Definition buffered (s : eth) : list Z := data_buffer s ++ rest (split s) ++ concat (map bytes (data_in s)).

Record good (ws : list Z) (D : list mark) (s : eth) (fin : list (Z * list Z)) (cur : list Z) : Prop := {
  good_sent : D ++ pending (fsm s) = frames 0 fin ++ started (partial (fsm s) cur);
  good_fin : Forall frame_ok fin;
  good_bytes : concat (map snd fin) ++ cur ++ buffered s = concat (map bytes ws);
  good_tx : tx_ok (fsm s) cur (Z.of_nat (length (data_buffer s)));
  good_id : ID_num (fsm s) = u8 (Z.of_nat (length fin));
  good_count : buffer_count s = wrap 14 (Z.of_nat (length (data_buffer s)));
  good_room : (length (data_buffer s) <= depth)%nat;
  good_rx : 0 <= word_byte (split s) <= 15
}.

Lemma eth_good_initial : good [] [] initial [] [].
Proof. constructor; try done; cbn; (done || lia). Qed.

Lemma eth_good_arrive ws D s w fin cur : good ws D s fin cur -> good (ws ++ [w]) D (arrive w s) fin cur.
Proof.
  intros [H1 H2 H3 H4 H5 H6 H7 H8]. constructor; try done. unfold buffered, arrive in *. cbn [data_buffer split data_in].
  rewrite !map_app, !concat_app, <- H3. cbn [map concat]. by rewrite app_nil_r, <- !app_assoc.
Qed.

Lemma wrap14_le n : 0 <= n -> 0 <= wrap 14 n <= n.
Proof. intros. unfold wrap. change (2 ^ 14) with 16384. div_lia. Qed.

Lemma wrap14_step n a b : wrap 14 n = a -> wrap 14 (a + b) = wrap 14 (n + b).
Proof. intros <-. unfold wrap. by rewrite Zplus_mod_idemp_l. Qed.

Lemma tx_ok_more t cur n n' : n <= n' -> tx_ok t cur n -> tx_ok t cur n'.
Proof.
  intros Hn. unfold tx_ok, starting. destruct (current_state t); try done.
  - intros (? & ? & ? & ? & ? & HL). split_and!; (done || lia).
  - intros (? & ? & ? & ? & ? & HL). split_and!; (done || lia).
  - intros (? & ? & ? & ? & ? & HL). split_and!; (done || lia).
  - intros (? & ? & ? & ? & HL). split_and!; (done || lia).
Qed.

(** A cycle from a good state goes through and leaves a good state. *)
Lemma good_cycle ws D s fin cur tog rd :
  good ws D s fin cur -> (rd = true -> current_state (fsm s) <> IDLE) ->
  exists o s' fin' cur', eth_fifo_interface tog rd s = Some (o, s') /\ good ws (D ++ delivered o) s' fin' cur'.
Proof.
  intros [H1 H2 H3 H4 H5 H6 H7 H8] Hrd.
  assert (Hid : in_word 8 (ID_num (fsm s))) by (rewrite H5; by apply wrap_range).
  destruct (tx_step_good rd (buffer_count s) (buffer_added (split s)) (data_buffer s) (fsm s) cur H4 Hid) as (buf' & rem & t' & cur' & f & Et & Hd);
    [rewrite H6; apply wrap14_le; lia|done|].
  destruct Hd as [D1 D2 [D3 D3'] D4 D5 D6 D7].
  unfold eth_fifo_interface. rewrite Et. cbn [mbind option_bind].
  pose proof (rx_step_good (depth <=? length (data_buffer s))%nat buf' (data_in s) (split s) H8) as Hr.
  destruct (rx_step _ buf' (data_in s) (split s)) as [[buf'' d'] r']. destruct Hr as (R1 & R2 & R3 & R4).
  eexists _, _, (fin ++ map (fun p => p) f), cur'. split; [reflexivity|]. rewrite map_id.
  constructor; cbn [fsm data_buffer split data_in buffer_count delivered]; try done.
  - unfold delivered. cbn [tx_r_valid tx_r_data tx_r_sop tx_r_eop]. fold (pending (fsm s)). rewrite H1.
    unfold pending. rewrite D7. rewrite <- app_assoc, D2, frames_app, <- app_assoc. f_equal. f_equal.
    rewrite H5, Z.add_0_l. destruct f as [|[L p] [|? ?]]; cbn [map concat frames length] in *; [done|by rewrite !app_nil_r|lia].
  - by apply Forall_app.
  - rewrite map_app, concat_app, <- H3. unfold buffered. cbn [data_buffer split data_in]. rewrite R1.
    rewrite !app_assoc. f_equal. f_equal. rewrite <- !app_assoc. rewrite <- D5. by rewrite !app_assoc.
  - apply (tx_ok_more _ _ (Z.of_nat (length buf'))); [lia|done].
  - rewrite D4, H5, length_app, Nat2Z.inj_add. unfold wrap. by rewrite Zplus_mod_idemp_l.
  - rewrite H6, R2. destruct rem, (buffer_added r'); cbn [andb negb Nat.b2n] in *;
    unfold Z.sub; rewrite ?(wrap14_step _ _ _ eq_refl); apply (f_equal (wrap 14)); lia.
  - destruct (buffer_added r'); cbn [Nat.b2n] in R2; [|lia]. pose proof (R3 eq_refl) as Hf%Nat.leb_gt. lia.
Qed.

Lemma eth_reach_good ws D s : reach ws D s -> exists fin cur, good ws D s fin cur.
Proof.
  induction 1 as [|ws D s w _ (fin & cur & IH)|ws D s tog rd o s' _ (fin & cur & IH) Hrd E].
  - exists [], []. apply eth_good_initial.
  - exists fin, cur. by apply eth_good_arrive.
  - destruct (good_cycle ws D s fin cur tog rd IH Hrd) as (o' & s'' & fin' & cur' & E' & G). rewrite E in E'. injection E' as <- <-. eauto.
Qed.

(** * Properties *)

(** C5: What has been delivered, with the byte in the output register, is a
    sequence of whole frames, numbered one after the other in eight bits, and
    the beginning of one more.  Each frame has the header with the broadcast
    address, a length between 49 and 1489 that counts payload, padding and
    number, and padding only at 49; the payloads, with what was taken for the
    frame being sent and what is inside, are the bytes of the words that
    arrived, in order: nothing is lost, repeated or swapped. *)
Theorem eth_frames ws D s :
  reach ws D s -> exists fin cur,
  Forall frame_ok fin /\ D ++ pending (fsm s) = frames 0 fin ++ started (partial (fsm s) cur) /\
  concat (map snd fin) ++ cur ++ buffered s = concat (map bytes ws).
Proof. intros (fin & cur & [H1 H2 H3 _ _ _ _ _])%eth_reach_good. eauto. Qed.

(** C24: No cycle waits for a byte: the buffer is never read when it is empty,
    the count of its bytes is exact in fourteen bits and it never overflows. *)
Theorem eth_never_waits ws D s tog rd :
  reach ws D s -> (rd = true -> current_state (fsm s) <> IDLE) ->
  (exists o s', eth_fifo_interface tog rd s = Some (o, s')) /\
  (length (data_buffer s) <= depth)%nat /\ buffer_count s = wrap 14 (Z.of_nat (length (data_buffer s))).
Proof.
  intros (fin & cur & Hg)%eth_reach_good Hrd. destruct (good_cycle ws D s fin cur tog rd Hg Hrd) as (o & s' & _ & _ & E & _).
  destruct Hg. eauto.
Qed.

(** Cycles without reading. *)
Fixpoint wait (n : nat) (s : eth) : option eth :=
  match n with O => Some s | S n => '(_, s) ← eth_fifo_interface 0 false s; wait n s end.

(** One waiting cycle in the idle state. *)
Lemma idle_cycle s : current_state (fsm s) = IDLE -> buffer_count s < PACKET_SIZE -> count (fsm s) <> 0 -> 0 <= count (fsm s) < 16384 ->
  buffer_added (split s) = false -> data_word_valid (split s) = false \/ length (data_buffer s) = depth -> 
  data_in s = [] \/ data_word_valid (split s) = true ->
  exists o s', eth_fifo_interface 0 false s = Some (o, s') /\ current_state (fsm s') = IDLE /\ count (fsm s') = count (fsm s) - 1 /\
    buffer_count s' = buffer_count s /\ buffer_added (split s') = false /\ data_buffer s' = data_buffer s /\
    data_word_valid (split s') = data_word_valid (split s) /\ data_in s' = data_in s.
Proof.
  intros Hs Hb Hc Hr Ha Hv Hd. unfold eth_fifo_interface, tx_step, rx_step. rewrite Hs.
  destruct (Z.leb_spec PACKET_SIZE (buffer_count s)); [lia|]. destruct (Z.eqb_spec (count (fsm s)) 0); [lia|]. rewrite Ha. cbn [andb negb mbind option_bind].
  assert (E : data_word_valid (split s) && negb (depth <=? length (data_buffer s))%nat = false).
  { destruct Hv as [->|Hv]; [done|]. rewrite Hv, Nat.leb_refl. by destruct (data_word_valid _). }
  rewrite E. cbn [data_word_valid]. destruct (data_in s) as [|w d] eqn:Ed.
  - eexists _, _. split; [reflexivity|]. cbn [fsm split data_buffer buffer_count buffer_added data_in data_word_valid current_state count andb]. rewrite wrap14 by lia.
    split_and!; done.
  - destruct Hd as [Hd|Hd]; [done|]. rewrite Hd. eexists _, _. split; [reflexivity|].
    cbn [fsm split data_buffer buffer_count buffer_added data_in data_word_valid current_state count andb]. rewrite wrap14 by lia. split_and!; done.
Qed.

(** Idle cycles count down. *)
Lemma wait_idle n s : current_state (fsm s) = IDLE -> buffer_count s < PACKET_SIZE -> 0 <= count (fsm s) < 16384 -> Z.of_nat n <= count (fsm s) ->
  buffer_added (split s) = false -> data_word_valid (split s) = false \/ length (data_buffer s) = depth -> 
  data_in s = [] \/ data_word_valid (split s) = true ->
  exists s', wait n s = Some s' /\ current_state (fsm s') = IDLE /\ count (fsm s') = count (fsm s) - Z.of_nat n /\
    buffer_count s' = buffer_count s /\ buffer_added (split s') = false /\ data_buffer s' = data_buffer s /\
    data_word_valid (split s') = data_word_valid (split s) /\ data_in s' = data_in s.
Proof.
  revert s. induction n as [|n IH]; intros s Hs Hb Hr Hn Ha Hv Hd.
  { exists s. cbn [wait]. split_and!; try done. lia. }
  destruct (idle_cycle s) as (o & s' & E & E1 & E2 & E3 & E4 & E5 & E6 & E7); try done; [lia|].
  destruct (IH s') as (s'' & F & F1 & F2 & F3 & F4 & F5 & F6 & F7); rewrite ?E1, ?E2, ?E3, ?E5, ?E6, ?E7; try done; try lia.
  exists s''. cbn [wait]. rewrite E. cbn [mbind option_bind]. split_and!; try done; try congruence; lia.
Qed.

Lemma wait_last n s s' : wait n s = Some s' -> wait (S n) s = (fun r => snd r) <$> eth_fifo_interface 0 false s'.
Proof.
  revert s. induction n as [|n IH]; intros s E.
  - cbn in E. injection E as ->. cbn. by destruct (eth_fifo_interface 0 false s') as [[]|].
  - change (wait (S (S n)) s) with ('(_, s) ← eth_fifo_interface 0 false s; wait (S n) s). cbn [wait] in E.
    destruct (eth_fifo_interface 0 false s) as [[o s1]|]; [|done]. cbn [mbind option_bind] in E |- *. by apply IH.
Qed.

(** The cycle in which the counter is at its end. *)
Lemma timeout_cycle s : current_state (fsm s) = IDLE -> buffer_count s < PACKET_SIZE -> count (fsm s) = 0 -> data_buffer s <> [] ->
  exists r, eth_fifo_interface 0 false s = Some r /\ current_state (fsm (snd r)) = MAC_DST /\ length_ (fsm (snd r)) = timeout_length (buffer_count s).
Proof.
  intros Hs Hb Hc Hd. unfold eth_fifo_interface, tx_step. rewrite Hs.
  destruct (Z.leb_spec PACKET_SIZE (buffer_count s)); [lia|]. rewrite Hc. destruct (data_buffer s) as [|b l]; [done|]. cbn [Z.eqb andb negb mbind option_bind].
  destruct (rx_step _ _ _ _) as [[? ?] ?]. eexists. split; [reflexivity|]. done.
Qed.

(** What is buffered does not stay: when no data arrives, a frame is started
    after as many cycles as the counter says and one more. *)
Theorem eth_timeout s :
  current_state (fsm s) = IDLE -> buffer_count s < PACKET_SIZE -> 0 <= count (fsm s) < 16384 -> data_buffer s <> [] ->
  buffer_added (split s) = false -> data_word_valid (split s) = false -> data_in s = [] ->
  exists s', wait (S (Z.to_nat (count (fsm s)))) s = Some s' /\ current_state (fsm s') = MAC_DST /\
  length_ (fsm s') = timeout_length (buffer_count s).
Proof.
  intros Hs Hb Hr Hd Ha Hv Hi.
  destruct (wait_idle (Z.to_nat (count (fsm s))) s) as (s1 & F & F1 & F2 & F3 & F4 & F5 & F6 & F7); try done; [lia|by left|by left|].
  rewrite (wait_last _ _ _ F). destruct (timeout_cycle s1) as ([o s2] & E & E1 & E2); [done|congruence|lia|congruence|].
  rewrite E. cbn [fmap option_fmap option_map snd] in *. exists s2. by rewrite E2, F3.
Qed.

Lemma depth_eq : Z.of_nat depth = 16384.
Proof. unfold depth. by apply Z2Nat.id. Qed.

#[local] Opaque depth.

(** A buffer that is full counts as empty: its fourteen-bit count is zero, so
    although eleven frames' worth of bytes are there, the interface sits idle
    for the 16000 cycles of the timeout and then sends the shortest frame. *)
Theorem full_buffer_stalls s n :
  current_state (fsm s) = IDLE -> count (fsm s) = idle_count -> length (data_buffer s) = depth ->
  buffer_count s = wrap 14 (Z.of_nat (length (data_buffer s))) ->
  buffer_added (split s) = false -> data_in s = [] \/ data_word_valid (split s) = true ->
  Z.of_nat n <= 16000 ->
  11 * PACKET_SIZE <= Z.of_nat (length (data_buffer s)) /\
  (exists s', wait n s = Some s' /\ current_state (fsm s') = IDLE /\ data_buffer s' = data_buffer s) /\
  (exists s', wait (Z.to_nat 16001) s = Some s' /\ current_state (fsm s') = MAC_DST /\ length_ (fsm s') = 49).
Proof.
  intros Hs Hc Hl Hb Ha Hi Hn. pose proof depth_eq as Hd. rewrite Hl in Hb |- *. rewrite Hd in Hb |- *.
  change (wrap 14 16384) with 0 in Hb. unfold idle_count in Hc. split; [unfold PACKET_SIZE; lia|].
  assert (W : forall k, Z.of_nat k <= 16000 -> exists s', wait k s = Some s' /\ current_state (fsm s') = IDLE /\ count (fsm s') = 16000 - Z.of_nat k /\
    buffer_count s' = 0 /\ data_buffer s' = data_buffer s).
  { intros k Hk. destruct (wait_idle k s) as (s1 & F & F1 & F2 & F3 & F4 & F5 & F6 & F7);
      [exact Hs|unfold PACKET_SIZE; lia|lia|lia|exact Ha|by right|exact Hi|].
    exists s1. rewrite F, F1, F2, F3, F5, Hb, Hc. by split_and!. }
  split; [destruct (W n Hn) as (s1 & F & F1 & F2 & F3 & F4); eauto|].
  destruct (W (Z.to_nat 16000)) as (s1 & F & F1 & F2 & F3 & F4); [lia|].
  replace (Z.to_nat 16001) with (S (Z.to_nat 16000)) by lia. rewrite (wait_last _ _ _ F).
  destruct (timeout_cycle s1) as ([o s2] & E & E1 & E2); [exact F1|unfold PACKET_SIZE; lia|lia| |].
  { rewrite F4. intros E0. rewrite E0 in Hl. cbn [length] in Hl. lia. }
  rewrite E. cbn [fmap option_fmap option_map snd] in *. exists s2. split_and!; [done|exact E1|]. rewrite E2, F3.
  unfold timeout_length. rewrite set_up_copy by lia. by vm_compute.
Qed.
End Eth.

(** * The documented reading order *)

(** [n] bits in reverse. *)
Fixpoint rev_bits (n : nat) (x : Z) : Z :=
  match n with O => 0 | S n => Z.lor (Z.shiftl (Z.b2z (Z.testbit x 0)) (Z.of_nat n)) (rev_bits n (Z.shiftr x 1)) end.

Lemma testbit_b2z b i : 0 <= i -> Z.testbit (Z.b2z b) i = (i =? 0) && b.
Proof. intros Hi. destruct b; [|by rewrite Z.testbit_0_l, andb_false_r]. destruct (Z.eqb_spec i 0) as [->|?]; [done|]. change (Z.b2z true) with (2 ^ 0). by rewrite Z.pow2_bits_false by lia. Qed.

Lemma testbit_rev_bits n x i : 0 <= i -> Z.testbit (rev_bits n x) i = (i <? Z.of_nat n) && Z.testbit x (Z.of_nat n - 1 - i).
Proof.
  intros Hi. revert x. induction n as [|n IH]; intros x.
  { cbn [rev_bits]. rewrite Z.testbit_0_l. symmetry. apply andb_false_iff. left. apply Z.ltb_ge. lia. }
  cbn [rev_bits]. rewrite Z.lor_spec, testbit_shiftl, IH, testbit_shiftr by lia.
  destruct (Z.leb_spec (Z.of_nat n) i) as [Hn|Hn]; cbn [andb].
  - rewrite testbit_b2z by lia. destruct (Z.ltb_spec i (Z.of_nat n)); [lia|]. cbn [andb]. rewrite orb_false_r.
    destruct (Z.eqb_spec (i - Z.of_nat n) 0), (Z.ltb_spec i (Z.of_nat (S n))); try lia; cbn [andb]; try done. f_equal. lia.
  - destruct (Z.ltb_spec i (Z.of_nat n)), (Z.ltb_spec i (Z.of_nat (S n))), (Z.leb_spec 0 (Z.of_nat n - 1 - i)); try lia. cbn [andb orb]. f_equal. lia.
Qed.

Lemma rev_bits_range n x : in_word (Z.of_nat n) (rev_bits n x).
Proof. apply in_word_bits; [lia|]. intros i Hi. rewrite testbit_rev_bits by lia. destruct (Z.ltb_spec i (Z.of_nat n)); [lia|done]. Qed.

Lemma rev_bits_rev n x : in_word (Z.of_nat n) x -> rev_bits n (rev_bits n x) = x.
Proof.
  intros Hx. apply Z.bits_inj'. intros i Hi. rewrite testbit_rev_bits by lia. destruct (Z.ltb_spec i (Z.of_nat n)) as [Hn|Hn]; cbn [andb].
  - rewrite testbit_rev_bits by lia. destruct (Z.ltb_spec (Z.of_nat n - 1 - i) (Z.of_nat n)); [|lia]. cbn [andb]. f_equal. lia.
  - by rewrite (testbit_high _ _ _ Hx) by lia.
Qed.

(** Ascending bounds reverse the bits, as the library's manual has it. *)
#[refine] Instance reversing : ApUp := {
  up a b x := rev_bits (Z.to_nat (b - a + 1)) (get_field a (b - a + 1) x);
  set_up a b x v := put_field a (b - a + 1) (rev_bits (Z.to_nat (b - a + 1)) v) x
}.
Proof.
  - intros a b x y Hab. split; [|by intros ->]. intros E. apply (f_equal (rev_bits (Z.to_nat (b - a + 1)))) in E.
    rewrite !rev_bits_rev in E by (rewrite Z2Nat.id by lia; apply get_field_range; lia). done.
  - intros a b x Hab. pose proof (rev_bits_range (Z.to_nat (b - a + 1)) (get_field a (b - a + 1) x)) as Hr. by rewrite Z2Nat.id in Hr by lia.
  - intros a b x y Hab. rewrite rev_bits_rev; [done|]. rewrite Z2Nat.id by lia. apply get_field_range. lia.
Defined.

(** * Instances of the properties *)

Definition state0 : eth := arrive 0x0F0E0D0C0B0A09080706050403020100 initial.
Lemma eth_reach0 : reach [0x0F0E0D0C0B0A09080706050403020100] [] state0.
Proof. apply (reach_arrive [] [] initial). apply reach_initial. Qed.

Lemma eth_frames_witness : exists fin cur,
  Forall frame_ok fin /\ [] ++ pending (fsm state0) = frames 0 fin ++ started (partial (fsm state0) cur) /\
  concat (map snd fin) ++ cur ++ buffered state0 = concat (map bytes [0x0F0E0D0C0B0A09080706050403020100]).
Proof. apply eth_frames. exact eth_reach0. Defined.

Lemma eth_never_waits_witness :
  (exists o s', eth_fifo_interface 0 false state0 = Some (o, s')) /\
  (length (data_buffer state0) <= depth)%nat /\ buffer_count state0 = wrap 14 (Z.of_nat (length (data_buffer state0))).
Proof. apply (eth_never_waits [0x0F0E0D0C0B0A09080706050403020100] []); [exact eth_reach0|done]. Defined.

(** An idle interface holding the given bytes. *)
Definition holding (buf : list Z) (cnt bc : Z) : eth := {|
  data_in := [];
  fsm := {| current_state := IDLE; count := cnt; length_ := 0; ID_num := 0; buffer_data := 0;
            data_ready := 0; tx_valid := false; sop := false; eop := false; tx_data := 0 |};
  split := {| data_word := 0; data_word_valid := false; word_byte := 0; buffer_added := false |};
  data_buffer := buf; buffer_count := bc; last_tx_status_valid := 0
|}.

Lemma eth_timeout_witness : exists s', wait 4 (holding [7] 3 1) = Some s' /\ current_state (fsm s') = MAC_DST /\ length_ (fsm s') = timeout_length 1.
Proof. apply (eth_timeout (holding [7] 3 1)); try done; vm_compute; split; done. Defined.

Lemma full_buffer_stalls_witness : let s := holding (repeat 0 depth) 16000 0 in
  11 * PACKET_SIZE <= Z.of_nat (length (data_buffer s)) /\
  (exists s', wait 5 s = Some s' /\ current_state (fsm s') = IDLE /\ data_buffer s' = data_buffer s) /\
  (exists s', wait (Z.to_nat 16001) s = Some s' /\ current_state (fsm s') = MAC_DST /\ length_ (fsm s') = 49).
Proof.
  intros s. assert (Hl : length (data_buffer s) = depth) by apply repeat_length.
  apply (full_buffer_stalls s 5); [done|done|exact Hl|by rewrite Hl, depth_eq|done|by left|lia].
Defined.
