(* ===== verification/EthBench.v ===== *)
(** The test bench of the Ethernet interface
    (ip/hls/eth_fifo_interface/eth_fifo_interface_tb.cpp): its run, and the
    things it asks the reader to look for in the waveform. *)
From S2P Require Import Prelude EthFifo EthFifoProofs.
Open Scope Z_scope.

Section Bench.
Context `{ApUp} (TIMEOUT TINY : bool).

(* @src ip/hls/eth_fifo_interface/eth_fifo_interface_tb.cpp 23-23 NUM_BYTES_IN *)
Definition NUM_BYTES_IN : nat := if TIMEOUT then if TINY then 32 else 64 else Z.to_nat PACKET_SIZE.
(* @src ip/hls/eth_fifo_interface/eth_fifo_interface_tb.cpp 24-24 NUM_BYTES_OUT *)
Definition NUM_BYTES_OUT : nat := if TIMEOUT then if TINY then 48 else 64 else Z.to_nat PACKET_SIZE.

(** Words of sixteen bytes, each byte its number. *)
(* @src ip/hls/eth_fifo_interface/eth_fifo_interface_tb.cpp 35-39 main data_in *)
Fixpoint data_words (n : nat) (i word : Z) : list Z :=
  match n with
  | O => []
  | S n =>
      let word := set_up (i mod 16 * 8) (i mod 16 * 8 + 7) word (u8 i) in
      if i mod 16 =? 15 then word :: data_words n (i + 1) word else data_words n (i + 1) word
  end.

(** Cycles until the interface has data: how many, and the state then. *)
(* @src ip/hls/eth_fifo_interface/eth_fifo_interface_tb.cpp 53-69 main wait for data ready *)
Fixpoint wait_ready (fuel : nat) (rdy : Z) (s : eth) : option (nat * eth) :=
  if rdy =? 0 then
    match fuel with
    | O => None
    | S fuel => '(o, s) ← eth_fifo_interface 1 false s; '(n, s) ← wait_ready fuel (tx_r_data_rdy o) s; Some (S n, s)
    end
  else Some (O, s).

(* @src ip/hls/eth_fifo_interface/eth_fifo_interface_tb.cpp 71-101 main read out data *)
Fixpoint cycles (n : nat) (rd : bool) (s : eth) : option (list (bool * outputs) * eth) :=
  match n with
  | O => Some ([], s)
  | S n => '(o, s) ← eth_fifo_interface 0 rd s; '(os, s) ← cycles n rd s; Some ((rd, o) :: os, s)
  end.

(** The requests and outputs of the waveform from the first request on. *)
(* @src ip/hls/eth_fifo_interface/eth_fifo_interface_tb.cpp 26-102 main *)
Definition bench (fuel : nat) : option (nat * list (bool * outputs)) :=
  let s := {| data_in := data_words NUM_BYTES_IN 0 0; fsm := fsm initial; split := split initial; data_buffer := []; buffer_count := 0;
              last_tx_status_valid := 0 |} in
  '(n, s) ← wait_ready fuel 0 s;
  '(os, s) ← cycles (NUM_BYTES_OUT + 1 + 14) true s;
  '(os', _) ← cycles 5 false s;
  Some (n, os ++ os').
End Bench.

(** What the bench says to look for. *)
Definition valid_delayed (os : list (bool * outputs)) : Prop :=
  map (fun x => tx_r_valid (snd x)) os = false :: map fst (removelast os).
Definition delivered (os : list (bool * outputs)) : list (Z * bool * bool) :=
  map (fun x => (tx_r_data (snd x), tx_r_sop (snd x), tx_r_eop (snd x))) (filter (fun x => tx_r_valid (snd x) = true) os).

Definition shown (TIMEOUT TINY : bool) (n : nat) (os : list (bool * outputs)) : Prop :=
  (16000 <? Z.of_nat n) = TIMEOUT /\ valid_delayed os /\
  delivered os = frame (Z.of_nat (NUM_BYTES_OUT TIMEOUT TINY) + 1) (map (fun i => u8 (Z.of_nat i)) (seq 0 (NUM_BYTES_IN TIMEOUT TINY))) 0.

#[local] Instance shown_dec TIMEOUT TINY n os : Decision (shown TIMEOUT TINY n os).
Proof. unfold shown, valid_delayed. apply _. Defined.

Lemma run_shown (r : option (nat * list (bool * outputs))) TIMEOUT TINY :
  match r with Some (n, os) => bool_decide (shown TIMEOUT TINY n os) | None => false end = true ->
  exists n os, r = Some (n, os) /\ shown TIMEOUT TINY n os.
Proof. destruct r as [[n os]|]; [|done]. intros H%bool_decide_eq_true. eauto. Qed.

(** * Theorem *)

(** The bench shows what it asks to look for, in each of its variants: the
    interface becomes ready, with less than a full packet only after the
    timeout of 16000 cycles; valid follows the request by one cycle; and the
    bytes delivered are exactly one frame, start and end marked, with the
    broadcast address, the length of what follows, the bytes sent in order,
    padding up to the shortest frame, and the number zero. *)
Theorem bench_frame (TIMEOUT TINY : bool) :
  exists n os, bench TIMEOUT TINY (Z.to_nat 20000) = Some (n, os) /\ shown TIMEOUT TINY n os.
Proof. apply run_shown. destruct TIMEOUT, TINY; vm_compute; reflexivity. Qed.
