(* ===== verification/MonitorBare.v ===== *)
(** The monitor programs without an operating system
    (shared/standalone/monitor.c).

    The counters and the event log are driven through the board support
    package's monitor driver, the interface [Pmon]; the trace is copied from
    the trace capture device to a file on the memory card, by the FatFs
    library (the class of Fatfs.v), or to the heap.  The name of the file is
    typed at the console.  With USE_SD the file is written block by block (the
    variant that writes it from the heap is compiled out); without, the trace
    stays in the heap. *)
From S2P Require Import Prelude Device ApmRegs Apm Devtree Parser Monitor Fatfs.
Open Scope Z_scope.

(** * The monitor driver *)

(** xaxipmon.h of the board support package, on the instance [apm]. *)
Class Pmon (D : Type) := {
  XAxiPmon_LookupConfig : option Z;                     (* the base address *)
  XAxiPmon_CfgInitialize : Z -> io D Z;
  XAxiPmon_SetMetrics : Z -> Z -> Z -> io D Z;                  (* a status *)
  XAxiPmon_SetIncrementerRange : Z -> Z -> Z -> io D unit;
  XAxiPmon_IntrClear : Z -> io D unit;
  XAxiPmon_ResetMetricCounter : io D Z;                 (* a status *)
  XAxiPmon_EnableMetricsCounter : io D unit;
  XAxiPmon_DisableMetricsCounter : io D unit;
  XAxiPmon_GetMetricCounter : Z -> io D Z;
  XAxiPmon_GetIncrementer : Z -> io D Z;
  XAxiPmon_ReadReg_IS : io D Z;                         (* the interrupt status register *)
  XAxiPmon_StartEventLog : Z -> io D Z;                 (* a status *)
  XAxiPmon_StopEventLog : io D Z;                       (* a status *)
  XAxiPmon_SetSwDataReg : Z -> io D unit
}.

Section Pmon.
Context {D : Type} `{Pmon D} (b : build).

(** Whether the message of a failure is printed. *)
(* @src shared/standalone/monitor.c 19-25 monitor_init *)
Definition monitor_init : io D bool :=
  match XAxiPmon_LookupConfig with
  | None => mret true
  | Some base => apm_status ← XAxiPmon_CfgInitialize base; mret (negb (apm_status =? 0))
  end.

(* @src shared/standalone/monitor.c 27-29 monitor_finish *)
Definition monitor_finish : io D unit := mret tt.

(* @src shared/standalone/monitor.c 44-61 stats_start *)
Definition stats_start : io D unit :=
  _ ← XAxiPmon_SetMetrics 0 0 0;
  _ ← XAxiPmon_SetMetrics 0 1 1;
  _ ← XAxiPmon_SetMetrics 0 2 2;
  _ ← XAxiPmon_SetMetrics 0 3 3;
  _ ← XAxiPmon_SetIncrementerRange 2 (I2_RNG_HI b) 0;
  _ ← (if USE_ACC b then
         _ ← XAxiPmon_SetMetrics 1 0 4;
         _ ← XAxiPmon_SetMetrics 1 1 5;
         _ ← XAxiPmon_SetMetrics 1 2 6;
         _ ← XAxiPmon_SetMetrics 1 3 7;
         XAxiPmon_SetIncrementerRange 6 7 0
       else mret tt);
  _ ← XAxiPmon_IntrClear XAPM_IXR_ALL_MASK;
  _ ← XAxiPmon_ResetMetricCounter;
  XAxiPmon_EnableMetricsCounter.

(* @src shared/standalone/monitor.c 63-68 stats_stop *)
Definition stats_stop : io D unit := XAxiPmon_DisableMetricsCounter.

(** ["%s%u "] of a counter, the status read anew for each. *)
(* @src shared/standalone/monitor.c 78-78 a counter of stats_print *)
Definition counter_cell (mask counter : Z) : io D string :=
  status ← XAxiPmon_ReadReg_IS;
  v ← XAxiPmon_GetMetricCounter counter;
  mret (cat [if truthy (Z.land status mask) then "*" else ""; fmt_u v; " "]).

(* @src shared/standalone/monitor.c 74-93 stats_print *)
Definition stats_print : io D (list string) :=
  c0 ← counter_cell XAPM_IXR_MC0_OVERFLOW_MASK 0;
  c1 ← counter_cell XAPM_IXR_MC1_OVERFLOW_MASK 1;
  c2 ← counter_cell XAPM_IXR_MC2_OVERFLOW_MASK 2;
  c3 ← counter_cell XAPM_IXR_MC3_OVERFLOW_MASK 3;
  i2 ← XAxiPmon_GetIncrementer 2;
  let cpu := cat ["CPU "; c0; c1; c2; c3; fmt_u i2; nl] in
  let head := cat ["Slot TranW TranR ByteW ByteR StrobeLW"; nl] in
  if USE_ACC b then
    c4 ← counter_cell XAPM_IXR_MC4_OVERFLOW_MASK 4;
    c5 ← counter_cell XAPM_IXR_MC5_OVERFLOW_MASK 5;
    c6 ← counter_cell XAPM_IXR_MC6_OVERFLOW_MASK 6;
    c7 ← counter_cell XAPM_IXR_MC7_OVERFLOW_MASK 7;
    i6 ← XAxiPmon_GetIncrementer 6;
    mret [head; cpu; cat ["ACC "; c4; c5; c6; c7; fmt_u i6; nl]]
  else mret [head; cpu].

(* @src shared/standalone/monitor.c 112-135 trace_start *)
Definition trace_start : io D unit :=
  _ ← XAxiPmon_StartEventLog (trace_flags b);
  XAxiPmon_SetSwDataReg 0xAAAAAAAA.

(* @src shared/standalone/monitor.c 137-143 trace_stop *)
Definition trace_stop : io D unit :=
  _ ← for_range 16 (fun _ => XAxiPmon_SetSwDataReg 0xDEADBEEF);
  _ ← XAxiPmon_StopEventLog;
  mret tt.

(* @src shared/standalone/monitor.c 397-400 trace_event *)
Definition trace_event (e : Z) : io D unit := XAxiPmon_SetSwDataReg (u32 e).
End Pmon.

(** * Trace entries *)

(** The bytes of an entry by the width of the stream; [None]: the build
    stops. *)
(* @src shared/standalone/monitor.c 161-171 TCD_ENTRY_SZ *)
Definition entry_sz (width : Z) : option Z :=
  if width <=? 128 then Some 16
  else if width <=? 256 then Some 32
  else if width <=? 512 then Some 64
  else if width <=? 1024 then Some 128
  else None.

(** The memory of the board, by [XPS_BOARD_...]. *)
Inductive board := ZCU102 | SIDEWINDER100 | ZC706.
(* @src shared/standalone/monitor.c 153-159 TRACE_MEM_SZ *)
Definition TRACE_MEM_SZ (bd : board) : Z :=
  match bd with ZCU102 => 2 ^ 29 | SIDEWINDER100 => 2 ^ 34 | ZC706 => 2 ^ 30 end.

(** * The name of the file *)

(** What is typed, up to the carriage return: the name, what is echoed and
    what is still to be read; [None] when the line does not end. *)
(* @src shared/standalone/monitor.c 206-213 get file name *)
Fixpoint get_name (keys fn echo : list Z) : option (list Z * list Z * list Z) :=
  match keys with
  | [] => None
  | ch :: keys =>
      if ch =? 13 then Some (fn, echo ++ [13; 10], keys)
      else if ch =? 8 then
        if (0 <? length fn)%nat then get_name keys (removelast fn) (echo ++ [8; 32; 8]) else get_name keys fn echo
      else if Z.of_nat (length fn) <? 80 - 1 then get_name keys (fn ++ [ch]) (echo ++ [ch]) else get_name keys fn echo
  end.

(** * Capture to a file *)

(** Create the file, or empty it (ff.h). *)
Definition FA_CREATE_ALWAYS : Z := 0x08.

(** The card: its volume and the file object. *)
Record card (V F : Type) := { vol : V; fdst : F }.
Arguments vol {V F}.
Arguments fdst {V F}.
Arguments Build_card {V F}.

(** The messages of the capture. *)
Inductive message := MountFailed (fr : FRESULT) | OpenFailed (fr : FRESULT) | WriteFailed (fr : FRESULT) (br bw : Z)
  | MemoryExceeded | CloseFailed (fr : FRESULT) | UnmountFailed (fr : FRESULT) | Length (tot : Z) | HeapExhausted.

Section Card.
Context {T : Type} `{HT : Device T} {V F : Type} `{HF : FatFs V F}.
(** Bits of an [unsigned long]. *)
Context (LONG : Z).

(** What the loop carries: the card, the total, the messages. *)
Record grabbed := { gcard : card V F; gtot : Z; gmsgs : list message }.

(** The loop over the blocks; [buffer] is the copy buffer. *)
(* @src shared/standalone/monitor.c 230-254 grab trace *)
Fixpoint grab_to_card (fuel : nat) (tcd entry mem_sz : Z) (buffer : list Z) (g : grabbed) : io T (option grabbed) :=
  match fuel with
  | O => mret None
  | S fuel' =>
      r ← fill_buffer (block_fuel entry) tcd entry [] 0;
      match r with
      | None => mret None
      | Some (tmp, stored, blen) =>
          let buffer := stored ++ drop (length stored) buffer in
          let '(fr, bw, f, v) := f_write (fdst (gcard g)) (take (Z.to_nat blen) buffer) (vol (gcard g)) in
          let c := {| vol := v; fdst := f |} in
          if negb (bool_decide (fr = FR_OK)) then
            mret (Some {| gcard := c; gtot := gtot g; gmsgs := gmsgs g ++ [WriteFailed fr blen bw] |})
          else
            let tot := wrap LONG (gtot g + blen) in
            let shown := if Z.land tot (2 ^ 20 - 1) =? 0 then gmsgs g ++ [Length tot] else gmsgs g in
            if mem_sz <=? tot then mret (Some {| gcard := c; gtot := tot; gmsgs := shown ++ [MemoryExceeded] |})
            else
              let g := {| gcard := c; gtot := tot; gmsgs := shown |} in
              if truthy tmp then grab_to_card fuel' tcd entry mem_sz buffer g else mret (Some g)
      end
  end.

(** From the label on: the file is closed and the volume unmounted, then the
    times are shown; the bandwidth is [None] when the division is by zero. *)
(* @src shared/standalone/monitor.c 255-270 tc: *)
Definition finish_capture (f_unmount : V -> FRESULT * V) (seconds : Z) (g : grabbed) : grabbed * Z * option Z :=
  let '(fr, f, v) := f_close (fdst (gcard g)) (vol (gcard g)) in
  let m1 := if bool_decide (fr = FR_OK) then [] else [CloseFailed fr] in
  let '(fr, v) := f_unmount v in
  let m2 := if bool_decide (fr = FR_OK) then [] else [UnmountFailed fr] in
  ({| gcard := {| vol := v; fdst := f |}; gtot := gtot g; gmsgs := gmsgs g ++ m1 ++ m2 ++ [Length (gtot g)] |},
   seconds, if seconds =? 0 then None else Some (gtot g / seconds)).

(** The capture with the file name typed; no result is the early return.
    [chars] makes the string [f_open] takes. *)
(* @src shared/standalone/monitor.c 188-271 trace_capture *)
Definition capture_to_card (f_unmount : V -> FRESULT * V) (chars : list Z -> string) (tcd entry mem_sz seconds : Z) (keys buffer : list Z)
    (c : card V F) : io T (option (option (grabbed * Z * option Z))) :=
  match get_name keys [] [] with
  | None => mret None
  | Some (fn, _, _) =>
      if (length fn =? 0)%nat then mret (Some None) else
      let fail v f m := mret (Some (Some (finish_capture f_unmount seconds {| gcard := {| vol := v; fdst := f |}; gtot := 0; gmsgs := [m] |}))) in
      let '(fr, v) := f_mount (vol c) in
      if negb (bool_decide (fr = FR_OK)) then fail v (fdst c) (MountFailed fr) else
      let '(fr, f, v) := f_open (fdst c) (chars fn) (Z.lor FA_CREATE_ALWAYS FA_WRITE) v in
      if negb (bool_decide (fr = FR_OK)) then fail v f (OpenFailed fr) else
      _ ← bus_write tcd 0;
      g ← grab_to_card (grab_fuel mem_sz) tcd entry mem_sz buffer {| gcard := {| vol := v; fdst := f |}; gtot := 0; gmsgs := [] |};
      mret (g ← g; Some (Some (finish_capture f_unmount seconds g)))
  end.

(** * Capture to the heap *)

(** One entry: the union of its words, and the bytes stored at [dst]. *)
(* @src shared/standalone/monitor.c 384-386 tmp |= *dst++ = *tcd *)
Fixpoint heap_entry (tcd : Z) (n : nat) (tmp : Z) (heap : list Z) : io T (Z * list Z) :=
  match n with
  | O => mret (tmp, heap)
  | S n' => w ← bus_read tcd; heap_entry tcd n' (Z.lor tmp w) (heap ++ le_bytes 4 w)
  end.

(** [room] is [mem_end - mem_beg] and [heap] the bytes stored from [mem_beg]. *)
(* @src shared/standalone/monitor.c 382-388 do *)
Fixpoint heap_loop (fuel : nat) (tcd entry room : Z) (heap : list Z) (tot : Z) : io T (option (Z * list Z * Z)) :=
  match fuel with
  | O => mret None
  | S fuel' =>
      '(tmp, heap) ← heap_entry tcd (Z.to_nat (entry / 4)) 0 heap;
      let tot := wrap LONG (tot + entry) in
      if truthy tmp && (Z.of_nat (length heap) <? room) then heap_loop fuel' tcd entry room heap tot
      else mret (Some (tmp, heap, tot))
  end.

Definition heap_fuel (entry room : Z) : nat := S (Z.to_nat (room / entry)).

(** The trace in the heap, the total and the messages. *)
(* @src shared/standalone/monitor.c 369-394 trace_capture *)
Definition capture_to_heap (tcd entry room : Z) : io T (option (list Z * Z * list message)) :=
  _ ← bus_write tcd 0;
  r ← heap_loop (heap_fuel entry room) tcd entry room [] 0;
  mret ('(tmp, heap, tot) ← r; Some (heap, tot, (if truthy tmp then [HeapExhausted] else []) ++ [Length tot])).
End Card.
