(* ===== verification/MonitorBareProofs.v ===== *)
(** The monitor without an operating system: what the name editor shows, what
    a capture leaves on the card and in the heap.

    The card is any FatFs whose writes append as documented ([CardWrites]); a
    volume of a fixed size, [small_card], discharges the law and serves the
    witnesses.  The loop that writes the card is related to the one of the
    Linux program, so the trace is found to be the same by the theorems of
    MonitorProofs.v. *)
From S2P Require Import Prelude Device ApmRegs Apm Devtree Parser Monitor MonitorProofs Fatfs MonitorBare.
Open Scope Z_scope.

(** * The file name *)

(** A line of a terminal: its cells and the column of the cursor. *)
Definition show (l : list Z * nat) (ch : Z) : list Z * nat :=
  let '(cells, col) := l in
  if ch =? 8 then (cells, pred col)
  else if (col <? length cells)%nat then (<[col := ch]> cells, S col)
  else (cells ++ [ch], S col).

(** The line holds [fn], then blanks, and the cursor is after [fn]. *)
Definition shows (e fn : list Z) : Prop := exists k, fold_left show e ([], 0%nat) = (fn ++ repeat 32 k, length fn).

Lemma shows_char e fn ch : ch <> 8 -> shows e fn -> shows (e ++ [ch]) (fn ++ [ch]).
Proof.
  intros Hch [k H]. unfold shows. rewrite fold_left_app, H. cbn [fold_left show]. destruct (Z.eqb_spec ch 8); [done|].
  rewrite !length_app, repeat_length, Nat.add_1_r. destruct k as [|k].
  - exists 0%nat. cbn [repeat]. rewrite Nat.add_0_r, Nat.ltb_irrefl. by rewrite !app_nil_r.
  - exists k. destruct (Nat.ltb_spec (length fn) (length fn + S k)); [|lia].
    rewrite insert_app_r_alt, Nat.sub_diag by lia. cbn [repeat]. by rewrite <- app_assoc.
Qed.

Lemma shows_erase e fn : fn <> [] -> shows e fn -> shows (e ++ [8; 32; 8]) (removelast fn).
Proof.
  intros Hfn. destruct (exists_last Hfn) as (l & x & ->). rewrite removelast_last. intros [k H].
  unfold shows. rewrite fold_left_app, H. exists (S k). cbn [fold_left show Z.eqb Pos.eqb].
  rewrite !length_app, repeat_length. cbn [length]. rewrite Nat.add_1_r. cbn [pred].
  destruct (Nat.ltb_spec (length l) (S (length l) + k)); [|lia]. cbn [pred].
  rewrite <- app_assoc, insert_app_r_alt, Nat.sub_diag by lia. done.
Qed.

Lemma get_name_shows keys : forall fn e fn' e' rest,
  Forall (fun ch => 32 <= ch \/ ch = 8 \/ ch = 13) keys -> (length fn <= 79)%nat -> shows e fn ->
  get_name keys fn e = Some (fn', e', rest) ->
  (length fn' <= 79)%nat /\ (exists typed, keys = typed ++ 13 :: rest) /\ exists e1, e' = e1 ++ [13; 10] /\ shows e1 fn'.
Proof.
  induction keys as [|ch keys IH]; intros fn e fn' e' rest Hk Hl Hs; cbn [get_name]; [done|].
  apply Forall_cons in Hk as [Hch Hk].
  assert (Hrest : forall fn e, (length fn <= 79)%nat -> shows e fn -> get_name keys fn e = Some (fn', e', rest) ->
    (length fn' <= 79)%nat /\ (exists typed, ch :: keys = typed ++ 13 :: rest) /\ exists e1, e' = e1 ++ [13; 10] /\ shows e1 fn').
  { intros fn1 e1 H1 H2 H3. destruct (IH fn1 e1 fn' e' rest Hk H1 H2 H3) as (? & (typed & ->) & ?). split; [done|]. split; [|done].
    by exists (ch :: typed). }
  destruct (Z.eqb_spec ch 13) as [->|H13].
  - intros [= <- <- <-]. split; [done|]. split; [by exists []|]. by exists e.
  - destruct (Z.eqb_spec ch 8) as [->|H8].
    + destruct (Nat.ltb_spec 0 (length fn)) as [Hpos|]; [|by apply Hrest]. apply Hrest.
      * destruct (exists_last (l := fn)) as (l & x & ->); [by destruct fn; [simpl in Hpos; lia|]|].
        rewrite removelast_last. rewrite length_app in Hl. simpl in Hl. lia.
      * apply shows_erase; [by destruct fn; [simpl in Hpos; lia|]|done].
    + destruct (Z.ltb_spec (Z.of_nat (length fn)) (80 - 1)); [|by apply Hrest].
      apply Hrest; [rewrite length_app; simpl; lia|by apply shows_char].
Qed.

(** The file gets the name the terminal shows: after any typing, corrections
    included, the line holds exactly the name of the file, the cursor is
    after it, and the name fits its array with the terminating zero. *)
Theorem name_on_screen keys fn echo rest :
  Forall (fun ch => 32 <= ch \/ ch = 8 \/ ch = 13) keys -> get_name keys [] [] = Some (fn, echo, rest) ->
  (length fn < 80)%nat /\
  exists e k, echo = e ++ [13; 10] /\ fold_left show e ([], 0%nat) = (fn ++ repeat 32 k, length fn).
Proof.
  intros Hk H. destruct (get_name_shows keys [] [] fn echo rest Hk) as (Hl & _ & e & He & k & Hs); [simpl; lia|by exists 0%nat|done|].
  split; [lia|]. by exists e, k.
Qed.

(** * The trace on the card *)

(** What FatFs documents of a file that is written at its end: a write that
    finds the volume full stores what fits and still returns FR_OK. *)
Class CardWrites (V F : Type) `{FatFs V F} := {
  appending : F -> V -> Prop;
  written : F -> V -> list Z;
  growth : F -> V -> nat;
  write_appends : forall f buf v, appending f v ->
    exists f' v', f_write f buf v = (FR_OK, Z.of_nat (Nat.min (length buf) (growth f v)), f', v') /\
      appending f' v' /\ written f' v' = written f v ++ take (growth f v) buf /\
      growth f' v' = (growth f v - length buf)%nat
}.

(** What the loop reports on the way to a total: the totals after each block
    that are whole mebibytes.  Every block but the last is full. *)
Definition block_totals (tot : Z) : list Z := map (fun k => Z.min (Z.of_nat k * BLK_SZ) tot) (seq 1 (block_limit tot)).
Definition progress_lines (tot : Z) : list Z := filter (fun t => Z.land t (2 ^ 20 - 1) = 0) (block_totals tot).

(** One more block. *)
Lemma progress_step b tot :
  Z.of_nat b * BLK_SZ < tot <= Z.of_nat (S b) * BLK_SZ ->
  (if Z.land tot (2 ^ 20 - 1) =? 0 then progress_lines (Z.of_nat b * BLK_SZ) ++ [tot] else progress_lines (Z.of_nat b * BLK_SZ))
  = progress_lines tot.
Proof.
  intros Ht. unfold progress_lines, block_totals.
  assert (Hb : block_limit (Z.of_nat b * BLK_SZ) = b) by (unfold block_limit, BLK_SZ in *; change (2 ^ 17) with 131072 in *; div_lia).
  assert (Hs : block_limit tot = S b) by (unfold block_limit, BLK_SZ in *; change (2 ^ 17) with 131072 in *; div_lia).
  rewrite Hb, Hs, seq_S, map_app, filter_app. cbn [map]. rewrite (Z.min_r (Z.of_nat (1 + b) * BLK_SZ)) by (cbn [Nat.add]; lia).
  rewrite (map_ext_in (fun k => Z.min (Z.of_nat k * BLK_SZ) tot) (fun k => Z.min (Z.of_nat k * BLK_SZ) (Z.of_nat b * BLK_SZ))).
  2:{ intros k Hk%in_seq. rewrite !Z.min_l; unfold BLK_SZ in *; nia. }
  rewrite filter_cons, filter_nil. destruct (Z.eqb_spec (Z.land tot (2 ^ 20 - 1)) 0) as [E|E];
    [by rewrite decide_True|by rewrite decide_False, app_nil_r].
Qed.

Section Card.
Context {T : Type} `{HT : Device T} (tcd : Z) `{HP : !TcdPort T tcd}.
Context {V F : Type} `{HF : FatFs V F} `{HC : !CardWrites V F} (LONG : Z).
Context (f : nat -> Z) (w per : nat) (entry mem_sz : Z).
Hypothesis f_words : forall k, 0 <= f k.
Hypothesis entry_words : entry = 4 * Z.of_nat w.
Hypothesis w_pos : (0 < w)%nat.
Hypothesis per_exact : Z.of_nat per * entry = BLK_SZ.
Hypothesis mem_fits : 1 <= mem_sz <= 2 ^ 63.
Hypothesis long_fits : mem_sz + BLK_SZ <= 2 ^ LONG.

(** The card holds the first [r0] bytes of what the file on the disk of the
    Linux program holds; the totals and the messages are the same. *)
Definition same (r0 : nat) (g : grabbed (V := V) (F := F)) (c : captured) : Prop :=
  appending (fdst (gcard g)) (vol (gcard g)) /\ written (fdst (gcard g)) (vol (gcard g)) = take r0 (cfile c) /\
  growth (fdst (gcard g)) (vol (gcard g)) = (r0 - length (cfile c))%nat /\ gtot g = tot c /\
  gmsgs g = map Length (progress c) ++ map (fun _ => MemoryExceeded) (errs c).

Lemma sim_total i c0 :
  Z.of_nat i * entry < mem_sz -> (c0 <= per)%nat ->
  wrap LONG (Z.of_nat i * entry + Z.of_nat c0 * entry) = Z.of_nat (i + c0) * entry /\
  u64 (Z.of_nat i * entry + Z.of_nat c0 * entry) = Z.of_nat (i + c0) * entry.
Proof using All.
  intros Hi Hc. assert (Z.of_nat c0 * entry <= BLK_SZ) by (rewrite <- per_exact; nia).
  rewrite Nat2Z.inj_add, Z.mul_add_distr_r. split; apply wrap_id; (split; [nia|]); [lia|].
  eapply Z.lt_le_trans; [|by apply (Z.pow_le_mono_r 2 64)]. unfold BLK_SZ in *.
  change (2 ^ 64) with (2 ^ 63 + 2 ^ 63). assert (2 ^ 17 < 2 ^ 63) by (apply Z.pow_lt_mono_r; lia). lia.
Qed.

(** One block on both sides. *)
Lemma same_block r0 g c buf :
  same r0 g c -> exists f' v', f_write (fdst (gcard g)) buf (vol (gcard g)) = (FR_OK, Z.of_nat (Nat.min (length buf) (growth (fdst (gcard g)) (vol (gcard g)))), f', v') /\
    appending f' v' /\ written f' v' = take r0 (cfile c ++ buf) /\ growth f' v' = (r0 - length (cfile c ++ buf))%nat.
Proof.
  intros (Ha & Hw & Hg & _). destruct (write_appends _ buf _ Ha) as (f' & v' & H1 & H2 & H3 & H4).
  exists f', v'. split_and!; [done|done| |]; rewrite Hg in *.
  - by rewrite H3, Hw, take_app.
  - rewrite H4, length_app. lia.
Qed.

Lemma card_sim r0 fuel : forall b t buffer g c c' t',
  errs c = [] -> same r0 g c -> at_entry tcd f w (b * per) t -> tot c = Z.of_nat (b * per) * entry -> tot c < mem_sz ->
  progress c = progress_lines (Z.of_nat b * BLK_SZ) ->
  grab_trace disk fuel tcd entry mem_sz buffer c t = (Some c', t') ->
  exists g', grab_to_card LONG fuel tcd entry mem_sz buffer g t = (Some g', t') /\ same r0 g' c' /\ progress c' = progress_lines (tot c').
Proof using All.
  induction fuel as [|fuel IH]; intros b t buffer g c c' t' He Hs Ht Htot Hlt Hpr; [done|].
  assert (Hper : (0 < per)%nat) by (unfold BLK_SZ in per_exact; destruct per; lia).
  destruct (block_spec tcd f w per entry f_words entry_words w_pos per_exact (b * per) t buffer Ht Hper)
    as (tmp & t1 & H1 & Htmp & Ht1 & Htake & Hlen).
  pose proof (until_zero_le f w per (b * per)) as Hc0.
  cbn [grab_trace grab_to_card]. rewrite !(bind_run _ _ _ _ _ H1). cbv beta iota zeta. rewrite Htake.
  set (stored := word_bytes _) in *. set (c0 := until_zero f w per (b * per)) in *.
  rewrite (fwrite_all disk (fun _ _ => Nat.le_refl _)), Hlen, Z.eqb_refl. cbn [negb].
  destruct (same_block r0 g c stored Hs) as (f' & v' & Hw & Ha' & Hw' & Hg'). rewrite Hw. cbn [bool_decide negb].
  destruct Hs as (_ & _ & _ & Hgt & Hgm). rewrite Hgt, Htot in *.
  destruct (sim_total (b * per) c0 Hlt Hc0) as [-> ->]. rewrite He, app_nil_r in Hgm.
  rewrite bool_decide_true by done. cbn [negb]. 
  assert (Hm : (if Z.land (Z.of_nat (b * per + c0) * entry) (2 ^ 20 - 1) =? 0 then gmsgs g ++ [Length (Z.of_nat (b * per + c0) * entry)] else gmsgs g)
    = map Length (if Z.land (Z.of_nat (b * per + c0) * entry) (2 ^ 20 - 1) =? 0 then progress c ++ [Z.of_nat (b * per + c0) * entry] else progress c)).
  { rewrite Hgm. case_match; [by rewrite map_app|done]. }
  assert (Hc1 : (0 < c0)%nat) by (by apply until_zero_pos).
  pose proof (progress_step b (Z.of_nat (b * per + c0) * entry)) as Hstep. rewrite <- Hpr in Hstep.
  specialize (Hstep ltac:(rewrite <- per_exact; nia)). rewrite Hm, Htmp, Hstep.
  destruct (Z.leb_spec mem_sz (Z.of_nat (b * per + c0) * entry)) as [Hle|Hgt'].
  - intros [= <- <-]. eexists. split; [done|]. split; [|done]. unfold same. cbn. rewrite He. split_and!; done.
  - destruct (ended f w per (b * per)) eqn:Hend; cbn [negb].
    + intros [= <- <-]. eexists. split; [done|]. split; [|done]. unfold same. cbn. rewrite He, app_nil_r. split_and!; done.
    + apply until_zero_full in Hend. fold c0 in Hend.
      assert (Hi : (b * per + c0)%nat = (S b * per)%nat) by (rewrite Hend; lia). rewrite Hi in *.
      apply IH with (b := S b); cbn [errs tot progress]; [done| |done|done|done|].
      * unfold same. cbn. rewrite He, app_nil_r. split_and!; done.
      * f_equal. rewrite <- per_exact. lia.
Qed.
End Card.

Lemma entry_sz_geometry width entry :
  entry_sz width = Some entry ->
  entry = 4 * Z.of_nat (Z.to_nat (entry / 4)) /\ (0 < Z.to_nat (entry / 4))%nat /\
  Z.of_nat (Z.to_nat (BLK_SZ / entry)) * entry = BLK_SZ.
Proof. unfold entry_sz. repeat case_match; intros; simplify_eq; (split; [reflexivity|]; split; [vm_compute; lia|reflexivity]). Qed.

(** On every board the memory's size is counted without overflow. *)
Lemma board_fits bd : 1 <= TRACE_MEM_SZ bd <= 2 ^ 63 /\ TRACE_MEM_SZ bd + BLK_SZ <= 2 ^ (if bd is SIDEWINDER100 then 64 else 32).
Proof. destruct bd; vm_compute; split; split || idtac; discriminate. Qed.

(** C25: Once a name is typed, the card mounted and the file created empty, and
    with a memory whose size the total's type holds with a block to spare, the
    capture reads the entries of the trace up to the first all-zero one, or
    the block in which the memory's size is reached, which is reported; the
    card then holds as much of their bytes as it has room for.  The total
    and the messages say nothing of that room: the total is the size of these
    entries, and the messages are the whole mebibytes on the way to it and,
    at the memory's size, that one, on a card of any room; so when the card is
    too small the loss is not reported. *)
Theorem card_capture_correct {T} `{HT : Device T} {V F} `{HF : FatFs V F} `{HC : !CardWrites V F} LONG tcd `{HP : !TcdPort T tcd}
    f_unmount chars width entry mem_sz seconds keys buffer (c : card V F) t fn echo rest v1 f0 v2 :
  entry_sz width = Some entry -> 1 <= mem_sz <= 2 ^ 63 -> mem_sz + BLK_SZ <= 2 ^ LONG ->
  get_name keys [] [] = Some (fn, echo, rest) -> fn <> [] -> f_mount (vol c) = (FR_OK, v1) ->
  f_open (fdst c) (chars fn) (Z.lor FA_CREATE_ALWAYS FA_WRITE) v1 = (FR_OK, f0, v2) -> appending f0 v2 -> written f0 v2 = [] ->
  let w := Z.to_nat (entry / 4) in
  let n := until_zero (tcd_trace t) w (block_limit mem_sz * Z.to_nat (BLK_SZ / entry)) 0 in
  exists g,
    run (capture_to_card LONG f_unmount chars tcd entry mem_sz seconds keys buffer c) t = Some (Some (finish_capture f_unmount seconds g)) /\
    written (fdst (gcard g)) (vol (gcard g)) = take (growth f0 v2) (word_bytes (words (tcd_trace t) 0 (n * w))) /\
    gtot g = Z.of_nat n * entry /\
    gmsgs g = map Length (progress_lines (Z.of_nat n * entry)) ++ (if mem_sz <=? Z.of_nat n * entry then [MemoryExceeded] else []).
Proof.
  intros Hsz Hm Hlong Hname Hfn Hmount Hopen Ha Hw w n.
  destruct (entry_sz_geometry width entry Hsz) as (He & Hpos & Hper). fold w in He, Hpos.
  pose proof (block_limit_pos mem_sz ltac:(lia)) as Hlim.
  set (c0 := {| cfile := []; tot := 0; errs := []; progress := [] |}).
  destruct (grab_trace_spec tcd (tcd_trace t) w _ entry (tcd_trace_nonneg t) He Hpos Hper disk (fun _ _ => Nat.le_refl _)
    mem_sz (block_limit mem_sz - 1) 0 (dev_wr tcd 0 t) buffer c0 (grab_fuel mem_sz)) as (c' & t' & H1 & H2 & H3 & H4);
    [lia|lia|intros k; apply tcd_rewind|done|done|lia|].
  replace (S (block_limit mem_sz - 1)) with (block_limit mem_sz) in * by lia. cbn [Nat.mul Nat.add] in H2, H3, H4. fold n in H2, H3, H4.
  set (g0 := {| gcard := {| vol := v2; fdst := f0 |}; gtot := 0; gmsgs := [] |}).
  destruct (card_sim tcd LONG (tcd_trace t) w _ entry mem_sz (tcd_trace_nonneg t) He Hpos Hper Hm Hlong (growth f0 v2) (grab_fuel mem_sz)
    0 (dev_wr tcd 0 t) buffer g0 c0 c' t') as (g & Hg & Hs & Hp); [done| |intros k; apply tcd_rewind|done|cbn; lia|done|exact H1|].
  { unfold same, g0, c0. cbn. rewrite Hw, take_nil, Nat.sub_0_r. done. }
  destruct Hs as (_ & Hwr & _ & Htot & Hmsgs). exists g. split_and!.
  - unfold run, capture_to_card. rewrite Hname. destruct (Nat.eqb_spec (length fn) 0) as [Hz|]; [by destruct fn|].
    rewrite Hmount, Hopen. cbn [bool_decide negb]. rewrite !bool_decide_true by done. cbn [negb].
    rewrite (bind_run (bus_write tcd 0) _ t tt (dev_wr tcd 0 t) eq_refl). by rewrite (bind_run _ _ _ _ _ Hg).
  - by rewrite Hwr, H2.
  - by rewrite Htot, H3.
  - rewrite Hmsgs, Hp, H3, H4. cbn [errs c0 app]. by case_match.
Qed.

(** * The trace in the heap *)

(** Entries a heap of [room] bytes takes: the last may pass its end. *)
Definition heap_limit (entry room : Z) : nat := Z.to_nat ((room + entry - 1) / entry).

Section Heap.
Context {T : Type} `{HT : Device T} (tcd : Z) `{HP : !TcdPort T tcd} (LONG : Z).
Context (f : nat -> Z) (w : nat) (entry room : Z).
Hypothesis f_words : forall k, 0 <= f k.
Hypothesis entry_words : entry = 4 * Z.of_nat w.
Hypothesis w_pos : (0 < w)%nat.
Hypothesis room_pos : 0 < room.
Hypothesis long_fits : Z.of_nat (heap_limit entry room) * entry < 2 ^ LONG.

Lemma heap_limit_spec j : (Z.of_nat j * entry <? room) = (j <? heap_limit entry room)%nat.
Proof using All.
  unfold heap_limit. apply eq_bool_prop_intro. rewrite !Is_true_true, Z.ltb_lt, Nat.ltb_lt. clear long_fits.
  assert (0 < entry) by lia. split; intros Hj.
  - assert (Z.of_nat j < (room + entry - 1) / entry); [|lia]. apply Z.lt_le_trans with (Z.of_nat j + 1); [lia|].
    apply Z.div_le_lower_bound; nia.
  - assert (Hd : Z.of_nat j + 1 <= (room + entry - 1) / entry) by lia.
    pose proof (Z.mul_div_le (room + entry - 1) entry ltac:(lia)). nia.
Qed.

Lemma heap_entry_spec n : forall tmp heap t,
  exists t', heap_entry tcd n tmp heap t
    = ((fold_left Z.lor (words (tcd_word t) 0 n) tmp, heap ++ word_bytes (words (tcd_word t) 0 n)), t') /\
    forall k, tcd_word t' k = tcd_word t (n + k).
Proof using HP.
  induction n as [|n IH]; intros tmp heap t.
  - exists t. simpl. by rewrite app_nil_r.
  - cbn [heap_entry]. pose proof (tcd_read t) as Hr. pose proof (tcd_next t) as Hn.
    destruct (dev_rd tcd t) as [x t1] eqn:E. cbn [fst snd] in *. subst x.
    destruct (IH (Z.lor tmp (tcd_word t 0)) (heap ++ le_bytes 4 (tcd_word t 0)) t1) as (t' & Ht & Hk).
    exists t'. rewrite (bind_run _ _ t (tcd_word t 0) t1 E), Ht, (words_ext (tcd_word t) _ 1 0 n Hn).
    split; [by rewrite <- app_assoc|intros k; by rewrite Hk, Hn].
Qed.

Lemma heap_loop_spec m : forall j heap t fuel,
  (heap_limit entry room = j + S m)%nat -> Z.of_nat (length heap) = Z.of_nat j * entry -> at_entry tcd f w j t -> (m < fuel)%nat ->
  let c := until_zero f w (S m) j in
  exists tmp t', heap_loop LONG fuel tcd entry room heap (Z.of_nat j * entry) t
    = (Some (tmp, heap ++ word_bytes (words f (j * w) (c * w)), Z.of_nat (j + c) * entry), t') /\
    truthy tmp = negb (ended f w (S m) j).
Proof using All.
  induction m as [|m IH]; intros j heap t fuel Hlim Hheap Ht Hf; (destruct fuel as [|fuel]; [lia|]); cbn [heap_loop];
    (assert (Hw : Z.to_nat (entry / 4) = w) by (rewrite entry_words, Z.mul_comm, Z.div_mul by lia; lia)); rewrite Hw;
    destruct (heap_entry_spec w 0 heap t) as (t1 & H1 & Hk); rewrite (bind_run _ _ _ _ _ H1); cbv beta iota zeta;
    rewrite (words_ext f (tcd_word t) (j * w) 0 w Ht), Nat.add_0_r, (zero_entry_truthy f w f_words);
    (assert (Ht1 : at_entry tcd f w (S j) t1) by (intros k; rewrite Hk, Ht; f_equal; lia));
    (assert (Hl : Z.of_nat (length (heap ++ word_bytes (words f (j * w) w))) = Z.of_nat (S j) * entry)
      by (rewrite length_app, length_word_bytes, length_words; lia)); rewrite Hl, heap_limit_spec, Hlim;
    (assert (Hwr : wrap LONG (Z.of_nat j * entry + entry) = Z.of_nat (S j) * entry)
      by (rewrite wrap_id; [lia|]; split; [lia|]; rewrite Hlim in long_fits; nia)); rewrite Hwr;
    cbn [until_zero ended seq existsb].
  - destruct (Nat.ltb_spec (S j) (j + 1)); [lia|]. rewrite andb_false_r, orb_false_r.
    assert (E : (if zero_entry f w j then 1%nat else 1%nat) = 1%nat) by (by destruct (zero_entry _ _ _)).
    rewrite E, Nat.mul_1_l, Nat.add_1_r. eexists _, t1. split; [done|]. apply zero_entry_truthy, f_words.
  - destruct (Nat.ltb_spec (S j) (j + S (S m))); [|lia]. rewrite andb_true_r. destruct (zero_entry f w j) eqn:Ez; cbn [negb].
    + rewrite Nat.mul_1_l, Nat.add_1_r. eexists _, t1. split; [done|]. by rewrite zero_entry_truthy, Ez.
    + destruct (IH (S j) (heap ++ word_bytes (words f (j * w) w)) t1 fuel) as (tmp & t' & H2 & Htmp); [lia|done|done|lia|].
      change (if zero_entry f w (S j) then 1%nat else S (until_zero f w m (S (S j)))) with (until_zero f w (S m) (S j)).
      set (c := until_zero f w (S m) (S j)) in *. exists tmp, t'. split; [|exact Htmp]. rewrite H2. do 3 f_equal; [|lia].
      change (S c * w)%nat with (w + c * w)%nat. rewrite words_app, word_bytes_app, <- app_assoc.
      by replace (j * w + w)%nat with (S j * w)%nat by lia.
Qed.
End Heap.

(** The capture to the heap stores the entries up to the first all-zero one,
    or until its end is reached; it reports that the heap ran out exactly
    when no all-zero entry was met, and the last entry passes the end of the
    heap by less than an entry, which happens only when the room is no
    multiple of it. *)
Theorem heap_capture_correct {T} `{HT : Device T} LONG tcd `{HP : !TcdPort T tcd} width entry room t :
  entry_sz width = Some entry -> 0 < room -> room + entry <= 2 ^ LONG ->
  let w := Z.to_nat (entry / 4) in
  let limit := heap_limit entry room in
  let n := until_zero (tcd_trace t) w limit 0 in
  let heap := word_bytes (words (tcd_trace t) 0 (n * w)) in
  run (capture_to_heap LONG tcd entry room) t
  = Some (heap, Z.of_nat n * entry,
      (if ended (tcd_trace t) w limit 0 then [] else [HeapExhausted]) ++ [Length (Z.of_nat n * entry)]) /\
  Z.of_nat (length heap) < room + entry /\ (room mod entry = 0 -> Z.of_nat (length heap) <= room).
Proof.
  intros Hsz Hroom Hlong w limit n heap. destruct (entry_sz_geometry width entry Hsz) as (He & Hpos & _). fold w in He, Hpos.
  assert (Hlim : 0 < (room + entry - 1) / entry) by (apply Z.div_str_pos; lia).
  assert (Hmul : Z.of_nat limit * entry < room + entry /\ (room mod entry = 0 -> Z.of_nat limit * entry <= room)).
  { unfold limit, heap_limit. rewrite Z2Nat.id by lia. pose proof (Z.mul_div_le (room + entry - 1) entry ltac:(lia)). split; [nia|].
    intros Hmod. apply Z.mod_divide in Hmod as [q ->]; [|lia].
    replace (q * entry + entry - 1) with (entry - 1 + q * entry) by lia. rewrite Z.div_add, Z.div_small by lia. lia. }
  destruct (heap_loop_spec tcd LONG (tcd_trace t) w entry room (tcd_trace_nonneg t) He Hpos Hroom ltac:(fold limit; lia) (limit - 1) 0 []
    (dev_wr tcd 0 t) (heap_fuel entry room)) as (tmp & t' & H1 & H2);
    [fold limit; unfold limit, heap_limit; lia|done|intros k; apply tcd_rewind| |].
  { unfold heap_fuel, limit, heap_limit. assert ((room + entry - 1) / entry <= room / entry + 1); [|lia].
    rewrite <- (Z.div_add room 1 entry) by lia. apply Z.div_le_mono; lia. }
  replace (S (limit - 1)) with limit in * by (unfold limit, heap_limit; lia). cbn [Nat.mul Nat.add app] in H1. fold n heap in H1.
  split.
  - unfold run, capture_to_heap. rewrite (bind_run (bus_write tcd 0) _ t tt (dev_wr tcd 0 t) eq_refl).
    cbn [Z.of_nat Z.mul] in H1. rewrite (bind_run _ _ _ _ _ H1). cbn. rewrite H2. by destruct (ended _ _ _ _).
  - pose proof (until_zero_le (tcd_trace t) w limit 0) as Hn. fold n in Hn. unfold heap. rewrite length_word_bytes, length_words.
    assert (Z.of_nat (4 * (n * w)) <= Z.of_nat limit * entry) by nia. lia.
Qed.

(** * Both monitors *)

(** For the widths the monitor has, whole bytes from 72 to 1024 bits, the
    entries have the size the Linux program and the parser compute. *)
Lemma entry_sz_linux k : 9 <= k <= 128 -> entry_sz (8 * k) = Some (TCD_ENTRY_SZ (8 * k)).
Proof.
  intros Hk. assert (H : forallb (fun i => bool_decide (entry_sz (8 * Z.of_nat i) = Some (TCD_ENTRY_SZ (8 * Z.of_nat i)))) (seq 9 120) = true)
    by (vm_compute; reflexivity).
  rewrite forallb_forall in H. specialize (H (Z.to_nat k)). rewrite Z2Nat.id in H by lia.
  apply (bool_decide_eq_true_1 _), H. apply in_seq. lia.
Qed.

(** The Linux driver of the same monitor as an instance: both programs then
    give the same commands. *)
Definition linux_pmon {D : Type} `{HD : Device D} (baseaddr : Z) : Pmon D := {|
  XAxiPmon_LookupConfig := Some baseaddr;
  XAxiPmon_CfgInitialize _ := mret 0;
  XAxiPmon_SetMetrics := setmetrics baseaddr;
  XAxiPmon_SetIncrementerRange := setincrementerrange baseaddr;
  XAxiPmon_IntrClear := intrclear baseaddr;
  XAxiPmon_ResetMetricCounter := resetmetriccounter baseaddr;
  XAxiPmon_EnableMetricsCounter := enablemetricscounter baseaddr;
  XAxiPmon_DisableMetricsCounter := disablemetricscounter baseaddr;
  XAxiPmon_GetMetricCounter := getmetriccounter baseaddr;
  XAxiPmon_GetIncrementer := getincrementer baseaddr;
  XAxiPmon_ReadReg_IS := readreg baseaddr XAPM_IS_OFFSET;
  XAxiPmon_StartEventLog := starteventlog baseaddr;
  XAxiPmon_StopEventLog := stopeventlog baseaddr;
  XAxiPmon_SetSwDataReg := setswdatareg baseaddr
|}.

Lemma stats_start_linux {D : Type} `{HD : Device D} b baseaddr :
  stats_start (H := linux_pmon baseaddr) b = Monitor.stats_start b baseaddr.
Proof. reflexivity. Qed.

(** * Examples *)

(** A volume of [scap] bytes with one file. *)
Record small_card := { scap : nat; sdata : list Z }.
#[export] Instance small_fatfs : FatFs small_card bool := {
  f_mount v := (FR_OK, v);
  f_open fp p a v := (FR_OK, true, {| scap := scap v; sdata := [] |});
  f_chmod p a m v := (FR_OK, v);
  f_truncate fp v := (FR_OK, fp, v);
  f_lseek fp o v := (FR_OK, fp, v);
  f_read fp n v := (FR_OK, [], fp, v);
  f_write fp buf v :=
    let put := take (scap v - length (sdata v)) buf in
    if fp : bool then (FR_OK, Z.of_nat (length put), fp, {| scap := scap v; sdata := sdata v ++ put |}) else (FR_INVALID_OBJECT, 0, fp, v);
  f_close fp v := if fp : bool then (FR_OK, false, v) else (FR_INVALID_OBJECT, fp, v);
  f_unlink p v := (FR_OK, v);
  fs_null fp := negb fp;
  f_tell fp := 0;
  file_size fp := 0
}.

#[export] Instance small_writes : CardWrites small_card bool.
Proof.
  refine {| appending f v := f = true; written f v := sdata v; growth f v := (scap v - length (sdata v))%nat |}.
  intros f buf v ->. eexists _, _. cbn. rewrite length_take, Nat.min_comm. split; [done|]. split; [done|]. split; [done|].
  cbn. rewrite length_app, length_take. lia.
Defined.

(** The trace of two records and its end takes 192 bytes; the card has room
    for 100. *)
Definition typed_name : list Z := [116; 120; 8; 13].

Lemma name_on_screen_witness :
  exists e k, [116; 120; 8; 32; 8; 13; 10] = e ++ [13; 10] /\ fold_left show e ([], 0%nat) = ([116] ++ repeat 32 k, 1%nat).
Proof.
  refine (proj2 (name_on_screen typed_name [116] [116; 120; 8; 32; 8; 13; 10] [] _ eq_refl)).
  repeat (apply Forall_cons; split; [lia|]). by apply Forall_nil.
Defined.

Lemma card_capture_correct_witness :
  exists g, run (capture_to_card 32 (fun v => (FR_OK, v)) (fun _ => "t") tcd_port 64 (2 ^ 18) 1 typed_name [] {| vol := {| scap := 100; sdata := [] |}; fdst := false |}) trace_memory
    = Some (Some (finish_capture (fun v => (FR_OK, v)) 1 g)) /\
  length (sdata (vol (gcard g))) = 100%nat /\ gtot g = 192 /\ gmsgs g = [].
Proof.
  destruct (card_capture_correct (V := small_card) 32 tcd_port (fun v => (FR_OK, v)) (fun _ => "t"%string) 328 64 (2 ^ 18) 1 typed_name []
    {| vol := {| scap := 100; sdata := [] |}; fdst := false |} trace_memory [116] [116; 120; 8; 32; 8; 13; 10] []
    {| scap := 100; sdata := [] |} true {| scap := 100; sdata := [] |}) as (g & H1 & H2 & H3 & H4);
    [reflexivity|lia|unfold BLK_SZ; lia|reflexivity|discriminate|reflexivity..|].
  exists g. split; [exact H1|]. split; [|split].
  - change (sdata (vol (gcard g))) with (written (fdst (gcard g)) (vol (gcard g))). rewrite H2. vm_compute. reflexivity.
  - rewrite H3. vm_compute. reflexivity.
  - rewrite H4. vm_compute. reflexivity.
Defined.

Lemma heap_capture_correct_witness :
  exists heap, run (capture_to_heap 64 tcd_port 64 100) trace_memory = Some (heap, 128, [HeapExhausted; Length 128]) /\ length heap = 128%nat.
Proof.
  destruct (heap_capture_correct 64 tcd_port 328 64 100 trace_memory) as (H1 & _); [reflexivity|lia|lia|].
  eexists. split; [etransitivity; [exact H1|vm_compute; reflexivity]|]. vm_compute. reflexivity.
Defined.
