(* ===== verification/Bytes.v ===== *)
(** Byte memories as functions, shared by the copy programs and the
    accelerators: ranges of bytes read and stored, and what a store leaves; and
    the counted loops of the test programs. *)
From Stdlib Require Import FunctionalExtensionality.
From S2P Require Import Prelude.
Open Scope Z_scope.

(** Bytes of memory, and the memory with bytes stored. *)
Definition bytes_at (m : Z -> Z) (a n : Z) : list Z := map (fun i => m (a + Z.of_nat i)) (seq 0 (Z.to_nat n)).
Definition put_bytes (m : Z -> Z) (a : Z) (l : list Z) : Z -> Z :=
  fun x => if (a <=? x) && (x <? a + Z.of_nat (length l)) then nth (Z.to_nat (x - a)) l 0 else m x.

Lemma length_bytes_at m a n : length (bytes_at m a n) = Z.to_nat n.
Proof. unfold bytes_at. by rewrite length_map, length_seq. Qed.

Lemma put_app m a l l' : put_bytes (put_bytes m a l) (a + Z.of_nat (length l)) l' = put_bytes m a (l ++ l').
Proof.
  apply functional_extensionality. intros x. unfold put_bytes. rewrite length_app.
  destruct (Z.leb_spec a x), (Z.leb_spec (a + Z.of_nat (length l)) x), (Z.ltb_spec x (a + Z.of_nat (length l) + Z.of_nat (length l'))),
    (Z.ltb_spec x (a + Z.of_nat (length l + length l'))), (Z.ltb_spec x (a + Z.of_nat (length l))); cbn [andb]; try lia; try done.
  - rewrite app_nth2 by lia. f_equal. lia.
  - by rewrite app_nth1 by lia.
Qed.

Lemma put_outside m a l x : x < a \/ a + Z.of_nat (length l) <= x -> put_bytes m a l x = m x.
Proof. intros H. unfold put_bytes. destruct (Z.leb_spec a x), (Z.ltb_spec x (a + Z.of_nat (length l))); cbn [andb]; (lia || done). Qed.

Lemma put_inside m a l k : 0 <= k < Z.of_nat (length l) -> put_bytes m a l (a + k) = nth (Z.to_nat k) l 0.
Proof.
  intros H. unfold put_bytes. destruct (Z.leb_spec a (a + k)); [|lia]. destruct (Z.ltb_spec (a + k) (a + Z.of_nat (length l))); [|lia].
  cbn [andb]. f_equal. lia.
Qed.

Lemma nth_bytes_at m a n k : 0 <= k < n -> nth (Z.to_nat k) (bytes_at m a n) 0 = m (a + k).
Proof.
  intros H. unfold bytes_at. rewrite (nth_indep _ 0 (m (a + Z.of_nat 0))) by (rewrite length_map, length_seq; lia).
  rewrite (map_nth (fun i => m (a + Z.of_nat i))), seq_nth by lia. f_equal. lia.
Qed.

Lemma bytes_at_ext m m' a n : (forall k, 0 <= k < n -> m (a + k) = m' (a + k)) -> bytes_at m a n = bytes_at m' a n.
Proof. intros H. unfold bytes_at. apply map_ext_in. intros i Hi%in_seq. apply H. lia. Qed.

Lemma bytes_at_put m a l : bytes_at (put_bytes m a l) a (Z.of_nat (length l)) = l.
Proof.
  apply nth_ext with 0 0; rewrite length_bytes_at, Nat2Z.id; [done|]. intros i Hi.
  rewrite <- (Nat2Z.id i), nth_bytes_at by lia. rewrite put_inside by lia. done.
Qed.

Lemma bytes_at_app m a j k : bytes_at m a (Z.of_nat (j + k)) = bytes_at m a (Z.of_nat j) ++ bytes_at m (a + Z.of_nat j) (Z.of_nat k).
Proof.
  unfold bytes_at. rewrite !Nat2Z.id, seq_app, map_app. f_equal. rewrite <- (Nat.add_0_r (0 + j)), <- fmap_add_seq.
  change (fmap ?f) with (map f). rewrite map_map. apply map_ext. intros i. f_equal. lia.
Qed.

(** * Counted loops *)

(** [for (i = ...; i < ...; i++) body(i)]: [n] turns. *)
Fixpoint turns {A : Type} (n : nat) (i : Z) (body : Z -> A -> A) (x : A) : A :=
  match n with O => x | S n' => turns n' (i + 1) body (body i x) end.

(** Does a loop of comparisons see a difference? *)
Definition differs (n : nat) (f : Z -> bool) : bool := turns n 0 (fun i b => b || f i) false.

(** A loop whose turns keep an invariant that counts them. *)
Lemma turns_inv {A} (P : Z -> A -> Prop) body (n : nat) : forall i x,
  P i x -> (forall k y, i <= k < i + Z.of_nat n -> P k y -> P (k + 1) (body k y)) -> P (i + Z.of_nat n) (turns n i body x).
Proof.
  induction n as [|n IH]; intros i x H0 Hs; [by rewrite Z.add_0_r|]. cbn [turns].
  replace (i + Z.of_nat (S n)) with (i + 1 + Z.of_nat n) by lia. apply IH; [apply Hs; [lia|done]|]. intros k y Hk. apply Hs. lia.
Qed.

Lemma turns_inv0 {A} (P : Z -> A -> Prop) body (n : nat) x :
  P 0 x -> (forall k y, 0 <= k < Z.of_nat n -> P k y -> P (k + 1) (body k y)) -> P (Z.of_nat n) (turns n 0 body x).
Proof. intros H0 Hs. apply (turns_inv P body n 0 x H0). intros k y Hk. apply Hs. lia. Qed.

Lemma turns_or (f : Z -> bool) (n : nat) : forall i b,
  turns n i (fun i b => b || f i) b = false <-> b = false /\ forall k, i <= k < i + Z.of_nat n -> f k = false.
Proof.
  induction n as [|n IH]; intros i b; cbn [turns]; [split; [intros ->; split; [done|lia]|by intros [-> _]]|].
  rewrite IH, orb_false_iff. split.
  - intros [[Hb Hi] H]. split; [done|]. intros k Hk. destruct (Z.eq_dec k i) as [->|]; [done|]. apply H. lia.
  - intros [Hb H]. split; [split; [done|apply H; lia]|]. intros k Hk. apply H. lia.
Qed.

Lemma differs_false n f : differs n f = false <-> forall i, 0 <= i < Z.of_nat n -> f i = false.
Proof. unfold differs. rewrite turns_or. split; [intros [_ H] i Hi; apply H; lia|intros H; split; [done|intros k Hk; apply H; lia]]. Qed.
