(* ===== verification/Dmac.v ===== *)
(** DMA controller commands (shared/standalone/dmac_cmd.c).

    [dmac_memcpy] lets the driver of the board support package generate the
    program of a copy; [dmac_smemcpy] emits one itself, instruction by
    instruction, that gathers blocks from a strided source.  Both hand the
    program to a channel of the controller and wait until its status register
    reads stopped.  The driver, the encodings of the instructions and the
    controller are parameters: [XDmaPs] and [Encoding] here, their documented
    behaviour in DmacProofs.v. *)
From S2P Require Import Prelude Device Monitor.
Open Scope Z_scope.

(** * Commands *)

(** xdmaps.h: how a channel transfers. *)
Module ChanCtrl.
Record t := { SrcBurstSize : Z; SrcBurstLen : Z; SrcInc : bool; DstBurstSize : Z; DstBurstLen : Z; DstInc : bool }.
End ChanCtrl.

(** The instructions the programs use; a loop's end has the distance back to
    its body. *)
Inductive instr :=
| DMAMOV (rd imm : Z) | DMALP (lc iterations : Z) | DMALPEND (distance lc : Z) | DMALD | DMAST | DMAADDH (ra imm : Z) | DMAEND.

(** [XDmaPs_Instr_...] and [XDmaPs_ToCCRValue]: the bytes of an instruction
    and of a transfer control word. *)
Class Encoding := {
  encode : instr -> list Z;
  XDmaPs_ToCCRValue : ChanCtrl.t -> Z
}.

(* @src shared/standalone/dmac_cmd.c 19-20 XDMAPS_ADD_SAR, XDMAPS_ADD_DAR *)
Definition XDMAPS_ADD_SAR : Z := 0.
Definition XDMAPS_ADD_DAR : Z := 1.
(* @src shared/standalone/dmac_cmd.c 25-27 XDMAPS_MOV_SAR, XDMAPS_MOV_CCR, XDMAPS_MOV_DAR *)
Definition XDMAPS_MOV_SAR : Z := 0.
Definition XDMAPS_MOV_CCR : Z := 1.
Definition XDMAPS_MOV_DAR : Z := 2.

(** The driver on the instance [DmaInstance]; programs are named by their
    address. *)
Class XDmaPs (D : Type) := {
  XDmaPs_LookupConfig : Z -> option Z;
  XDmaPs_CfgInitialize : Z -> io D Z;
  XDmaPs_BufPool_Allocate : Z -> io D (option Z);
  XDmaPs_GenDmaProg : Z -> ChanCtrl.t -> Z -> Z -> Z -> io D (Z * Z);   (* the status and the program *)
  XDmaPs_FreeDmaProg : Z -> Z -> io D Z;
  XDmaPs_Exec_DMAGO : Z -> Z -> io D Z;
  XDmaPs_ReadReg_CS : Z -> io D Z;                                      (* the status of a channel *)
  set_DmaCmdToHw : Z -> bool -> io D unit;                              (* a command, or NULL *)
  store_bytes : Z -> list Z -> io D unit;                               (* through a pointer *)
  Xil_DCacheFlushRange : Z -> Z -> io D unit
}.

Definition XST_SUCCESS : Z := 0.
Definition XST_FAILURE : Z := 1.

(** The largest power of two up to 8 that fits a block. *)
(* @src shared/standalone/dmac_cmd.c 111-117 burst_sz *)
Definition burst_size (n : Z) : Z :=
  if n <? 8 then (if n <? 4 then (if n <? 2 then 1 else 2) else 4) else 8.

(* @src shared/standalone/dmac_cmd.c 118-119 burst_len *)
Definition burst_length (n : Z) : Z :=
  let burst_len := u32 (n / burst_size n) in if 16 <? burst_len then 16 else burst_len.

(** * Programs *)

Section Program.
Context `{E : Encoding}.

(** [DmaProgBuf += XDmaPs_Instr_...(DmaProgBuf, ...)]: [p] is what has been
    emitted. *)
Definition emit (i : instr) (p : list Z) : list Z := p ++ encode i.

(** [XDmaPs_Instr_DMALPEND(DmaProgBuf, Label, lc)]. *)
Definition emit_lpend (label : nat) (lc : Z) (p : list Z) : list Z :=
  emit (DMALPEND (Z.of_nat (length p) - Z.of_nat label) lc) p.

(** 32 loads into the data buffer, each from the next block, and a store. *)
(* @src shared/standalone/dmac_cmd.c 220-225 32 loads and a store *)
Definition gather_32 (src_inc : Z) (p : list Z) : list Z :=
  let p := emit (DMALP 0 32) p in
  let Label0 := length p in
  let p := emit DMALD p in
  let p := emit (DMAADDH XDMAPS_ADD_SAR (u32 src_inc)) p in
  let p := emit_lpend Label0 0 p in
  emit DMAST p.

(** 128 blocks a turn. *)
(* @src shared/standalone/dmac_cmd.c 209-253 if (loop1) *)
Definition emit_loop1 (ctrl : ChanCtrl.t) (src_inc loop1 : Z) (p : list Z) : list Z :=
  let ctrl := {| ChanCtrl.SrcBurstSize := ChanCtrl.SrcBurstSize ctrl; ChanCtrl.SrcBurstLen := ChanCtrl.SrcBurstLen ctrl;
                 ChanCtrl.SrcInc := ChanCtrl.SrcInc ctrl; ChanCtrl.DstBurstSize := 8; ChanCtrl.DstBurstLen := 16;
                 ChanCtrl.DstInc := ChanCtrl.DstInc ctrl |} in
  let p := emit (DMAMOV XDMAPS_MOV_CCR (XDmaPs_ToCCRValue ctrl)) p in
  let p := emit (DMALP 1 loop1) p in
  let Label1 := length p in
  let p := gather_32 src_inc p in
  let p := gather_32 src_inc p in
  let p := gather_32 src_inc p in
  let p := gather_32 src_inc p in
  emit_lpend Label1 1 p.

(** The blocks that are left, one a turn. *)
(* @src shared/standalone/dmac_cmd.c 305-320 if (loop0) *)
Definition emit_loop0 (ctrl : ChanCtrl.t) (src_inc loop0 : Z) (p : list Z) : list Z :=
  let p := emit (DMAMOV XDMAPS_MOV_CCR (XDmaPs_ToCCRValue ctrl)) p in
  let p := emit (DMALP 0 loop0) p in
  let Label0 := length p in
  let p := emit DMALD p in
  let p := emit DMAST p in
  let p := emit (DMAADDH XDMAPS_ADD_SAR (u32 src_inc)) p in
  emit_lpend Label0 0 p.

(* @src shared/standalone/dmac_cmd.c 166-182 DmaCmd.ChanCtrl *)
Definition smemcpy_ctrl (block_sz : Z) : ChanCtrl.t :=
  {| ChanCtrl.SrcBurstSize := burst_size block_sz; ChanCtrl.SrcBurstLen := burst_length block_sz; ChanCtrl.SrcInc := false;
     ChanCtrl.DstBurstSize := burst_size block_sz; ChanCtrl.DstBurstLen := burst_length block_sz; ChanCtrl.DstInc := true |}.

(* @src shared/standalone/dmac_cmd.c 188-329 Generate DMAC code *)
Definition smemcpy_program (dst src block_sz src_inc n : Z) : list Z :=
  let ctrl := smemcpy_ctrl block_sz in
  let p := emit (DMAMOV XDMAPS_MOV_SAR (u32 src)) [] in
  let p := emit (DMAMOV XDMAPS_MOV_DAR (u32 dst)) p in
  let loop1 := u32 (Z.shiftr n 7) in
  let loop0 := Z.land n 0x7F in
  let p := if truthy loop1 then emit_loop1 ctrl src_inc loop1 p else p in
  let p := if truthy loop0 then emit_loop0 ctrl src_inc loop0 p else p in
  emit DMAEND p.
End Program.

(** * Commands on a channel *)

Section Commands.
Context {D : Type} `{X : XDmaPs D} `{E : Encoding}.
(** The variable [gdma_chan]. *)
Context (gdma_chan : Z).

(* @src shared/standalone/dmac_cmd.c 80-96 dmac_init *)
Definition dmac_init (device : Z) : io D Z :=
  match XDmaPs_LookupConfig device with
  | None => mret XST_FAILURE
  | Some base =>
      Status ← XDmaPs_CfgInitialize base;
      mret (if Status =? XST_SUCCESS then XST_SUCCESS else XST_FAILURE)
  end.

(** The wait for the channel: [None] is a wait longer than [fuel] reads; a
    fault is shown and ends the program. *)
(* @src shared/standalone/dmac_cmd.c 141-148 while (...) *)
Fixpoint wait_stopped (fuel : nat) : io D (option (outcome unit)) :=
  match fuel with
  | O => mret None
  | S fuel' =>
      tmp ← XDmaPs_ReadReg_CS gdma_chan;
      if Z.land tmp 0xF =? 0 then mret (Some (Finished tt))
      else if Z.land tmp 0xC =? 0xC then mret (Some (Exit 1 "DMA fault"))
      else wait_stopped fuel'
  end.

(** From [XDmaPs_Exec_DMAGO] on: the pointer that is returned, [None] for
    NULL. *)
(* @src shared/standalone/dmac_cmd.c 136-156 XDmaPs_Exec_DMAGO ... return dst *)
Definition exec_program (fuel : nat) (prog dst : Z) : io D (option (outcome (option Z))) :=
  Status ← XDmaPs_Exec_DMAGO gdma_chan (u32 prog);
  if negb (Status =? XST_SUCCESS) then mret (Some (Finished None)) else
  r ← wait_stopped fuel;
  match r with
  | None => mret None
  | Some (Exit s m) => mret (Some (Exit s m))
  | Some (Finished _) =>
      _ ← set_DmaCmdToHw gdma_chan false;
      Status ← XDmaPs_FreeDmaProg gdma_chan prog;
      mret (Some (Finished (if Status =? XST_SUCCESS then Some dst else None)))
  end.

(* @src shared/standalone/dmac_cmd.c 103-157 dmac_memcpy *)
Definition dmac_memcpy (fuel : nat) (dst src n : Z) : io D (option (outcome (option Z))) :=
  let ctrl := {| ChanCtrl.SrcBurstSize := burst_size n; ChanCtrl.SrcBurstLen := burst_length n; ChanCtrl.SrcInc := true;
                 ChanCtrl.DstBurstSize := burst_size n; ChanCtrl.DstBurstLen := burst_length n; ChanCtrl.DstInc := true |} in
  '(Status, prog) ← XDmaPs_GenDmaProg gdma_chan ctrl (u32 src) (u32 dst) (u32 n);
  if negb (Status =? XST_SUCCESS) then mret (Some (Finished None)) else
  _ ← set_DmaCmdToHw gdma_chan true;
  exec_program fuel prog dst.

(** [dst_inc] is not used. *)
(* @src shared/standalone/dmac_cmd.c 159-352 dmac_smemcpy *)
Definition dmac_smemcpy (fuel : nat) (dst src block_sz dst_inc src_inc n : Z) : io D (option (outcome (option Z))) :=
  _ ← set_DmaCmdToHw gdma_chan true;
  a ← XDmaPs_BufPool_Allocate gdma_chan;
  match a with
  | None => mret (Some (Finished None))
  | Some DmaProgStart =>
      let p := smemcpy_program dst src block_sz src_inc n in
      _ ← store_bytes DmaProgStart p;
      _ ← Xil_DCacheFlushRange DmaProgStart (Z.of_nat (length p));
      exec_program fuel DmaProgStart dst
  end.
End Commands.

(* @src shared/standalone/dmac_cmd.c 98-101 dmac_setunit *)
Definition dmac_setunit (unit_ : Z) (gdma_chan : Z) : Z := unit_.
