(* ===== verification/DmacProofs.v ===== *)
(** DMA controller commands: the emitted program gathers the blocks.

    What a channel does is the class [Controller]: it executes the encoded
    instruction its program counter points to, as [exec] states for the cases
    the programs rely on.  The proofs run code segments ([runs]), so the loops
    are verified by one rule.  [DmaDriver] is what the driver of the board
    support package documents; with it the whole command is correct. *)
From Stdlib Require Import FunctionalExtensionality.
From S2P Require Import Prelude Device Bytes Monitor Dmac.
Open Scope Z_scope.

(** * A channel of the controller *)

Record chan := { lc0 : Z; lc1 : Z; sar : Z; dar : Z; ccr : Z; fifo : list Z; cmem : Z -> Z }.

Definition get_lc (lc : Z) (d : chan) : Z := if lc =? 0 then lc0 d else lc1 d.
Definition set_lc (lc v : Z) (d : chan) : chan :=
  {| lc0 := if lc =? 0 then v else lc0 d; lc1 := if lc =? 0 then lc1 d else v; sar := sar d; dar := dar d; ccr := ccr d;
     fifo := fifo d; cmem := cmem d |}.

(** A burst of reads: every beat at the same address unless it increments. *)
Definition burst (c : ChanCtrl.t) (m : Z -> Z) (a : Z) : list Z :=
  concat (map (fun i => bytes_at m (if ChanCtrl.SrcInc c then a + Z.of_nat i * ChanCtrl.SrcBurstSize c else a) (ChanCtrl.SrcBurstSize c))
    (seq 0 (Z.to_nat (ChanCtrl.SrcBurstLen c)))).

Definition valid_ctrl (c : ChanCtrl.t) : Prop :=
  ChanCtrl.SrcBurstSize c ∈ [1; 2; 4; 8] /\ ChanCtrl.DstBurstSize c ∈ [1; 2; 4; 8] /\ 1 <= ChanCtrl.SrcBurstLen c <= 16 /\ 1 <= ChanCtrl.DstBurstLen c <= 16.

Section Exec.
Context (control : Z -> ChanCtrl.t) (depth : Z).

(** What the manual says of an instruction, where the programs rely on it:
    the channel and the distance a loop jumps back. *)
Definition exec (i : instr) (d : chan) : option (chan * option Z) :=
  match i with
  | DMAMOV rd v =>
      if (0 <=? v) && (v <? 2 ^ 32) then
        if rd =? 0 then Some ({| lc0 := lc0 d; lc1 := lc1 d; sar := v; dar := dar d; ccr := ccr d; fifo := fifo d; cmem := cmem d |}, None)
        else if rd =? 1 then Some ({| lc0 := lc0 d; lc1 := lc1 d; sar := sar d; dar := dar d; ccr := v; fifo := fifo d; cmem := cmem d |}, None)
        else Some ({| lc0 := lc0 d; lc1 := lc1 d; sar := sar d; dar := v; ccr := ccr d; fifo := fifo d; cmem := cmem d |}, None)
      else None
  | DMALP lc k => if (1 <=? k) && (k <=? 256) then Some (set_lc lc (k - 1) d, None) else None
  | DMALPEND dist lc =>
      if (0 <=? dist) && (dist <? 256) then
        if get_lc lc d =? 0 then Some (d, None) else Some (set_lc lc (get_lc lc d - 1) d, Some dist)
      else None
  | DMALD =>
      let c := control (ccr d) in
      let n := ChanCtrl.SrcBurstSize c * ChanCtrl.SrcBurstLen c in
      if (sar d mod ChanCtrl.SrcBurstSize c =? 0) && (Z.of_nat (length (fifo d)) + n <=? depth) && (sar d + n <? 2 ^ 32) then
        Some ({| lc0 := lc0 d; lc1 := lc1 d; sar := if ChanCtrl.SrcInc c then sar d + n else sar d; dar := dar d; ccr := ccr d;
                 fifo := fifo d ++ burst c (cmem d) (sar d); cmem := cmem d |}, None)
      else None
  | DMAST =>
      let c := control (ccr d) in
      let n := ChanCtrl.DstBurstSize c * ChanCtrl.DstBurstLen c in
      if (dar d mod ChanCtrl.DstBurstSize c =? 0) && (n <=? Z.of_nat (length (fifo d))) && (dar d + n <? 2 ^ 32) && ChanCtrl.DstInc c then
        Some ({| lc0 := lc0 d; lc1 := lc1 d; sar := sar d; dar := dar d + n; ccr := ccr d; fifo := drop (Z.to_nat n) (fifo d);
                 cmem := put_bytes (cmem d) (dar d) (take (Z.to_nat n) (fifo d)) |}, None)
      else None
  | DMAADDH ra v =>
      if (0 <=? v) && (v <? 2 ^ 16) && (ra =? 0) && (sar d + v <? 2 ^ 32) then
        Some ({| lc0 := lc0 d; lc1 := lc1 d; sar := sar d + v; dar := dar d; ccr := ccr d; fifo := fifo d; cmem := cmem d |}, None)
      else None
  | DMAEND => None
  end.
End Exec.

(** A channel executes the instruction at its counter; instructions take up
    to six bytes; the data buffer has at least 128. *)
Class Controller `{E : Encoding} := {
  control : Z -> ChanCtrl.t;
  depth : Z;
  chan_step : list Z -> nat * chan -> option (nat * chan);
  chan_ended : list Z -> nat * chan -> Prop;
  depth_128 : 128 <= depth;
  encode_length : forall i, (length (encode i) <= 6)%nat;
  control_word : forall c, valid_ctrl c -> control (XDmaPs_ToCCRValue c) = c /\ in_word 32 (XDmaPs_ToCCRValue c);
  step_exec : forall pre i post d d' j, exec control depth i d = Some (d', j) ->
    chan_step (pre ++ encode i ++ post) (length pre, d)
    = Some ((match j with Some dist => length pre - Z.to_nat dist | None => length pre + length (encode i) end)%nat, d');
  end_ended : forall pre post d, chan_ended (pre ++ encode DMAEND ++ post) (length pre, d)
}.

(** * Running code *)

Section Runs.
Context `{E : Encoding} `{C : !Controller}.

Definition code (l : list instr) : list Z := concat (map encode l).
Definition step (p : list Z) (s s' : nat * chan) : Prop := chan_step p s = Some s'.

(** The segment [l] takes the channel from [d] to [d'], wherever it is. *)
Definition runs (l : list instr) (d d' : chan) : Prop :=
  forall pre post, rtc (step (pre ++ code l ++ post)) (length pre, d) (length (pre ++ code l), d').

Lemma code_app l l' : code (l ++ l') = code l ++ code l'.
Proof. unfold code. by rewrite map_app, concat_app. Qed.

Lemma runs_app l l' d d' d'' : runs l d d' -> runs l' d' d'' -> runs (l ++ l') d d''.
Proof.
  intros H H' pre post. rewrite code_app. transitivity (length (pre ++ code l), d').
  - specialize (H pre (code l' ++ post)). rewrite !app_assoc in *. exact H.
  - specialize (H' (pre ++ code l) post). rewrite !app_assoc in *. exact H'.
Qed.

Lemma runs_nil d : runs [] d d.
Proof. intros pre post. cbn. rewrite app_nil_r. apply rtc_refl. Qed.

Lemma runs_instr i l d d' d'' : exec control depth i d = Some (d', None) -> runs l d' d'' -> runs (i :: l) d d''.
Proof.
  intros H Hl. apply (runs_app [i] l d d' d''); [|done]. intros pre post. unfold code. cbn [map concat]. rewrite app_nil_r, length_app.
  apply rtc_once. exact (step_exec pre i post d d' None H).
Qed.

Lemma runs_one i d d' : exec control depth i d = Some (d', None) -> runs [i] d d'.
Proof. intros H. eapply runs_instr; [exact H|apply runs_nil]. Qed.

(** A loop: the body, run with any count in the loop's counter, takes the
    [j]th state to the next. *)
Definition loop (lc k : Z) (body : list instr) : list instr := DMALP lc k :: body ++ [DMALPEND (Z.of_nat (length (code body))) lc].

Lemma get_set_lc lc v d : get_lc lc (set_lc lc v d) = v.
Proof. unfold get_lc, set_lc. by destruct (lc =? 0). Qed.
Lemma set_set_lc lc v v' d : set_lc lc v (set_lc lc v' d) = set_lc lc v d.
Proof. unfold set_lc. destruct (lc =? 0); done. Qed.

Lemma loop_turns lc body (P : nat -> chan) (k : nat) : Z.of_nat (length (code body)) < 256 ->
  (forall j v, (j < k)%nat -> runs body (set_lc lc v (P j)) (set_lc lc v (P (S j)))) ->
  forall r j, (r + j = k)%nat -> (0 < r)%nat -> runs (body ++ [DMALPEND (Z.of_nat (length (code body))) lc]) (set_lc lc (Z.of_nat r - 1) (P j)) (set_lc lc 0 (P k)).
Proof.
  intros Hsz Hb. induction r as [|r IH]; intros j Hj Hr; [lia|].
  intros pre post. rewrite code_app, <- app_assoc.
  etransitivity; [apply (Hb j (Z.of_nat (S r) - 1) ltac:(lia) pre)|].
  set (i := DMALPEND _ _). change (code [i]) with (encode i ++ []). rewrite app_nil_r.
  set (d := set_lc lc (Z.of_nat (S r) - 1) (P (S j))).
  assert (Hx : exec control depth i d = if Z.of_nat r =? 0 then Some (d, None) else Some (set_lc lc (Z.of_nat r - 1) d, Some (Z.of_nat (length (code body))))).
  { unfold i, exec, d. rewrite get_set_lc. destruct (Z.leb_spec 0 (Z.of_nat (length (code body)))); [|lia].
    destruct (Z.ltb_spec (Z.of_nat (length (code body))) 256); [|lia]. cbn [andb]. by replace (Z.of_nat (S r) - 1) with (Z.of_nat r) by lia. }
  destruct (Z.eqb_spec (Z.of_nat r) 0) as [Hz|Hnz].
  - apply rtc_once. unfold step. rewrite app_assoc. rewrite (step_exec (pre ++ code body) i post d d None Hx).
    rewrite !length_app. unfold d. replace (Z.of_nat (S r) - 1) with 0 by lia. replace (S j) with k by lia. do 2 f_equal. lia.
  - eapply rtc_l.
    + unfold step. rewrite app_assoc. exact (step_exec (pre ++ code body) i post d _ _ Hx).
    + unfold d. rewrite set_set_lc, Nat2Z.id, length_app, Nat.add_sub. specialize (IH (S j) ltac:(lia) ltac:(lia) pre post).
      rewrite code_app, <- app_assoc in IH. change (code [DMALPEND (Z.of_nat (length (code body))) lc]) with (encode i ++ []) in IH.
      rewrite app_nil_r in IH. exact IH.
Qed.

Lemma runs_loop lc body (P : nat -> chan) (k : nat) :
  (1 <= k <= 256)%nat -> Z.of_nat (length (code body)) < 256 ->
  (forall j v, (j < k)%nat -> runs body (set_lc lc v (P j)) (set_lc lc v (P (S j)))) ->
  runs (loop lc (Z.of_nat k) body) (P 0%nat) (set_lc lc 0 (P k)).
Proof.
  intros Hk Hsz Hb. unfold loop. eapply runs_instr; [|apply (loop_turns lc body P k Hsz Hb k 0); lia].
  cbn [exec]. destruct (Z.leb_spec 1 (Z.of_nat k)); [|lia]. by destruct (Z.leb_spec (Z.of_nat k) 256); [|lia].
Qed.
End Runs.

(** * The emitted program *)

Section Gather.
Context `{E : Encoding} `{C : !Controller}.

Definition loop0_code (ctrl : ChanCtrl.t) (src_inc k : Z) : list instr :=
  DMAMOV XDMAPS_MOV_CCR (XDmaPs_ToCCRValue ctrl) :: loop 0 k [DMALD; DMAST; DMAADDH XDMAPS_ADD_SAR (u32 src_inc)].
Definition gather_code (src_inc : Z) : list instr := loop 0 32 [DMALD; DMAADDH XDMAPS_ADD_SAR (u32 src_inc)] ++ [DMAST].
Definition loop1_body (src_inc : Z) : list instr :=
  gather_code src_inc ++ gather_code src_inc ++ gather_code src_inc ++ gather_code src_inc.
Definition dst_128 (ctrl : ChanCtrl.t) : ChanCtrl.t :=
  {| ChanCtrl.SrcBurstSize := ChanCtrl.SrcBurstSize ctrl; ChanCtrl.SrcBurstLen := ChanCtrl.SrcBurstLen ctrl;
     ChanCtrl.SrcInc := ChanCtrl.SrcInc ctrl; ChanCtrl.DstBurstSize := 8; ChanCtrl.DstBurstLen := 16;
     ChanCtrl.DstInc := ChanCtrl.DstInc ctrl |}.
Definition loop1_code (ctrl : ChanCtrl.t) (src_inc k : Z) : list instr :=
  DMAMOV XDMAPS_MOV_CCR (XDmaPs_ToCCRValue (dst_128 ctrl)) :: loop 1 k (loop1_body src_inc).

Lemma code_cons i l : code (i :: l) = encode i ++ code l.
Proof. done. Qed.
Lemma code_nil : code [] = [].
Proof. done. Qed.

(** A loop as it is emitted. *)
Lemma emit_loop lc k body (p : list Z) :
  emit_lpend (length (emit (DMALP lc k) p)) lc (emit (DMALP lc k) p ++ code body) = p ++ code (loop lc k body).
Proof.
  unfold emit_lpend, emit, loop. rewrite code_cons, code_app, code_cons, code_nil, app_nil_r, <- !app_assoc.
  rewrite !length_app. do 5 f_equal. lia.
Qed.

Lemma gather_32_code src_inc p : gather_32 src_inc p = p ++ code (gather_code src_inc).
Proof.
  unfold gather_32, gather_code. rewrite code_app, app_assoc, <- emit_loop. unfold emit.
  rewrite !code_cons, !code_nil, !app_nil_r, <- !app_assoc. done.
Qed.

Lemma emit_loop0_code ctrl src_inc k p : emit_loop0 ctrl src_inc k p = p ++ code (loop0_code ctrl src_inc k).
Proof.
  unfold emit_loop0, loop0_code. rewrite code_cons, app_assoc, <- emit_loop. unfold emit.
  rewrite !code_cons, code_nil, app_nil_r, !app_assoc. done.
Qed.

Lemma emit_loop1_code ctrl src_inc k p : emit_loop1 ctrl src_inc k p = p ++ code (loop1_code ctrl src_inc k).
Proof.
  unfold emit_loop1, loop1_code. rewrite code_cons, app_assoc, <- emit_loop. unfold loop1_body.
  rewrite !gather_32_code, !code_app, !app_assoc. done.
Qed.

(** The program without its end. *)
Definition smemcpy_code (dst src block_sz src_inc n : Z) : list instr :=
  let ctrl := smemcpy_ctrl block_sz in
  [DMAMOV XDMAPS_MOV_SAR (u32 src); DMAMOV XDMAPS_MOV_DAR (u32 dst)]
  ++ (if truthy (u32 (Z.shiftr n 7)) then loop1_code ctrl src_inc (u32 (Z.shiftr n 7)) else [])
  ++ (if truthy (Z.land n 0x7F) then loop0_code ctrl src_inc (Z.land n 0x7F) else []).

Lemma smemcpy_program_code dst src block_sz src_inc n :
  smemcpy_program dst src block_sz src_inc n = code (smemcpy_code dst src block_sz src_inc n) ++ encode DMAEND.
Proof.
  unfold smemcpy_program, smemcpy_code. cbv zeta. unfold emit at 1. f_equal. rewrite !code_app, !code_cons, code_nil, app_nil_r.
  destruct (truthy _), (truthy _); rewrite ?emit_loop1_code, ?emit_loop0_code, ?code_nil, ?app_nil_r; unfold emit; by rewrite ?app_nil_l, ?app_assoc.
Qed.

Lemma code_length l : (length (code l) <= 6 * length l)%nat.
Proof. induction l as [|i l IH]; [done|]. rewrite code_cons, length_app. pose proof (encode_length i). simpl length. lia. Qed.
End Gather.

(** * What the program does *)

Section Semantics.
Context `{E : Encoding} `{C : !Controller}.
Context (m : Z -> Z) (src dst b inc : Z) (N : nat).

(** The bytes of [k] blocks from number [i], and the memory with the first
    [i] blocks at [dst], one after the other. *)
Definition blocks (i k : nat) : list Z := concat (map (fun j => bytes_at m (src + Z.of_nat j * inc) b) (seq i k)).
Definition gathered (i : nat) : Z -> Z := put_bytes m dst (blocks 0 i).

Hypothesis b_size : b ∈ [1; 2; 4; 8].
Hypothesis aligned : src mod b = 0 /\ inc mod b = 0 /\ dst mod b = 0.
Hypothesis ranges : 0 <= src /\ 0 <= inc < 2 ^ 16 /\ 0 <= dst /\ src + Z.of_nat N * inc + b < 2 ^ 32 /\ dst + Z.of_nat N * b < 2 ^ 32.
Hypothesis apart : forall j k, (j < N)%nat -> 0 <= k < b -> ~ (dst <= src + Z.of_nat j * inc + k < dst + Z.of_nat N * b).

Lemma b_range : 1 <= b <= 8.
Proof using b_size. clear -b_size. rewrite !elem_of_cons, elem_of_nil in b_size. lia. Qed.

Lemma length_blocks k : forall i, length (blocks i k) = (k * Z.to_nat b)%nat.
Proof using Type.
  clear. unfold blocks. induction k as [|k IH]; intros i; [done|]. cbn [seq map concat]. rewrite length_app, IH, length_bytes_at. lia.
Qed.

Lemma blocks_app i k l : blocks i (k + l) = blocks i k ++ blocks (i + k) l.
Proof using Type. clear. unfold blocks. by rewrite seq_app, map_app, concat_app. Qed.

Lemma blocks_one i : blocks i 1 = bytes_at m (src + Z.of_nat i * inc) b.
Proof using Type. clear. unfold blocks. cbn. by rewrite app_nil_r. Qed.

(** The destination is written before later blocks are read, without
    touching them. *)
Lemma source_kept i j : (i <= N)%nat -> (j < N)%nat -> bytes_at (gathered i) (src + Z.of_nat j * inc) b = blocks j 1.
Proof using b_size apart.
  clear -b_size apart. intros Hi Hj. pose proof b_range. rewrite blocks_one. unfold bytes_at. apply map_ext_in. intros k Hk%in_seq. unfold gathered, put_bytes.
  rewrite length_blocks. specialize (apart j (Z.of_nat k) Hj ltac:(lia)).
  destruct (Z.leb_spec dst (src + Z.of_nat j * inc + Z.of_nat k)); [|done].
  destruct (Z.ltb_spec (src + Z.of_nat j * inc + Z.of_nat k) (dst + Z.of_nat (i * Z.to_nat b))); [|done]. exfalso. apply apart. nia.
Qed.

(** The channel with [s] steps of the source made, [i] blocks stored and [j]
    more in the data buffer. *)
Definition mk (c0 c1 cc : Z) (s i j : nat) : chan :=
  {| lc0 := c0; lc1 := c1; sar := src + Z.of_nat s * inc; dar := dst + Z.of_nat i * b; ccr := cc; fifo := blocks i j; cmem := gathered i |}.

(** The transfer control of a program: blocks of one beat from a fixed
    address. *)
Definition one_beat (cc : Z) : Prop :=
  ChanCtrl.SrcBurstSize (control cc) = b /\ ChanCtrl.SrcBurstLen (control cc) = 1 /\ ChanCtrl.SrcInc (control cc) = false /\
  ChanCtrl.DstInc (control cc) = true.

Lemma stride_aligned k : (src + Z.of_nat k * inc) mod b = 0.
Proof using b_size aligned.
  clear -b_size aligned. pose proof b_range. destruct aligned as ((q & ->)%Z.mod_divide & (r & ->)%Z.mod_divide & _); [|lia..].
  replace (q * b + Z.of_nat k * (r * b)) with ((q + Z.of_nat k * r) * b) by ring. apply Z.mod_mul. lia.
Qed.

Lemma exec_ld c0 c1 cc i j :
  one_beat cc -> (i + j < N)%nat -> Z.of_nat (S j) * b <= 128 ->
  exec control depth DMALD (mk c0 c1 cc (i + j) i j) = Some (mk c0 c1 cc (i + j) i (S j), None).
Proof using All.
  intros (H1 & H2 & H3 & _) Hij Hfit. pose proof b_range. pose proof depth_128. cbn [exec mk sar fifo ccr]. rewrite H1, H2, H3.
  rewrite stride_aligned, length_blocks. cbn [Z.eqb andb].
  destruct (Z.leb_spec (Z.of_nat (j * Z.to_nat b) + b * 1) depth); [|nia].
  destruct (Z.ltb_spec (src + Z.of_nat (i + j) * inc + b * 1) (2 ^ 32)); [|nia]. cbn [andb mk lc0 lc1 dar cmem]. unfold mk. do 3 f_equal.
  unfold burst. rewrite H1, H2, H3. change (Z.to_nat 1) with 1%nat. cbn [seq map concat]. rewrite app_nil_r, source_kept by lia.
  replace (S j) with (j + 1)%nat by lia. by rewrite blocks_app.
Qed.

Lemma exec_addh c0 c1 cc s i j : (s < N)%nat ->
  exec control depth (DMAADDH XDMAPS_ADD_SAR (u32 inc)) (mk c0 c1 cc s i j) = Some (mk c0 c1 cc (S s) i j, None).
Proof using All.
  intros Hs. pose proof b_range. assert (Hu : u32 inc = inc) by (apply wrap_id; split; [lia|]; eapply Z.lt_trans; [apply ranges|done]).
  cbn [exec mk sar]. rewrite Hu. destruct (Z.leb_spec 0 inc); [|lia]. destruct (Z.ltb_spec inc (2 ^ 16)); [|lia].
  destruct (Z.ltb_spec (src + Z.of_nat s * inc + inc) (2 ^ 32)); [|nia]. cbn. unfold mk. do 3 f_equal. lia.
Qed.

Lemma exec_st c0 c1 cc s i j :
  ChanCtrl.DstInc (control cc) = true -> ChanCtrl.DstBurstSize (control cc) * ChanCtrl.DstBurstLen (control cc) = Z.of_nat j * b ->
  (dst + Z.of_nat i * b) mod ChanCtrl.DstBurstSize (control cc) = 0 -> (i + j <= N)%nat ->
  exec control depth DMAST (mk c0 c1 cc s i j) = Some (mk c0 c1 cc s (i + j) 0, None).
Proof using All.
  intros H1 H2 H3 Hij. pose proof b_range. cbn [exec mk dar fifo ccr]. rewrite H1, H2, H3, length_blocks. cbn [Z.eqb andb].
  destruct (Z.leb_spec (Z.of_nat j * b) (Z.of_nat (j * Z.to_nat b))); [|nia].
  destruct (Z.ltb_spec (dst + Z.of_nat i * b + Z.of_nat j * b) (2 ^ 32)); [|nia]. cbn [andb mk lc0 lc1 sar cmem].
  rewrite take_ge, drop_ge by (rewrite length_blocks; nia). unfold mk. do 2 f_equal.
  assert (Hd : dst + Z.of_nat i * b + Z.of_nat j * b = dst + Z.of_nat (i + j) * b) by lia. rewrite Hd. f_equal.
  unfold gathered. replace (dst + Z.of_nat i * b) with (dst + Z.of_nat (length (blocks 0 i))) by (rewrite length_blocks; nia).
  by rewrite put_app, blocks_app.
Qed.

Lemma exec_ccr c d : valid_ctrl c ->
  exec control depth (DMAMOV XDMAPS_MOV_CCR (XDmaPs_ToCCRValue c)) d
  = Some ({| lc0 := lc0 d; lc1 := lc1 d; sar := sar d; dar := dar d; ccr := XDmaPs_ToCCRValue c; fifo := fifo d; cmem := cmem d |}, None).
Proof using Type.
  clear -C. intros Hc. destruct (control_word c Hc) as [_ [Hlo Hhi]]. cbn [exec].
  destruct (Z.leb_spec 0 (XDmaPs_ToCCRValue c)); [|lia]. by destruct (Z.ltb_spec (XDmaPs_ToCCRValue c) (2 ^ 32)); [|lia].
Qed.


Lemma set_lc0_mk v c0 c1 cc s i j : set_lc 0 v (mk c0 c1 cc s i j) = mk v c1 cc s i j.
Proof using Type. done. Qed.
Lemma set_lc1_mk v c0 c1 cc s i j : set_lc 1 v (mk c0 c1 cc s i j) = mk c0 v cc s i j.
Proof using Type. done. Qed.

Lemma ctrl_valid : valid_ctrl (smemcpy_ctrl b) /\ valid_ctrl (dst_128 (smemcpy_ctrl b)).
Proof using b_size.
  clear -b_size. rewrite !elem_of_cons, elem_of_nil in b_size. unfold valid_ctrl.
  destruct b_size as [->|[->|[->|[->|[]]]]]; split_and!; try (vm_compute; split; discriminate); vm_compute; set_solver.
Qed.

Lemma ctrl_one_beat : one_beat (XDmaPs_ToCCRValue (smemcpy_ctrl b)) /\ one_beat (XDmaPs_ToCCRValue (dst_128 (smemcpy_ctrl b))).
Proof using b_size.
  clear -b_size. destruct ctrl_valid as [H1 H2]. unfold one_beat. rewrite (proj1 (control_word _ H1)), (proj1 (control_word _ H2)).
  rewrite !elem_of_cons, elem_of_nil in b_size. by destruct b_size as [->|[->|[->|[->|[]]]]].
Qed.

Lemma body_small l : (length l <= 20)%nat -> Z.of_nat (length (code l)) < 256.
Proof using C. clear -C. intros H. pose proof (code_length l). lia. Qed.

(** The blocks left over, one a turn. *)
Lemma loop0_runs c0 c1 cc i (k : nat) : (1 <= k <= 127)%nat -> (i + k <= N)%nat ->
  runs (loop0_code (smemcpy_ctrl b) inc (Z.of_nat k)) (mk c0 c1 cc i i 0)
    (mk 0 c1 (XDmaPs_ToCCRValue (smemcpy_ctrl b)) (i + k) (i + k) 0).
Proof using All.
  intros Hk Hi. pose proof b_range. set (cc' := XDmaPs_ToCCRValue (smemcpy_ctrl b)).
  eapply runs_instr; [apply exec_ccr, ctrl_valid|]. fold cc'.
  change (Build_chan _ _ _ _ _ _ _) with (mk c0 c1 cc' i i 0).
  pose proof (runs_loop 0 [DMALD; DMAST; DMAADDH XDMAPS_ADD_SAR (u32 inc)] (fun j => mk c0 c1 cc' (i + j) (i + j) 0) k) as HL.
  cbv beta in HL. rewrite !Nat.add_0_r in HL. apply HL; [lia|apply body_small; simpl; lia|]. intros j v Hj. rewrite !set_lc0_mk.
  destruct ctrl_one_beat as [Hb _]. fold cc' in Hb. pose proof (exec_ld v c1 cc' (i + j) 0 Hb) as Hld. rewrite Nat.add_0_r in Hld.
  eapply runs_instr; [apply Hld; lia|]. eapply runs_instr.
  - apply exec_st; [apply Hb| | |lia]; unfold cc'; rewrite (proj1 (control_word _ (proj1 ctrl_valid))).
    + clear -b_size. rewrite !elem_of_cons, elem_of_nil in b_size. by destruct b_size as [->|[->|[->|[->|[]]]]].
    + assert (Hd : ChanCtrl.DstBurstSize (smemcpy_ctrl b) = b)
        by (clear -b_size; rewrite !elem_of_cons, elem_of_nil in b_size; by destruct b_size as [->|[->|[->|[->|[]]]]]).
      rewrite Hd, Z.mod_add by lia. apply aligned.
  - rewrite Nat.add_1_r, <- Nat.add_succ_r. apply runs_one. replace (i + S j)%nat with (S (i + j)) by lia. apply exec_addh. lia.
Qed.

(** 32 blocks of four bytes fill the data buffer, and are stored at once. *)
Lemma gather_runs c0 c1 cc i : b = 4 -> dst mod 8 = 0 -> Nat.divide 32 i -> one_beat cc -> 
  ChanCtrl.DstBurstSize (control cc) = 8 -> ChanCtrl.DstBurstLen (control cc) = 16 -> (i + 32 <= N)%nat ->
  runs (gather_code inc) (mk c0 c1 cc i i 0) (mk 0 c1 cc (i + 32) (i + 32) 0).
Proof using All.
  intros Hb4 Hd8 [q Hq] Hb H8 H16 Hi. unfold gather_code. apply (runs_app _ _ _ (mk 0 c1 cc (i + 32) i 32)).
  - pose proof (runs_loop 0 [DMALD; DMAADDH XDMAPS_ADD_SAR (u32 inc)] (fun j => mk c0 c1 cc (i + j) i j) 32) as HL.
    cbv beta in HL. rewrite !Nat.add_0_r in HL. apply HL; [lia|apply body_small; simpl; lia|]. intros j v Hj. rewrite !set_lc0_mk.
    eapply runs_instr; [apply exec_ld; [done|lia|lia]|]. apply runs_one. rewrite Nat.add_succ_r. apply exec_addh. lia.
  - apply runs_one, exec_st; [apply Hb|rewrite H8, H16, Hb4; lia| |lia]. rewrite H8, Hb4, Hq.
    replace (dst + Z.of_nat (q * 32) * 4) with (dst + Z.of_nat (q * 16) * 8) by lia. by rewrite Z.mod_add by lia.
Qed.

Lemma loop1_runs c0 c1 cc (k : nat) : b = 4 -> dst mod 8 = 0 -> (1 <= k <= 256)%nat -> (128 * k <= N)%nat ->
  runs (loop1_code (smemcpy_ctrl b) inc (Z.of_nat k)) (mk c0 c1 cc 0 0 0)
    (mk 0 0 (XDmaPs_ToCCRValue (dst_128 (smemcpy_ctrl b))) (128 * k) (128 * k) 0).
Proof using All.
  intros Hb4 Hd8 Hk HN. set (cc' := XDmaPs_ToCCRValue (dst_128 (smemcpy_ctrl b))).
  eapply runs_instr; [apply exec_ccr, ctrl_valid|]. fold cc'. change (Build_chan _ _ _ _ _ _ _) with (mk c0 c1 cc' 0 0 0).
  pose proof (runs_loop 1 (loop1_body inc) (fun j => mk (if (j =? 0)%nat then c0 else 0) c1 cc' (128 * j) (128 * j) 0) k Hk) as HL.
  cbv beta in HL. rewrite set_lc1_mk in HL. destruct k as [|k]; [lia|]. apply HL; [apply body_small; simpl; lia|].
  clear HL. intros j v Hj. rewrite !set_lc1_mk. cbn [Nat.eqb]. destruct ctrl_one_beat as [_ Hb]. fold cc' in Hb.
  assert (Hg : forall c i, Nat.divide 32 i -> (i + 32 <= N)%nat -> runs (gather_code inc) (mk c v cc' i i 0) (mk 0 v cc' (i + 32) (i + 32) 0)).
  { intros c i Hq Hi. by apply gather_runs; [..|unfold cc'; rewrite (proj1 (control_word _ (proj2 ctrl_valid)))|unfold cc'; rewrite (proj1 (control_word _ (proj2 ctrl_valid)))|]. }
  unfold loop1_body. eapply runs_app; [apply Hg; [exists (4 * j)%nat; lia|lia]|].
  eapply runs_app; [apply Hg; [exists (4 * j + 1)%nat; lia|lia]|]. eapply runs_app; [apply Hg; [exists (4 * j + 2)%nat; lia|lia]|].
  replace (128 * S j)%nat with (128 * j + 32 + 32 + 32 + 32)%nat by lia. apply Hg; [exists (4 * j + 3)%nat; lia|lia].
Qed.

(** The whole program, for [N] blocks. *)
Lemma smemcpy_code_runs n d :
  n = Z.of_nat N -> (128 <= n -> b = 4 /\ dst mod 8 = 0 /\ n < 128 * 257) -> fifo d = [] -> cmem d = m ->
  exists d', runs (smemcpy_code dst src b inc n) d d' /\ cmem d' = gathered N.
Proof using All.
  intros Hn Hbig Hf Hm. pose proof b_range. destruct ranges as (R1 & R2 & R3 & R4 & R5).
  assert (Hp : 0 <= Z.of_nat N * inc /\ 0 <= Z.of_nat N * b) by (split; apply Z.mul_nonneg_nonneg; lia).
  assert (Hsrc : u32 src = src) by (apply wrap_id; split; lia). assert (Hdst : u32 dst = dst) by (apply wrap_id; split; lia).
  assert (Hq : Z.shiftr n 7 = n / 128) by (by rewrite Z.shiftr_div_pow2 by lia).
  assert (Hr : Z.land n 0x7F = n mod 128) by (change 0x7F with (Z.ones 7); by rewrite Z.land_ones by lia).
  assert (Hd : n / 128 <= 256) by (assert (n < 128 * 257) by (destruct (Z.le_gt_cases 128 n) as [Hle|]; [by destruct (Hbig Hle) as (_ & _ & ?)|lia]);
    apply Z.lt_succ_r, Z.div_lt_upper_bound; lia).
  assert (Hq0 : 0 <= n / 128) by (apply Z.div_pos; lia). pose proof (Z.mod_pos_bound n 128 ltac:(lia)) as Hr0.
  pose proof (Z.div_mod n 128 ltac:(lia)) as Hqr.
  assert (Hu : u32 (n / 128) = n / 128) by (apply wrap_id; split; [lia|]; apply Z.le_lt_trans with 256; [lia|done]).
  assert (Hstart : exists c0 c1 cc, runs [DMAMOV XDMAPS_MOV_SAR (u32 src); DMAMOV XDMAPS_MOV_DAR (u32 dst)] d (mk c0 c1 cc 0 0 0)).
  { exists (lc0 d), (lc1 d), (ccr d). eapply runs_instr; [|eapply runs_one]; cbn [exec]; rewrite ?Hsrc, ?Hdst.
    - destruct (Z.leb_spec 0 src); [|lia]. destruct (Z.ltb_spec src (2 ^ 32)); [|lia]. reflexivity.
    - destruct (Z.leb_spec 0 dst); [|lia]. destruct (Z.ltb_spec dst (2 ^ 32)); [|lia]. cbn. unfold mk. rewrite Hf, Hm.
      cbn [blocks seq map concat]. do 3 f_equal; [lia|lia|]. unfold gathered, put_bytes. apply functional_extensionality. intros x. cbn.
      destruct (Z.leb_spec dst x), (Z.ltb_spec x (dst + Z.of_nat 0)); cbn [andb]; (lia || done). }
  destruct Hstart as (c0 & c1 & cc & Hstart). unfold smemcpy_code. rewrite Hq, Hr, Hu. unfold truthy.
  assert (Hmid : exists c0' c1' cc', runs (if negb (n / 128 =? 0) then loop1_code (smemcpy_ctrl b) inc (n / 128) else [])
    (mk c0 c1 cc 0 0 0) (mk c0' c1' cc' (128 * Z.to_nat (n / 128)) (128 * Z.to_nat (n / 128)) 0)).
  { destruct (Z.eqb_spec (n / 128) 0) as [->|Hnz]; cbn [negb]; [eexists _, _, _; apply runs_nil|].
    assert (H128 : 128 <= n) by lia. destruct (Hbig H128) as (Hb4 & Hd8 & _). eexists _, _, _.
    rewrite <- (Z2Nat.id (n / 128)) at 1 by lia. apply loop1_runs; [done|done|lia|lia]. }
  destruct Hmid as (c0' & c1' & cc' & Hmid). set (i := (128 * Z.to_nat (n / 128))%nat) in *.
  assert (Hend : exists c0'' c1'' cc'', runs (if negb (n mod 128 =? 0) then loop0_code (smemcpy_ctrl b) inc (n mod 128) else [])
    (mk c0' c1' cc' i i 0) (mk c0'' c1'' cc'' N N 0)).
  { destruct (Z.eqb_spec (n mod 128) 0) as [Hz|Hnz]; cbn [negb].
    - assert (i = N) as -> by lia. eexists _, _, _. apply runs_nil.
    - eexists _, _, _. rewrite <- (Z2Nat.id (n mod 128)) at 1 by lia.
      assert (HN : N = (i + Z.to_nat (n mod 128))%nat) by lia. rewrite HN at 1 2. apply loop0_runs; lia. }
  destruct Hend as (c0'' & c1'' & cc'' & Hend). exists (mk c0'' c1'' cc'' N N 0). split; [|reflexivity].
  exact (runs_app _ _ _ _ _ Hstart (runs_app _ _ _ _ _ Hmid Hend)).
Qed.
End Semantics.

(** * The driver *)

(** A channel that is polled: it reads busy some times, then stopped. *)
Inductive stops {D : Type} `{X : XDmaPs D} (ch : Z) : D -> D -> Prop :=
| stops_now d v d' : XDmaPs_ReadReg_CS ch d = (v, d') -> Z.land v 0xF = 0 -> stops ch d d'
| stops_later d v d1 d' :
    XDmaPs_ReadReg_CS ch d = (v, d1) -> Z.land v 0xF <> 0 -> Z.land v 0xC <> 0xC -> stops ch d1 d' -> stops ch d d'.

(** What the driver documents: [memory], the programs that are allocated and
    whether the channel's command pointer is set. *)
Class DmaDriver (D : Type) `{X : XDmaPs D} `{E : Encoding} `{C : !Controller} := {
  memory : D -> Z -> Z;
  allocated : D -> list Z;
  command : D -> bool;
  allocate_law : forall ch d a d', XDmaPs_BufPool_Allocate ch d = (a, d') ->
    memory d' = memory d /\ command d' = command d /\ allocated d' = option_list a ++ allocated d;
  store_law : forall a l d d', store_bytes a l d = (tt, d') ->
    memory d' = put_bytes (memory d) a l /\ command d' = command d /\ allocated d' = allocated d;
  flush_law : forall a n d d', Xil_DCacheFlushRange a n d = (tt, d') ->
    memory d' = memory d /\ command d' = command d /\ allocated d' = allocated d;
  set_law : forall ch v d d', set_DmaCmdToHw ch v d = (tt, d') ->
    memory d' = memory d /\ command d' = v /\ allocated d' = allocated d;
  free_law : forall ch a d l, allocated d = a :: l ->
    exists d', XDmaPs_FreeDmaProg ch a d = (XST_SUCCESS, d') /\ memory d' = memory d /\ command d' = command d /\ allocated d' = l;
  (** A refusal changes nothing; otherwise the channel runs the program. *)
  refuse_law : forall ch a d v d', XDmaPs_Exec_DMAGO ch a d = (v, d') -> v <> XST_SUCCESS ->
    memory d' = memory d /\ command d' = command d /\ allocated d' = allocated d;
  go_law : forall ch a d p m' d1, in_word 32 a -> bytes_at (memory d) a (Z.of_nat (length p)) = p ->
    XDmaPs_Exec_DMAGO ch a d = (XST_SUCCESS, d1) ->
    (forall c, fifo c = [] -> cmem c = memory d -> exists s, rtc (step p) (0%nat, c) s /\ chan_ended p s /\ cmem (snd s) = m') ->
    exists d', stops ch d1 d' /\ memory d' = m' /\ command d' = command d /\ allocated d' = allocated d
}.

Section Driver.
Context {D : Type} `{X : XDmaPs D} `{E : Encoding} `{C : !Controller} `{L : !DmaDriver D} (ch : Z).

(** Enough reads see the channel stop. *)
Lemma wait_stops d d' : stops ch d d' -> exists k, forall fuel, (k <= fuel)%nat -> wait_stopped ch fuel d = (Some (Finished tt), d').
Proof.
  induction 1 as [d v d' Hv H0|d v d1 d' Hv H0 HC Hs (k & IH)].
  - exists 1%nat. intros [|fuel] Hf; [lia|]. cbn [wait_stopped]. rewrite (bind_run _ _ _ _ _ Hv), H0. done.
  - exists (S k). intros [|fuel] Hf; [lia|]. cbn [wait_stopped]. rewrite (bind_run _ _ _ _ _ Hv).
    destruct (Z.eqb_spec (Z.land v 15) 0); [done|]. destruct (Z.eqb_spec (Z.land v 12) 12); [done|]. apply IH. lia.
Qed.

(** The last part of a command, on a program that is in memory. *)
Lemma exec_program_ok d prog dst p m' d1 l :
  in_word 32 prog -> bytes_at (memory d) prog (Z.of_nat (length p)) = p -> allocated d = prog :: l ->
  XDmaPs_Exec_DMAGO ch prog d = (XST_SUCCESS, d1) ->
  (forall c, fifo c = [] -> cmem c = memory d -> exists s, rtc (step p) (0%nat, c) s /\ chan_ended p s /\ cmem (snd s) = m') ->
  exists k, forall fuel, (k <= fuel)%nat -> exists d', exec_program ch fuel prog dst d = (Some (Finished (Some dst)), d') /\
    memory d' = m' /\ command d' = false /\ allocated d' = l.
Proof using L.
  intros Hp Hb Ha Hgo Hruns. destruct (go_law ch prog d p m' d1 Hp Hb Hgo Hruns) as (d2 & Hs & Hm & Hc & Hal).
  destruct (wait_stops d1 d2 Hs) as (k & Hk). exists k. intros fuel Hf. unfold exec_program. rewrite (wrap_id _ _ Hp).
  rewrite (bind_run _ _ _ _ _ Hgo). cbn [Z.eqb negb XST_SUCCESS]. rewrite (bind_run _ _ _ _ _ (Hk fuel Hf)).
  destruct (set_DmaCmdToHw ch false d2) as [[] d3] eqn:E3. destruct (set_law _ _ _ _ E3) as (M3 & C3 & A3).
  destruct (free_law ch prog d3 l) as (d4 & E4 & M4 & C4 & A4); [by rewrite A3, Hal|].
  rewrite (bind_run _ _ _ _ _ E3), (bind_run _ _ _ _ _ E4). exists d4. split; [done|]. by rewrite M4, M3, C4, C3.
Qed.

(** A gather the program is right for: blocks of one beat, aligned, apart from
    the destination and from the program's buffer; more than 127 blocks only
    of four bytes. *)
Record gather_ok (m : Z -> Z) (a : Z) (p : list Z) (dst src b inc n : Z) : Prop := {
  ga_size : b ∈ [1; 2; 4; 8];
  ga_aligned : src mod b = 0 /\ inc mod b = 0 /\ dst mod b = 0;
  ga_ranges : 0 <= src /\ 0 <= inc < 2 ^ 16 /\ 0 <= dst /\ src + n * inc + b < 2 ^ 32 /\ dst + n * b < 2 ^ 32;
  ga_apart : forall j k, 0 <= j < n -> 0 <= k < b -> ~ (dst <= src + j * inc + k < dst + n * b);
  ga_count : 0 <= n;
  ga_many : 128 <= n -> b = 4 /\ dst mod 8 = 0 /\ n < 128 * 257;
  ga_address : in_word 32 a;
  ga_source : forall j k, 0 <= j < n -> 0 <= k < b -> ~ (a <= src + j * inc + k < a + Z.of_nat (length p))
}.

Lemma program_runs m a dst src b inc n :
  let p := smemcpy_program dst src b inc n in
  gather_ok m a p dst src b inc n ->
  forall c, fifo c = [] -> cmem c = m ->
  exists s, rtc (step p) (0%nat, c) s /\ chan_ended p s /\ cmem (snd s) = gathered m src dst b inc (Z.to_nat n).
Proof using C.
  intros p [] c Hf Hm.
  destruct (smemcpy_code_runs m src dst b inc (Z.to_nat n) ga_size0 ga_aligned0 ltac:(rewrite Z2Nat.id by done; done)) with (n := n) (d := c)
    as (c' & Hr & Hc); [|by rewrite Z2Nat.id|done..|].
  - intros j k Hj Hk. rewrite Z2Nat.id by done. apply ga_apart0; lia.
  - exists (length (code (smemcpy_code dst src b inc n)), c'). unfold p. rewrite smemcpy_program_code.
    split; [exact (Hr [] (encode DMAEND))|]. split; [|done].
    pose proof (end_ended (code (smemcpy_code dst src b inc n)) [] c') as He. by rewrite app_nil_r in He.
Qed.

(** Storing the program does not change what is gathered. *)
Lemma gathered_outside m a p dst src b inc n x :
  gather_ok m a p dst src b inc n -> ~ (a <= x < a + Z.of_nat (length p)) ->
  gathered (put_bytes m a p) src dst b inc (Z.to_nat n) x = gathered m src dst b inc (Z.to_nat n) x.
Proof using Type.
  intros [] Hx. assert (Hb : 1 <= b <= 8) by (rewrite !elem_of_cons, elem_of_nil in ga_size0; lia).
  assert (Hput : forall y, ~ (a <= y < a + Z.of_nat (length p)) -> put_bytes m a p y = m y).
  { intros y Hy. unfold put_bytes. destruct (Z.leb_spec a y), (Z.ltb_spec y (a + Z.of_nat (length p))); cbn [andb]; (lia || done). }
  assert (Hbl : blocks (put_bytes m a p) src b inc 0 (Z.to_nat n) = blocks m src b inc 0 (Z.to_nat n)).
  { unfold blocks. f_equal. apply map_ext_in. intros j Hj%in_seq. apply map_ext_in. intros k Hk%in_seq. apply Hput.
    apply ga_source0; lia. }
  unfold gathered. rewrite Hbl. unfold put_bytes at 1 3. case_match; [done|]. by apply Hput.
Qed.
End Driver.

(** The whole command, from the call to the release of the program. *)
Lemma dmac_gathers {D} `{X : XDmaPs D} `{E : Encoding} `{C : !Controller} `{L : !DmaDriver D} ch dst src b dst_inc inc n d d0 a d1 d2 d3 d4 :
  let p := smemcpy_program dst src b inc n in
  set_DmaCmdToHw ch true d = (tt, d0) -> XDmaPs_BufPool_Allocate ch d0 = (Some a, d1) ->
  store_bytes a p d1 = (tt, d2) -> Xil_DCacheFlushRange a (Z.of_nat (length p)) d2 = (tt, d3) ->
  XDmaPs_Exec_DMAGO ch a d3 = (XST_SUCCESS, d4) -> gather_ok (memory d) a p dst src b inc n ->
  exists k, forall fuel, (k <= fuel)%nat -> exists d', dmac_smemcpy ch fuel dst src b dst_inc inc n d = (Some (Finished (Some dst)), d') /\
    (forall x, ~ (a <= x < a + Z.of_nat (length p)) ->
       memory d' x = gathered (memory d) src dst b inc (Z.to_nat n) x) /\
    command d' = false /\ allocated d' = allocated d.
Proof.
  intros p E0 E1 E2 E3 E4 Hok. destruct (set_law _ _ _ _ E0) as (M0 & C0 & A0). destruct (allocate_law _ _ _ _ E1) as (M1 & C1 & A1).
  destruct (store_law _ _ _ _ E2) as (M2 & C2 & A2). destruct (flush_law _ _ _ _ E3) as (M3 & C3 & A3).
  assert (Hm3 : memory d3 = put_bytes (memory d) a p) by (by rewrite M3, M2, M1, M0).
  assert (Hok3 : gather_ok (memory d3) a p dst src b inc n) by (destruct Hok; by split).
  destruct (exec_program_ok ch d3 a dst p (gathered (memory d3) src dst b inc (Z.to_nat n)) d4 (allocated d)) as (k & Hk);
    [apply Hok|by rewrite Hm3, bytes_at_put|by rewrite A3, A2, A1, A0|done|by apply (program_runs _ a)|].
  exists k. intros fuel Hf. destruct (Hk fuel Hf) as (d' & Hr & Hm & Hc & Ha). exists d'. split_and!; [|..|done|done].
  - unfold dmac_smemcpy. by rewrite (bind_run _ _ _ _ _ E0), (bind_run _ _ _ _ _ E1), (bind_run _ _ _ _ _ E2), (bind_run _ _ _ _ _ E3).
  - intros x Hx. rewrite Hm, Hm3. exact (gathered_outside (memory d) a p dst src b inc n x Hok Hx).
Qed.


(** A gather that is refused: without a program buffer, or when the channel
    does not start, NULL is returned while the channel still holds the
    command, a variable of the function that has returned; in the second case
    the program is not freed. *)
Theorem dmac_smemcpy_refused {D} `{X : XDmaPs D} `{E : Encoding} `{C : !Controller} `{L : !DmaDriver D} ch fuel dst src b dst_inc inc n d d0 a d1 :
  let p := smemcpy_program dst src b inc n in
  set_DmaCmdToHw ch true d = (tt, d0) -> XDmaPs_BufPool_Allocate ch d0 = (a, d1) ->
  (if a is Some x then in_word 32 x /\ fst (XDmaPs_Exec_DMAGO ch x (Device.exec (Xil_DCacheFlushRange x (Z.of_nat (length p))) (Device.exec (store_bytes x p) d1))) <> XST_SUCCESS
   else True) ->
  exists d', dmac_smemcpy ch fuel dst src b dst_inc inc n d = (Some (Finished None), d') /\
    command d' = true /\ allocated d' = option_list a ++ allocated d.
Proof.
  intros p E0 E1 Ha. destruct (set_law _ _ _ _ E0) as (M0 & C0 & A0). destruct (allocate_law _ _ _ _ E1) as (M1 & C1 & A1).
  unfold dmac_smemcpy. rewrite (bind_run _ _ _ _ _ E0), (bind_run _ _ _ _ _ E1). destruct a as [a|].
  - destruct Ha as [Ha Hv].
    destruct (store_bytes a p d1) as [[] d2] eqn:E2. destruct (store_law _ _ _ _ E2) as (M2 & C2 & A2).
    destruct (Xil_DCacheFlushRange a (Z.of_nat (length p)) d2) as [[] d3] eqn:E3. destruct (flush_law _ _ _ _ E3) as (M3 & C3 & A3).
    destruct (XDmaPs_Exec_DMAGO ch a d3) as [v d4] eqn:E4. unfold Device.exec in Hv. rewrite E2 in Hv. cbn [snd] in Hv. rewrite E3 in Hv. cbn [snd] in Hv. rewrite E4 in Hv. cbn [fst] in Hv.
    destruct (refuse_law _ _ _ _ _ E4 Hv) as (M4 & C4 & A4). rewrite (bind_run _ _ _ _ _ E2), (bind_run _ _ _ _ _ E3).
    exists d4. unfold exec_program. rewrite (wrap_id _ _ Ha), (bind_run _ _ _ _ _ E4).
    destruct (Z.eqb_spec v XST_SUCCESS); [done|]. cbn [negb]. split; [done|]. by rewrite C4, C3, C2, C1, C0, A4, A3, A2, A1, A0.
  - exists d1. split; [done|]. by rewrite C1, C0, A1, A0.
Qed.

(** * A controller and a driver *)

Definition decode (l : list Z) : option instr :=
  match l with
  | 1 :: rd :: v :: _ => Some (DMAMOV rd v)
  | 2 :: lc :: k :: _ => Some (DMALP lc k)
  | 3 :: d :: lc :: _ => Some (DMALPEND d lc)
  | 4 :: _ => Some DMALD
  | 5 :: _ => Some DMAST
  | 6 :: ra :: v :: _ => Some (DMAADDH ra v)
  | 7 :: _ => Some DMAEND
  | _ => None
  end.

Definition pack_ctrl (c : ChanCtrl.t) : Z :=
  ChanCtrl.SrcBurstSize c + 16 * (ChanCtrl.SrcBurstLen c + 32 * (ChanCtrl.DstBurstSize c + 16 * (ChanCtrl.DstBurstLen c
  + 32 * (Z.b2z (ChanCtrl.SrcInc c) + 2 * Z.b2z (ChanCtrl.DstInc c))))).
Definition unpack_ctrl (v : Z) : ChanCtrl.t :=
  {| ChanCtrl.SrcBurstSize := v mod 16; ChanCtrl.SrcBurstLen := v / 16 mod 32; ChanCtrl.SrcInc := v / 2 ^ 18 mod 2 =? 1;
     ChanCtrl.DstBurstSize := v / 2 ^ 9 mod 16; ChanCtrl.DstBurstLen := v / 2 ^ 13 mod 32; ChanCtrl.DstInc := v / 2 ^ 19 mod 2 =? 1 |}.

#[export] Instance cells : Encoding := {
  encode i :=
    match i with
    | DMAMOV rd v => [1; rd; v] | DMALP lc k => [2; lc; k] | DMALPEND d lc => [3; d; lc] | DMALD => [4] | DMAST => [5]
    | DMAADDH ra v => [6; ra; v] | DMAEND => [7]
    end;
  XDmaPs_ToCCRValue := pack_ctrl
}.

Lemma decode_encode i post : decode (encode i ++ post) = Some i.
Proof. by destruct i. Qed.

Definition cells_step (p : list Z) (s : nat * chan) : option (nat * chan) :=
  let '(pc, d) := s in
  i ← decode (drop pc p);
  '(d', j) ← exec unpack_ctrl 128 i d;
  Some ((match j with Some dist => pc - Z.to_nat dist | None => pc + length (encode i) end)%nat, d').

Lemma unpack_pack c : valid_ctrl c -> unpack_ctrl (pack_ctrl c) = c /\ in_word 32 (pack_ctrl c).
Proof.
  destruct c as [ss sl si ds dl di]. unfold valid_ctrl, unpack_ctrl, pack_ctrl.
  cbn [ChanCtrl.SrcBurstSize ChanCtrl.SrcBurstLen ChanCtrl.SrcInc ChanCtrl.DstBurstSize ChanCtrl.DstBurstLen ChanCtrl.DstInc].
  rewrite !elem_of_cons, !elem_of_nil. intros (Hs & Hd & Hsl & Hdl).
  assert (0 <= ss < 16) by lia. assert (0 <= ds < 16) by lia. clear Hs Hd.
  change (2 ^ 18) with 262144. change (2 ^ 19) with 524288. change (2 ^ 9) with 512. change (2 ^ 13) with 8192.
  unfold in_word. change (2 ^ 32) with 4294967296.
  split; [|destruct si, di; cbn [Z.b2z]; lia]. f_equal; destruct si, di; cbn [Z.b2z]; try (apply Z.eqb_eq); try (apply Z.eqb_neq); div_lia.
Qed.

#[export] Instance cells_controller : Controller.
Proof.
  refine {| control := unpack_ctrl; depth := 128; chan_step := cells_step; chan_ended p s := decode (drop (fst s) p) = Some DMAEND |}.
  - lia.
  - intros []; simpl; lia.
  - apply unpack_pack.
  - intros pre i post d d' j H. unfold cells_step. rewrite drop_app_length, decode_encode. cbn [mbind option_bind]. by rewrite H.
  - intros pre post d. cbn [fst]. by rewrite drop_app_length, decode_encode.
Defined.

(** Memory, the program buffer that is free, the allocated ones, the command
    pointer, whether the channel still reads busy and whether it accepts
    programs.  The program is fetched from memory. *)
Record board_dma := { w_mem : Z -> Z; w_pool : option Z; w_alloc : list Z; w_cmd : bool; w_busy : bool; w_accept : bool }.

Definition fetch_step (m : Z -> Z) (a : Z) (s : nat * chan) : option (nat * chan) :=
  let '(pc, d) := s in
  i ← decode (bytes_at m (a + Z.of_nat pc) 3);
  '(d', j) ← exec unpack_ctrl 128 i d;
  Some ((match j with Some dist => pc - Z.to_nat dist | None => pc + length (encode i) end)%nat, d').

Fixpoint fetch_run (fuel : nat) (m : Z -> Z) (a : Z) (s : nat * chan) : option (nat * chan) :=
  match fuel with
  | O => None
  | S fuel' =>
      if decode (bytes_at m (a + Z.of_nat (fst s)) 3) is Some DMAEND then Some s
      else s' ← fetch_step m a s; fetch_run fuel' m a s'
  end.

Definition reset (m : Z -> Z) : chan := {| lc0 := 0; lc1 := 0; sar := 0; dar := 0; ccr := 0; fifo := []; cmem := m |}.

#[export] Instance board_xdmaps : XDmaPs board_dma := {
  XDmaPs_LookupConfig _ := Some 0;
  XDmaPs_CfgInitialize _ := mret 0;
  XDmaPs_BufPool_Allocate _ w :=
    (w_pool w, {| w_mem := w_mem w; w_pool := None; w_alloc := option_list (w_pool w) ++ w_alloc w; w_cmd := w_cmd w; w_busy := w_busy w; w_accept := w_accept w |});
  XDmaPs_GenDmaProg _ _ _ _ _ := mret (XST_FAILURE, 0);
  XDmaPs_FreeDmaProg _ a w :=
    (XST_SUCCESS, {| w_mem := w_mem w; w_pool := Some a; w_alloc := tail (w_alloc w); w_cmd := w_cmd w; w_busy := w_busy w; w_accept := w_accept w |});
  XDmaPs_Exec_DMAGO _ a w :=
    match (if w_accept w then fetch_run 1000 (w_mem w) a (0%nat, reset (w_mem w)) else None) with
    | Some s => (XST_SUCCESS, {| w_mem := cmem (snd s); w_pool := w_pool w; w_alloc := w_alloc w; w_cmd := w_cmd w; w_busy := true; w_accept := true |})
    | None => (XST_FAILURE, w)
    end;
  XDmaPs_ReadReg_CS _ w :=
    (if w_busy w then 1 else 0, {| w_mem := w_mem w; w_pool := w_pool w; w_alloc := w_alloc w; w_cmd := w_cmd w; w_busy := false; w_accept := w_accept w |});
  set_DmaCmdToHw _ v w := (tt, {| w_mem := w_mem w; w_pool := w_pool w; w_alloc := w_alloc w; w_cmd := v; w_busy := w_busy w; w_accept := w_accept w |});
  store_bytes a l w := (tt, {| w_mem := put_bytes (w_mem w) a l; w_pool := w_pool w; w_alloc := w_alloc w; w_cmd := w_cmd w; w_busy := w_busy w; w_accept := w_accept w |});
  Xil_DCacheFlushRange _ _ := mret tt
}.

Lemma decode_take l r i : decode l = Some i -> decode (take 3 (l ++ r)) = Some i.
Proof.
  destruct l as [|x l]; [done|]. cbn [app take]. intros H. 
  destruct l as [|y [|z l]]; cbn [app take]; unfold decode in *; repeat case_match; simplify_eq; done.
Qed.

(** The program in memory is executed as the program. *)
Lemma fetched m a p s i : bytes_at m a (Z.of_nat (length p)) = p -> decode (drop s p) = Some i -> decode (bytes_at m (a + Z.of_nat s) 3) = Some i.
Proof.
  intros Hp Hd. destruct (Nat.le_gt_cases (length p) s) as [Hle|Hlt]; [by rewrite drop_ge in Hd|].
  assert (Hw : bytes_at m (a + Z.of_nat s) 3 = take 3 (drop s p ++ bytes_at m (a + Z.of_nat (length p)) 3)).
  { assert (H : bytes_at m (a + Z.of_nat s) (Z.of_nat (length p - s + 3)) = drop s p ++ bytes_at m (a + Z.of_nat (length p)) 3).
    { rewrite bytes_at_app. f_equal; [|f_equal; lia]. rewrite <- Hp at 2.
      replace (length p) with (s + (length p - s))%nat at 2 by lia. rewrite bytes_at_app, drop_app_length'; [done|]. rewrite length_bytes_at. lia. }
    rewrite <- H, Nat.add_comm, bytes_at_app. change (Z.of_nat 3) with 3. by rewrite take_app_length' by (by rewrite length_bytes_at). }
  rewrite Hw. by apply decode_take.
Qed.

Lemma fetch_run_ends m a p s s' : bytes_at m a (Z.of_nat (length p)) = p -> rtc (step p) s s' -> chan_ended p s' ->
  forall fuel s0, fetch_run fuel m a s = Some s0 -> s0 = s'.
Proof.
  intros Hp Hr He fuel. revert s Hr. induction fuel as [|fuel IH]; intros s Hr s0; [done|]. cbn [fetch_run].
  inversion Hr as [x|x y z Hs Hr']; subst.
  - pose proof (fetched m a p (fst s') DMAEND Hp He) as ->. by intros [= <-].
  - destruct s as [pc d]. unfold step in Hs. cbn [chan_step cells_controller cells_step] in Hs.
    destruct (decode (drop pc p)) as [i|] eqn:Ei; [|done]. cbn [mbind option_bind] in Hs.
    pose proof (fetched m a p pc i Hp Ei) as Hf. cbn [fst]. unfold fetch_step. rewrite Hf. cbn [mbind option_bind].
    destruct (exec unpack_ctrl 128 i d) as [[d' j]|] eqn:Ex; [|done]. cbn [mbind option_bind] in *. injection Hs as <-.
    destruct i; [..|done]; intros H; by apply (IH _ Hr').
Qed.

#[export] Instance board_driver : DmaDriver board_dma.
Proof.
  refine {| memory := w_mem; allocated := w_alloc; command := w_cmd |}.
  - intros ch d a d' [= <- <-]. done.
  - intros a l d d' [= <-]. done.
  - intros a n d d' [= <-]. done.
  - intros ch v d d' [= <-]. done.
  - intros ch a d l Ha. eexists. cbn. rewrite Ha. split; [reflexivity|done].
  - intros ch a d v d' H Hv. cbn [XDmaPs_Exec_DMAGO board_xdmaps] in H. destruct (if w_accept d then _ else _) as [s|]; [by injection H as <- <-|]. by injection H as <- <-.
  - intros ch a d p m' d1 Ha Hp H Hruns. cbn [XDmaPs_Exec_DMAGO board_xdmaps] in H.
    destruct (if w_accept d then _ else _) as [s|] eqn:Es; [|done]. injection H as <-.
    destruct (w_accept d); [|done]. destruct (Hruns (reset (w_mem d)) eq_refl eq_refl) as (s' & Hr & He & Hm).
    pose proof (fetch_run_ends (w_mem d) a p _ s' Hp Hr He 1000 s Es) as ->.
    eexists. split; [|split; [|split]].
    + eapply (stops_later ch); [reflexivity|done|done|]. eapply (stops_now ch); [reflexivity|done].
    + exact Hm.
    + done.
    + done.
Defined.

(** Three blocks of four bytes, eight bytes apart. *)
Definition board0 (pool : option Z) (accept : bool) : board_dma :=
  {| w_mem := fun x => x mod 256; w_pool := pool; w_alloc := []; w_cmd := false; w_busy := false; w_accept := accept |}.

Lemma gather_ok_example : gather_ok (fun x => x mod 256) 4096 (smemcpy_program 512 16 4 8 3) 512 16 4 8 3.
Proof.
  split; [set_solver|done|lia|lia|lia|lia|done|]. intros j k Hj Hk. lia.
Qed.

Definition example_program : list Z := smemcpy_program 512 16 4 8 3.
Definition board1 (accept : bool) : board_dma := Device.exec (XDmaPs_BufPool_Allocate 0) (Device.exec (set_DmaCmdToHw 0 true) (board0 (Some 4096) accept)).
Definition board2 (accept : bool) : board_dma := Device.exec (store_bytes 4096 example_program) (board1 accept).

Lemma board_accepts : fst (XDmaPs_Exec_DMAGO 0 4096 (board2 true)) = XST_SUCCESS.
Proof. vm_compute. reflexivity. Qed.


Lemma dmac_smemcpy_refused_witness : exists d', dmac_smemcpy 0 5 512 16 4 64 8 3 (board0 (Some 4096) false) = (Some (Finished None), d') /\
  command d' = true /\ allocated d' = [4096].
Proof.
  destruct (dmac_smemcpy_refused (D := board_dma) 0 5 512 16 4 64 8 3 (board0 (Some 4096) false)
    (Device.exec (set_DmaCmdToHw 0 true) (board0 (Some 4096) false)) (Some 4096) (board1 false)) as (d' & H1 & H2 & H3);
    [reflexivity..|split; [done|vm_compute; discriminate]|].
  exists d'. split; [exact H1|]. split; [exact H2|exact H3].
Defined.
