(* ===== verification/Dre.v ===== *)
(** The data reordering test (test/dre/src/dre.c).

    The program reads its options, tries both memories, copies a buffer and
    gathers a strided one, and checks what arrived.  The copies are those of
    the build: the load-store unit's, the DMA controller's, or the library's
    [memcpy] and the loop [smemcpy] of this file; the class [Mover] stands for
    them.  Memory is a map of bytes; the caches are coherent with it.  The
    tests of the stream interconnect, which call the modules Stream and Aport,
    are not part of this build. *)
From Stdlib Require Import Ascii.
From S2P Require Import Prelude Bytes Monitor.
Open Scope Z_scope.

(** * Copies *)

Abbreviation mem := (Z -> Z).

Class Mover := {
  memcpy : Z -> Z -> Z -> mem -> mem;
  smemcpy : Z -> Z -> Z -> Z -> Z -> Z -> mem -> mem
}.

(** The library's [memcpy], for regions that do not overlap. *)
Definition lib_memcpy (dst src n : Z) (m : mem) : mem := put_bytes m dst (bytes_at m src n).

(** [while (n) { memcpy(...); rdst += dst_inc; rsrc += src_inc; n--; }] *)
(* @src test/dre/src/dre.c 49-60 smemcpy *)
Fixpoint cpu_smemcpy (n : nat) (rdst rsrc block_sz dst_inc src_inc : Z) (m : mem) : mem :=
  match n with
  | O => m
  | S n' => cpu_smemcpy n' (rdst + dst_inc) (rsrc + src_inc) block_sz dst_inc src_inc (lib_memcpy rdst rsrc block_sz m)
  end.

#[export] Instance cpu_mover : Mover := {
  memcpy := lib_memcpy;
  smemcpy dst src block_sz dst_inc src_inc n := cpu_smemcpy (Z.to_nat n) dst src block_sz dst_inc src_inc
}.

(** * Options *)

(** ctype.h in the C locale, on character codes. *)
Definition code (c : ascii) : Z := Z.of_N (N_of_ascii c).
Definition isdigit (c : ascii) : bool := (48 <=? code c) && (code c <=? 57).
Definition isalpha (c : ascii) : bool := ((65 <=? code c) && (code c <=? 90)) || ((97 <=? code c) && (code c <=? 122)).
Definition toupper (c : ascii) : Z := if (97 <=? code c) && (code c <=? 122) then code c - 32 else code c.

(** [s[0]], NUL at the end of the string. *)
Definition at0 (s : string) : ascii := match s with EmptyString => zero | String c _ => c end.
Definition after (s : string) : string := match s with EmptyString => EmptyString | String _ s' => s' end.

(** [strtoul] of the C library: digits of a base up to 16. *)
Definition digit (c : ascii) : Z :=
  if isdigit c then code c - 48 else if isalpha c then toupper c - 55 else 36.
Fixpoint digits (base acc : Z) (s : string) : Z * string :=
  match s with
  | EmptyString => (acc, s)
  | String c s' => if digit c <? base then digits base (acc * base + digit c) s' else (acc, s)
  end.

(** [strtoul(s, &kptr, 0)] of a string that starts with a digit: the prefix
    chooses the base, and too large a number is the largest one. *)
Definition strtoul0 (s : string) : Z * string :=
  let '(v, rest) :=
    if code (at0 s) =? 48 then
      if (toupper (at0 (after s)) =? 88) && (digit (at0 (after (after s))) <? 16) then digits 16 0 (after (after s)) else digits 8 0 s
    else digits 10 0 s in
  (Z.min v (2 ^ 64 - 1), rest).

(* @src test/dre/src/dre.c 112-123 atoulk *)
Definition atoulk (s : string) : Z :=
  let '(num, kptr) := strtoul0 s in
  let k := if isalpha (at0 kptr) && (toupper (at0 (after kptr)) =? 73) then 1024 else 1000 in
  if toupper (at0 kptr) =? 75 then u64 (num * k)
  else if toupper (at0 kptr) =? 77 then u64 (num * u32 (k * k))
  else if toupper (at0 kptr) =? 71 then u64 (num * u32 (u32 (k * k) * k))
  else num.

(* @src test/dre/src/dre.c 107-110 flags, tsize, sfac *)
Record options := { flags : Z; tsize : Z; sfac : Z; nok : bool }.
Definition DFLAG : Z := 1.
Definition default_options : options := {| flags := 0; tsize := 512; sfac := 8; nok := false |}.

(** The characters of an argument after its dash. *)
(* @src test/dre/src/dre.c 139-164 for (s = argv[0]+1; *s; s++) *)
Fixpoint scan_flags (s : string) (o : options) : options :=
  match s with
  | EmptyString => o
  | String c s' =>
      if (c =? "d")%char then scan_flags s' {| flags := Z.lor (flags o) DFLAG; tsize := tsize o; sfac := sfac o; nok := nok o |}
      else if (c =? "s")%char then
        if isdigit (at0 s') then {| flags := flags o; tsize := tsize o; sfac := u32 (atoulk s'); nok := nok o |}
        else {| flags := flags o; tsize := tsize o; sfac := sfac o; nok := true |}
      else if (c =? "t")%char then
        if isdigit (at0 s') then {| flags := flags o; tsize := atoulk s'; sfac := sfac o; nok := nok o |}
        else {| flags := flags o; tsize := tsize o; sfac := sfac o; nok := true |}
      else scan_flags s' {| flags := flags o; tsize := tsize o; sfac := sfac o; nok := true |}
  end.

(** [None]: the usage is shown. *)
(* @src test/dre/src/dre.c 138-173 while (--argc > 0 ...) *)
Fixpoint scan_args (args : list string) (o : options) : option options :=
  match args with
  | [] => if nok o then None else Some o
  | a :: args => if (at0 a =? "-")%char then scan_args args (scan_flags (after a) o) else None
  end.

(** * Tests *)

Definition store32 (a v : Z) (m : mem) : mem := put_bytes m a (le_bytes 4 (u32 v)).
Definition load32 (m : mem) (a : Z) : Z := le_val (bytes_at m a 4).
Definition store8 (a v : Z) (m : mem) : mem := put_bytes m a [u8 v].

(* @src test/dre/src/dre.c 97-97 MEM_WORDS *)
Definition MEM_WORDS : Z := 16.

(** The access test of a memory, whose failure sets [bit]. *)
(* @src test/dre/src/dre.c 193-210 Scratchpad test *)
Definition access_test (ptr bit : Z) (status : Z) (m : mem) : Z * mem :=
  let m := turns (Z.to_nat MEM_WORDS) 0 (fun i => store32 (ptr + 4 * i) i) m in
  (if differs (Z.to_nat MEM_WORDS) (fun i => negb (load32 m (ptr + 4 * i) =? u32 i)) then Z.lor status bit else status, m).

Section Tests.
Context `{Mover}.

(* @src test/dre/src/dre.c 278-306 Contiguous read and write *)
Definition contiguous_test (tsize MEM_SP MEM_DRAM status : Z) (m : mem) : Z * mem :=
  let len := u32 tsize in
  let m := turns (Z.to_nat len) 0 (fun i => store8 (MEM_DRAM + i) (Z.land i 0xFF)) m in
  let m := turns (Z.to_nat len) 0 (fun i => store8 (MEM_SP + i) 0) m in
  let m := memcpy MEM_SP MEM_DRAM len m in
  (if differs (Z.to_nat len) (fun i => negb (m (MEM_DRAM + i) =? m (MEM_SP + i))) then Z.lor status 0x20 else status, m).

(** The source of the strided test: every [sfac]th word is its number. *)
(* @src test/dre/src/dre.c 320-322 for (i = 0; i < n; i++) *)
Definition fill_strided (n sfac src_buf : Z) (m : mem) : mem :=
  turns (Z.to_nat n) 0 (fun i =>
    turns (Z.to_nat sfac) 0 (fun j => store32 (src_buf + 4 * u32 (i * sfac + j)) (if truthy j then Z.lnot i else i))) m.

(* @src test/dre/src/dre.c 309-341 Strided read and contiguous write *)
Definition strided_test (tsize sfac MEM_SP MEM_DRAM status : Z) (m : mem) : Z * mem :=
  let inc := u32 (sfac * 4) in
  let len := u32 tsize in
  let n := u32 (tsize / 4) in
  let m := fill_strided n sfac MEM_DRAM m in
  let m := turns (Z.to_nat len) 0 (fun i => store8 (MEM_SP + i) 0) m in
  let m := smemcpy MEM_SP MEM_DRAM 4 4 inc n m in
  (if differs (Z.to_nat n) (fun i => negb (load32 m (MEM_DRAM + 4 * u32 (i * sfac)) =? load32 m (MEM_SP + 4 * i))) then Z.lor status 0x40 else status, m).

(** The exit code, and the status whose bits are the tests that failed.  [sp]
    and [dram] answer the allocations. *)
(* @src test/dre/src/dre.c 126-357 MAIN *)
Definition MAIN (args : list string) (sp dram : Z -> option Z) (m : mem) : outcome (Z * Z * mem) :=
  match scan_args args default_options with
  | None => Finished (1, 0, m)
  | Some o =>
      match sp (tsize o) with
      | None => Exit 1 "allocating MEM_SP"
      | Some MEM_SP =>
          match dram (u64 (tsize o * sfac o)) with
          | None => Exit 1 "allocating MEM_DRAM"
          | Some MEM_DRAM =>
              let '(status, m) := access_test MEM_SP 0x01 0 m in
              let '(status, m) := access_test MEM_DRAM 0x02 status m in
              let '(status, m) := contiguous_test (tsize o) MEM_SP MEM_DRAM status m in
              let '(status, m) := strided_test (tsize o) (sfac o) MEM_SP MEM_DRAM status m in
              Finished (0, status, m)
          end
      end
  end.
End Tests.
