(* ===== verification/DreProofs.v ===== *)
(** The data reordering test: the copies agree, the options are read, the
    tests pass.

    The loop of the program is the reference: what the load-store unit and
    the DMA controller leave in memory is what the loop leaves.  A build whose
    copies meet the class [MoverLaws] passes every test. *)
From Stdlib Require Import FunctionalExtensionality.
From stdpp Require Import pretty.
From S2P Require Import Prelude Device Bytes Monitor Aport LsuHw LsuHwProofs LsuSystem Dmac DmacProofs Dre.
Open Scope Z_scope.

(** * The loop [smemcpy] *)

(** Blocks of the destination that overlap neither each other nor a block of
    the source. *)
Record blocks_apart (n dst src bs dst_inc src_inc : Z) : Prop := {
  ba_size : 0 <= bs <= dst_inc;
  ba_apart : forall i j, 0 <= i < n -> 0 <= j < n -> dst + i * dst_inc + bs <= src + j * src_inc \/ src + j * src_inc + bs <= dst + i * dst_inc
}.

(** Every block is in its place and the rest of memory is untouched. *)
Definition moved (n dst src bs dst_inc src_inc : Z) (m m' : Z -> Z) : Prop :=
  (forall i k, 0 <= i < n -> 0 <= k < bs -> m' (dst + i * dst_inc + k) = m (src + i * src_inc + k)) /\
  (forall x, (forall i, 0 <= i < n -> x < dst + i * dst_inc \/ dst + i * dst_inc + bs <= x) -> m' x = m x).

Lemma memcpy_inside dst src n m k : 0 <= k < n -> lib_memcpy dst src n m (dst + k) = m (src + k).
Proof. intros H. unfold lib_memcpy. rewrite put_inside by (rewrite length_bytes_at; lia). by apply nth_bytes_at. Qed.
Lemma memcpy_outside dst src n m x : 0 <= n -> x < dst \/ dst + n <= x -> lib_memcpy dst src n m x = m x.
Proof. intros H Hx. apply put_outside. rewrite length_bytes_at. lia. Qed.

Lemma cpu_smemcpy_moves (n : nat) bs dst_inc src_inc : forall dst src m,
  blocks_apart (Z.of_nat n) dst src bs dst_inc src_inc ->
  moved (Z.of_nat n) dst src bs dst_inc src_inc m (cpu_smemcpy n dst src bs dst_inc src_inc m).
Proof.
  induction n as [|n IH]; intros dst src m [Hb Ha]; [by split; [lia|]|]. cbn [cpu_smemcpy].
  destruct (IH (dst + dst_inc) (src + src_inc) (lib_memcpy dst src bs m)) as [H1 H2].
  { split; [done|]. intros i j Hi Hj. specialize (Ha (i + 1) (j + 1) ltac:(lia) ltac:(lia)). lia. }
  split.
  - intros i k Hi Hk. destruct (Z.eq_dec i 0) as [->|Hne].
    + rewrite !Z.mul_0_l, !Z.add_0_r, H2; [by apply memcpy_inside|]. intros i Hi'. left. nia.
    + specialize (H1 (i - 1) k ltac:(lia) Hk). replace (dst + i * dst_inc + k) with (dst + dst_inc + (i - 1) * dst_inc + k) by lia.
      rewrite H1. replace (src + src_inc + (i - 1) * src_inc + k) with (src + i * src_inc + k) by lia.
      apply memcpy_outside; [lia|]. specialize (Ha 0 i ltac:(lia) ltac:(lia)). lia.
  - intros x Hx. rewrite H2.
    + apply memcpy_outside; [lia|]. specialize (Hx 0 ltac:(lia)). lia.
    + intros i Hi. specialize (Hx (i + 1) ltac:(lia)). lia.
Qed.

(** There is one such memory. *)
Lemma moved_unique n dst src bs dst_inc src_inc m m1 m2 :
  moved n dst src bs dst_inc src_inc m m1 -> moved n dst src bs dst_inc src_inc m m2 -> forall x, m1 x = m2 x.
Proof.
  intros [A1 A2] [B1 B2] x.
  destruct (decide (Exists (fun j : nat => dst + Z.of_nat j * dst_inc <= x < dst + Z.of_nat j * dst_inc + bs) (seq 0 (Z.to_nat n)))) as [He|He].
  - apply Exists_exists in He as (j & Hj%elem_of_seq & Hx). replace x with (dst + Z.of_nat j * dst_inc + (x - dst - Z.of_nat j * dst_inc)) by lia.
    rewrite A1, B1 by lia. done.
  - rewrite A2, B2; [done|..]; intros i Hi; destruct (Z.lt_ge_cases x (dst + i * dst_inc)) as [|Hge]; try (by left); right;
      destruct (Z.lt_ge_cases x (dst + i * dst_inc + bs)) as [Hlt|]; try done; exfalso; apply He, Exists_exists; exists (Z.to_nat i);
      rewrite elem_of_seq, Z2Nat.id by lia; split; lia.
Qed.

(** C4: The strided copy of the load-store unit against the loop of the program,
    from the packets of the library down, for blocks of less than 2^24 bytes,
    strides and counts below 2^30 and regions inside the 32-bit bus addresses.
    When the blocks are whole flits (size, strides and both addresses multiples
    of eight) and no block of the destination overlaps another or one of the
    source, the unit answers, and leaves the memory that the loop leaves.  When
    the size is not a multiple of eight, and the destination and its stride
    are, or the blocks are words stored at word addresses, it never answers:
    so the program's own strided test, which gathers words of four bytes, does
    not end in the build for the load-store unit. *)
Theorem smemcpy_lsu cap port ATRAN g dst src bs dst_inc src_inc n m :
  (0 < cap)%nat -> routable g -> bytes_ok m -> 0 < bs < 2 ^ 24 -> 0 < n < 2 ^ 30 ->
  0 <= ATRAN src -> in_word 30 src_inc -> ATRAN src + (n - 1) * src_inc + bs <= 2 ^ 32 ->
  0 <= ATRAN dst -> in_word 30 dst_inc -> ATRAN dst + (n - 1) * dst_inc + bs <= 2 ^ 32 ->
  let '(load, store) := Lsu.smove_commands ATRAN g dst src bs dst_inc src_inc n in
  (bs mod 8 = 0 -> ATRAN src mod 8 = 0 -> src_inc mod 8 = 0 -> ATRAN dst mod 8 = 0 -> dst_inc mod 8 = 0 ->
   blocks_apart n (ATRAN dst) (ATRAN src) bs dst_inc src_inc ->
   performs cap port m load store (fun m' =>
     forall x, m' x = cpu_smemcpy (Z.to_nat n) (ATRAN dst) (ATRAN src) bs dst_inc src_inc m x)) /\
  (bs mod 8 <> 0 -> ATRAN dst mod 8 = 0 /\ dst_inc mod 8 = 0 \/ bs = 4 /\ ATRAN dst mod 4 = 0 /\ dst_inc mod 4 = 0 ->
   never_answers cap port m load store).
Proof.
  intros Hc Hg Hm Hb Hn Hs Hsi Hsn Hd Hdi Hdn.
  pose proof (smove_hangs cap port ATRAN g dst src bs dst_inc src_inc n m Hg Hb Hn Hs Hsi Hsn Hd Hdi Hdn) as Hhang.
  pose proof (smove_copies cap port ATRAN g dst src bs dst_inc src_inc n m Hc Hg Hm Hb) as HP.
  destruct (Lsu.smove_commands ATRAN g dst src bs dst_inc src_inc n) as [load store]. split; [|exact Hhang].
  intros Hb8 Hs8 Hsi8 Hd8 Hdi8 Hap. eapply performs_mono;
    [|exact (HP Hb8 Hn Hs Hs8 Hsi Hsi8 Hsn Hd Hd8 Hdi Hdi8 Hdn (proj2 (ba_size _ _ _ _ _ _ Hap)) (ba_apart _ _ _ _ _ _ Hap))].
  clear HP. intros m' Hm' x. apply (moved_unique n (ATRAN dst) (ATRAN src) bs dst_inc src_inc m); [exact Hm'|].
  pose proof (cpu_smemcpy_moves (Z.to_nat n) bs dst_inc src_inc (ATRAN dst) (ATRAN src) m) as H. rewrite Z2Nat.id in H by lia. by apply H.
Qed.

(** * The DMA controller *)

Lemma cpu_smemcpy_snoc n bs dst_inc src_inc : forall dst src m,
  cpu_smemcpy (S n) dst src bs dst_inc src_inc m
  = lib_memcpy (dst + Z.of_nat n * dst_inc) (src + Z.of_nat n * src_inc) bs (cpu_smemcpy n dst src bs dst_inc src_inc m).
Proof.
  induction n as [|n IH]; intros dst src m.
  - cbn [cpu_smemcpy]. by rewrite !Z.mul_0_l, !Z.add_0_r.
  - change (cpu_smemcpy (S (S n)) dst src bs dst_inc src_inc m) with (cpu_smemcpy (S n) (dst + dst_inc) (src + src_inc) bs dst_inc src_inc (lib_memcpy dst src bs m)).
    rewrite IH. cbn [cpu_smemcpy]. f_equal; lia.
Qed.

(** The memory the controller's program leaves is the loop's, with the blocks
    one after the other. *)
Lemma gathered_loop m src dst b inc (N : nat) :
  b ∈ [1; 2; 4; 8] -> (forall j k, (j < N)%nat -> 0 <= k < b -> ~ (dst <= src + Z.of_nat j * inc + k < dst + Z.of_nat N * b)) ->
  forall i, (i <= N)%nat -> cpu_smemcpy i dst src b b inc m = gathered m src dst b inc i.
Proof.
  intros Hb Hap. assert (0 < b) by (rewrite !elem_of_cons, elem_of_nil in Hb; lia). induction i as [|i IH]; intros Hi.
  - apply functional_extensionality. intros x. unfold gathered. symmetry. apply put_outside. cbn. lia.
  - rewrite cpu_smemcpy_snoc, IH by lia. unfold lib_memcpy. rewrite (source_kept m src dst b inc N Hb Hap) by lia. unfold gathered.
    replace (dst + Z.of_nat i * b) with (dst + Z.of_nat (length (blocks m src b inc 0 i))) by (rewrite length_blocks; lia).
    rewrite put_app. f_equal. replace (S i) with (i + 1)%nat by lia. by rewrite blocks_app.
Qed.

(** The DMA controller's gather leaves the memory that the loop leaves with
    the blocks one after the other, whatever stride of the destination it is
    given, but for the buffer of its program. *)
Theorem smemcpy_dmac {D} `{X : XDmaPs D} `{E : Encoding} `{C : !Controller} `{L : !DmaDriver D} ch dst src b dst_inc inc n d d0 a d1 d2 d3 d4 :
  let p := smemcpy_program dst src b inc n in
  set_DmaCmdToHw ch true d = (tt, d0) -> XDmaPs_BufPool_Allocate ch d0 = (Some a, d1) ->
  Dmac.store_bytes a p d1 = (tt, d2) -> Xil_DCacheFlushRange a (Z.of_nat (length p)) d2 = (tt, d3) ->
  XDmaPs_Exec_DMAGO ch a d3 = (XST_SUCCESS, d4) -> gather_ok (memory d) a p dst src b inc n ->
  exists k, forall fuel, (k <= fuel)%nat -> exists d', dmac_smemcpy ch fuel dst src b dst_inc inc n d = (Some (Finished (Some dst)), d') /\
    forall x, ~ (a <= x < a + Z.of_nat (length p)) -> memory d' x = cpu_smemcpy (Z.to_nat n) dst src b b inc (memory d) x.
Proof.
  intros p E0 E1 E2 E3 E4 Hok. destruct (dmac_gathers ch dst src b dst_inc inc n d d0 a d1 d2 d3 d4 E0 E1 E2 E3 E4 Hok) as (k & Hk).
  exists k. intros fuel Hf. destruct (Hk fuel Hf) as (d' & H1 & H2 & _). exists d'. split; [exact H1|]. intros x Hx.
  rewrite H2 by done. destruct Hok. rewrite (gathered_loop (memory d) src dst b inc (Z.to_nat n)); [done|done| |done].
  intros j i Hj Hi. rewrite Z2Nat.id by done. apply ga_apart; lia.
Qed.

(** * Options *)

Lemma digit_char (x : N) : (x < 10)%N -> digit (pretty_N_char x) = Z.of_N x.
Proof.
  intros H. assert (x = 0 \/ x = 1 \/ x = 2 \/ x = 3 \/ x = 4 \/ x = 5 \/ x = 6 \/ x = 7 \/ x = 8 \/ x = 9)%N as Hx by lia.
  by repeat destruct Hx as [->|Hx]; [..|subst x].
Qed.

(** The digits of a number are read back as it. *)
Lemma digits_pretty (x : N) : exists k, 0 <= k /\ forall acc s, digits 10 acc (pretty_N_go x s) = digits 10 (acc * 10 ^ k + Z.of_N x) s.
Proof.
  induction (N.lt_wf_0 x) as [x _ IH]. destruct (decide (x = 0)%N) as [->|Hx].
  - exists 0. split; [lia|]. intros acc s. rewrite pretty_N_go_0. f_equal. lia.
  - destruct (IH (x / 10)%N) as (k & Hk & IHk); [by apply N.div_lt; lia|]. exists (k + 1). split; [lia|]. intros acc s.
    rewrite pretty_N_go_step, IHk by lia. cbn [digits]. assert (Hm : (x mod 10 < 10)%N) by (by apply N.mod_lt).
    rewrite digit_char by done. destruct (Z.ltb_spec (Z.of_N (x mod 10)) 10); [|lia]. f_equal.
    rewrite Z.pow_add_r by lia. rewrite N2Z.inj_div, N2Z.inj_mod. change (Z.of_N 10) with 10.
    pose proof (Z.div_mod (Z.of_N x) 10 ltac:(lia)). lia.
Qed.

Lemma pretty_N_go_app (x : N) : forall s r, (pretty_N_go x s +:+ r)%string = pretty_N_go x (s +:+ r)%string.
Proof.
  induction (N.lt_wf_0 x) as [x _ IH]. intros s r. destruct (decide (x = 0)%N) as [->|Hx]; [by rewrite !pretty_N_go_0|].
  rewrite !(pretty_N_go_step x) by lia. rewrite IH; [done|by apply N.div_lt; lia].
Qed.

(** The first digit of a positive number is not zero. *)
Lemma pretty_head (x : N) : (0 < x)%N -> forall s, exists c r, pretty_N_go x s = String c r /\ code c <> 48.
Proof.
  induction (N.lt_wf_0 x) as [x _ IH]. intros Hx s. rewrite pretty_N_go_step by done.
  destruct (decide (x < 10)%N) as [Hlt|Hge].
  - rewrite N.div_small, pretty_N_go_0, N.mod_small by done. eexists _, _. split; [done|].
    assert (x = 1 \/ x = 2 \/ x = 3 \/ x = 4 \/ x = 5 \/ x = 6 \/ x = 7 \/ x = 8 \/ x = 9)%N as Hd by lia.
    by repeat destruct Hd as [->|Hd]; [..|subst x].
  - apply IH; [by apply N.div_lt; lia|apply N.div_str_pos; lia].
Qed.

(** The suffixes and the factors they stand for. *)
Definition suffixes : list (string * Z) :=
  [(""%string, 1); ("K"%string, 1000); ("k"%string, 1000); ("Ki"%string, 2 ^ 10); ("M"%string, 10 ^ 6); ("Mi"%string, 2 ^ 20); ("G"%string, 10 ^ 9); ("Gi"%string, 2 ^ 30)].

Lemma strtoul0_pretty (n : N) suf f :
  (suf, f) ∈ suffixes -> (n < 2 ^ 64)%N -> strtoul0 (pretty n +:+ suf) = (Z.of_N n, suf).
Proof.
  intros Hs Hn. unfold pretty, pretty_N. destruct (decide (n = 0)%N) as [->|Hne].
  - unfold suffixes in Hs. rewrite !elem_of_cons, elem_of_nil in Hs. repeat destruct Hs as [[= -> ->]|Hs]; reflexivity || done.
  - rewrite pretty_N_go_app. change ("" +:+ suf)%string with suf. unfold strtoul0.
    destruct (pretty_head n ltac:(lia) suf) as (c & r & Hc & H0). rewrite Hc. cbn [at0].
    destruct (Z.eqb_spec (code c) 48); [done|]. rewrite <- Hc. destruct (digits_pretty n) as (k & Hk & Hd). rewrite Hd, Z.mul_0_l, Z.add_0_l.
    assert (E : digits 10 (Z.of_N n) suf = (Z.of_N n, suf)).
    { unfold suffixes in Hs. rewrite !elem_of_cons, elem_of_nil in Hs. repeat destruct Hs as [[= -> ->]|Hs]; reflexivity || done. }
    rewrite E. f_equal. apply Z.min_l. assert (Z.of_N n < 2 ^ 64) by (change (2 ^ 64) with (Z.of_N (2 ^ 64)); lia). lia.
Qed.

(** A size is read as it is written: a decimal number, a letter for its power
    of a thousand, and [i] to make it of 1024. *)
Theorem atoulk_sizes (n : N) suf f :
  (suf, f) ∈ suffixes -> (n < 2 ^ 64)%N -> atoulk (pretty n +:+ suf) = u64 (Z.of_N n * f).
Proof.
  intros Hs Hn. unfold atoulk. rewrite (strtoul0_pretty n suf f Hs Hn). unfold suffixes in Hs. rewrite !elem_of_cons, elem_of_nil in Hs.
  assert (Hr : Z.of_N n = u64 (Z.of_N n * 1)).
  { rewrite Z.mul_1_r, wrap_id; [done|]. split; [lia|]. change (2 ^ 64) with (Z.of_N (2 ^ 64)). lia. }
  repeat destruct Hs as [[= -> ->]|Hs]; try reflexivity; done.
Qed.

Lemma atoulk_sizes_witness : atoulk "16Mi" = 2 ^ 24.
Proof.
  transitivity (u64 (Z.of_N 16 * 2 ^ 20)); [|reflexivity]. apply (atoulk_sizes 16 "Mi" (2 ^ 20)); [|lia].
  unfold suffixes. rewrite !elem_of_cons. auto 8.
Defined.

(** * The tests *)

Lemma load_store32 a v m : load32 (store32 a v m) a = u32 v.
Proof.
  pose proof (bytes_at_put m a (le_bytes 4 (u32 v))) as Hb. rewrite length_le_bytes in Hb. change (Z.of_nat 4) with 4 in Hb.
  unfold load32, store32. rewrite Hb, le_val_le_bytes. apply wrap_id, wrap_range. lia.
Qed.

Lemma load_ext m m' a : (forall k, 0 <= k < 4 -> m (a + k) = m' (a + k)) -> load32 m a = load32 m' a.
Proof. intros H. unfold load32. f_equal. by apply bytes_at_ext. Qed.

Lemma store32_outside a v m x : x < a \/ a + 4 <= x -> store32 a v m x = m x.
Proof. intros H. apply put_outside. rewrite length_le_bytes. lia. Qed.
Lemma store8_outside a v m x : x <> a -> store8 a v m x = m x.
Proof. intros H. apply put_outside. cbn. lia. Qed.

Lemma load_store32_ne a b v m : a + 4 <= b \/ b + 4 <= a -> load32 (store32 a v m) b = load32 m b.
Proof. intros H. apply load_ext. intros k Hk. apply store32_outside. lia. Qed.

(** Words stored one after the other are all there. *)
Lemma fill_words ptr f (n : nat) m :
  forall i, 0 <= i < Z.of_nat n -> load32 (turns n 0 (fun i => store32 (ptr + 4 * i) (f i)) m) (ptr + 4 * i) = u32 (f i).
Proof.
  apply (turns_inv0 (fun k m => forall i, 0 <= i < k -> load32 m (ptr + 4 * i) = u32 (f i))); [lia|].
  intros k y Hk H i Hi. destruct (Z.eq_dec i k) as [->|Hne]; [apply load_store32|]. rewrite load_store32_ne by lia. apply H. lia.
Qed.

Lemma access_passes ptr bit status m : fst (access_test ptr bit status m) = status.
Proof.
  unfold access_test. cbn [fst]. destruct (differs _ _) eqn:E; [|done]. apply not_false_iff_true in E. destruct E.
  apply differs_false. intros i Hi. rewrite fill_words by lia. by rewrite Z.eqb_refl.
Qed.

(** What the copies of a build promise: what the library and the loop do. *)
Class MoverLaws `{Mover} := {
  memcpy_law : forall dst src n m, 0 <= n -> dst + n <= src \/ src + n <= dst -> forall x, memcpy dst src n m x = lib_memcpy dst src n m x;
  smemcpy_law : forall dst src bs dst_inc src_inc n m, 0 <= n -> blocks_apart n dst src bs dst_inc src_inc ->
    forall x, smemcpy dst src bs dst_inc src_inc n m x = cpu_smemcpy (Z.to_nat n) dst src bs dst_inc src_inc m x
}.

#[export] Instance cpu_laws : MoverLaws (H := cpu_mover).
Proof. by split. Qed.

Lemma contiguous_passes `{MoverLaws} tsize sp dram status m :
  in_word 32 tsize -> sp + tsize <= dram \/ dram + tsize <= sp -> fst (contiguous_test tsize sp dram status m) = status.
Proof.
  intros Ht Hap. unfold contiguous_test. rewrite (wrap_id 32 tsize Ht). destruct Ht as [Ht _]. cbn [fst].
  destruct (differs _ _) eqn:E; [|done]. apply not_false_iff_true in E. destruct E. apply differs_false. intros i Hi. rewrite Z2Nat.id in Hi by done.
  rewrite !memcpy_law, memcpy_inside by lia. rewrite memcpy_outside by lia. by rewrite Z.eqb_refl.
Qed.

(** What the strided test needs of its sizes. *)
Definition sizes_ok (tsize sfac : Z) : Prop := 4 <= tsize /\ 1 <= sfac /\ tsize * sfac < 2 ^ 32.

Lemma strided_index tsize sfac i : sizes_ok tsize sfac -> 0 <= i < tsize / 4 ->
  u32 (sfac * 4) = sfac * 4 /\ u32 (tsize / 4) = tsize / 4 /\ in_word 32 tsize /\ 0 <= i * sfac /\ i * sfac + sfac <= tsize / 4 * sfac /\ 4 * (tsize / 4 * sfac) <= tsize * sfac.
Proof.
  intros (H1 & H2 & H3) Hi. pose proof (Z.mul_div_le tsize 4 ltac:(lia)).
  split_and!; [apply wrap_id; split; nia|apply wrap_id; split; nia|split; nia|nia..].
Qed.

Lemma strided_passes `{MoverLaws} tsize sfac sp dram status m :
  sizes_ok tsize sfac -> sp + tsize <= dram \/ dram + tsize * sfac <= sp -> fst (strided_test tsize sfac sp dram status m) = status.
Proof.
  intros Hs Hap. pose proof Hs as (H1 & H2 & H3). assert (Hn0 : 0 < tsize / 4) by (apply Z.div_str_pos; lia).
  destruct (strided_index tsize sfac 0 Hs ltac:(lia)) as (E1 & E2 & E3 & _ & _ & E4). unfold strided_test. rewrite E1, E2, (wrap_id 32 tsize E3).
  cbn [fst]. destruct (differs _ _) eqn:E; [|done]. apply not_false_iff_true in E. destruct E. apply differs_false. intros i Hi.
  rewrite Z2Nat.id in Hi by lia. destruct (strided_index tsize sfac i Hs Hi) as (_ & _ & _ & I1 & I2 & _).
  rewrite (wrap_id 32 (i * sfac)) by (split; nia). set (m1 := turns _ _ _ (fill_strided _ _ _ _)).
  pose proof (Z.mul_div_le tsize 4 ltac:(lia)) as Hq.
  assert (Hba : blocks_apart (tsize / 4) sp dram 4 4 (sfac * 4)) by (split; [lia|]; intros j k Hj Hk; nia).
  pose proof (cpu_smemcpy_moves (Z.to_nat (tsize / 4)) 4 4 (sfac * 4) sp dram m1) as Hm. rewrite Z2Nat.id in Hm by lia. destruct (Hm Hba) as [M1 M2].
  apply negb_false_iff, Z.eqb_eq. unfold load32. f_equal. apply map_ext_in. intros k Hk%in_seq. change (Z.to_nat 4) with 4%nat in Hk.
  rewrite !smemcpy_law by (done || lia). replace (sp + 4 * i + Z.of_nat k) with (sp + i * 4 + Z.of_nat k) by lia. rewrite M1 by lia.
  rewrite M2; [f_equal; lia|]. intros j Hj. nia.
Qed.

(** The program passes: whatever the copies are made by, when they do what the
    library and the loop do, every test of every run with sizes that fit
    passes; a run is told apart from the usage message only by its exit code,
    which is zero. *)
Theorem dre_passes `{MoverLaws} args o sp dram MEM_SP MEM_DRAM m :
  scan_args args default_options = Some o -> sizes_ok (tsize o) (sfac o) -> sp (tsize o) = Some MEM_SP -> dram (tsize o * sfac o) = Some MEM_DRAM ->
  MEM_SP + tsize o <= MEM_DRAM \/ MEM_DRAM + tsize o * sfac o <= MEM_SP ->
  exists m', MAIN args sp dram m = Finished (0, 0, m').
Proof.
  intros Ha Hs Hsp Hd Hap. pose proof Hs as (H1 & H2 & H3). unfold MAIN. rewrite Ha, Hsp.
  rewrite (wrap_id 64 (tsize o * sfac o)) by (split; [nia|]; eapply Z.lt_trans; [exact H3|done]). rewrite Hd.
  pose proof (access_passes MEM_SP 1 0 m) as A1. destruct (access_test MEM_SP 1 0 m) as [s1 m1]. cbn in A1. subst s1.
  pose proof (access_passes MEM_DRAM 2 0 m1) as A2. destruct (access_test MEM_DRAM 2 0 m1) as [s2 m2]. cbn in A2. subst s2.
  pose proof (contiguous_passes (tsize o) MEM_SP MEM_DRAM 0 m2) as A3. destruct (contiguous_test _ _ _ 0 m2) as [s3 m3]. cbn in A3.
  rewrite A3 by (first [split; nia|nia]).
  pose proof (strided_passes (tsize o) (sfac o) MEM_SP MEM_DRAM 0 m3 Hs Hap) as A4. destruct (strided_test _ _ _ _ 0 m3) as [s4 m4]. cbn in A4. subst s4.
  by exists m4.
Qed.

(** Every [sfac]th word of the source is its number. *)
Lemma fill_strided_words (n sfac : Z) src m :
  0 <= n -> 1 <= sfac -> n * sfac < 2 ^ 30 -> forall i, 0 <= i < n -> load32 (fill_strided n sfac src m) (src + 4 * (i * sfac)) = u32 i.
Proof.
  intros Hn Hs Hfit. unfold fill_strided. set (turn := fun i => turns _ _ _).
  pose proof (turns_inv0 (fun k m => forall i, 0 <= i < k -> load32 m (src + 4 * (i * sfac)) = u32 i) turn (Z.to_nat n) m) as HT.
  cbv beta in HT. rewrite Z2Nat.id in HT by done. apply HT; [lia|]. clear HT. unfold turn.
  intros k y Hk H. set (body := fun j => _).
  assert (Hidx : forall j, 0 <= j < sfac -> u32 (k * sfac + j) = k * sfac + j).
  { intros j Hj. apply wrap_id. split; [nia|]. apply Z.lt_trans with (2 ^ 30); [nia|done]. }
  pose proof (turns_inv0 (fun j m => (0 < j -> load32 m (src + 4 * (k * sfac)) = u32 k) /\ forall i, 0 <= i < k -> load32 m (src + 4 * (i * sfac)) = u32 i)
    body (Z.to_nat sfac) y) as Ht. cbv beta in Ht. rewrite Z2Nat.id in Ht by lia. destruct Ht as [Hk0 Hlt].
  - split; [lia|done].
  - intros j z Hj [Hz0 Hz]. unfold body. rewrite Hidx by lia. split.
    + intros _. destruct (Z.eq_dec j 0) as [->|Hne]; [rewrite Z.add_0_r; apply load_store32|]. rewrite load_store32_ne by lia. apply Hz0. lia.
    + intros i Hi. rewrite load_store32_ne by nia. by apply Hz.
  - intros i Hi. destruct (Z.eq_dec i k) as [->|Hne]; [apply Hk0; lia|apply Hlt; lia].
Qed.

(** C37: The strided test is sound: for any copy that leaves the source alone,
    passing it means that every element arrived: word [i] of the destination
    is the number [i] of its source block. *)
Theorem strided_test_sound `{Mover} tsize sfac sp dram status m :
  sizes_ok tsize sfac -> sp + tsize <= dram \/ dram + tsize * sfac <= sp -> Z.testbit status 6 = false ->
  (forall m x, dram <= x < dram + tsize * sfac -> smemcpy sp dram 4 4 (sfac * 4) (tsize / 4) m x = m x) ->
  let '(status', m') := strided_test tsize sfac sp dram status m in
  Z.testbit status' 6 = false <-> forall i, 0 <= i < tsize / 4 -> load32 m' (sp + 4 * i) = i.
Proof.
  intros Hs Hap Hst Hsrc. pose proof Hs as (H1 & H2 & H3). assert (Hn0 : 0 < tsize / 4) by (apply Z.div_str_pos; lia).
  destruct (strided_index tsize sfac 0 Hs ltac:(lia)) as (E1 & E2 & E3 & _ & _ & E4). unfold strided_test. rewrite E1, E2, (wrap_id 32 tsize E3).
  set (m1 := turns _ _ _ (fill_strided _ _ _ _)). set (m' := smemcpy _ _ _ _ _ _ _).
  assert (Hword : forall i, 0 <= i < tsize / 4 -> load32 m' (dram + 4 * u32 (i * sfac)) = i).
  { intros i Hi. destruct (strided_index tsize sfac i Hs Hi) as (_ & _ & _ & I1 & I2 & _). rewrite (wrap_id 32 (i * sfac)) by (split; nia).
    rewrite (load_ext m' (fill_strided (tsize / 4) sfac dram m)).
    - rewrite fill_strided_words by (try lia; change (2 ^ 30) with 1073741824; change (2 ^ 32) with 4294967296 in H3; lia).
      apply wrap_id. split; [lia|nia].
    - intros k Hk. unfold m'. rewrite Hsrc by nia. unfold m1.
      apply (turns_inv0 (fun _ m1 => m1 (dram + 4 * (i * sfac) + k) = fill_strided (tsize / 4) sfac dram m (dram + 4 * (i * sfac) + k))); [done|].
      intros j y Hj Hy. rewrite store8_outside; [done|nia]. }
  assert (Hd : differs (Z.to_nat (tsize / 4)) (fun i => negb (load32 m' (dram + 4 * u32 (i * sfac)) =? load32 m' (sp + 4 * i))) = false <->
    forall i, 0 <= i < tsize / 4 -> load32 m' (sp + 4 * i) = i).
  { rewrite differs_false, Z2Nat.id by lia. split; intros Hf i Hi; specialize (Hf i Hi); rewrite Hword in * by done.
    - apply negb_false_iff, Z.eqb_eq in Hf. done.
    - apply negb_false_iff, Z.eqb_eq. done. }
  rewrite <- Hd. destruct (differs _ _); [|done]. rewrite Z.lor_spec. change (Z.testbit 64 6) with true. by rewrite orb_true_r.
Qed.

(** * Examples *)

(** Three blocks of sixteen bytes, and the strided test of the program: 64
    words, every eighth of the source. *)
Lemma smemcpy_lsu_witness :
  (let '(load, store) := Lsu.smove_commands (fun a => a) lsu0 0x2000 0x1008 16 16 40 3 in
   performs 2 port0 memory0 load store (fun m' => forall x, m' x = cpu_smemcpy 3 0x2000 0x1008 16 16 40 memory0 x)) /\
  (let '(load, store) := Lsu.smove_commands (fun a => a) lsu0 0x2000 0x4000 4 4 32 64 in
   never_answers 2 port0 memory0 load store).
Proof.
  split.
  - apply (smemcpy_lsu 2 port0 (fun a => a) lsu0 0x2000 0x1008 16 16 40 3 memory0).
    all: first [split; lia | lia | by vm_compute | intros x; apply Z.mod_pos_bound; lia | unfold in_word; lia].
  - apply (smemcpy_lsu 2 port0 (fun a => a) lsu0 0x2000 0x4000 4 4 32 64 memory0).
    all: first [right; by split_and! | lia | by vm_compute | intros x; apply Z.mod_pos_bound; lia | unfold in_word; lia].
Defined.

Lemma smemcpy_dmac_witness : exists k, forall fuel, (k <= fuel)%nat ->
  exists d', dmac_smemcpy 0 fuel 512 16 4 64 8 3 (board0 (Some 4096) true) = (Some (Finished (Some 512)), d') /\
    forall x, ~ (4096 <= x < 4096 + Z.of_nat (length example_program)) -> w_mem d' x = cpu_smemcpy 3 512 16 4 4 8 (fun x => x mod 256) x.
Proof.
  exact (smemcpy_dmac (D := board_dma) 0 512 16 4 64 8 3 (board0 (Some 4096) true) (Device.exec (set_DmaCmdToHw 0 true) (board0 (Some 4096) true))
    4096 (board1 true) (board2 true) (board2 true) (snd (XDmaPs_Exec_DMAGO 0 4096 (board2 true))) eq_refl eq_refl eq_refl eq_refl
    ltac:(by rewrite <- board_accepts, <- surjective_pairing) gather_ok_example).
Defined.

Lemma dre_passes_witness : exists m', MAIN ["-d"%string; "-s4"%string; "-t1Ki"%string] (fun _ => Some 0x1000) (fun _ => Some 0x2000) (fun _ => 0) = Finished (0, 0, m').
Proof.
  apply (dre_passes (H := cpu_mover) ["-d"%string; "-s4"%string; "-t1Ki"%string] {| flags := 1; tsize := 1024; sfac := 4; nok := false |}
    (fun _ => Some 0x1000) (fun _ => Some 0x2000) 0x1000 0x2000 (fun _ => 0)); [by vm_compute|unfold sizes_ok; cbn; lia|done|done|cbn; lia].
Defined.

Lemma strided_test_sound_witness :
  let '(status', m') := strided_test 16 4 0x1000 0x2000 0 (fun _ => 0) in Z.testbit status' 6 = false <-> forall i, 0 <= i < 4 -> load32 m' (0x1000 + 4 * i) = i.
Proof.
  apply (strided_test_sound (H := cpu_mover) 16 4 0x1000 0x2000 0 (fun _ => 0)); [unfold sizes_ok; lia|lia|done|].
  intros m x Hx. apply (cpu_smemcpy_moves 4 4 4 16 0x1000 0x2000 m); [split; lia|intros i Hi; lia].
Defined.
