(* ===== verification/MemApp.v ===== *)
(** The memory test application (test/mem/src/memorytest.c, memory_config_g.c).

    For every memory range of the board the program runs the 32-bit test, a
    fill and a copy; then it tries whether three ranges are aliases of the
    same memory, as the address map of the emulator makes them.  Memory is
    that of MemTest.v, at words of 32 bits, with its fault model; what is
    printed is a list of lines, the times left out. *)
From Stdlib Require Import Ascii.
From S2P Require Import Prelude Device Bytes Parser MemTest.
Open Scope Z_scope.

(** * Ranges *)

(* @src test/mem/src/memory_config.h 36-41 struct memory_range_s *)
Record memory_range_s := { name : string; ip : string; base : Z; size : Z }.

(** The ranges of the board file, each with its first and last address. *)
(* @src test/mem/src/memory_config_g.c 6-62 memory_ranges *)
Definition memory_ranges (ddr0 ddr1 shim : option (Z * Z)) : list memory_range_s :=
  let sz r := u64 (snd r - fst r + 1) in
  let DDR1_SZ r := match shim with Some s => sz s | None => sz r end in
  match ddr0 with Some r => [{| name := "psu_ddr_0_MEM_0"; ip := "psu_ddr_0"; base := fst r; size := sz r |}] | None => [] end
  ++ match ddr1 with Some r => [{| name := "psu_ddr_1_MEM_0"; ip := "psu_ddr_1"; base := fst r; size := DDR1_SZ r |}] | None => [] end
  ++ match shim with Some r => [{| name := "axi_shim_0_mem0"; ip := "axi_shim_0"; base := fst r; size := sz r |}] | None => [] end.

(** * Numbers *)

(* @src test/mem/src/memorytest.c 73-74 CEIL, FLOOR *)
Definition CEIL (n s : Z) : Z := u64 (u64 (n + (s - 1)) / s * s).
Definition FLOOR (n s : Z) : Z := n / s * s.

(* @src test/mem/src/memorytest.c 71-71 ALIGN_SZ *)
Definition ALIGN_SZ : Z := 64.

(** The nibbles from number [cnt - 1] down. *)
(* @src test/mem/src/memorytest.c 112-121 while (cnt) *)
Fixpoint putnibbles (cnt : nat) (num : Z) : list Z :=
  match cnt with
  | O => []
  | S cnt' =>
      let digit := Z.land (Z.shiftr num (Z.of_nat cnt' * 4)) 0xF in
      (if digit <? 10 then digit + 48 else digit - 10 + 65) :: putnibbles cnt' num
  end.

(** [long_bytes]: the bytes of an [unsigned long]. *)
(* @src test/mem/src/memorytest.c 106-122 putnum *)
Definition putnum (long_bytes num : Z) : list Z :=
  let cnt := Z.shiftl long_bytes 1 in
  putnibbles (Z.to_nat (if 10 <? cnt then 10 else cnt)) num.

(** * Tests of a range *)

(** What is printed: a word, or a number. *)
Inductive printed := Text (s : string) | Num (digits : list Z).

Section App.
Context `{Faults}.
Context (long_bytes : Z).

(** Where [memset] starts and how much it fills. *)
(* @src test/mem/src/memorytest.c 129-147 test_memset *)
Definition test_memset (ptr sz : Z) : io cells (Z * Z) :=
  let ptr := CEIL ptr ALIGN_SZ in
  let sz := FLOOR sz ALIGN_SZ in
  _ ← for_range (sz / 4) (fun i => wr 32 (at_ 32 ptr i) 0xFFFFFFFF);
  mret (ptr, sz).

(** Destination, source and size of the copy. *)
(* @src test/mem/src/memorytest.c 149-169 test_memcpy *)
Definition test_memcpy (ptr sz : Z) : io cells (Z * Z * Z) :=
  let sz := FLOOR (sz / 2) ALIGN_SZ in
  let src := CEIL ptr ALIGN_SZ in
  let dst := src + sz in
  _ ← for_range (sz / 4) (fun i => v ← rd 32 (at_ 32 src i); wr 32 (at_ 32 dst i) v);
  mret (dst, src, sz).

(* @src test/mem/src/memorytest.c 60-60 MAX_SIZE *)
Definition MAX_SIZE : Z := 16 * 2 ^ 30.

(* @src test/mem/src/memorytest.c 171-208 test_memory_range *)
Definition test_memory_range (range : memory_range_s) : io cells (list printed) :=
  let test_size := if MAX_SIZE <? size range then MAX_SIZE else size range in
  '(status, _) ← Xil_TestMem32l (base range) (Z.to_nat (test_size / 4)) 0xAAAA5555 XIL_TESTMEM_INVERSEADDR;
  _ ← test_memset (base range) test_size;
  _ ← test_memcpy (base range) test_size;
  mret [Text (name range); Text (ip range); Num (putnum long_bytes (base range)); Num (putnum long_bytes (size range));
        Text (if status =? 0 then "PASSED!" else "FAILED!")].

(** * The alias test *)

(** [pb[i+0x20000000]], two gigabytes further. *)
Definition HIGH : Z := 0x20000000.

(* @src test/mem/src/memorytest.c 227-233 for (i = 0; i < 64; i++) *)
Definition alias_fill (pa pb pc : Z) : io cells unit :=
  for_range 64 (fun i =>
    _ ← wr 32 (at_ 32 pb i) 0;
    _ ← wr 32 (at_ 32 pc i) 0;
    _ ← wr 32 (at_ 32 pb (i + HIGH)) (Z.lnot i);
    _ ← wr 32 (at_ 32 pc (i + HIGH)) (Z.lnot i);
    wr 32 (at_ 32 pa i) i).

(** [err |= p[i] != q[i] || q[i] != i], with [off] added to the index. *)
(* @src test/mem/src/memorytest.c 239-239 errb *)
Definition alias_check (p q off : Z) (m : cells) : bool :=
  let word a := fst (rd 32 a m) in
  differs 64 (fun i => negb (word (at_ 32 p (i + off)) =? word (at_ 32 q (i + off))) || negb (word (at_ 32 q (i + off)) =? u32 i)).

(* @src test/mem/src/memorytest.c 244-248 for (i = 0; i < 64; i++) *)
Definition alias_refill (pa pb pc : Z) : io cells unit :=
  for_range 64 (fun i =>
    _ ← wr 32 (at_ 32 pa i) 0;
    _ ← wr 32 (at_ 32 pb (i + HIGH)) 0;
    wr 32 (at_ 32 pc (i + HIGH)) i).

(* @src test/mem/src/memorytest.c 210-257 test_alias *)
Definition test_alias (ranges : list memory_range_s) : io cells (list printed) :=
  match map base ranges with
  | pa :: pb :: pc :: _ =>
      _ ← alias_fill pa pb pc;
      errb ← gets (alias_check pa pb 0);
      errc ← gets (alias_check pa pc 0);
      _ ← alias_refill pa pb pc;
      errbh ← gets (alias_check pc pb HIGH);
      let error (e : bool) a := if e then [Text "Error at 0x"; Num (putnum long_bytes a)] else [] in
      mret ([Text "Testing memory alias:"] ++ error errb pb ++ error errc pc ++ error errbh (at_ 32 pb HIGH)
            ++ (if errb || errc || errbh then [] else [Text "Alias OK"]))
  | _ => mret [Text "Skipping memory alias test."]
  end.

(** * The program *)

Fixpoint test_ranges (ranges : list memory_range_s) : io cells (list printed) :=
  match ranges with
  | [] => mret []
  | r :: ranges => l ← test_memory_range r; l' ← test_ranges ranges; mret (l ++ l')
  end.

(** [sar] are the values of the four address remapping registers. *)
(* @src test/mem/src/memorytest.c 259-288 main *)
Definition main (ranges : list memory_range_s) (sar : list Z) : io cells (list printed) :=
  l ← test_ranges ranges;
  l' ← test_alias ranges;
  mret (map (fun v => Num (putnum long_bytes v)) sar ++ l ++ l').
End App.
