(* ===== verification/MemAppProofs.v ===== *)
(** The memory test application: numbers, ranges, aliases, the whole run. *)
From S2P Require Import Prelude Device Bytes Parser MemTest MemTestProofs MemApp.
Open Scope Z_scope.

(** * Numbers *)

(** The value of printed nibbles. *)
Definition unhex (c : Z) : Z := if c <? 58 then c - 48 else c - 55.
Definition hex_value (l : list Z) : Z := fold_left (fun a c => a * 16 + unhex c) l 0.

Lemma putnibbles_value n num : forall acc, 0 <= num ->
  fold_left (fun a c => a * 16 + unhex c) (putnibbles n num) acc = acc * 16 ^ Z.of_nat n + num mod 16 ^ Z.of_nat n.
Proof.
  induction n as [|n IH]; intros acc Hn; [rewrite Z.mod_1_r; simpl; lia|]. cbn [putnibbles fold_left]. rewrite IH by done.
  set (d := Z.land (Z.shiftr num (Z.of_nat n * 4)) 15).
  assert (Hd : d = num / 16 ^ Z.of_nat n mod 16).
  { unfold d. change 15 with (Z.ones 4). rewrite Z.land_ones, Z.shiftr_div_pow2 by lia.
    assert (H16 : 16 ^ Z.of_nat n = 2 ^ (Z.of_nat n * 4)) by (change 16 with (2 ^ 4); rewrite <- Z.pow_mul_r by lia; f_equal; lia). by rewrite H16. }
  assert (Hu : unhex (if d <? 10 then d + 48 else d - 10 + 65) = d).
  { pose proof (Z.mod_pos_bound (num / 16 ^ Z.of_nat n) 16 ltac:(lia)). rewrite <- Hd in *. unfold unhex.
    destruct (Z.ltb_spec d 10); [destruct (Z.ltb_spec (d + 48) 58)|destruct (Z.ltb_spec (d - 10 + 65) 58)]; lia. }
  rewrite Hu, Hd, Nat2Z.inj_succ, Z.pow_succ_r by lia. rewrite (Z.mul_comm 16 (16 ^ _)), Z.rem_mul_r by (try apply Z.pow_nonzero; lia). lia.
Qed.

(** Numbers are shown by their ten last hexadecimal digits. *)
Theorem putnum_value long_bytes num : 5 <= long_bytes -> 0 <= num ->
  length (putnum long_bytes num) = 10%nat /\ hex_value (putnum long_bytes num) = num mod 2 ^ 40.
Proof.
  intros Hl Hn. unfold putnum. rewrite Z.shiftl_mul_pow2 by lia. change (2 ^ 1) with 2.
  assert (E : (if 10 <? long_bytes * 2 then 10 else long_bytes * 2) = 10) by (destruct (Z.ltb_spec 10 (long_bytes * 2)); lia). rewrite E.
  split; [done|]. unfold hex_value. by rewrite putnibbles_value.
Qed.

(** * The ranges that are filled and copied *)

Lemma CEIL_64_spec n s : 0 < s -> 0 <= n -> n + s <= 2 ^ 64 -> n <= CEIL n s < n + s /\ CEIL n s mod s = 0.
Proof.
  intros Hs Hn Hf. unfold CEIL. assert (H1 : u64 (n + (s - 1)) = n + (s - 1)) by (apply wrap_id; split; lia). rewrite H1.
  pose proof (Z.mul_div_le (n + (s - 1)) s ltac:(lia)). pose proof (Z.mod_pos_bound (n + (s - 1)) s ltac:(lia)).
  pose proof (Z.div_mod (n + (s - 1)) s ltac:(lia)).
  rewrite wrap_id by (split; nia). split; [nia|]. apply Z.mod_mul. lia.
Qed.

Lemma FLOOR_spec n s : 0 < s -> 0 <= n -> 0 <= FLOOR n s <= n /\ FLOOR n s mod s = 0.
Proof.
  intros Hs Hn. unfold FLOOR. pose proof (Z.mul_div_le n s ltac:(lia)). pose proof (Z.div_pos n s ltac:(lia) Hs).
  split; [nia|]. apply Z.mod_mul. lia.
Qed.

(** The fill and the copy stay in their range when it is aligned to a cache
    line, and the halves of the copy are disjoint; for another range they pass
    its end by less than a line. *)
Theorem fill_copy_bounds `{Faults} ptr sz m :
  0 <= ptr -> 0 <= sz -> ptr + ALIGN_SZ <= 2 ^ 64 ->
  let '(p, n) := fst (test_memset ptr sz m) in
  let '(dst, src, k) := fst (test_memcpy ptr sz m) in
  (ptr <= p /\ 0 <= n /\ p + n < ptr + sz + ALIGN_SZ /\ (ptr mod ALIGN_SZ = 0 -> p + n <= ptr + sz)) /\
  (ptr <= src /\ src + k = dst /\ dst + k < ptr + sz + ALIGN_SZ /\ (ptr mod ALIGN_SZ = 0 -> dst + k <= ptr + sz)).
Proof.
  intros Hp Hs Hf. unfold test_memset, test_memcpy, mbind, io_bind, mret, io_ret. destruct (for_range _ _ m), (for_range _ _ m). cbn [fst].
  unfold ALIGN_SZ in *. destruct (CEIL_64_spec ptr 64) as [C1 C2]; [lia|lia|lia|].
  destruct (FLOOR_spec sz 64) as [F1 _]; [lia..|]. destruct (FLOOR_spec (sz / 2) 64) as [G1 _]; [lia|div_lia|].
  assert (Hc : ptr mod 64 = 0 -> CEIL ptr 64 = ptr).
  { intros H0. clear -C1 C2 H0. apply Z.mod_divide in H0 as [a ->]; [|lia]. apply Z.mod_divide in C2 as [b Hb]; [|lia]. lia. }
  assert (2 * (sz / 2) <= sz) by (apply Z.mul_div_le; lia).
  split_and!; try lia; intros H0; rewrite (Hc H0); lia.
Qed.

(** * Aliases *)

Section Alias.
Context `{Faults}.

Lemma exec_for {S} (n : nat) (body : Z -> io S unit) : forall i s, exec (for_from i n body) s = turns n i (fun i s => exec (body i) s) s.
Proof.
  induction n as [|n IH]; intros i s; [done|]. cbn [for_from turns]. unfold mbind, io_bind, exec. destruct (body i s) as [[] s1] eqn:E.
  rewrite <- (IH (i + 1)). cbn [snd]. done.
Qed.

Lemma exec_fill pa pb pc m :
  exec (alias_fill pa pb pc) m
  = turns 64 0 (fun i m => upd (decode (at_ 32 pa i)) (wrap 32 i) (upd (decode (at_ 32 pc (i + HIGH))) (wrap 32 (Z.lnot i))
      (upd (decode (at_ 32 pb (i + HIGH))) (wrap 32 (Z.lnot i)) (upd (decode (at_ 32 pc i)) (wrap 32 0) (upd (decode (at_ 32 pb i)) (wrap 32 0) m))))) m.
Proof. unfold alias_fill, for_range. apply exec_for. Qed.

Lemma exec_refill pa pb pc m :
  exec (alias_refill pa pb pc) m
  = turns 64 0 (fun i m => upd (decode (at_ 32 pc (i + HIGH))) (wrap 32 i) (upd (decode (at_ 32 pb (i + HIGH))) (wrap 32 0)
      (upd (decode (at_ 32 pa i)) (wrap 32 0) m))) m.
Proof. unfold alias_refill, for_range. apply exec_for. Qed.

(** The three ranges show the same memory: their first words are the same
    cells, and so are those two gigabytes further in the last two. *)
Record aliased (pa pb pc : Z) : Prop := {
  al_low : forall i, 0 <= i < 64 -> decode (at_ 32 pb i) = decode (at_ 32 pa i) /\ decode (at_ 32 pc i) = decode (at_ 32 pa i);
  al_high : forall i, 0 <= i < 64 -> decode (at_ 32 pb (i + HIGH)) = decode (at_ 32 pc (i + HIGH));
  al_low_distinct : forall i j, 0 <= i < 64 -> 0 <= j < 64 -> decode (at_ 32 pa i) = decode (at_ 32 pa j) -> i = j;
  al_high_distinct : forall i j, 0 <= i < 64 -> 0 <= j < 64 -> decode (at_ 32 pc (i + HIGH)) = decode (at_ 32 pc (j + HIGH)) -> i = j;
  al_apart : forall i j, 0 <= i < 64 -> 0 <= j < 64 -> decode (at_ 32 pa i) <> decode (at_ 32 pc (j + HIGH))
}.

Lemma rd_word a m : (forall a v, disturb a v = v) -> fst (rd 32 a m) = wrap 32 (m (decode a)).
Proof. intros Hd. unfold rd, gets. cbn [fst]. by rewrite Hd. Qed.

Lemma check_ok p q off m : (forall a v, disturb a v = v) ->
  (forall i, 0 <= i < 64 -> m (decode (at_ 32 p (i + off))) = wrap 32 i /\ m (decode (at_ 32 q (i + off))) = wrap 32 i) ->
  alias_check p q off m = false.
Proof.
  intros Hd Hm. unfold alias_check. apply differs_false. intros i Hi. rewrite !rd_word by done. destruct (Hm i Hi) as [-> ->].
  rewrite (wrap_id 32 (wrap 32 i)) by (apply wrap_range; lia). by rewrite !Z.eqb_refl.
Qed.

(** Aliased memory is found to be. *)
Lemma alias_passes long_bytes ranges pa pb pc rest m :
  (forall a v, disturb a v = v) -> map base ranges = pa :: pb :: pc :: rest -> aliased pa pb pc ->
  fst (test_alias long_bytes ranges m) = [Text "Testing memory alias:"; Text "Alias OK"].
Proof.
  intros Hd Hr Ha. unfold test_alias. rewrite Hr. unfold mbind, io_bind, gets, mret, io_ret.
  destruct (alias_fill pa pb pc m) as [[] m1] eqn:E1. destruct (alias_refill pa pb pc m1) as [[] m2] eqn:E2. cbn [fst].
  assert (Hm1 : m1 = exec (alias_fill pa pb pc) m) by (unfold exec; by rewrite E1).
  assert (Hm2 : m2 = exec (alias_refill pa pb pc) m1) by (unfold exec; by rewrite E2).
  rewrite exec_fill in Hm1. rewrite exec_refill in Hm2.
  assert (F1 : forall i, 0 <= i < 64 -> m1 (decode (at_ 32 pa i)) = wrap 32 i).
  { rewrite Hm1. refine (turns_inv0 (fun k m => forall i, 0 <= i < k -> m (decode (at_ 32 pa i)) = wrap 32 i) _ 64 m _ _); [lia|].
    intros k y Hk Hy i Hi. destruct (al_low _ _ _ Ha k Hk) as [-> ->]. rewrite (al_high _ _ _ Ha k Hk).
    destruct (Z.eq_dec i k) as [->|Hne]; [by rewrite upd_eq|].
    assert (Hx : decode (at_ 32 pa k) <> decode (at_ 32 pa i)) by (intros E; apply (al_low_distinct _ _ _ Ha) in E; lia).
    assert (Hy' : decode (at_ 32 pc (k + HIGH)) <> decode (at_ 32 pa i)) by (intros E; by apply (al_apart _ _ _ Ha i k ltac:(lia) Hk)).
    rewrite !upd_ne by done. apply Hy. lia. }
  assert (F2 : forall i, 0 <= i < 64 -> m2 (decode (at_ 32 pc (i + HIGH))) = wrap 32 i).
  { rewrite Hm2. refine (turns_inv0 (fun k m => forall i, 0 <= i < k -> m (decode (at_ 32 pc (i + HIGH))) = wrap 32 i) _ 64 m1 _ _); [lia|].
    intros k y Hk Hy i Hi. rewrite (al_high _ _ _ Ha k Hk). destruct (Z.eq_dec i k) as [->|Hne]; [by rewrite upd_eq|].
    assert (Hx : decode (at_ 32 pc (k + HIGH)) <> decode (at_ 32 pc (i + HIGH))) by (intros E; apply (al_high_distinct _ _ _ Ha) in E; lia).
    assert (Hy' : decode (at_ 32 pa k) <> decode (at_ 32 pc (i + HIGH))) by (apply (al_apart _ _ _ Ha); lia).
    rewrite !upd_ne by done. apply Hy. lia. }
  rewrite (check_ok pa pb 0 m1 Hd), (check_ok pa pc 0 m1 Hd), (check_ok pc pb HIGH m2 Hd); [done|..].
  - intros i Hi. rewrite (al_high _ _ _ Ha i Hi). by rewrite F2.
  - intros i Hi. rewrite Z.add_0_r. destruct (al_low _ _ _ Ha i Hi) as [_ ->]. by rewrite F1.
  - intros i Hi. rewrite Z.add_0_r. destruct (al_low _ _ _ Ha i Hi) as [-> _]. by rewrite F1.
Qed.
End Alias.

(** A range that is not an alias is found: when some word of the second range
    is a cell that the first range and the high windows do not show, the test
    reports that range. *)
Theorem alias_detects `{Faults} long_bytes ranges pa pb pc rest m i :
  (forall a v, disturb a v = v) -> map base ranges = pa :: pb :: pc :: rest -> 0 < i < 64 ->
  (forall j, 0 <= j < 64 -> decode (at_ 32 pb i) <> decode (at_ 32 pa j) /\ decode (at_ 32 pb i) <> decode (at_ 32 pb (j + HIGH)) /\
    decode (at_ 32 pb i) <> decode (at_ 32 pc (j + HIGH))) ->
  exists l, fst (test_alias long_bytes ranges m) = [Text "Testing memory alias:"; Text "Error at 0x"; Num (putnum long_bytes pb)] ++ l.
Proof.
  intros Hd Hr Hi Hap. unfold test_alias. rewrite Hr. unfold mbind, io_bind, gets, mret, io_ret.
  destruct (alias_fill pa pb pc m) as [[] m1] eqn:E1. destruct (alias_refill pa pb pc m1) as [[] m2]. cbn [fst].
  assert (Hm1 : m1 = exec (alias_fill pa pb pc) m) by (unfold exec; by rewrite E1). rewrite exec_fill in Hm1.
  assert (F : m1 (decode (at_ 32 pb i)) = wrap 32 0).
  { rewrite Hm1. refine (turns_inv0 (fun k m => i < k -> m (decode (at_ 32 pb i)) = wrap 32 0) _ 64 m _ _ _); [lia| |lia].
    intros k y Hk Hy Hik. destruct (Hap k Hk) as (A1 & A2 & A3). rewrite (upd_ne (decode (at_ 32 pa k))), (upd_ne (decode (at_ 32 pc (k + HIGH)))),
      (upd_ne (decode (at_ 32 pb (k + HIGH)))) by congruence.
    unfold upd. destruct (Z.eqb_spec (decode (at_ 32 pc k)) (decode (at_ 32 pb i))); [done|].
    destruct (Z.eqb_spec (decode (at_ 32 pb k)) (decode (at_ 32 pb i))) as [|Hne]; [done|]. apply Hy. destruct (Z.eq_dec i k) as [->|]; [done|lia]. }
  assert (Hc : alias_check pa pb 0 m1 = true).
  { apply not_false_iff_true. unfold alias_check. rewrite differs_false. intros Hf. specialize (Hf i ltac:(lia)). apply orb_false_iff in Hf as [_ Hf].
    rewrite rd_word, Z.add_0_r, F in Hf by done. apply negb_false_iff, Z.eqb_eq in Hf. change (wrap 32 (wrap 32 0)) with 0 in Hf. rewrite (wrap_id 32 i) in Hf by (split; lia). lia. }
  rewrite Hc. eexists. reflexivity.
Qed.

(** * The program *)

(** The lines of a range that passed. *)
Definition passed_lines (long_bytes : Z) (r : memory_range_s) : list printed :=
  [Text (name r); Text (ip r); Num (putnum long_bytes (base r)); Num (putnum long_bytes (size r)); Text "PASSED!"].

(** The words of a range that are tested. *)
Definition tested_words (r : memory_range_s) : Z := Z.min (size r) MAX_SIZE / 4.

Lemma range_passes `{Faults} long_bytes r m :
  (forall a v, disturb a v = v) -> 0 <= size r -> distinct 32 (base r) (Z.max 32 (tested_words r)) ->
  fst (test_memory_range long_bytes r m) = passed_lines long_bytes r.
Proof.
  intros Hd Hs Hdist. unfold test_memory_range.
  assert (Hsz : (if MAX_SIZE <? size r then MAX_SIZE else size r) = Z.min (size r) MAX_SIZE) by (destruct (Z.ltb_spec MAX_SIZE (size r)); lia).
  rewrite Hsz. fold (tested_words r). assert (Hw : 0 <= tested_words r) by (unfold tested_words, MAX_SIZE; apply Z.div_pos; lia).
  destruct (test_words_pass 32 ltac:(right; by right) Hd 0xDEADBEEF (base r) (Z.to_nat (tested_words r)) 0xAAAA5555 XIL_TESTMEM_INVERSEADDR) with m as [m' Hm];
    [by rewrite Z2Nat.id|by vm_compute|by vm_compute|].
  pose proof (entry32 (base r) (Z.to_nat (tested_words r)) 0xAAAA5555 XIL_TESTMEM_INVERSEADDR m None m' Hm) as He.
  unfold mbind, io_bind, mret, io_ret. destruct (Xil_TestMem32l _ _ _ _ m) as [[status l] m1]. cbn in He. subst status.
  destruct (test_memset _ _ m1) as [? m2], (test_memcpy _ _ m2). done.
Qed.

Lemma ranges_pass `{Faults} long_bytes ranges : (forall a v, disturb a v = v) ->
  Forall (fun r => 0 <= size r /\ distinct 32 (base r) (Z.max 32 (tested_words r))) ranges ->
  forall m, fst (test_ranges long_bytes ranges m) = concat (map (passed_lines long_bytes) ranges).
Proof.
  intros Hd. induction 1 as [|r ranges [Hs Hr] _ IH]; intros m; [done|]. cbn [test_ranges]. unfold mbind, io_bind, mret, io_ret.
  pose proof (range_passes long_bytes r m Hd Hs Hr) as E. destruct (test_memory_range long_bytes r m) as [l m1]. cbn [fst] in E. subst l.
  specialize (IH m1). destruct (test_ranges long_bytes ranges m1) as [l' m2]. cbn [fst] in *. by subst l'.
Qed.

(** C34: The whole program on working memory whose three ranges are aliases: every
    range passes and the aliases are found. *)
Theorem application_passes `{Faults} long_bytes ranges sar pa pb pc rest m :
  (forall a v, disturb a v = v) -> map base ranges = pa :: pb :: pc :: rest -> aliased pa pb pc ->
  Forall (fun r => 0 <= size r /\ distinct 32 (base r) (Z.max 32 (tested_words r))) ranges ->
  fst (main long_bytes ranges sar m)
  = map (fun v => Num (putnum long_bytes v)) sar ++ concat (map (passed_lines long_bytes) ranges) ++ [Text "Testing memory alias:"; Text "Alias OK"].
Proof.
  intros Hd Hr Ha Hf. unfold main, mbind, io_bind, mret, io_ret.
  pose proof (ranges_pass long_bytes ranges Hd Hf m) as E. destruct (test_ranges long_bytes ranges m) as [l m1]. cbn [fst] in E. subst l.
  pose proof (alias_passes long_bytes ranges pa pb pc rest m1 Hd Hr Ha) as E. destruct (test_alias long_bytes ranges m1) as [l' m2]. cbn [fst] in E. by subst l'.
Qed.

(** * Examples *)

(** A board whose three ranges decode the same four gigabytes. *)
Definition four_gig : Faults := {| decode a := a mod 2 ^ 32; disturb _ v := v |}.
Definition board_ranges : list memory_range_s :=
  memory_ranges (Some (0, 2 ^ 31 - 1)) (Some (2 ^ 35, 2 ^ 35 + 2 ^ 32 - 1)) (Some (2 ^ 36, 2 ^ 36 + 2 ^ 32 - 1)).

Lemma four_gig_aliased : aliased (H := four_gig) 0 (2 ^ 35) (2 ^ 36).
Proof.
  assert (Hm : forall k i, 0 <= i < 2 ^ 32 -> (k * 2 ^ 32 + i) mod 2 ^ 32 = i) by (intros k i Hi; rewrite Z.add_comm, Z.mod_add by lia; by apply Z.mod_small).
  split; unfold decode, four_gig, at_, HIGH; change (32 / 8) with 4; intros i.
  - intros Hi. rewrite (Hm 8), (Hm 16), (Hm 0) by lia. done.
  - intros Hi. rewrite (Hm 8), (Hm 16) by lia. done.
  - intros j Hi Hj. rewrite !(Hm 0) by lia. lia.
  - intros j Hi Hj. rewrite !(Hm 16) by lia. lia.
  - intros j Hi Hj. rewrite (Hm 0), (Hm 16) by lia. lia.
Qed.

Lemma four_gig_distinct b n : b mod 2 ^ 32 = 0 -> n <= 2 ^ 30 -> distinct (H := four_gig) 32 b n.
Proof.
  intros Hb Hn i j Hi Hj. unfold decode, four_gig, at_. change (32 / 8) with 4. rewrite !(Z.add_mod b) by lia. rewrite Hb, !Z.add_0_l, !Z.mod_mod by lia.
  rewrite !Z.mod_small by lia. lia.
Qed.

Lemma putnum_value_witness : hex_value (putnum 8 0x123456789AB) = 0x23456789AB.
Proof. rewrite (proj2 (putnum_value 8 0x123456789AB ltac:(lia) ltac:(lia))). reflexivity. Defined.

Lemma fill_copy_bounds_witness : let '(p, n) := fst (test_memset (H := working) 128 200 (fun _ => 0)) in p + n <= 328.
Proof.
  pose proof (fill_copy_bounds (H := working) 128 200 (fun _ => 0) ltac:(lia) ltac:(lia) ltac:(unfold ALIGN_SZ; lia)) as Hb.
  destruct (fst (test_memset _ _ _)) as [p n], (fst (test_memcpy _ _ _)) as [[dst src] k]. destruct Hb as [(_ & _ & _ & Hb) _]. apply Hb. reflexivity.
Defined.

Lemma application_passes_witness :
  fst (main (H := four_gig) 8 board_ranges [0; 0; 0; 0] (fun _ => 7))
  = map (fun v => Num (putnum 8 v)) [0; 0; 0; 0] ++ concat (map (passed_lines 8) board_ranges) ++ [Text "Testing memory alias:"; Text "Alias OK"].
Proof.
  apply (application_passes (H := four_gig) 8 board_ranges [0; 0; 0; 0] 0 (2 ^ 35) (2 ^ 36) [] (fun _ => 7));
    [done|reflexivity|exact four_gig_aliased|].
  repeat (apply Forall_cons; split; [split; [vm_compute; discriminate|apply four_gig_distinct; [reflexivity|vm_compute; discriminate]]|]). by apply Forall_nil.
Defined.

(** A board without aliases. *)
Lemma alias_detects_witness : exists l,
  fst (test_alias (H := working) 8 board_ranges (fun _ => 7)) = [Text "Testing memory alias:"; Text "Error at 0x"; Num (putnum 8 (2 ^ 35))] ++ l.
Proof.
  apply (alias_detects (H := working) 8 board_ranges 0 (2 ^ 35) (2 ^ 36) [] (fun _ => 7) 1); [done|reflexivity|lia|].
  intros j Hj. unfold decode, working, at_, HIGH. change (32 / 8) with 4. lia.
Defined.
